(* ===== verification/_CoqProject ===== *)
-Q . S2P
Prelude.v
Text.v
Protocol.v
Coordinator.v
CoordinatorClock.v
CoordinatorInv.v
CoordinatorSpec.v
CoordinatorSteps.v
CoordinatorAssign.v
CoordinatorRun.v
CoordinatorDemo.v
CoordinatorProps.v
Memory.v
Cancellation.v
Metrics.v
BlockStore.v
BlockStoreProps.v
Float.v
Expr.v
ExprProps.v
Logical.v
Optimizer.v
SchemaProps.v
OptimizerProps.v
Catalog.v
Physical.v
PhysicalProps.v
Execution.v
ExecutionDemo.v
HashJoin.v
Aggregate.v
AggregateProps.v
Executor.v
ExecutorCancel.v
ExecutorProps.v
OperatorProps.v
ScanProps.v
OperatorDemo.v
PlanRun.v
OptimizerSound.v
Pruning.v
PruningProps.v
FileTables.v
FileTablesProps.v
HashExchange.v
HashExchangeProps.v
PlanCodec.v
PlanCodecProps.v
Distributed.v
DistributedProps.v
Sql.v
SqlProps.v
SqlRun.v
Stages.v
StagesProps.v
LocalCluster.v
LocalClusterProps.v
ClusterRefines.v
LocalClusterDemo.v
Wire.v
DataPlane.v
DataPlaneProps.v
ControlPlane.v
ControlPlaneProps.v
Worker.v
Task.v
WorkerOwns.v
WorkerSystem.v
WorkerSystemProps.v
WorkerDemo.v
TaskProps.v
TaskDemo.v
Servers.v
Remote.v
RemoteProps.v
RemoteResult.v
SessionRun.v
SessionRunProps.v
SessionDemo.v
Programs.v
