(* ===== verification/Prelude.v ===== *)
(** * SparkX: a verification library for the distributed query engine

    SparkX plans SQL queries, runs them on one node or on a cluster, and moves
    intermediate results between workers as immutable blocks.  This library
    translates the parts that decide what a query returns and what the cluster
    does (source paths below are relative to [src/src/]) and proves them correct.

    ** The program

    - [cluster/coordinator.rs] schedules the stages of a query on workers with
      leases, heartbeats, bounded retries and cancellation; [cluster/protocol.rs]
      defines and validates the messages it exchanges with workers.
    - [cluster/block_store.rs] keeps shuffle blocks in memory or on disk;
      [cluster/data_plane.rs] serves them to other workers.
    - [cluster/control_plane.rs] puts the coordinator behind Arrow Flight actions;
      [cluster/worker.rs] is the worker that registers there, polls for tasks, runs
      them and uploads their output; [cluster/remote.rs] is the driver that submits
      the stages of a query, waits for them and fetches the result.
    - [runtime/memory.rs] accounts for the memory of blocking operators with
      atomics shared between tasks; [runtime/cancellation.rs] is the signal that stops
      them, [runtime/metrics.rs] counts what they do.
    - [query/expr.rs] resolves names, infers types, simplifies and evaluates
      expressions; [query/logical.rs] builds checked plans, [query/optimizer.rs]
      rewrites them, [query/planner.rs] turns them into physical plans.
    - [query/session.rs] translates SQL to logical plans and runs them: in one process,
      on the in-process cluster, or as stages on remote workers.
    - [runtime/execution.rs] and [runtime/row_key.rs] execute physical plans;
      [storage/catalog.rs] names the tables they read, in memory or in CSV and Parquet
      files, [storage/pruning.rs] skips row groups by their statistics.
    - [cluster/distributed.rs] and [cluster/join.rs] split plans into stages,
      [cluster/plan_codec.rs] moves fragments between processes and
      [cluster/hash_exchange.rs] routes rows between stages; [cluster/flight_exchange.rs]
      is the exchange of the in-process cluster.
    - [bin/] has the three programs: the command line of a session, a worker and a
      coordinator.

    ** The files

    - [Prelude]: [Result] with panics as a third outcome ([error.rs]), the
      notations for methods that take [&mut self], fixed-width integers,
      [BTreeMap] iteration order, sums over maps, tactics and the hint database.
    - [Text], [Float]: Rust string operations on UTF-8 bytes and IEEE 754
      arithmetic on bit patterns.
    - [Protocol]: every message type and [validate] function of [protocol.rs].
      The plan codec they call is the class [PlanFragments].
    - [Coordinator]: the state [Coordinator] and one definition per method, with
      the state a failing call leaves.  [CoordinatorClock] (time), [CoordinatorInv]
      (the invariant), [CoordinatorSpec] (the life cycle of a partition),
      [CoordinatorSteps], [CoordinatorAssign] (one lemma per method),
      [CoordinatorRun] (sequences of calls, and what a call leaves alone), [CoordinatorDemo] (a worked cluster), [CoordinatorProps] (the theorems).
    - [Memory]: [QueryMemory] and [MemoryReservation] as a step relation whose
      steps are the atomic accesses of any number of concurrent holders;
      [Cancellation]: tokens in the same way; [Metrics]: the counters, call by call.
    - [BlockStore]: both stores, the disk one over an explicit directory with a
      possible fault at every file operation; [BlockStoreProps]: the class
      [BlockStorage] of stores with their contract, and its two instances.
    - [Expr]: expressions over arrays whose kernels are the class [Kernels];
      [ExprProps] (typing, simplification and the order of values), [SchemaProps] (name resolution).
    - [Logical], [Optimizer], [OptimizerProps]: plans and rewriting.
    - [Catalog], [Physical], [PhysicalProps]: tables, physical plans, the planner, and
      the text of both kinds of plans.
    - [Execution], [HashJoin]: streams of batches, scan, filter, projection,
      limit and the hash join; [Aggregate], [AggregateProps]: hash aggregation;
      [ExecutionDemo]: concrete instances for the worked examples.
    - [Executor]: sort, top-k and the execution of whole plans; [ExecutorProps],
      [OperatorProps], [ScanProps]: streams that agree, operator by operator;
      [OperatorDemo]: batches and a sort with the laws they rely on; [PlanRun]:
      the stream of a logical plan; [OptimizerSound]: every pass of the optimizer
      keeps it; [ExecutorCancel]: the output of an operator as it is counted and cut off.
    - [Wire]: JSON, Flight statuses and the fate of a call, shared by both planes.
    - [DataPlane], [DataPlaneProps]: the Flight service over a block store and its
      client, against [BlockStoreProps.BlockStorage], with lost calls.
    - [ControlPlane], [ControlPlaneProps]: the actions around the
      coordinator, with the queues of cancellations, and the typed client.
    - [Worker]: the loop of a worker as a machine that makes one call at a time and
      goes on with its answer.  [Task]: a task from the download of its inputs to the
      upload of its output; [TaskProps], [TaskDemo]: what it reads, what
      it reports and what it leaves behind.  [WorkerOwns]: what a worker
      holds at the coordinator and what the coordinator answers; [WorkerSystem],
      [WorkerSystemProps], [WorkerDemo]: a worker with its coordinator and anyone
      else, as a step relation with its invariant.
    - [Remote], [RemoteProps], [RemoteResult]: the driver as a program
      over a world of one control plane and many stores in which others act between
      any two of its calls; a call takes any time, and the [select] around a run and the
      timeouts of the cleanup cut it off.
    - [Servers]: the Flight services call by call, the binding, addresses and end of
      their servers, the start and end of a worker, and the loopback exchange.
    - [Pruning], [PruningProps]: tests of row-group statistics; [FileTables],
      [FileTablesProps]: CSV and Parquet tables, and scans that skip row groups.
    - [HashExchange], [HashExchangeProps]: repartitioning of a task's output.
    - [PlanCodec], [PlanCodecProps]: the wire form of plans over an abstract
      Protobuf, and the instance of [PlanFragments] it gives the protocol.
    - [Distributed], [DistributedProps]: partial and final aggregation.
    - [Sql], [SqlProps]: the translation of SQL syntax trees, and the pipeline from
      SQL to a physical plan; [SqlRun]: that what it plans can run.
    - [Stages], [StagesProps]: the stages of remote queries, against the
      coordinator that schedules them.
    - [LocalCluster], [LocalClusterProps], [LocalClusterDemo]: the in-process cluster,
      a private coordinator with its scheduling loop and an exchange as a class
      parameter; the invariant of the loop, and a run.  [ClusterRefines]: its answer
      against the executor of one node.
    - [SessionRun], [SessionRunProps], [SessionDemo]: the methods of a session that run a
      query, in this process or on remote workers, and what they answer.
    - [Programs]: what the programs do with their arguments and what they print.

    ** What the theorems show

    - Coordinator (C1-C4, C6-C8, C11, C13): for every sequence of calls and every plan
      codec, the state stays well formed and no call panics; a partition only moves
      along its specified life cycle, under unique and bounded attempts; an assignment
      carries exactly the committed inputs; work that can be assigned is assigned;
      failing calls change nothing but the passage of time; cancellation is final.
      ([CoordinatorProps] shows as well that dependencies cannot deadlock, slots are
      never oversubscribed, committed output is stable, lost attempts are fenced and
      leases are not stale.)
    - Cancellation (C9): no waiter misses a cancellation and none is woken without one.
    - Tasks (C5, C12, C18): a task reads exactly the outputs of its dependencies, what
      it reports is what the coordinator accepts, and one that fails leaves no block.
    - Workers (C14, C17): a worker discards no committed block and is never refused.
    - Remote queries (C10, C24): a query in SQL on workers returns, within its retries and
      at the latest two seconds after its timeout, every retry under an identity of its
      own, and what it returns is the committed output of its final stage.
    - Control plane (C16): a call over the wire is the typed call or a loss.
    - Memory (C15): under every interleaving the budget holds.  ([Memory] shows as well
      that releases never wrap and reservations are decided correctly.)
    - Block stores (C19-C21): the disk store is a write-once map, as the memory store is
      ([BlockStoreProps.memory_store_write_once]); a failed insert changes nothing that
      is listed, provided its test for an existing file can be trusted; reopening recovers
      the blocks.
    - Expressions (C22-C23): evaluation agrees with inferred types, but for arithmetic on
      two operands of one narrow type; simplification keeps values, but for columns of
      type [Null] and aliases below the root.
    - Data plane (C25): over either store, an uploaded block stays as it arrived,
      whatever other clients do short of deleting it, and what a download returns has its
      schema, rows, bytes and checksum.
    - Execution (C26-C29): the hash join is the nested-loop join; hash aggregation
      groups by key and its functions compute what they name, on values of any type.
    - Parquet (C30): a scan that skips row groups loses no row, for columns of any type,
      but for names that differ in case only and float literals.
    - Cancelled executions (C31): a cancelled query returns all of its result or none;
      [SessionRunProps.session_cancelled_whole] says so of a session.
    - Exchange (C32): joins may run destination by destination.
      ([HashExchangeProps.repartition_routes_rows] shows that repartitioning loses,
      duplicates and misroutes nothing.)
    - Plan codec (C33-C34): fragments round trip, and workers only run typed plans.
    - Local cluster (C35): a distributed aggregation returns, with every partition in its
      answer at most once, and exactly once when the exchange splits no batch.
    - Distribution (C36): then an aggregation of COUNT, MIN and MAX answers what one node
      answers under some schedule of its scans.
    - SQL (C37-C38): on one node a session answers a query over honest tables as it is
      written; planning never panics and
      returns well-formed plans, and the whole pipeline keeps the columns of the query and
      ends in a typed plan.
    - Stages (C39): a coordinator accepts the stages of every planned query that keeps its
      partition limit.
    - Results (C40): an optimized query over honest tables returns the values of the query
      as written.

    An honest table ([ScanProps.honest]) has nullable columns of the native types
    (Boolean, Int64, UInt64, Float64, Utf8) under clean names, no pruning statistics, and
    delivers columns in the order they are asked for: tables in memory with such columns,
    not Parquet files.  C26, C27, C36, C37 and C40 are over columns of native types; C22,
    C23 and C30 are not limited to them.

    Examples record behaviour that contradicts the evident intent of the code:
    [ExprProps.narrow_sum_type_mismatch], [ExprProps.null_column_simplifies_to_null],
    [OptimizerProps.optimize_rejects_valid_query],
    [OptimizerProps.aggregate_column_name_garbled],
    [BlockStoreProps.remove_sync_failure_loses_block],
    [BlockStoreProps.insert_sync_failure_blocks_ticket],
    [BlockStoreProps.long_ticket_blocks_reopen],
    [BlockStoreProps.exists_failure_overwrites_block], [DataPlaneProps.intact_block_rejected],
    [PruningProps.pruning_ignores_case], [PruningProps.pruning_loses_nan_and_zero],
    [PlanCodecProps.nested_alias_fragment_panics],
    [DistributedProps.limit_below_aggregate_miscounts],
    [DistributedProps.merged_unsigned_sum_of_nothing],
    [SqlProps.aliased_group_column_rejected], [SqlProps.aggregate_in_where_planned],
    [SqlProps.having_ignored], [LocalClusterDemo.split_batches_lose_a_partition],
    [WorkerDemo.lost_answer_discards_committed], [TaskDemo.cut_upload_leaks],
    [FileTablesProps.parquet_column_order], [FileTablesProps.pruning_error_lost], [Programs.register_replaces_table].

    ** Bounds

    Recursion is structural, over lists, plans or expressions, but for the two loops
    of [LocalCluster], where [assign_all] has fuel, one more than there are partitions,
    and [local_loop] consumes an event per finished task, and the polls of [Remote],
    which have [poll_rounds], two more than the poll intervals in a timeout; all are
    proved to be enough.  The loop of a worker is a step relation, for any
    number of steps.
    [u32], [u64] and [usize] are [N] with their maxima, [i64] and
    [i128] are [Z]; overflow is an error, a saturation, a wrap-around or a panic
    as in the source.  A retry loop on a contended atomic is a step that may
    repeat.

    ** What is not modelled

    Arrow, Parquet, the row format, IPC, Protobuf and JSON encodings, the SQL
    parser, CRC32 and the file system are parameters with their documented
    behaviour as class laws.  Not modelled: the parsing of command lines, and which calls
    of [Metrics] the scans and tasks make, the counters of a query being an argument of
    the sessions that report them.
    Arrow schemas have no metadata here.
    Outside [Cancellation] a token is what the code sees of it where it looks.  In [Executor] and
    [LocalCluster] the order in which tasks deliver or finish and the memory other
    operators hold are arguments, so a theorem about them is for every schedule;
    in [ExecutorCancel] the place where an operator notices a cancellation is one too, while
    the tasks of the in-process cluster are not cancelled. *)
From stdpp Require Export base tactics list gmap strings pretty sorting numbers.


Declare Scope rust_scope.
Delimit Scope rust_scope with rust.

(** ** Errors and results ([src/error.rs])

    [SparkXError] keeps the source's variants; the four that wrap a
    third-party error carry that error's rendered text. *)

Inductive SparkXError :=
| Arrow (message : string)
| Parquet (message : string)
| Io (message : string)
| Sql (message : string)
| Planning (message : string)
| Execution (message : string)
| Unsupported (message : string)
| Protocol (message : string)
| Transport (message : string)
| NotFound (message : string)
| ResourceExhausted (message : string)
| TaskSuperseded
| Cancelled
| ChannelClosed.

#[export] Instance SparkXError_eq_dec : EqDecision SparkXError.
Proof. solve_decision. Defined.

(** The [Display] text of an error. *)
Definition display_error (e : SparkXError) : string :=
  match e with
  | Arrow m => "Arrow error: " +:+ m
  | Parquet m => "Parquet error: " +:+ m
  | Io m => "I/O error: " +:+ m
  | Sql m => "SQL parse error: " +:+ m
  | Planning m => "planning error: " +:+ m
  | Execution m => "execution error: " +:+ m
  | Unsupported m => "unsupported operation: " +:+ m
  | Protocol m => "protocol error: " +:+ m
  | Transport m => "transport error: " +:+ m
  | NotFound m => "resource not found: " +:+ m
  | ResourceExhausted m => "resource exhausted: " +:+ m
  | TaskSuperseded => "task attempt was superseded"
  | Cancelled => "query was cancelled"
  | ChannelClosed => "operator channel closed unexpectedly"
  end.

(** The outcome of a Rust call: [Result<A, SparkXError>], or a panic
    ([expect], an index out of range, an arithmetic overflow with checks on).
    A panic is a separate outcome, so that its absence is a theorem and not an
    artefact of the translation. *)

Inductive result (A : Type) :=
| Ok (a : A)
| Err (e : SparkXError)
| Panic (why : string).

Arguments Ok {A} a.
Arguments Err {A} e.
Arguments Panic {A} why.

#[export] Instance result_ret : MRet result := λ A a, Ok a.
#[export] Instance result_bind : MBind result := λ A B f r,
  match r with Ok a => f a | Err e => Err e | Panic w => Panic w end.
#[export] Instance result_fmap : FMap result := λ A B f r,
  match r with Ok a => Ok (f a) | Err e => Err e | Panic w => Panic w end.

Definition is_ok {A} (r : result A) : bool :=
  match r with Ok _ => true | _ => false end.

Definition no_panic {A} (r : result A) : Prop :=
  match r with Panic _ => False | _ => True end.

(** [option.ok_or(e)] *)
Definition ok_or {A} (o : option A) (e : SparkXError) : result A :=
  match o with Some a => Ok a | None => Err e end.

(** [option.expect(why)] *)
Definition expect {A} (o : option A) (why : string) : result A :=
  match o with Some a => Ok a | None => Panic why end.

(** [iter.map(f).collect::<Result<Vec<_>>>()]: the first failure wins. *)
Fixpoint collect {A B} (f : A → result B) (l : list A) : result (list B) :=
  match l with
  | [] => Ok []
  | x :: l => y ← f x; ys ← collect f l; Ok (y :: ys)
  end.

(** [for x in l { f(x)?; }] *)
Fixpoint for_each {A} (f : A → result unit) (l : list A) : result unit :=
  match l with
  | [] => Ok tt
  | x :: l => _ ← f x; for_each f l
  end.

(** A [?] inside a method that takes [&mut self]: the state reached so far is
    kept when the call fails. *)
Notation "'propagate' x ':=' r 'keeping' s 'in' k" :=
  (match r with
   | Ok x => k
   | Err e => (Err e, s)
   | Panic w => (Panic w, s)
   end)
  (at level 10, x pattern, r at level 100, s at level 9, k at level 200) : rust_scope.

(** Sequencing of two calls that take [&mut self]. *)
Notation "'call' x ',' s ':=' m 'in' k" :=
  (match m with
   | (Ok x, s) => k
   | (Err e, s) => (Err e, s)
   | (Panic w, s) => (Panic w, s)
   end)
  (at level 10, x pattern, s name, m at level 100, k at level 200) : rust_scope.

(** ** Fixed-width unsigned integers

    [u32], [u64] and [usize] (64-bit) values are [N]; a value fits its width
    when it is at most the maximum below. *)

Definition U32_MAX : N := 4294967295.
Definition U64_MAX : N := 18446744073709551615.

Definition checked_add_u64 (a b : N) : option N :=
  if (a + b <=? U64_MAX)%N then Some (a + b)%N else None.
Definition saturating_add_u64 (a b : N) : N := N.min (a + b) U64_MAX.
Definition saturating_mul_u64 (a b : N) : N := N.min (a * b) U64_MAX.
Definition saturating_add_u32 (a b : N) : N := N.min (a + b) U32_MAX.
(** [saturating_sub] is [N]'s truncated subtraction at every width. *)
Definition saturating_sub (a b : N) : N := (a - b)%N.
(** [u32::try_from] on a [usize] *)
Definition try_u32 (n : N) : option N :=
  if (n <=? U32_MAX)%N then Some n else None.

(** ** [BTreeMap] and [BTreeSet]

    A [BTreeMap<K, V>] is a [gmap]; what the tree adds over a hash map is that
    iteration visits the keys in ascending order. *)

Class KeyOrder (K : Type) := {
  key_le : relation K;
  key_le_dec :: RelDecision key_le;
  key_le_po :: PartialOrder key_le;
  key_le_total :: Total key_le;
}.

#[export] Instance string_key_order : KeyOrder string := {| key_le := String.le |}.

#[export] Instance N_key_order : KeyOrder N := {| key_le := N.le |}.

(** Tuples compare lexicographically, as the derived [Ord] does. *)
Definition lex_le {A B} `{KeyOrder A, KeyOrder B} (x y : A * B) : Prop :=
  (key_le x.1 y.1 ∧ x.1 ≠ y.1) ∨ (x.1 = y.1 ∧ key_le x.2 y.2).

Section lex_order.
Context {A B : Type} `{EqDecision A, !KeyOrder A, !KeyOrder B}.

#[export] Instance lex_le_dec : RelDecision (lex_le (A:=A) (B:=B)).
Proof. intros x y. unfold lex_le. apply _. Defined.

#[export] Instance lex_le_po : PartialOrder (lex_le (A:=A) (B:=B)).
Proof.
  split; [split|].
  - intros [a b]. right. split; [done|]. reflexivity.
  - intros [a1 b1] [a2 b2] [a3 b3] H1 H2. unfold lex_le in *; simpl in *.
    destruct H1 as [[H1 N1]|[-> H1]], H2 as [[H2 N2]|[-> H2]]; auto.
    + left. split; [by etrans|]. intros ->.
      apply N1. by apply (anti_symm key_le).
    + right. split; [done|]. by etrans.
  - intros [a1 b1] [a2 b2] H1 H2. unfold lex_le in *; simpl in *.
    destruct H1 as [[H1 N1]|[-> H1]], H2 as [[H2 N2]|[E H2]]; try done.
    + destruct N1. by apply (anti_symm key_le).
    + f_equal. by apply (anti_symm key_le).
Qed.

#[export] Instance lex_le_total : Total (lex_le (A:=A) (B:=B)).
Proof.
  intros [a1 b1] [a2 b2]. unfold lex_le; simpl.
  destruct (decide (a1 = a2)) as [->|Hne].
  - destruct (total key_le b1 b2); auto.
  - destruct (total key_le a1 a2); auto.
Qed.
End lex_order.

#[export] Instance pair_key_order {A B} `{EqDecision A, KeyOrder A, KeyOrder B} :
  KeyOrder (A * B) := {| key_le := lex_le |}.

(** A newtype compares as what it wraps. *)
Section inj_order.
Context {A K : Type} `{!KeyOrder K} (f : A → K) `{!Inj (=) (=) f}.

Definition wrapped_le (x y : A) : Prop := key_le (f x) (f y).
Definition wrapped_le_dec : RelDecision wrapped_le := λ x y, decide (key_le (f x) (f y)).
Lemma wrapped_le_po : PartialOrder wrapped_le.
Proof.
  unfold wrapped_le. split; [split|].
  - intros x. reflexivity.
  - intros x y z ??. by etrans.
  - intros x y ??. apply (inj f). by apply (anti_symm key_le).
Qed.
Lemma wrapped_le_total : Total wrapped_le.
Proof. intros x y. apply (total key_le). Qed.

Definition inj_key_order : KeyOrder A := {|
  key_le := wrapped_le;
  key_le_dec := wrapped_le_dec;
  key_le_po := wrapped_le_po;
  key_le_total := wrapped_le_total;
|}.
End inj_order.

Definition entry_le `{KeyOrder K} {V} (p q : K * V) : Prop := key_le p.1 q.1.
#[export] Instance entry_le_dec `{KeyOrder K} {V} : RelDecision (entry_le (K:=K) (V:=V)).
Proof. intros p q. unfold entry_le. apply _. Defined.
#[export] Instance entry_le_total `{KeyOrder K} {V} : Total (entry_le (K:=K) (V:=V)).
Proof. intros p q. apply (total key_le). Qed.
#[export] Instance entry_le_trans `{KeyOrder K} {V} : Transitive (entry_le (K:=K) (V:=V)).
Proof. intros p q r ??. unfold entry_le in *. by etrans. Qed.

(** [map.iter()] *)
Definition btree_iter `{Countable K, KeyOrder K} {V} (m : gmap K V) : list (K * V) :=
  merge_sort entry_le (map_to_list m).

(** [map.keys()] *)
Definition btree_keys `{Countable K, KeyOrder K} {V} (m : gmap K V) : list K :=
  (btree_iter m).*1.

(** [map.values()] *)
Definition btree_values `{Countable K, KeyOrder K} {V} (m : gmap K V) : list V :=
  (btree_iter m).*2.

(** [map.contains_key(k)] *)
Definition contains_key `{Countable K} {V} (m : gmap K V) (k : K) : bool :=
  bool_decide (is_Some (m !! k)).

(** [iter.find_map(f)] *)
Fixpoint find_map {A B} (f : A → option B) (l : list A) : option B :=
  match l with
  | [] => None
  | x :: l => match f x with Some y => Some y | None => find_map f l end
  end.

(** [iter.find(p)] *)
Definition find_first {A} (p : A → bool) : list A → option A :=
  find_map (λ x, if p x then Some x else None).

(** [iter.enumerate()], counting from [i] *)
Fixpoint enumerate_from {A} (i : nat) (l : list A) : list (nat * A) :=
  match l with [] => [] | x :: l => (i, x) :: enumerate_from (S i) l end.
Definition enumerate {A} : list A → list (nat * A) := enumerate_from 0.

Open Scope rust_scope.

(** ** Tactics and the hint database of the development *)

Create HintDb sparkx.
Create Rewrite HintDb sparkx.

(** Splits every [match] and [if] of the goal and the hypotheses. *)
Ltac split_matches :=
  repeat (case_match; simplify_eq/=; try done).

(** Turns boolean tests on [N] and [bool_decide] into propositions. *)
Ltac bool_to_prop :=
  repeat match goal with
  | H : _ && _ = true |- _ => apply andb_true_iff in H as [? ?]
  | H : _ || _ = false |- _ => apply orb_false_iff in H as [? ?]
  | H : negb _ = true |- _ => apply negb_true_iff in H
  | H : negb _ = false |- _ => apply negb_false_iff in H
  | H : (_ =? _)%N = true |- _ => apply N.eqb_eq in H
  | H : (_ =? _)%N = false |- _ => apply N.eqb_neq in H
  | H : (_ <=? _)%N = true |- _ => apply N.leb_le in H
  | H : (_ <=? _)%N = false |- _ => apply N.leb_gt in H
  | H : (_ <? _)%N = true |- _ => apply N.ltb_lt in H
  | H : (_ <? _)%N = false |- _ => apply N.ltb_ge in H
  | H : bool_decide _ = true |- _ => apply bool_decide_eq_true_1 in H
  | H : bool_decide _ = false |- _ => apply bool_decide_eq_false_1 in H
  end.

(** Passes the guards [if bad { return Err(..) }] of a panic-freedom goal. *)
Ltac skip_guards :=
  repeat match goal with
  | |- no_panic (if ?b then Err _ else _) => destruct b; [exact I|]
  end.

(** Inverts a successful [bind]. *)
Ltac invert_ok :=
  repeat match goal with
  | H : (mbind _ ?r) = Ok _ |- _ =>
      let E := fresh "E" in destruct r eqn:E; simpl in H; try discriminate
  | H : Ok _ = Ok _ |- _ => injection H as H; try subst
  end.

(** ** Results *)

Lemma bind_ok {A B} (f : A → result B) (r : result A) (b : B) :
  r ≫= f = Ok b ↔ ∃ a, r = Ok a ∧ f a = Ok b.
Proof. destruct r; simpl; split; intros Hr; try done; [by eauto|by destruct Hr as (? & [= ->] & ?)|..]; by destruct Hr as (? & ? & ?). Qed.

Lemma bind_unit_ok {B} (f : unit → result B) (r : result unit) (b : B) :
  r ≫= f = Ok b ↔ r = Ok tt ∧ f tt = Ok b.
Proof. rewrite bind_ok. split; [by intros ([] & ? & ?)|intros [??]; eauto]. Qed.

Lemma for_each_ok {A} (f : A → result unit) (l : list A) :
  for_each f l = Ok tt ↔ Forall (λ x, f x = Ok tt) l.
Proof.
  induction l as [|x l IH]; simpl; [by split; constructor|].
  rewrite bind_ok, Forall_cons_iff, <-IH. split; [intros ([] & ? & ?)|]; eauto.
Qed.

Lemma collect_ok {A B} (f : A → result B) (l : list A) (k : list B) :
  collect f l = Ok k ↔ Forall2 (λ x y, f x = Ok y) l k.
Proof.
  revert k. induction l as [|x l IH]; intros k; simpl.
  - split; [intros [= <-]; constructor|by inversion 1].
  - setoid_rewrite bind_ok. setoid_rewrite bind_ok. split.
    + intros (y & Hy & ys & Hys & [= <-]). constructor; [done|]. by apply IH.
    + inversion 1 as [|? y ? ys Hy Hys]; subst. exists y. split; [done|].
      exists ys. split; [by apply IH|done].
Qed.

Lemma collect_length {A B} (f : A → result B) (l : list A) (k : list B) :
  collect f l = Ok k → length k = length l.
Proof. intros H%collect_ok. by apply Forall2_length in H. Qed.

Lemma collect_app {A B} (f : A → result B) l1 l2 r :
  collect f (l1 ++ l2) = Ok r ↔
  ∃ r1 r2, collect f l1 = Ok r1 ∧ collect f l2 = Ok r2 ∧ r = r1 ++ r2.
Proof.
  setoid_rewrite collect_ok. split; [apply Forall2_app_inv_l|].
  - intros (r1 & r2 & H1 & H2 & ->). by apply Forall2_app.
Qed.

Lemma for_each_no_panic {A} (f : A → result unit) (l : list A) :
  (∀ x, x ∈ l → no_panic (f x)) → no_panic (for_each f l).
Proof.
  induction l as [|x l IH]; intros Hf; simpl; [done|].
  pose proof (Hf x (list_elem_of_here _ _)) as Hx.
  destruct (f x); simpl in *; try done. apply IH. intros y Hy. apply Hf. by right.
Qed.

Lemma ok_or_ok {A} (o : option A) e a : ok_or o e = Ok a ↔ o = Some a.
Proof. destruct o; simpl; split; congruence. Qed.

(** ** [BTreeMap] iteration *)

Section btree_facts.
Context `{Countable K, !KeyOrder K} {V : Type}.
Implicit Types m : gmap K V.

Lemma btree_iter_Permutation m : btree_iter m ≡ₚ map_to_list m.
Proof. apply merge_sort_Permutation. Qed.

Lemma elem_of_btree_iter m k v : (k, v) ∈ btree_iter m ↔ m !! k = Some v.
Proof. by rewrite btree_iter_Permutation, elem_of_map_to_list. Qed.

Lemma elem_of_btree_keys m k : k ∈ btree_keys m ↔ is_Some (m !! k).
Proof.
  unfold btree_keys. rewrite list_elem_of_fmap. split.
  - intros ([k' v] & -> & Hin%elem_of_btree_iter). by eexists.
  - intros [v Hv]. exists (k, v). by rewrite elem_of_btree_iter.
Qed.

(** Iteration is in ascending key order. *)
Lemma btree_iter_sorted m : StronglySorted entry_le (btree_iter m).
Proof. apply StronglySorted_merge_sort; apply _. Qed.
End btree_facts.

Lemma contains_key_spec `{Countable K} {V} (m : gmap K V) k :
  contains_key m k = true ↔ is_Some (m !! k).
Proof. apply bool_decide_eq_true. Qed.

Lemma contains_key_false `{Countable K} {V} (m : gmap K V) k :
  contains_key m k = false ↔ m !! k = None.
Proof. unfold contains_key. by rewrite bool_decide_eq_false, <-eq_None_not_Some. Qed.

Lemma find_map_Some {A B} (f : A → option B) l y :
  find_map f l = Some y → ∃ x, x ∈ l ∧ f x = Some y.
Proof.
  induction l as [|x l IH]; simpl; [done|].
  destruct (f x) eqn:E; [intros [= <-]; exists x; split; [by left|done]|].
  intros (x' & ? & ?)%IH. exists x'. split; [by right|done].
Qed.

Lemma find_map_None {A B} (f : A → option B) l :
  find_map f l = None ↔ Forall (λ x, f x = None) l.
Proof.
  induction l as [|x l IH]; simpl; [by split; constructor|].
  rewrite Forall_cons_iff. destruct (f x); [naive_solver|]. rewrite IH. naive_solver.
Qed.

(** What [find_map] skips before it stops. *)
Lemma find_map_split {A B} (f : A → option B) l y :
  find_map f l = Some y →
  ∃ l1 x l2, l = l1 ++ x :: l2 ∧ Forall (λ z, f z = None) l1 ∧ f x = Some y.
Proof.
  induction l as [|x l IH]; simpl; [done|].
  destruct (f x) eqn:E; intros Hy.
  - injection Hy as <-. exists [], x, l. eauto.
  - destruct (IH Hy) as (l1 & x' & l2 & -> & HF & Hx'). exists (x :: l1), x', l2.
    split_and!; [done|by constructor|done].
Qed.

Lemma enumerate_from_lookup {A} (l : list A) i j x :
  enumerate_from i l !! j = Some x ↔ x.1 = i + j ∧ l !! j = Some x.2.
Proof.
  revert i j. induction l as [|y l IH]; intros i [|j]; simpl; try (naive_solver lia).
  - destruct x as [n z]; simpl. rewrite Nat.add_0_r. naive_solver.
  - rewrite IH. by rewrite <-Nat.add_succ_comm.
Qed.

Lemma elem_of_enumerate {A} (l : list A) i x :
  (i, x) ∈ enumerate l ↔ l !! i = Some x.
Proof.
  unfold enumerate. rewrite list_elem_of_lookup. setoid_rewrite enumerate_from_lookup.
  simpl. naive_solver.
Qed.

(** ** Sums over maps *)

Definition map_sum `{Countable K} {V} (f : V → nat) (m : gmap K V) : nat :=
  map_fold (λ _ v acc, f v + acc) 0 m.

Section map_sum.
Context `{Countable K} {V : Type}.
Implicit Types (m : gmap K V) (f g : V → nat).

Lemma map_sum_empty f : map_sum f (∅ : gmap K V) = 0.
Proof. apply map_fold_empty. Qed.

Lemma map_sum_insert_None f m k v :
  m !! k = None → map_sum f (<[k:=v]> m) = f v + map_sum f m.
Proof.
  intros Hk. unfold map_sum.
  rewrite (map_fold_insert_L (λ _ v acc, f v + acc)); [done|intros; lia|done].
Qed.

(** Replacing an entry exchanges its contribution. *)
Lemma map_sum_insert_Some f m k v v' :
  m !! k = Some v → map_sum f (<[k:=v']> m) + f v = map_sum f m + f v'.
Proof.
  intros Hk. rewrite <-(insert_delete_id m k v) at 2 by done.
  rewrite <-insert_delete_eq.
  rewrite !map_sum_insert_None by apply lookup_delete_eq. lia.
Qed.

(** An entry-wise balance between three quantities carries over to the sums. *)
Lemma map_sum_imap_balance f g (h : K → V → V) m :
  (∀ k v, m !! k = Some v → f (h k v) + g v = f v) →
  map_sum f (map_imap (λ k v, Some (h k v)) m) + map_sum g m = map_sum f m.
Proof.
  induction m as [|k v m Hk IH] using map_ind; intros Hb.
  { by rewrite map_imap_empty, !map_sum_empty. }
  rewrite (map_imap_insert_Some _ _ _ _ (h k v)) by done.
  rewrite !map_sum_insert_None by (try done; by rewrite map_lookup_imap, Hk).
  specialize (Hb k v) as Hkv. rewrite lookup_insert_eq in Hkv.
  specialize (Hkv eq_refl). rewrite <-IH; [lia|].
  intros k' v' Hv'. apply Hb. by rewrite lookup_insert_ne by congruence.
Qed.

Lemma map_sum_le_lookup f m k v : m !! k = Some v → f v ≤ map_sum f m.
Proof.
  intros Hk. rewrite <-(insert_delete_id m k v) by done.
  rewrite map_sum_insert_None by apply lookup_delete_eq. lia.
Qed.

Lemma map_sum_zero f m : map_sum f m = 0 ↔ ∀ k v, m !! k = Some v → f v = 0.
Proof.
  split.
  - intros H0 k v Hv. pose proof (map_sum_le_lookup f m k v Hv). lia.
  - induction m as [|k v m Hk IH] using map_ind; intros Hall.
    { apply map_sum_empty. }
    rewrite map_sum_insert_None by done.
    rewrite (Hall k v) by apply lookup_insert_eq.
    apply IH. intros k' v' Hv'. apply (Hall k').
    by rewrite lookup_insert_ne by congruence.
Qed.

Lemma map_sum_list f m : map_sum f m = sum_list (f <$> (map_to_list m).*2).
Proof.
  unfold map_sum. rewrite map_fold_foldr.
  induction (map_to_list m) as [|[k v] l IH]; simpl; [done|]. by rewrite IH.
Qed.
End map_sum.

(** ** Totals of [N] quantities over maps *)

Definition map_total `{Countable K} {V} (w : V → N) (m : gmap K V) : N :=
  N.of_nat (map_sum (λ v, N.to_nat (w v)) m).

Section map_total.
Context `{Countable K} {V : Type} (w : V → N).
Implicit Types m : gmap K V.

Lemma map_total_empty : map_total w (∅ : gmap K V) = 0%N.
Proof. unfold map_total. by rewrite map_sum_empty. Qed.

Lemma map_total_insert_None m k v :
  m !! k = None → map_total w (<[k:=v]> m) = (w v + map_total w m)%N.
Proof. intros Hk. unfold map_total. rewrite map_sum_insert_None by done. lia. Qed.

Lemma map_total_delete m k v :
  m !! k = Some v → (map_total w (delete k m) + w v)%N = map_total w m.
Proof.
  intros Hk. rewrite <-(insert_delete_id m k v) at 2 by done.
  rewrite map_total_insert_None by apply lookup_delete_eq. lia.
Qed.

Lemma map_total_insert_Some m k v v' :
  m !! k = Some v → (map_total w (<[k:=v']> m) + w v)%N = (map_total w m + w v')%N.
Proof.
  intros Hk. rewrite <-insert_delete_eq, map_total_insert_None by apply lookup_delete_eq.
  pose proof (map_total_delete m k v Hk). lia.
Qed.

Lemma map_total_lookup m k v : m !! k = Some v → (w v ≤ map_total w m)%N.
Proof. intros Hk. pose proof (map_total_delete m k v Hk). lia. Qed.

Lemma map_total_subseteq m m' : m ⊆ m' → (map_total w m ≤ map_total w m')%N.
Proof.
  revert m'. induction m as [|k v m Hk IH] using map_ind; intros m' Hsub.
  { rewrite map_total_empty. lia. }
  assert (m' !! k = Some v) as Hk' by (eapply lookup_weaken; [apply lookup_insert_eq|done]).
  rewrite map_total_insert_None by done. pose proof (map_total_delete m' k v Hk') as Hd.
  assert (map_total w m ≤ map_total w (delete k m'))%N; [|lia].
  apply IH. apply map_subseteq_spec. intros k' v' Hv'.
  assert (k' ≠ k) by congruence. rewrite lookup_delete_ne by done.
  eapply lookup_weaken; [|done]. by rewrite lookup_insert_ne.
Qed.
End map_total.
