(* ===== verification/Text.v ===== *)
(** * Rust string operations

    A Rust [String] is its UTF-8 byte sequence, a [string] here; its length is
    in bytes and its order is the byte order.  This file models the methods of
    the standard library that the engine calls on strings. *)
From S2P Require Import Prelude.
From Stdlib Require Import Ascii.

(** ** White space

    [char::is_whitespace] is the Unicode [White_Space] property: U+0009..000D,
    U+0020, U+0085, U+00A0, U+1680, U+2000..200A, U+2028, U+2029, U+202F,
    U+205F and U+3000, here as their UTF-8 encodings of one to three bytes. *)

Definition whitespace1 (c : ascii) : bool :=
  let n := N_of_ascii c in ((9 <=? n) && (n <=? 13) || (n =? 32))%N.

Definition whitespace2 (c d : ascii) : bool :=
  let n := N_of_ascii c in
  let m := N_of_ascii d in
  ((n =? 194) && ((m =? 133) || (m =? 160)))%N.

Definition whitespace3 (c d e : ascii) : bool :=
  let n := N_of_ascii c in
  let m := N_of_ascii d in
  let k := N_of_ascii e in
  ((n =? 225) && (m =? 154) && (k =? 128)
   || (n =? 226) && (m =? 128) &&
        ((128 <=? k) && (k <=? 138) || (k =? 168) || (k =? 169) || (k =? 175))
   || (n =? 226) && (m =? 129) && (k =? 159)
   || (n =? 227) && (m =? 128) && (k =? 128))%N.

(** [s.trim().is_empty()]: every character is white space. *)
Fixpoint trim_is_empty (s : string) : bool :=
  match s with
  | EmptyString => true
  | String c r =>
      if whitespace1 c then trim_is_empty r else
      match r with
      | String d r2 =>
          if whitespace2 c d then trim_is_empty r2 else
          match r2 with
          | String e r3 => if whitespace3 c d e then trim_is_empty r3 else false
          | EmptyString => false
          end
      | EmptyString => false
      end
  end.

(** [s.chars().any(char::is_whitespace)]: the lead bytes of the encodings
    above never occur inside another character, so a white-space character is
    one of these byte patterns at some offset. *)
Fixpoint has_whitespace (s : string) : bool :=
  match s with
  | EmptyString => false
  | String c r =>
      whitespace1 c
      || match r with
         | String d r2 =>
             whitespace2 c d
             || match r2 with String e _ => whitespace3 c d e | EmptyString => false end
         | EmptyString => false
         end
      || has_whitespace r
  end.

(** [s.len()] *)
Fixpoint byte_len (s : string) : N :=
  match s with EmptyString => 0 | String _ r => N.succ (byte_len r) end.

(** [s.contains(c)] for an ASCII character *)
Fixpoint contains_char (c : ascii) (s : string) : bool :=
  match s with
  | EmptyString => false
  | String d r => bool_decide (d = c) || contains_char c r
  end.

(** [s.strip_prefix(p)] *)
Fixpoint strip_prefix (p s : string) : option string :=
  match p, s with
  | EmptyString, _ => Some s
  | String a p, String b s => if decide (a = b) then strip_prefix p s else None
  | String _ _, EmptyString => None
  end.

(** [name.rsplit(sep).next()]: what follows the last separator. *)
Fixpoint after_last (sep : ascii) (s : string) : string :=
  match s with
  | EmptyString => EmptyString
  | String c r =>
      if contains_char sep r then after_last sep r
      else if decide (c = sep) then r else s
  end.

Definition ascii_lowercase (c : ascii) : ascii :=
  let n := N_of_ascii c in
  if ((65 <=? n) && (n <=? 90))%N then ascii_of_N (n + 32) else c.

(** [s.to_ascii_lowercase()] *)
Fixpoint to_ascii_lowercase (s : string) : string :=
  match s with
  | EmptyString => EmptyString
  | String c r => String (ascii_lowercase c) (to_ascii_lowercase r)
  end.

Definition ascii_uppercase (c : ascii) : ascii :=
  let n := N_of_ascii c in
  if ((97 <=? n) && (n <=? 122))%N then ascii_of_N (n - 32) else c.

(** [s.to_ascii_uppercase()] *)
Fixpoint to_ascii_uppercase (s : string) : string :=
  match s with
  | EmptyString => EmptyString
  | String c r => String (ascii_uppercase c) (to_ascii_uppercase r)
  end.

(** ** [str::parse] for integers: an optional sign, at least one digit, no overflow. *)

Definition digit_value (c : ascii) : option N :=
  let n := N_of_ascii c in
  if ((48 <=? n) && (n <=? 57))%N then Some (n - 48)%N else None.

Fixpoint parse_digits (acc : N) (s : string) : option N :=
  match s with
  | EmptyString => Some acc
  | String c r => d ← digit_value c; parse_digits (acc * 10 + d)%N r
  end.

Definition parse_natural (s : string) : option N :=
  match s with EmptyString => None | _ => parse_digits 0 s end.

(** [s.parse::<usize>()], on a 64-bit platform *)
Definition parse_usize (s : string) : option N :=
  n ← parse_natural match s with String "+" r => r | _ => s end;
  if (n <=? U64_MAX)%N then Some n else None.

(** [s.parse::<i64>()] *)
Definition parse_i64 (s : string) : option Z :=
  match s with
  | String "-" r => n ← parse_natural r; if (n <=? 2 ^ 63)%N then Some (- Z.of_N n)%Z else None
  | _ =>
      n ← parse_natural match s with String "+" r => r | _ => s end;
      if (n <? 2 ^ 63)%N then Some (Z.of_N n) else None
  end.

(** [s.join(sep)] *)
Fixpoint join_with (sep : string) (l : list string) : string :=
  match l with
  | [] => EmptyString
  | [x] => x
  | x :: l => x +:+ sep +:+ join_with sep l
  end.

(** ** Facts *)

Lemma strip_prefix_spec (p s r : string) : strip_prefix p s = Some r ↔ s = p +:+ r.
Proof.
  revert s. induction p as [|a p IH]; intros s.
  - change (Some s = Some r ↔ s = r). split; congruence.
  - change (String a p +:+ r) with (String a (p +:+ r)).
    destruct s as [|b s]; cbn; [split; done|].
    destruct (decide (a = b)) as [<-|Hab].
    + rewrite IH. split; [by intros ->|by intros [= ->]].
    + split; [done|congruence].
Qed.

Lemma after_last_no_sep sep s : contains_char sep (after_last sep s) = false.
Proof.
  induction s as [|c r IH]; simpl; [done|].
  destruct (contains_char sep r) eqn:E; [done|].
  destruct (decide (c = sep)); [done|]. simpl. rewrite E, bool_decide_eq_false_2 by done. done.
Qed.

Lemma after_last_id sep s : contains_char sep s = false → after_last sep s = s.
Proof.
  destruct s as [|c r]; simpl; [done|]. intros [H1 H2]%orb_false_iff.
  rewrite H2. bool_to_prop. by rewrite decide_False.
Qed.

(** A name is unqualified once: [unqualified] is idempotent. *)
Lemma after_last_idemp sep s : after_last sep (after_last sep s) = after_last sep s.
Proof. apply after_last_id, after_last_no_sep. Qed.

Lemma ascii_lowercase_idemp c : ascii_lowercase (ascii_lowercase c) = ascii_lowercase c.
Proof. by destruct c as [[] [] [] [] [] [] [] []]. Qed.

Lemma to_ascii_lowercase_idemp s :
  to_ascii_lowercase (to_ascii_lowercase s) = to_ascii_lowercase s.
Proof. induction s as [|c s IH]; simpl; [done|]. by rewrite ascii_lowercase_idemp, IH. Qed.

Lemma byte_len_app s t : byte_len (s +:+ t) = (byte_len s + byte_len t)%N.
Proof.
  induction s as [|c s IH]; [done|].
  change (String c s +:+ t) with (String c (s +:+ t)). simpl. lia.
Qed.

Lemma parse_i64_bounds s z : parse_i64 s = Some z → (- 2 ^ 63 <= z < 2 ^ 63)%Z.
Proof.
  assert (∀ (o : option N), (n ← o; if (n <? 2 ^ 63)%N then Some (Z.of_N n) else None) = Some z →
    (- 2 ^ 63 <= z < 2 ^ 63)%Z) as Hpos.
  { intros [n|] H; [|done]. cbn in H. destruct (n <? _)%N eqn:E; [|done]. injection H as <-.
    apply N.ltb_lt in E. lia. }
  unfold parse_i64. destruct s as [|c r]; [apply Hpos|].
  destruct (decide (c = "-"%char)) as [->|Hc].
  - destruct (parse_natural r) as [n|]; [|done]. cbn. destruct (n <=? _)%N eqn:E; [|done]. intros [= <-].
    apply N.leb_le in E. lia.
  - intros H. destruct c as [[] [] [] [] [] [] [] []]; first [done|by apply Hpos in H].
Qed.

Example parse_numbers :
  parse_i64 "9223372036854775807" = Some (2 ^ 63 - 1)%Z ∧ parse_i64 "9223372036854775808" = None ∧
  parse_usize "10" = Some 10%N ∧ parse_usize "1.5" = None.
Proof. by vm_compute. Qed.

#[export] Hint Rewrite after_last_idemp to_ascii_lowercase_idemp byte_len_app : sparkx.
