(* ===== verification/Protocol.v ===== *)
(** * The coordinator/worker protocol ([src/cluster/protocol.rs])

    Identifiers, stage plans, task attempts, leases, shuffle blocks and the two
    message types, with the validation each of them runs.  Decoding of a plan
    fragment belongs to the plan codec: the protocol sees it through the
    [PlanFragments] interface, which the codec implements. *)
From S2P Require Import Prelude Text.

Definition PROTOCOL_VERSION : N := 5.

Definition protocol_error (message : string) : SparkXError :=
  Protocol ("invalid distributed protocol message: " +:+ message).

Definition STAGE_INPUT_TABLE_PREFIX : string := "__sparkx_stage_input_".

(** ** Identifiers *)

Record QueryId := MkQueryId { query_text : string }.
Record WorkerId := MkWorkerId { worker_text : string }.
Record StageId := MkStageId { stage_num : N }.
Record PartitionId := MkPartitionId { partition_num : N }.

Definition stage_input_table_name (stage_id : StageId) : string :=
  STAGE_INPUT_TABLE_PREFIX +:+ pretty (stage_num stage_id).

Definition validate_text_id (kind value : string) : result unit :=
  if trim_is_empty value then Err (protocol_error (kind +:+ " ID must not be empty"))
  else if (128 <? byte_len value)%N
  then Err (protocol_error (kind +:+ " ID must not exceed 128 bytes"))
  else Ok tt.

Definition QueryId_new (value : string) : result QueryId :=
  _ ← validate_text_id "query" value; Ok (MkQueryId value).
Definition QueryId_validate (q : QueryId) : result unit :=
  validate_text_id "query" (query_text q).
Definition WorkerId_new (value : string) : result WorkerId :=
  _ ← validate_text_id "worker" value; Ok (MkWorkerId value).
Definition WorkerId_validate (w : WorkerId) : result unit :=
  validate_text_id "worker" (worker_text w).

Definition validate_version (version : N) : result unit :=
  if (version =? PROTOCOL_VERSION)%N then Ok tt
  else Err (protocol_error ("unsupported protocol version " +:+ pretty version +:+
                            "; expected " +:+ pretty PROTOCOL_VERSION)).

(** ** Data *)

Record HashExchange := MkHashExchange {
  he_columns : list N;
  he_partition_count : N;
}.

Record StagePlan := MkStagePlan {
  sp_query_id : QueryId;
  sp_stage_id : StageId;
  sp_input_stages : list StageId;
  sp_partition_count : N;
  sp_plan_fragment : list N;
  sp_output_exchange : option HashExchange;
  sp_partitioned_input : bool;
}.

Record TaskAttemptId := MkTaskAttemptId {
  ta_query_id : QueryId;
  ta_stage_id : StageId;
  ta_partition_id : PartitionId;
  ta_attempt : N;
}.

Record TaskLease := MkTaskLease {
  tl_worker_id : WorkerId;
  tl_issued_at_ms : N;
  tl_expires_at_ms : N;
}.

Inductive ShuffleLocation :=
| Worker (worker_id : WorkerId)
| Flight (worker_id : WorkerId) (endpoint ticket : string)
| ObjectStore (uri : string).

Record ShuffleBlock := MkShuffleBlock {
  sb_producer : TaskAttemptId;
  sb_output_partition : PartitionId;
  sb_rows : N;
  sb_bytes : N;
  sb_checksum : string;
  sb_location : ShuffleLocation;
}.

Inductive TaskState :=
| TaskRunning (started_at_ms : N)
| TaskSucceeded (finished_at_ms : N) (output_blocks : list ShuffleBlock)
| TaskFailed (finished_at_ms : N) (error : string) (retryable : bool)
| TaskCancelled (finished_at_ms : N) (reason : string).

Record WorkerRegistration := MkWorkerRegistration {
  wr_worker_id : WorkerId;
  wr_slots : N;
  wr_memory_bytes : N;
}.

Record WorkerHeartbeat := MkWorkerHeartbeat {
  wh_worker_id : WorkerId;
  wh_observed_at_ms : N;
  wh_available_slots : N;
  wh_available_memory_bytes : N;
}.

Inductive CoordinatorMessage :=
| AssignTask (version : N) (stage : StagePlan) (task : TaskAttemptId)
    (lease : TaskLease) (input_blocks : list ShuffleBlock)
| CancelQuery (version : N) (query_id : QueryId) (reason : string).

Inductive WorkerMessage :=
| Register (version : N) (registration : WorkerRegistration)
| Heartbeat (version : N) (heartbeat : WorkerHeartbeat)
| TaskUpdate (version : N) (worker_id : WorkerId) (task : TaskAttemptId) (state : TaskState).

(** Derived [Eq] and [Ord]. *)

#[export] Instance QueryId_eq_dec : EqDecision QueryId.
Proof. solve_decision. Defined.
#[export] Instance WorkerId_eq_dec : EqDecision WorkerId.
Proof. solve_decision. Defined.
#[export] Instance StageId_eq_dec : EqDecision StageId.
Proof. solve_decision. Defined.
#[export] Instance PartitionId_eq_dec : EqDecision PartitionId.
Proof. solve_decision. Defined.
#[export] Instance HashExchange_eq_dec : EqDecision HashExchange.
Proof. solve_decision. Defined.
#[export] Instance StagePlan_eq_dec : EqDecision StagePlan.
Proof. solve_decision. Defined.
#[export] Instance TaskAttemptId_eq_dec : EqDecision TaskAttemptId.
Proof. solve_decision. Defined.
#[export] Instance TaskLease_eq_dec : EqDecision TaskLease.
Proof. solve_decision. Defined.
#[export] Instance ShuffleLocation_eq_dec : EqDecision ShuffleLocation.
Proof. solve_decision. Defined.
#[export] Instance ShuffleBlock_eq_dec : EqDecision ShuffleBlock.
Proof. solve_decision. Defined.

#[export] Instance QueryId_countable : Countable QueryId.
Proof. by apply (inj_countable' query_text MkQueryId); intros []. Defined.
#[export] Instance WorkerId_countable : Countable WorkerId.
Proof. by apply (inj_countable' worker_text MkWorkerId); intros []. Defined.
#[export] Instance StageId_countable : Countable StageId.
Proof. by apply (inj_countable' stage_num MkStageId); intros []. Defined.
#[export] Instance PartitionId_countable : Countable PartitionId.
Proof. by apply (inj_countable' partition_num MkPartitionId); intros []. Defined.

#[export] Instance query_text_inj : Inj (=) (=) query_text.
Proof. by intros [] [] [= ->]. Qed.
#[export] Instance worker_text_inj : Inj (=) (=) worker_text.
Proof. by intros [] [] [= ->]. Qed.
#[export] Instance stage_num_inj : Inj (=) (=) stage_num.
Proof. by intros [] [] [= ->]. Qed.
#[export] Instance partition_num_inj : Inj (=) (=) partition_num.
Proof. by intros [] [] [= ->]. Qed.

#[export] Instance QueryId_key_order : KeyOrder QueryId := inj_key_order query_text.
#[export] Instance WorkerId_key_order : KeyOrder WorkerId := inj_key_order worker_text.
#[export] Instance StageId_key_order : KeyOrder StageId := inj_key_order stage_num.

(** ** The plan codec, as the protocol sees it *)

(** [PhysicalPlanCodec::validate_fragment]; it reports a bad fragment as an
    error and never panics. *)
Class PlanFragments := {
  validate_fragment : list N → result unit;
  validate_fragment_no_panic : ∀ bytes, no_panic (validate_fragment bytes);
}.

(** ** Validation *)

Section validation.
Context `{PlanFragments}.

(** The loop over [input_stages]: [dependencies] is the set seen so far. *)
Fixpoint validate_dependencies (stage_id : StageId) (seen : gset StageId)
    (input_stages : list StageId) : result unit :=
  match input_stages with
  | [] => Ok tt
  | dependency :: rest =>
      if decide (dependency = stage_id)
      then Err (protocol_error "stage cannot depend on itself")
      else if decide (dependency ∈ seen)
      then Err (protocol_error "stage dependencies must be unique")
      else validate_dependencies stage_id ({[dependency]} ∪ seen) rest
  end.

Definition StagePlan_validate (p : StagePlan) : result unit :=
  _ ← QueryId_validate (sp_query_id p);
  if (sp_partition_count p =? 0)%N
  then Err (protocol_error "stage partition count must be greater than zero")
  else if match sp_output_exchange p with
          | Some exchange =>
              (he_partition_count exchange =? 0)%N || bool_decide (he_columns exchange = [])
          | None => false
          end
  then Err (protocol_error "hash exchange needs keys and a nonzero partition count")
  else if sp_partitioned_input p && bool_decide (sp_input_stages p = [])
  then Err (protocol_error "partitioned input requires a dependency")
  else
    _ ← validate_fragment (sp_plan_fragment p);
    validate_dependencies (sp_stage_id p) ∅ (sp_input_stages p).

Definition TaskAttemptId_validate (t : TaskAttemptId) : result unit :=
  QueryId_validate (ta_query_id t).

Definition TaskAttemptId_validate_for (t : TaskAttemptId) (stage : StagePlan) : result unit :=
  _ ← TaskAttemptId_validate t;
  if decide (ta_query_id t = sp_query_id stage) then
    if decide (ta_stage_id t = sp_stage_id stage) then
      if (sp_partition_count stage <=? partition_num (ta_partition_id t))%N
      then Err (protocol_error
        ("task partition " +:+ pretty (partition_num (ta_partition_id t)) +:+
         " is outside stage partition count " +:+ pretty (sp_partition_count stage)))
      else Ok tt
    else Err (protocol_error "task stage does not match its stage plan")
  else Err (protocol_error "task query does not match its stage").

Definition TaskLease_validate (l : TaskLease) : result unit :=
  _ ← WorkerId_validate (tl_worker_id l);
  if (tl_expires_at_ms l <=? tl_issued_at_ms l)%N
  then Err (protocol_error "task lease must expire after it is issued")
  else Ok tt.

(** [endpoint.strip_prefix("http://").or_else(|| strip_prefix("https://"))] *)
Definition endpoint_authority (endpoint : string) : option string :=
  match strip_prefix "http://" endpoint with
  | Some authority => Some authority
  | None => strip_prefix "https://" endpoint
  end.

Definition ShuffleBlock_validate (b : ShuffleBlock) : result unit :=
  _ ← TaskAttemptId_validate (sb_producer b);
  if trim_is_empty (sb_checksum b)
  then Err (protocol_error "shuffle block checksum must not be empty")
  else match sb_location b with
  | Worker worker_id => WorkerId_validate worker_id
  | Flight worker_id endpoint ticket =>
      _ ← WorkerId_validate worker_id;
      if match endpoint_authority endpoint with
         | Some value => negb (trim_is_empty value) && negb (has_whitespace value)
         | None => false
         end
      then
        if trim_is_empty ticket
        then Err (protocol_error "Flight shuffle ticket must not be empty")
        else Ok tt
      else Err (protocol_error
        "Flight shuffle endpoint must contain an http:// or https:// authority")
  | ObjectStore uri =>
      if trim_is_empty uri
      then Err (protocol_error "shuffle object-store location must not be empty")
      else Ok tt
  end.

Definition ShuffleBlock_validate_for (b : ShuffleBlock) (task : TaskAttemptId)
    (reporting_worker : WorkerId) : result unit :=
  _ ← ShuffleBlock_validate b;
  if decide (sb_producer b = task) then
    match sb_location b with
    | Worker worker_id =>
        if decide (worker_id = reporting_worker) then Ok tt
        else Err (protocol_error "in-memory shuffle block must be owned by the reporting worker")
    | Flight worker_id _ _ =>
        if decide (worker_id = reporting_worker) then Ok tt
        else Err (protocol_error "Flight shuffle block must be owned by the reporting worker")
    | ObjectStore _ => Ok tt
    end
  else Err (protocol_error "shuffle block producer does not match task update").

Definition TaskState_validate_for (s : TaskState) (task : TaskAttemptId)
    (worker_id : WorkerId) : result unit :=
  match s with
  | TaskSucceeded _ output_blocks =>
      for_each (λ block, ShuffleBlock_validate_for block task worker_id) output_blocks
  | TaskFailed _ error _ =>
      if trim_is_empty error then Err (protocol_error "failed task must include an error")
      else Ok tt
  | TaskCancelled _ reason =>
      if trim_is_empty reason then Err (protocol_error "cancelled task must include a reason")
      else Ok tt
  | TaskRunning _ => Ok tt
  end.

Definition WorkerRegistration_validate (r : WorkerRegistration) : result unit :=
  _ ← WorkerId_validate (wr_worker_id r);
  if (wr_slots r =? 0)%N then Err (protocol_error "worker must advertise at least one slot")
  else if (wr_memory_bytes r =? 0)%N
  then Err (protocol_error "worker must advertise non-zero memory")
  else Ok tt.

(** The checks [AssignTask] makes on one input block. *)
Definition validate_input_block (stage : StagePlan) (task : TaskAttemptId)
    (block : ShuffleBlock) : result unit :=
  _ ← ShuffleBlock_validate block;
  if sp_partitioned_input stage
     && negb (bool_decide (sb_output_partition block = ta_partition_id task))
  then Err (protocol_error "input block targets a different partition")
  else if decide (ta_query_id (sb_producer block) = sp_query_id stage) then
    if decide (ta_stage_id (sb_producer block) ∈ sp_input_stages stage) then Ok tt
    else Err (protocol_error "assignment input block was not produced by a dependency stage")
  else Err (protocol_error "assignment input block belongs to a different query").

Definition CoordinatorMessage_validate (m : CoordinatorMessage) : result unit :=
  match m with
  | AssignTask version stage task lease input_blocks =>
      _ ← validate_version version;
      _ ← StagePlan_validate stage;
      _ ← TaskAttemptId_validate_for task stage;
      _ ← TaskLease_validate lease;
      for_each (validate_input_block stage task) input_blocks
  | CancelQuery version query_id reason =>
      _ ← validate_version version;
      _ ← QueryId_validate query_id;
      if trim_is_empty reason
      then Err (protocol_error "query cancellation must include a reason")
      else Ok tt
  end.

Definition WorkerMessage_validate (m : WorkerMessage) : result unit :=
  match m with
  | Register version registration =>
      _ ← validate_version version; WorkerRegistration_validate registration
  | Heartbeat version heartbeat =>
      _ ← validate_version version; WorkerId_validate (wh_worker_id heartbeat)
  | TaskUpdate version worker_id task state =>
      _ ← validate_version version;
      _ ← WorkerId_validate worker_id;
      _ ← QueryId_validate (ta_query_id task);
      TaskState_validate_for state task worker_id
  end.
End validation.

(** ** What validation accepts *)

(** A usable identifier: not blank, at most 128 bytes. *)
Definition good_id (value : string) : Prop :=
  trim_is_empty value = false ∧ (byte_len value ≤ 128)%N.

Lemma validate_text_id_ok kind value : validate_text_id kind value = Ok tt ↔ good_id value.
Proof.
  unfold validate_text_id, good_id.
  destruct (trim_is_empty value); [by split; [|intros []]|].
  destruct (128 <? byte_len value)%N eqn:E; bool_to_prop.
  - split; [done|]. intros [_ ?]. lia.
  - split; [|done]. intros _. split; [done|lia].
Qed.

Lemma validate_text_id_no_panic kind value : no_panic (validate_text_id kind value).
Proof. unfold validate_text_id. by repeat case_match. Qed.

Lemma validate_version_ok v : validate_version v = Ok tt ↔ v = PROTOCOL_VERSION.
Proof. unfold validate_version. case_match; bool_to_prop; naive_solver. Qed.

Lemma validate_version_no_panic v : no_panic (validate_version v).
Proof. unfold validate_version. by case_match. Qed.

Section validation_facts.
Context `{PlanFragments}.

Lemma validate_dependencies_ok stage_id seen deps :
  validate_dependencies stage_id seen deps = Ok tt ↔
  NoDup deps ∧ stage_id ∉ deps ∧ (∀ d, d ∈ deps → d ∉ seen).
Proof.
  revert seen. induction deps as [|d deps IH]; intros seen; simpl.
  { split; [|done]. intros _. split; [constructor|]. split; [inversion 1|].
    intros d Hd. by inversion Hd. }
  rewrite list.NoDup_cons, not_elem_of_cons. setoid_rewrite elem_of_cons.
  repeat case_decide; [naive_solver..|]. rewrite IH. set_solver.
Qed.

Lemma validate_dependencies_no_panic stage_id seen deps :
  no_panic (validate_dependencies stage_id seen deps).
Proof.
  revert seen. induction deps as [|d deps IH]; intros seen; simpl; [done|].
  repeat case_decide; done || apply IH.
Qed.

(** The stage plans [StagePlan::validate] accepts. *)
Record valid_stage (p : StagePlan) : Prop := {
  vs_query : good_id (query_text (sp_query_id p));
  vs_count : (0 < sp_partition_count p)%N;
  vs_exchange : ∀ e, sp_output_exchange p = Some e →
    (0 < he_partition_count e)%N ∧ he_columns e ≠ [];
  vs_input : sp_partitioned_input p = true → sp_input_stages p ≠ [];
  vs_fragment : validate_fragment (sp_plan_fragment p) = Ok tt;
  vs_unique : NoDup (sp_input_stages p);
  vs_irreflexive : sp_stage_id p ∉ sp_input_stages p;
}.

Lemma StagePlan_validate_ok p : StagePlan_validate p = Ok tt ↔ valid_stage p.
Proof.
  unfold StagePlan_validate. rewrite bind_unit_ok. split.
  - intros (Hq%validate_text_id_ok & Hrest).
    destruct (sp_partition_count p =? 0)%N eqn:E1; [done|].
    case_match eqn:E2; [done|]. case_match eqn:E3; [done|].
    apply bind_unit_ok in Hrest as (Hf & Hd).
    apply validate_dependencies_ok in Hd as (? & ? & ?). bool_to_prop.
    split; try done; try lia.
    + intros e He. rewrite He in E2. bool_to_prop. split; [lia|done].
    + intros Hp Hnil. rewrite Hp, bool_decide_eq_true_2 in E3 by done. done.
  - intros [Hq Hc He Hi Hf Hu Hn]. split; [by apply validate_text_id_ok|].
    replace (sp_partition_count p =? 0)%N with false by (symmetry; apply N.eqb_neq; lia).
    assert (match sp_output_exchange p with
            | Some exchange =>
                (he_partition_count exchange =? 0)%N || bool_decide (he_columns exchange = [])
            | None => false
            end = false) as ->.
    { destruct (sp_output_exchange p) as [e|] eqn:Ee; [|done].
      destruct (He _ eq_refl) as [Hp Hcols]. apply orb_false_iff.
      split; [apply N.eqb_neq; lia|by apply bool_decide_eq_false_2]. }
    assert (sp_partitioned_input p && bool_decide (sp_input_stages p = []) = false) as ->.
    { destruct (sp_partitioned_input p); [|done]. apply bool_decide_eq_false_2. by apply Hi. }
    apply bind_unit_ok. split; [done|].
    apply validate_dependencies_ok. split; [done|]. split; [done|]. set_solver.
Qed.

Lemma StagePlan_validate_no_panic p : no_panic (StagePlan_validate p).
Proof.
  unfold StagePlan_validate, QueryId_validate.
  pose proof (validate_text_id_no_panic "query" (query_text (sp_query_id p))).
  destruct (validate_text_id _ _); simpl; [|done..].
  skip_guards.
  pose proof (validate_fragment_no_panic (sp_plan_fragment p)).
  destruct (validate_fragment _); simpl; [|done..].
  apply validate_dependencies_no_panic.
Qed.

Lemma TaskAttemptId_validate_for_ok t p :
  TaskAttemptId_validate_for t p = Ok tt ↔
  good_id (query_text (ta_query_id t)) ∧ ta_query_id t = sp_query_id p ∧
  ta_stage_id t = sp_stage_id p ∧ (partition_num (ta_partition_id t) < sp_partition_count p)%N.
Proof.
  unfold TaskAttemptId_validate_for, TaskAttemptId_validate, QueryId_validate.
  rewrite bind_unit_ok. rewrite validate_text_id_ok. split.
  - intros (Hq & Hr). repeat case_decide; try done.
    case_match; [done|]. bool_to_prop. done.
  - intros (Hq & H1 & H2 & H3). split; [done|].
    rewrite !decide_True by done. case_match; [|done]. bool_to_prop. lia.
Qed.

Lemma TaskAttemptId_validate_for_no_panic t p : no_panic (TaskAttemptId_validate_for t p).
Proof.
  unfold TaskAttemptId_validate_for, TaskAttemptId_validate, QueryId_validate.
  pose proof (validate_text_id_no_panic "query" (query_text (ta_query_id t))).
  destruct (validate_text_id _ _); simpl; [|done..]. by repeat case_match.
Qed.

Lemma TaskLease_validate_ok l :
  TaskLease_validate l = Ok tt ↔
  good_id (worker_text (tl_worker_id l)) ∧ (tl_issued_at_ms l < tl_expires_at_ms l)%N.
Proof.
  unfold TaskLease_validate, WorkerId_validate. rewrite bind_unit_ok.
  rewrite validate_text_id_ok. split.
  - intros (Hw & Hr). case_match; [done|]. bool_to_prop. split; [done|lia].
  - intros [Hw Hl]. split; [done|]. case_match; [|done]. bool_to_prop. lia.
Qed.

Lemma ShuffleBlock_validate_no_panic b : no_panic (ShuffleBlock_validate b).
Proof.
  unfold ShuffleBlock_validate, TaskAttemptId_validate, QueryId_validate, WorkerId_validate.
  pose proof (validate_text_id_no_panic "query" (query_text (ta_query_id (sb_producer b)))).
  destruct (validate_text_id "query" _); simpl; [|done..]. case_match; [done|].
  case_match; [apply validate_text_id_no_panic| |by case_match].
  pose proof (validate_text_id_no_panic "worker" (worker_text worker_id)).
  destruct (validate_text_id "worker" _); simpl; [|done..]. by repeat case_match.
Qed.

(** A block a worker may commit: valid, produced by the reported attempt, and
    hosted by the reporting worker unless it sits in an object store. *)
Lemma ShuffleBlock_validate_for_ok b task w :
  ShuffleBlock_validate_for b task w = Ok tt ↔
  ShuffleBlock_validate b = Ok tt ∧ sb_producer b = task ∧
  match sb_location b with
  | Worker owner | Flight owner _ _ => owner = w
  | ObjectStore _ => True
  end.
Proof.
  unfold ShuffleBlock_validate_for. rewrite bind_unit_ok. split.
  - intros (Hv & Hr). repeat (case_decide; try done); repeat case_match; try done.
    all: by case_decide.
  - intros (Hv & -> & Hl). split; [done|].
    rewrite decide_True by done. case_match; by rewrite ?decide_True by done.
Qed.

Lemma validate_input_block_ok stage task b :
  validate_input_block stage task b = Ok tt ↔
  ShuffleBlock_validate b = Ok tt ∧
  (sp_partitioned_input stage = true → sb_output_partition b = ta_partition_id task) ∧
  ta_query_id (sb_producer b) = sp_query_id stage ∧
  ta_stage_id (sb_producer b) ∈ sp_input_stages stage.
Proof.
  unfold validate_input_block. rewrite bind_unit_ok. split.
  - intros (Hv & Hr). case_match eqn:E; [done|].
    repeat case_decide; try done. split_and!; try done.
    intros Hp. rewrite Hp in E. simpl in E. by bool_to_prop.
  - intros (Hv & Hp & Hq & Hs). split; [done|].
    rewrite !decide_True by done. case_match eqn:E; [|done]. bool_to_prop. naive_solver.
Qed.

(** The assignments a worker accepts. *)
Lemma AssignTask_validate_ok v stage task lease blocks :
  CoordinatorMessage_validate (AssignTask v stage task lease blocks) = Ok tt ↔
  v = PROTOCOL_VERSION ∧ valid_stage stage ∧
  TaskAttemptId_validate_for task stage = Ok tt ∧ TaskLease_validate lease = Ok tt ∧
  Forall (λ b, validate_input_block stage task b = Ok tt) blocks.
Proof.
  simpl. rewrite !bind_unit_ok. by rewrite validate_version_ok, StagePlan_validate_ok, for_each_ok.
Qed.

Lemma WorkerMessage_validate_no_panic m : no_panic (WorkerMessage_validate m).
Proof.
  pose proof validate_version_no_panic as Hv.
  assert (∀ w, no_panic (WorkerId_validate w)) as Hw.
  { intros w. apply validate_text_id_no_panic. }
  destruct m as [v r|v h|v w t st]; simpl; specialize (Hv v);
    destruct (validate_version v); simpl; try done.
  - unfold WorkerRegistration_validate. specialize (Hw (wr_worker_id r)).
    destruct (WorkerId_validate _); simpl; [|done..]. by repeat case_match.
  - specialize (Hw w). destruct (WorkerId_validate w); simpl; [|done..].
    pose proof (validate_text_id_no_panic "query" (query_text (ta_query_id t))).
    unfold QueryId_validate. destruct (validate_text_id "query" _); simpl; [|done..].
    destruct st; simpl; try (by repeat case_match).
    apply for_each_no_panic. intros b _. unfold ShuffleBlock_validate_for.
    pose proof (ShuffleBlock_validate_no_panic b).
    destruct (ShuffleBlock_validate b); simpl; [|done..]. by repeat case_match.
Qed.
End validation_facts.
