(* ===== verification/Coordinator.v ===== *)
(** * The coordinator state machine ([src/cluster/coordinator.rs])

    State, queries and transitions of [Coordinator].  A method that takes
    [&mut self] returns its result together with the state it leaves behind,
    also when it fails: a [?] after a mutation keeps the mutation.  [expect],
    indexing and unchecked subtraction yield [Panic]. *)
From S2P Require Import Prelude Text Protocol.

Definition coordinator_error (message : string) : SparkXError :=
  Protocol ("invalid coordinator transition: " +:+ message).

Record CoordinatorConfig := MkCoordinatorConfig {
  lease_duration_ms : N;
  heartbeat_timeout_ms : N;
  max_task_attempts : N;
  max_stage_partitions : N;
}.

Definition CoordinatorConfig_default : CoordinatorConfig :=
  MkCoordinatorConfig 30000 15000 3 100000.

Definition CoordinatorConfig_validate (c : CoordinatorConfig) : result CoordinatorConfig :=
  if (lease_duration_ms c =? 0)%N
  then Err (coordinator_error "lease duration must be greater than zero")
  else if (heartbeat_timeout_ms c =? 0)%N
  then Err (coordinator_error "heartbeat timeout must be greater than zero")
  else if (max_task_attempts c =? 0)%N
  then Err (coordinator_error "maximum task attempts must be greater than zero")
  else if (max_stage_partitions c =? 0)%N
  then Err (coordinator_error "maximum stage partitions must be greater than zero")
  else Ok c.

Inductive StageStatus :=
| StageBlocked | StageReady | StageRunning | StageSucceeded | StageFailed | StageCancelled.

Inductive PartitionStatus :=
| StatusPending (next_attempt : N)
| StatusRunning (attempt : N)
| StatusCancelling (attempt : N)
| StatusSucceeded (attempt : N)
| StatusFailed (attempt : N) (error : string) (retryable : bool)
| StatusCancelled.

Abbreviation StageKey := (QueryId * StageId)%type.

Record WorkerRuntime := MkWorkerRuntime {
  registration : WorkerRegistration;
  last_observed_at_ms : N;
  last_received_at_ms : N;
  available_slots : N;
  available_memory_bytes : N;
  alive : bool;
}.

Inductive PartitionRuntime :=
| Pending (next_attempt : N)
| Active (task : TaskAttemptId) (worker_id : WorkerId) (lease : TaskLease)
    (started_at_ms : option N)
| Cancelling (task : TaskAttemptId) (worker_id : WorkerId) (lease : TaskLease)
| Succeeded (task : TaskAttemptId) (output_blocks : list ShuffleBlock)
| Failed (attempt : N) (error : string) (retryable : bool)
| PartitionCancelled.

Record StageRuntime := MkStageRuntime {
  plan : StagePlan;
  partitions : list PartitionRuntime;
}.

Record Coordinator := MkCoordinator {
  config : CoordinatorConfig;
  workers : gmap WorkerId WorkerRuntime;
  stages : gmap StageKey StageRuntime;
  cancelled_queries : gmap QueryId string;
}.

(** Field assignment. *)
Definition with_workers (c : Coordinator) (ws : gmap WorkerId WorkerRuntime) : Coordinator :=
  MkCoordinator (config c) ws (stages c) (cancelled_queries c).
Definition with_stages (c : Coordinator) (ss : gmap StageKey StageRuntime) : Coordinator :=
  MkCoordinator (config c) (workers c) ss (cancelled_queries c).
Definition with_cancelled (c : Coordinator) (q : gmap QueryId string) : Coordinator :=
  MkCoordinator (config c) (workers c) (stages c) q.

Definition stage_not_found (query_id : QueryId) (stage_id : StageId) : SparkXError :=
  NotFound ("query " +:+ query_text query_id +:+ " stage " +:+ pretty (stage_num stage_id) +:+
            " is not registered with the coordinator").

Definition query_not_found (query_id : QueryId) : SparkXError :=
  NotFound ("query " +:+ query_text query_id +:+ " is not registered with the coordinator").

Definition is_succeeded (p : PartitionRuntime) : bool :=
  match p with Succeeded _ _ => true | _ => false end.
Definition is_failed (p : PartitionRuntime) : bool :=
  match p with Failed _ _ _ => true | _ => false end.
Definition is_active (p : PartitionRuntime) : bool :=
  match p with Active _ _ _ _ => true | _ => false end.

(** ** Construction and queries *)

Definition Coordinator_new (c : CoordinatorConfig) : result Coordinator :=
  c ← CoordinatorConfig_validate c; Ok (MkCoordinator c ∅ ∅ ∅).

Definition worker_count (c : Coordinator) : nat := size (workers c).

Definition worker_available_slots (c : Coordinator) (worker_id : WorkerId) : option N :=
  w ← workers c !! worker_id;
  if alive w then Some (available_slots w) else None.

(** [stages.keys().any(|(q, _)| q == query_id)] *)
Definition query_registered (c : Coordinator) (query_id : QueryId) : bool :=
  existsb (λ k : StageKey, bool_decide (k.1 = query_id)) (btree_keys (stages c)).

(** [workers.dedup()]: removes consecutive repetitions. *)
Fixpoint dedup `{EqDecision A} (l : list A) : list A :=
  match l with
  | [] => []
  | x :: rest =>
      match dedup rest with
      | y :: rest' => if decide (x = y) then y :: rest' else x :: y :: rest'
      | [] => [x]
      end
  end.

Definition active_workers_for_query (c : Coordinator) (query_id : QueryId)
    : result (list WorkerId) :=
  if query_registered c query_id then
    let workers :=
      omap (λ p, match p with Active _ worker_id _ _ => Some worker_id | _ => None end)
        (mjoin ((λ e : StageKey * StageRuntime, partitions e.2) <$>
          base.filter (λ e : StageKey * StageRuntime, e.1.1 = query_id) (btree_iter (stages c)))) in
    Ok (dedup (merge_sort key_le workers))
  else Err (query_not_found query_id).

Definition dependencies_succeeded (c : Coordinator) (stage : StageRuntime) : bool :=
  forallb (λ dependency,
    match stages c !! (sp_query_id (plan stage), dependency) with
    | Some dependency => forallb is_succeeded (partitions dependency)
    | None => false
    end) (sp_input_stages (plan stage)).

Definition stage_status (c : Coordinator) (query_id : QueryId) (stage_id : StageId)
    : result StageStatus :=
  stage ← ok_or (stages c !! (query_id, stage_id)) (stage_not_found query_id stage_id);
  Ok (if contains_key (cancelled_queries c) query_id then StageCancelled
      else if existsb is_failed (partitions stage) then StageFailed
      else if forallb is_succeeded (partitions stage) then StageSucceeded
      else if existsb is_active (partitions stage) then StageRunning
      else if dependencies_succeeded c stage then StageReady
      else StageBlocked).

Definition partition_status (c : Coordinator) (query_id : QueryId) (stage_id : StageId)
    (partition_id : PartitionId) : result PartitionStatus :=
  stage ← ok_or (stages c !! (query_id, stage_id)) (stage_not_found query_id stage_id);
  partition ← ok_or (partitions stage !! N.to_nat (partition_num partition_id))
    (NotFound ("partition " +:+ pretty (partition_num partition_id) +:+
               " does not exist in query " +:+ query_text query_id +:+
               " stage " +:+ pretty (stage_num stage_id)));
  Ok (match partition with
      | Pending next_attempt => StatusPending next_attempt
      | Active task _ _ _ => StatusRunning (ta_attempt task)
      | Cancelling task _ _ => StatusCancelling (ta_attempt task)
      | Succeeded task _ => StatusSucceeded (ta_attempt task)
      | Failed attempt error retryable => StatusFailed attempt error retryable
      | PartitionCancelled => StatusCancelled
      end).

Definition succeeded_blocks (p : PartitionRuntime) : list ShuffleBlock :=
  match p with Succeeded _ output_blocks => output_blocks | _ => [] end.

Definition stage_output_blocks (c : Coordinator) (query_id : QueryId) (stage_id : StageId)
    : result (list ShuffleBlock) :=
  stage ← ok_or (stages c !! (query_id, stage_id)) (stage_not_found query_id stage_id);
  if negb (contains_key (cancelled_queries c) query_id)
     && negb (forallb is_succeeded (partitions stage))
  then Err (coordinator_error ("query " +:+ query_text query_id +:+ " stage " +:+
              pretty (stage_num stage_id) +:+ " has not succeeded"))
  else Ok (mjoin (succeeded_blocks <$> partitions stage)).

(** [iter.filter(..).count().try_into().unwrap_or(u32::MAX)] *)
Definition occupies (worker_id : WorkerId) (p : PartitionRuntime) : bool :=
  match p with
  | Active _ assigned_worker _ _ | Cancelling _ assigned_worker _ =>
      bool_decide (assigned_worker = worker_id)
  | _ => false
  end.

Definition active_tasks_for_worker (c : Coordinator) (worker_id : WorkerId) : N :=
  let count := N.of_nat (length (base.filter (λ p, occupies worker_id p = true)
                 (mjoin (partitions <$> btree_values (stages c))))) in
  match try_u32 count with Some n => n | None => U32_MAX end.

(** ** Helpers of the transitions *)

Definition retry_or_fail (max_task_attempts attempt : N) (error : string) : PartitionRuntime :=
  let next_attempt := saturating_add_u32 attempt 1 in
  if (next_attempt <? max_task_attempts)%N then Pending next_attempt
  else Failed attempt error true.

Definition validate_reported_time (event : string) (timestamp_ms : N) (lease : TaskLease)
    (received_at_ms : N) : result unit :=
  if (timestamp_ms <? tl_issued_at_ms lease)%N
  then Err (coordinator_error ("task " +:+ event +:+ " before its lease was issued"))
  else if (tl_expires_at_ms lease <=? timestamp_ms)%N
  then Err (coordinator_error ("task " +:+ event +:+ " after its lease expired"))
  else if (received_at_ms <? timestamp_ms)%N
  then Err (coordinator_error ("task " +:+ event +:+
              " time is later than the coordinator receive time"))
  else Ok tt.

Definition set_slots (w : WorkerRuntime) (slots : N) : WorkerRuntime :=
  MkWorkerRuntime (registration w) (last_observed_at_ms w) (last_received_at_ms w)
    slots (available_memory_bytes w) (alive w).

Definition release_worker_slot (worker_id : WorkerId) (c : Coordinator) : Coordinator :=
  match workers c !! worker_id with
  | Some worker =>
      if alive worker then
        let slots := N.min (saturating_add_u32 (available_slots worker) 1)
                           (wr_slots (registration worker)) in
        with_workers c (<[worker_id := set_slots worker slots]> (workers c))
      else c
  | None => c
  end.

(** [stages.get_mut(&key).expect(..).partitions[index] = replacement] *)
Definition set_partition (key : StageKey) (index : nat) (replacement : PartitionRuntime)
    (c : Coordinator) : result Coordinator :=
  stage ← expect (stages c !! key) "stage must exist";
  if decide (index < length (partitions stage)) then
    Ok (with_stages c
      (<[key := MkStageRuntime (plan stage) (<[index := replacement]> (partitions stage))]>
        (stages c)))
  else Panic "index out of bounds".

(** ** [submit_stage] *)

Section transitions.
Context `{PlanFragments}.

(** The second loop over the dependencies of a partitioned stage. *)
Definition check_partitioned_dependency (c : Coordinator) (stage : StagePlan)
    (dependency : StageId) : result unit :=
  upstream ← expect (stages c !! (sp_query_id stage, dependency)) "no entry found for key";
  if decide (he_partition_count <$> sp_output_exchange (plan upstream)
             = Some (sp_partition_count stage))
  then Ok tt
  else Err (coordinator_error "partitioned dependency must use matching hash exchange").

Definition check_dependency (c : Coordinator) (stage : StagePlan)
    (dependency : StageId) : result unit :=
  if contains_key (stages c) (sp_query_id stage, dependency) then Ok tt
  else Err (coordinator_error ("stage " +:+ pretty (stage_num (sp_stage_id stage)) +:+
              " depends on unsubmitted stage " +:+ pretty (stage_num dependency))).

(** The checks of [submit_stage], in order. *)
Definition submit_checks (c : Coordinator) (stage : StagePlan) : result unit :=
  _ ← StagePlan_validate stage;
  if (max_stage_partitions (config c) <? sp_partition_count stage)%N
  then Err (coordinator_error ("stage has " +:+ pretty (sp_partition_count stage) +:+
              " partitions but the configured maximum is " +:+
              pretty (max_stage_partitions (config c))))
  else if contains_key (cancelled_queries c) (sp_query_id stage)
  then Err (coordinator_error ("query " +:+ query_text (sp_query_id stage) +:+
              " is already cancelled"))
  else if contains_key (stages c) (sp_query_id stage, sp_stage_id stage)
  then Err (coordinator_error ("stage " +:+ pretty (stage_num (sp_stage_id stage)) +:+
              " for query " +:+ query_text (sp_query_id stage) +:+ " is already submitted"))
  else
    _ ← for_each (check_dependency c stage) (sp_input_stages stage);
    _ ← (if sp_partitioned_input stage
         then for_each (check_partitioned_dependency c stage) (sp_input_stages stage)
         else Ok tt);
    if match sp_output_exchange stage with
       | Some exchange => (max_stage_partitions (config c) <? he_partition_count exchange)%N
       | None => false
       end
    then Err (coordinator_error "exchange exceeds configured partition maximum")
    else Ok tt.

Definition submit_stage (stage : StagePlan) (c : Coordinator) : result unit * Coordinator :=
  propagate _ := submit_checks c stage keeping c in
  let fresh := replicate (N.to_nat (sp_partition_count stage)) (Pending 0) in
  (Ok tt, with_stages c
            (<[(sp_query_id stage, sp_stage_id stage) := MkStageRuntime stage fresh]>
              (stages c))).

(** ** [advance_time] *)

Definition mark_dead (w : WorkerRuntime) : WorkerRuntime :=
  MkWorkerRuntime (registration w) (last_observed_at_ms w) (last_received_at_ms w) 0 0 false.

Definition timed_out (c : Coordinator) (now_ms : N) (w : WorkerRuntime) : bool :=
  alive w && (heartbeat_timeout_ms (config c) <? saturating_sub now_ms (last_received_at_ms w))%N.

Definition timed_out_workers (c : Coordinator) (now_ms : N) : list WorkerId :=
  (base.filter (λ e : WorkerId * WorkerRuntime, timed_out c now_ms e.2 = true)
     (btree_iter (workers c))).*1.

Fixpoint mark_all_dead (ids : list WorkerId) (ws : gmap WorkerId WorkerRuntime)
    : result (gmap WorkerId WorkerRuntime) :=
  match ids with
  | [] => Ok ws
  | worker_id :: rest =>
      worker ← expect (ws !! worker_id) "timed-out worker must exist";
      mark_all_dead rest (<[worker_id := mark_dead worker]> ws)
  end.

Record Expired := MkExpired {
  ex_key : StageKey;
  ex_index : nat;
  ex_attempt : N;
  ex_worker : WorkerId;
  ex_worker_timed_out : bool;
  ex_cancelling : bool;
}.

Definition expired_partition (now_ms : N) (dead : list WorkerId) (key : StageKey)
    (index : nat) (p : PartitionRuntime) : option Expired :=
  let check task worker_id lease cancelling :=
    let worker_timed_out := bool_decide (worker_id ∈ dead) in
    if worker_timed_out || (tl_expires_at_ms lease <=? now_ms)%N
    then Some (MkExpired key index (ta_attempt task) worker_id worker_timed_out cancelling)
    else None in
  match p with
  | Active task worker_id lease _ => check task worker_id lease false
  | Cancelling task worker_id lease => check task worker_id lease true
  | _ => None
  end.

Definition expired_tasks (c : Coordinator) (now_ms : N) (dead : list WorkerId)
    : list Expired :=
  mjoin ((λ e : StageKey * StageRuntime,
    omap (λ ip : nat * PartitionRuntime, expired_partition now_ms dead e.1 ip.1 ip.2)
      (enumerate (partitions e.2))) <$> btree_iter (stages c)).

Definition expiry_replacement (c : Coordinator) (e : Expired) : PartitionRuntime :=
  if ex_cancelling e then PartitionCancelled
  else retry_or_fail (max_task_attempts (config c)) (ex_attempt e)
         (if ex_worker_timed_out e then "worker heartbeat timed out" else "task lease expired").

Definition expire_task (e : Expired) (c : Coordinator) : result Coordinator :=
  let c1 := if ex_worker_timed_out e then c else release_worker_slot (ex_worker e) c in
  set_partition (ex_key e) (ex_index e) (expiry_replacement c e) c1.

Fixpoint expire_all (es : list Expired) (c : Coordinator) : result Coordinator :=
  match es with
  | [] => Ok c
  | e :: rest => c1 ← expire_task e c; expire_all rest c1
  end.

(** [advance_time] has no failing path: it returns the next state or panics. *)
Definition advance_time (now_ms : N) (c : Coordinator) : result Coordinator :=
  let dead := timed_out_workers c now_ms in
  ws ← mark_all_dead dead (workers c);
  let c1 := with_workers c ws in
  expire_all (expired_tasks c1 now_ms dead) c1.

(** ** Worker messages *)

Definition register_worker (r : WorkerRegistration) (received_at_ms : N) (c : Coordinator)
    : result unit * Coordinator :=
  if contains_key (workers c) (wr_worker_id r)
  then (Err (coordinator_error ("worker " +:+ worker_text (wr_worker_id r) +:+
               " is already registered")), c)
  else (Ok tt, with_workers c
         (<[wr_worker_id r := MkWorkerRuntime r 0 received_at_ms (wr_slots r)
              (wr_memory_bytes r) true]> (workers c))).

Definition record_heartbeat (h : WorkerHeartbeat) (received_at_ms : N) (c : Coordinator)
    : result unit * Coordinator :=
  let active_tasks := active_tasks_for_worker c (wh_worker_id h) in
  let name := worker_text (wh_worker_id h) in
  propagate worker := ok_or (workers c !! wh_worker_id h)
    (coordinator_error ("heartbeat came from unregistered worker " +:+ name)) keeping c in
  if (wh_observed_at_ms h <? last_observed_at_ms worker)%N
  then (Err (coordinator_error ("worker " +:+ name +:+ " heartbeat time moved backwards")), c)
  else
    let maximum_available_slots :=
      saturating_sub (wr_slots (registration worker)) active_tasks in
    if (maximum_available_slots <? wh_available_slots h)%N
    then (Err (coordinator_error ("worker " +:+ name +:+ " reports " +:+
                 pretty (wh_available_slots h) +:+ " available slots but at most " +:+
                 pretty maximum_available_slots +:+ " are possible")), c)
    else if (wr_memory_bytes (registration worker) <? wh_available_memory_bytes h)%N
    then (Err (coordinator_error ("worker " +:+ name +:+
                 " reports more memory than it registered")), c)
    else (Ok tt, with_workers c
           (<[wh_worker_id h := MkWorkerRuntime (registration worker) (wh_observed_at_ms h)
                received_at_ms (wh_available_slots h) (wh_available_memory_bytes h) true]>
             (workers c))).

Definition superseded (task : TaskAttemptId) (p : PartitionRuntime) : bool :=
  match p with
  | Pending next_attempt => (ta_attempt task <? next_attempt)%N
  | Active current _ _ _ | Cancelling current _ _ | Succeeded current _ =>
      (ta_attempt task <? ta_attempt current)%N
  | Failed attempt _ _ => (ta_attempt task <=? attempt)%N
  | PartitionCancelled => true
  end.

(** A hash exchange commits one block per destination. *)
Definition exchange_mismatch (stage : StagePlan) (state : TaskState) : bool :=
  match sp_output_exchange stage, state with
  | Some exchange, TaskSucceeded _ output_blocks =>
      let destinations : gset N :=
        list_to_set ((λ b, partition_num (sb_output_partition b)) <$> output_blocks) in
      negb (N.of_nat (length output_blocks) =? he_partition_count exchange)%N
      || negb (N.of_nat (size destinations) =? he_partition_count exchange)%N
      || existsb (λ p, (he_partition_count exchange <=? p)%N) (elements destinations)
  | _, _ => false
  end.

(** The branch for a partition that is being cancelled. *)
Definition update_cancelling (worker_id : WorkerId) (task : TaskAttemptId)
    (state : TaskState) (received_at_ms : N) (key : StageKey) (index : nat)
    (active_task : TaskAttemptId) (assigned_worker : WorkerId) (lease : TaskLease)
    (c : Coordinator) : result unit * Coordinator :=
  if decide (active_task = task) then
    if decide (assigned_worker = worker_id ∧ tl_worker_id lease = worker_id) then
      match state with
      | TaskRunning started_at_ms =>
          propagate _ := validate_reported_time "started" started_at_ms lease received_at_ms
            keeping c in (Ok tt, c)
      | TaskSucceeded finished_at_ms _ | TaskFailed finished_at_ms _ _
      | TaskCancelled finished_at_ms _ =>
          propagate _ := validate_reported_time "finished" finished_at_ms lease received_at_ms
            keeping c in
          propagate c1 := set_partition key index PartitionCancelled c keeping c in
          (Ok tt, release_worker_slot worker_id c1)
      end
    else (Err (coordinator_error
            "task cancellation came from a worker that does not own its lease"), c)
  else (Err (coordinator_error "task update does not match the cancelling attempt"), c).

(** The final match of [record_task_update]: what an accepted report does to
    the active partition it is about. *)
Definition apply_report (worker_id : WorkerId) (task : TaskAttemptId) (state : TaskState)
    (received_at_ms : N) (key : StageKey) (index : nat) (active_task : TaskAttemptId)
    (assigned_worker : WorkerId) (lease : TaskLease) (started_at_ms : option N)
    (c : Coordinator) : result unit * Coordinator :=
  let finish p :=
    propagate c1 := set_partition key index p c keeping c in
    (Ok tt, release_worker_slot worker_id c1) in
  match state with
  | TaskRunning reported_start =>
      propagate _ := validate_reported_time "started" reported_start lease received_at_ms
        keeping c in
      match started_at_ms with
      | Some existing_start =>
          if decide (existing_start = reported_start) then (Ok tt, c)
          else (Err (coordinator_error "task start time changed between updates"), c)
      | None =>
          propagate c1 := set_partition key index
            (Active active_task assigned_worker lease (Some reported_start)) c keeping c in
          (Ok tt, c1)
      end
  | TaskSucceeded finished_at_ms output_blocks =>
      propagate _ := validate_reported_time "finished" finished_at_ms lease received_at_ms
        keeping c in
      finish (Succeeded task output_blocks)
  | TaskFailed finished_at_ms error retryable =>
      propagate _ := validate_reported_time "finished" finished_at_ms lease received_at_ms
        keeping c in
      finish (if retryable
              then retry_or_fail (max_task_attempts (config c)) (ta_attempt task) error
              else Failed (ta_attempt task) error false)
  | TaskCancelled finished_at_ms _ =>
      propagate _ := validate_reported_time "finished" finished_at_ms lease received_at_ms
        keeping c in
      finish PartitionCancelled
  end.

Definition update_active (worker_id : WorkerId) (task : TaskAttemptId)
    (state : TaskState) (received_at_ms : N) (key : StageKey) (index : nat)
    (active_task : TaskAttemptId) (assigned_worker : WorkerId) (lease : TaskLease)
    (started_at_ms : option N) (c : Coordinator) : result unit * Coordinator :=
  if decide (active_task = task) then
    if decide (assigned_worker = worker_id ∧ tl_worker_id lease = worker_id) then
      if (tl_expires_at_ms lease <=? received_at_ms)%N
      then (Err (coordinator_error "task update arrived after its lease expired"), c)
      else apply_report worker_id task state received_at_ms key index active_task
             assigned_worker lease started_at_ms c
    else (Err (coordinator_error
            "task update came from a worker that does not own its lease"), c)
  else (Err (coordinator_error "task update does not match the active attempt"), c).

Definition record_task_update (worker_id : WorkerId) (task : TaskAttemptId)
    (state : TaskState) (received_at_ms : N) (c : Coordinator) : result unit * Coordinator :=
  if negb (contains_key (workers c) worker_id)
  then (Err (coordinator_error ("task update came from unregistered worker " +:+
               worker_text worker_id)), c)
  else
    let key := (ta_query_id task, ta_stage_id task) in
    let index := N.to_nat (partition_num (ta_partition_id task)) in
    propagate stage := ok_or (stages c !! key)
      (stage_not_found (ta_query_id task) (ta_stage_id task)) keeping c in
    propagate _ := TaskAttemptId_validate_for task (plan stage) keeping c in
    propagate partition := expect (partitions stage !! index) "index out of bounds"
      keeping c in
    if superseded task partition then (Err TaskSuperseded, c)
    else if exchange_mismatch (plan stage) state
    then (Err (coordinator_error
            "hash exchange must commit exactly one block per destination"), c)
    else match partition with
    | Cancelling active_task assigned_worker lease =>
        update_cancelling worker_id task state received_at_ms key index
          active_task assigned_worker lease c
    | Active active_task assigned_worker lease started_at_ms =>
        update_active worker_id task state received_at_ms key index
          active_task assigned_worker lease started_at_ms c
    | _ => (Err (coordinator_error "task update is stale or was not assigned"), c)
    end.

Definition handle_worker_message (message : WorkerMessage) (received_at_ms : N)
    (c : Coordinator) : result unit * Coordinator :=
  propagate _ := WorkerMessage_validate message keeping c in
  propagate c1 := advance_time received_at_ms c keeping c in
  match message with
  | Register _ registration => register_worker registration received_at_ms c1
  | Heartbeat _ heartbeat => record_heartbeat heartbeat received_at_ms c1
  | TaskUpdate _ worker_id task state =>
      record_task_update worker_id task state received_at_ms c1
  end.

(** ** Assignment *)

Definition first_pending (ps : list PartitionRuntime) : option (nat * N) :=
  find_map (λ ip : nat * PartitionRuntime,
    match ip.2 with Pending next_attempt => Some (ip.1, next_attempt) | _ => None end)
    (enumerate ps).

Definition next_pending_partition (c : Coordinator) : option (StageKey * nat * N) :=
  find_map (λ e : StageKey * StageRuntime,
    if contains_key (cancelled_queries c) e.1.1 || negb (dependencies_succeeded c e.2)
    then None
    else match first_pending (partitions e.2) with
         | Some (partition_index, attempt) => Some (e.1, partition_index, attempt)
         | None => None
         end) (btree_iter (stages c)).

(** The blocks of one dependency, partition by partition. *)
Fixpoint committed_blocks (stage_id dependency_id : StageId) (ps : list PartitionRuntime)
    : result (list ShuffleBlock) :=
  match ps with
  | [] => Ok []
  | Succeeded _ output_blocks :: rest =>
      blocks ← committed_blocks stage_id dependency_id rest; Ok (output_blocks ++ blocks)
  | _ :: _ => Err (coordinator_error ("stage " +:+ pretty (stage_num stage_id) +:+
                " was selected before dependency " +:+ pretty (stage_num dependency_id) +:+
                " succeeded"))
  end.

Fixpoint dependency_blocks (c : Coordinator) (key : StageKey) (deps : list StageId)
    : result (list ShuffleBlock) :=
  match deps with
  | [] => Ok []
  | dependency_id :: rest =>
      dependency ← expect (stages c !! (key.1, dependency_id))
        "submitted stage dependency must exist";
      blocks ← committed_blocks key.2 dependency_id (partitions dependency);
      more ← dependency_blocks c key rest;
      Ok (blocks ++ more)
  end.

Definition dependency_output_blocks (c : Coordinator) (key : StageKey)
    : result (list ShuffleBlock) :=
  stage ← expect (stages c !! key) "selected stage must exist";
  dependency_blocks c key (sp_input_stages (plan stage)).

Definition take_worker_slot (worker_id : WorkerId) (c : Coordinator) : result Coordinator :=
  worker ← expect (workers c !! worker_id) "selected worker must exist";
  if (available_slots worker =? 0)%N then Panic "attempt to subtract with overflow"
  else Ok (with_workers c
         (<[worker_id := set_slots worker (available_slots worker - 1)%N]> (workers c))).

Definition assign_to_worker (worker_id : WorkerId) (now_ms : N) (c : Coordinator)
    : result (option CoordinatorMessage) * Coordinator :=
  match next_pending_partition c with
  | None => (Ok None, c)
  | Some (key, partition_index, attempt) =>
      propagate expires_at_ms :=
        ok_or (checked_add_u64 now_ms (lease_duration_ms (config c)))
          (coordinator_error "task lease timestamp overflowed") keeping c in
      propagate partition_id := ok_or (try_u32 (N.of_nat partition_index))
        (coordinator_error "partition index exceeds u32") keeping c in
      let task := MkTaskAttemptId key.1 key.2 (MkPartitionId partition_id) attempt in
      let lease := MkTaskLease worker_id now_ms expires_at_ms in
      propagate all_blocks := dependency_output_blocks c key keeping c in
      propagate stage := expect (stages c !! key) "no entry found for key" keeping c in
      let input_blocks :=
        if sp_partitioned_input (plan stage)
        then base.filter (λ b, sb_output_partition b = ta_partition_id task) all_blocks
        else all_blocks in
      propagate c1 := set_partition key partition_index (Active task worker_id lease None) c
        keeping c in
      propagate c2 := take_worker_slot worker_id c1 keeping c1 in
      let assignment := AssignTask PROTOCOL_VERSION (plan stage) task lease input_blocks in
      propagate _ := CoordinatorMessage_validate assignment keeping c2 in
      (Ok (Some assignment), c2)
  end.

Definition next_assignment (now_ms : N) (c : Coordinator)
    : result (option CoordinatorMessage) * Coordinator :=
  propagate c1 := advance_time now_ms c keeping c in
  match find_first (λ e : WorkerId * WorkerRuntime, alive e.2 && (0 <? available_slots e.2)%N)
          (btree_iter (workers c1)) with
  | Some (worker_id, _) => assign_to_worker worker_id now_ms c1
  | None => (Ok None, c1)
  end.

Definition next_assignment_for (worker_id : WorkerId) (now_ms : N) (c : Coordinator)
    : result (option CoordinatorMessage) * Coordinator :=
  propagate c1 := advance_time now_ms c keeping c in
  propagate worker := ok_or (workers c1 !! worker_id)
    (coordinator_error ("unregistered worker " +:+ worker_text worker_id +:+
       " requested an assignment")) keeping c1 in
  if negb (alive worker) || (available_slots worker =? 0)%N then (Ok None, c1)
  else assign_to_worker worker_id now_ms c1.

(** ** Cancellation *)

Definition cancel_partition (p : PartitionRuntime) : PartitionRuntime :=
  match p with
  | Active task worker_id lease _ => Cancelling task worker_id lease
  | Succeeded _ _ => p
  | _ => PartitionCancelled
  end.

Definition cancel_stage (query_id : QueryId) (key : StageKey) (stage : StageRuntime)
    : StageRuntime :=
  if decide (key.1 = query_id)
  then MkStageRuntime (plan stage) (cancel_partition <$> partitions stage)
  else stage.

Definition cancel_query (query_id : QueryId) (reason : string) (c : Coordinator)
    : result CoordinatorMessage * Coordinator :=
  let message := CancelQuery PROTOCOL_VERSION query_id reason in
  propagate _ := CoordinatorMessage_validate message keeping c in
  if negb (query_registered c query_id) then (Err (query_not_found query_id), c)
  else match cancelled_queries c !! query_id with
  | Some existing_reason =>
      if decide (existing_reason = reason) then (Ok message, c)
      else (Err (coordinator_error ("query " +:+ query_text query_id +:+
              " was already cancelled for a different reason")), c)
  | None =>
      (Ok message,
       with_cancelled
         (with_stages c (map_imap (λ k s, Some (cancel_stage query_id k s)) (stages c)))
         (<[query_id := reason]> (cancelled_queries c)))
  end.
End transitions.
