(* ===== verification/CoordinatorClock.v ===== *)
(** * The coordinator's clock

    [advance_time] first collects the workers that missed their heartbeat and
    the attempts whose lease ran out, and then replays that list against the
    state.  Here the two phases are reduced to one entry-wise description,
    [advanced], which the other files reason with. *)
From S2P Require Import Prelude Text Protocol Coordinator.

(** The partition at a position. *)
Definition part (c : Coordinator) (key : StageKey) (i : nat) : option PartitionRuntime :=
  st ← stages c !! key; partitions st !! i.

(** What one freed slot does to its worker. *)
Definition release_slot (w : WorkerRuntime) : WorkerRuntime :=
  if alive w
  then set_slots w (N.min (saturating_add_u32 (available_slots w) 1) (wr_slots (registration w)))
  else w.

(** The partition an expiry check leaves behind; [dead] are the workers that
    just timed out. *)
Definition expire_partition (cfg : CoordinatorConfig) (now_ms : N) (dead : list WorkerId)
    (p : PartitionRuntime) : PartitionRuntime :=
  match p with
  | Active task w lease _ =>
      if decide (w ∈ dead)
      then retry_or_fail (max_task_attempts cfg) (ta_attempt task) "worker heartbeat timed out"
      else if (tl_expires_at_ms lease <=? now_ms)%N
      then retry_or_fail (max_task_attempts cfg) (ta_attempt task) "task lease expired"
      else p
  | Cancelling task w lease =>
      if decide (w ∈ dead) then PartitionCancelled
      else if (tl_expires_at_ms lease <=? now_ms)%N then PartitionCancelled
      else p
  | _ => p
  end.

(** Does the expiry of [p] return a slot to [w]? *)
Definition frees (now_ms : N) (dead : list WorkerId) (w : WorkerId) (p : PartitionRuntime) : bool :=
  match p with
  | Active _ w' lease _ | Cancelling _ w' lease =>
      bool_decide (w' = w) && negb (bool_decide (w' ∈ dead)) && (tl_expires_at_ms lease <=? now_ms)%N
  | _ => false
  end.

Definition count {A} (f : A → bool) (l : list A) : nat :=
  length (base.filter (λ x, f x = true) l).

Definition freed_slots (c : Coordinator) (now_ms : N) (dead : list WorkerId) (w : WorkerId) : nat :=
  map_sum (λ st, count (frees now_ms dead w) (partitions st)) (stages c).

Definition map_partitions (f : PartitionRuntime → PartitionRuntime) (st : StageRuntime)
    : StageRuntime :=
  MkStageRuntime (plan st) (f <$> partitions st).

(** The state after the clock reached [now_ms]. *)
Definition advanced (now_ms : N) (c : Coordinator) : Coordinator :=
  let dead := timed_out_workers c now_ms in
  MkCoordinator (config c)
    (map_imap (λ w wr, Some (Nat.iter (freed_slots c now_ms dead w) release_slot
        (if timed_out c now_ms wr then mark_dead wr else wr))) (workers c))
    (map_partitions (expire_partition (config c) now_ms dead) <$> stages c)
    (cancelled_queries c).

(** ** Counting *)

Lemma count_nil {A} (f : A → bool) : count f [] = 0.
Proof. done. Qed.

Lemma count_cons {A} (f : A → bool) x l : count f (x :: l) = (if f x then 1 else 0) + count f l.
Proof.
  unfold count. rewrite filter_cons. destruct (f x); [by rewrite decide_True|].
  by rewrite decide_False.
Qed.

Lemma count_app {A} (f : A → bool) l k : count f (l ++ k) = count f l + count f k.
Proof. unfold count. by rewrite list.filter_app, length_app. Qed.

Lemma count_insert {A} (f : A → bool) l i x y :
  l !! i = Some x →
  count f (<[i:=y]> l) + (if f x then 1 else 0) = count f l + (if f y then 1 else 0).
Proof.
  intros Hi. rewrite insert_take_drop by by eapply lookup_lt_Some.
  rewrite <-(take_drop_middle l i x Hi) at 3.
  rewrite !count_app, !count_cons. lia.
Qed.

Lemma count_le_length {A} (f : A → bool) l : count f l ≤ length l.
Proof. apply length_filter. Qed.

Lemma count_zero {A} (f : A → bool) l : count f l = 0 ↔ ∀ i x, l !! i = Some x → f x = false.
Proof.
  induction l as [|x l IH]; [rewrite count_nil; split; [by intros _ []|done]|].
  rewrite count_cons. split.
  - intros Hc i y Hi. destruct i as [|i]; simpl in Hi.
    + injection Hi as ->. by destruct (f y).
    + apply (proj1 IH) with i; [lia|done].
  - intros Hall. rewrite (Hall 0 x eq_refl). simpl. apply IH. intros i y Hi. by apply (Hall (S i)).
Qed.

Lemma count_mjoin {A B} (f : A → bool) (g : B → list A) (l : list B) :
  count f (mjoin (g <$> l)) = sum_list ((λ b, count f (g b)) <$> l).
Proof.
  induction l as [|b l IH]; [done|].
  change (count f (g b ++ mjoin (g <$> l)) =
          count f (g b) + sum_list ((λ b, count f (g b)) <$> l)).
  by rewrite count_app, IH.
Qed.

Lemma sum_list_Permutation (l k : list nat) : l ≡ₚ k → sum_list l = sum_list k.
Proof. induction 1; simpl; lia. Qed.

Lemma btree_sum `{Countable K, !KeyOrder K} {V} (f : V → nat) (m : gmap K V) :
  sum_list ((λ e : K * V, f e.2) <$> btree_iter m) = map_sum f m.
Proof.
  rewrite map_sum_list, <-list_fmap_compose.
  apply sum_list_Permutation. by rewrite btree_iter_Permutation.
Qed.

Lemma btree_values_sum `{Countable K, !KeyOrder K} {V} (f : V → nat) (m : gmap K V) :
  sum_list (f <$> btree_values m) = map_sum f m.
Proof. unfold btree_values. rewrite <-list_fmap_compose. apply btree_sum. Qed.

(** ** Phase one: workers that missed their heartbeat *)

Lemma mark_dead_idemp w : mark_dead (mark_dead w) = mark_dead w.
Proof. done. Qed.

Lemma mark_all_dead_ok ids ws :
  (∀ w, w ∈ ids → is_Some (ws !! w)) →
  ∃ ws', mark_all_dead ids ws = Ok ws' ∧
    ∀ w, ws' !! w = if decide (w ∈ ids) then mark_dead <$> ws !! w else ws !! w.
Proof.
  revert ws. induction ids as [|id ids IH]; intros ws Hids; cbn [mark_all_dead].
  { exists ws. split; [done|]. intros w. by rewrite decide_False by inversion 1. }
  destruct (Hids id) as [wr Hwr]; [by left|]. rewrite Hwr. simpl.
  destruct (IH (<[id:=mark_dead wr]> ws)) as (ws' & Hws' & Hl).
  { intros w Hw. rewrite lookup_insert. case_decide; [by eexists|]. apply Hids. by right. }
  exists ws'. split; [done|]. intros w. rewrite Hl, lookup_insert.
  destruct (decide (w = id)) as [->|Hne].
  - rewrite (decide_True (P := id ∈ id :: ids)) by by left.
    rewrite (decide_True (P := id = id)) by done. rewrite Hwr. by case_decide.
  - rewrite (decide_False (P := id = w)) by done.
    destruct (decide (w ∈ ids)).
    + by rewrite decide_True by by right.
    + by rewrite decide_False by by intros [?|?]%elem_of_cons.
Qed.

Lemma elem_of_timed_out c now w :
  w ∈ timed_out_workers c now ↔
  ∃ wr, workers c !! w = Some wr ∧ timed_out c now wr = true.
Proof.
  unfold timed_out_workers. rewrite list_elem_of_fmap. split.
  - intros ([w' wr] & -> & [Ht Hin%elem_of_btree_iter]%list_elem_of_filter). eauto.
  - intros (wr & Hwr & Ht). exists (w, wr). split; [done|].
    by rewrite list_elem_of_filter, elem_of_btree_iter.
Qed.

(** ** Phase two: replaying the expired attempts *)

Lemma release_worker_slot_alter w c :
  release_worker_slot w c = with_workers c (alter release_slot w (workers c)).
Proof.
  unfold release_worker_slot, release_slot. rewrite alter_alt.
  destruct c as [cfg ws ss cq]; unfold with_workers; simpl.
  destruct (ws !! w) as [wr|] eqn:E; [|done].
  destruct (alive wr); [done|]. by rewrite insert_id.
Qed.

(** [set_partition] on a position that exists. *)
Lemma set_partition_ok key i q c st :
  stages c !! key = Some st → i < length (partitions st) →
  set_partition key i q c =
    Ok (with_stages c (<[key := MkStageRuntime (plan st) (<[i:=q]> (partitions st))]> (stages c))).
Proof. intros Hst Hi. unfold set_partition. rewrite Hst. simpl. by rewrite decide_True. Qed.

Lemma set_partition_inv key i q c c' :
  set_partition key i q c = Ok c' →
  ∃ st p, stages c !! key = Some st ∧ partitions st !! i = Some p ∧
    c' = with_stages c (<[key := MkStageRuntime (plan st) (<[i:=q]> (partitions st))]> (stages c)).
Proof.
  unfold set_partition. destruct (stages c !! key) as [st|]; [|done]. simpl.
  case_decide as Hi; [|done]. intros [= <-].
  destruct (lookup_lt_is_Some_2 _ _ Hi) as [p Hp]. by exists st, p.
Qed.

Lemma part_Some c key i p :
  part c key i = Some p ↔ ∃ st, stages c !! key = Some st ∧ partitions st !! i = Some p.
Proof. unfold part. by rewrite bind_Some. Qed.

(** What [expire_all] did to one position: nothing, or the replacement of an
    attempt listed for it. *)
Definition replayed (c : Coordinator) (es : list Expired) (key : StageKey) (i : nat)
    (p p' : PartitionRuntime) : Prop :=
  (p' = p ∧ ∀ e, e ∈ es → ¬ (ex_key e = key ∧ ex_index e = i)) ∨
  (∃ e, e ∈ es ∧ ex_key e = key ∧ ex_index e = i ∧ p' = expiry_replacement c e).

Definition returns_slot (w : WorkerId) (e : Expired) : bool :=
  bool_decide (ex_worker e = w) && negb (ex_worker_timed_out e).

Record replay_of (c c' : Coordinator) (es : list Expired) : Prop := {
  rp_config : config c' = config c;
  rp_cancelled : cancelled_queries c' = cancelled_queries c;
  rp_workers : ∀ w, workers c' !! w =
    Nat.iter (count (returns_slot w) es) release_slot <$> workers c !! w;
  rp_none : ∀ key, stages c !! key = None → stages c' !! key = None;
  rp_some : ∀ key st, stages c !! key = Some st →
    ∃ st', stages c' !! key = Some st' ∧ plan st' = plan st ∧
      length (partitions st') = length (partitions st) ∧
      ∀ i p, partitions st !! i = Some p →
        ∃ p', partitions st' !! i = Some p' ∧ replayed c es key i p p';
}.

Lemma replay_nil c : replay_of c c [].
Proof.
  split; try done.
  - intros w. rewrite count_nil. by destruct (workers c !! w).
  - intros key st Hst. exists st. split_and!; try done.
    intros i p Hp. exists p. split; [done|]. left. split; [done|]. inversion 1.
Qed.

Lemma expire_task_ok e c :
  is_Some (part c (ex_key e) (ex_index e)) →
  ∃ c1, expire_task e c = Ok c1 ∧ replay_of c c1 [e] ∧
    (∀ key i, is_Some (part c key i) → is_Some (part c1 key i)).
Proof.
  intros [p (st & Hst & Hp)%part_Some]. unfold expire_task.
  set (cr := if ex_worker_timed_out e then c else _).
  assert (stages cr = stages c ∧ config cr = config c ∧
          cancelled_queries cr = cancelled_queries c) as (Hs & Hc & Hq).
  { unfold cr. rewrite release_worker_slot_alter. by destruct (ex_worker_timed_out e). }
  rewrite (set_partition_ok _ _ _ _ st); [|by rewrite Hs|by eapply lookup_lt_Some].
  eexists. split; [done|]. split; [split|]; simpl; try congruence.
  - intros w. rewrite count_cons, count_nil, Nat.add_0_r. unfold cr, returns_slot.
    rewrite release_worker_slot_alter.
    destruct (ex_worker_timed_out e); simpl.
    + rewrite andb_false_r. by destruct (workers c !! w).
    + rewrite andb_true_r, lookup_alter.
      destruct (decide (ex_worker e = w)) as [<-|Hne].
      * rewrite bool_decide_eq_true_2 by done. by destruct (workers c !! _).
      * rewrite bool_decide_eq_false_2 by done. by destruct (workers c !! w).
  - intros key Hk. rewrite Hs, lookup_insert_ne by congruence. done.
  - intros key st0 Hk. rewrite Hs, lookup_insert.
    destruct (decide (ex_key e = key)) as [<-|Hne].
    + simplify_eq. eexists. split; [done|]. simpl. split; [done|].
      split; [by rewrite length_insert|]. intros i q Hq'.
      destruct (decide (ex_index e = i)) as [<-|Hi].
      * exists (expiry_replacement c e).
        rewrite list_lookup_insert_eq by by eapply lookup_lt_Some.
        split; [done|]. right. exists e. split_and!; try done. by left.
      * exists q. rewrite list_lookup_insert_ne by done. split; [done|]. left.
        split; [done|]. intros e' ->%list_elem_of_singleton [_ ?]. done.
    + exists st0. split_and!; try done. intros i q Hq'. exists q. split; [done|]. left.
      split; [done|]. intros e' ->%list_elem_of_singleton [? _]. done.
  - intros key i [q (st0 & Hk & Hq')%part_Some]. unfold part; simpl.
    rewrite Hs, lookup_insert. case_decide as Hke; [|by rewrite Hk].
    subst key. simplify_eq/=. apply lookup_lt_is_Some_2. rewrite length_insert.
    by eapply lookup_lt_Some.
Qed.

Lemma replay_cons c c1 c2 e es :
  replay_of c c1 [e] → replay_of c1 c2 es → replay_of c c2 (e :: es).
Proof.
  intros [C1 Q1 W1 N1 S1] [C2 Q2 W2 N2 S2]. split; try congruence.
  - intros w. rewrite W2, W1, <-option_fmap_compose, !count_cons, count_nil.
    destruct (workers c !! w); [|done]. simpl. f_equal.
    rewrite Nat.add_0_r. destruct (returns_slot w e); simpl; [|done].
    by rewrite Nat.iter_swap.
  - intros key Hk. by apply N2, N1.
  - intros key st (st1 & Hst1 & Hp1 & Hl1 & Hr1)%S1.
    destruct (S2 _ _ Hst1) as (st2 & Hst2 & Hp2 & Hl2 & Hr2).
    exists st2. split_and!; try congruence. intros i p Hp.
    destruct (Hr1 _ _ Hp) as (p1 & Hlk1 & HR1). destruct (Hr2 _ _ Hlk1) as (p2 & Hlk2 & HR2).
    exists p2. split; [done|]. unfold replayed, expiry_replacement in *. rewrite C1 in HR2.
    destruct HR2 as [[-> Hno]|(e2 & ? & ? & ? & ?)].
    + destruct HR1 as [[-> Hno1]|(e1 & ->%list_elem_of_singleton & ? & ? & ?)].
      * left. split; [done|]. intros e' [->|?]%elem_of_cons; [|by apply Hno].
        apply Hno1. by left.
      * right. exists e. split_and!; try done. by left.
    + right. exists e2. split_and!; try done. by right.
Qed.

Lemma expire_all_ok es c :
  (∀ e, e ∈ es → is_Some (part c (ex_key e) (ex_index e))) →
  ∃ c', expire_all es c = Ok c' ∧ replay_of c c' es.
Proof.
  revert c. induction es as [|e es IH]; intros c Hes; cbn [expire_all].
  { exists c. split; [done|apply replay_nil]. }
  destruct (expire_task_ok e c) as (c1 & -> & HR & Hpart); [apply Hes; by left|]. simpl.
  destruct (IH c1) as (c2 & -> & HR2).
  { intros e' He'. apply Hpart, Hes. by right. }
  exists c2. split; [done|]. by eapply replay_cons.
Qed.

(** ** The list that is replayed *)

Lemma elem_of_expired c now dead e :
  e ∈ expired_tasks c now dead ↔
  ∃ key i p, part c key i = Some p ∧ expired_partition now dead key i p = Some e.
Proof.
  unfold expired_tasks. rewrite list_elem_of_join. split.
  - intros (l & He & ([key st] & -> & Hin%elem_of_btree_iter)%list_elem_of_fmap).
    apply list_elem_of_omap in He as ([i p] & Hip%elem_of_enumerate & He).
    exists key, i, p. split; [|done]. apply part_Some. eauto.
  - intros (key & i & p & (st & Hst & Hp)%part_Some & He).
    eexists. split; [|apply list_elem_of_fmap; exists (key, st); split; [done|]].
    + apply list_elem_of_omap. exists (i, p). split; [by apply elem_of_enumerate|done].
    + by apply elem_of_btree_iter.
Qed.

Lemma expired_partition_pos now dead key i p e :
  expired_partition now dead key i p = Some e → ex_key e = key ∧ ex_index e = i.
Proof. unfold expired_partition. intros H. by repeat case_match; simplify_eq/=. Qed.

(** The replayed replacement is the entry-wise one. *)
Lemma expire_partition_alt c now dead key i p :
  expire_partition (config c) now dead p =
  match expired_partition now dead key i p with
  | Some e => expiry_replacement c e
  | None => p
  end.
Proof.
  unfold expired_partition, expire_partition.
  destruct p as [|t w l s|t w l| | |]; try done; destruct (decide (w ∈ dead));
    [rewrite bool_decide_eq_true_2 by done|rewrite bool_decide_eq_false_2 by done; simpl; case_match|
     rewrite bool_decide_eq_true_2 by done|rewrite bool_decide_eq_false_2 by done; simpl; case_match];
    done.
Qed.

Lemma count_omap_enumerate {A B} (f : A → bool) (g : nat → A → option B) (h : B → bool) l n :
  (∀ i x, f x = match g i x with Some y => h y | None => false end) →
  count h (omap (λ ix, g ix.1 ix.2) (enumerate_from n l)) = count f l.
Proof.
  intros Hf. revert n. induction l as [|x l IH]; intros n; [done|].
  rewrite count_cons, (Hf n). simpl. destruct (g n x); [by rewrite count_cons, IH|by rewrite IH].
Qed.

Lemma count_expired c now dead w :
  count (returns_slot w) (expired_tasks c now dead) = freed_slots c now dead w.
Proof.
  unfold expired_tasks, freed_slots. rewrite count_mjoin, <-btree_sum. f_equal.
  apply list_fmap_ext. intros j [key st] _. simpl.
  apply (count_omap_enumerate _ (λ i p, expired_partition now dead key i p)).
  intros i p. unfold frees, expired_partition, returns_slot.
  destruct p as [|t w' l s|t w' l| | |]; try done;
    destruct (bool_decide (w' ∈ dead)); simpl; try destruct (tl_expires_at_ms l <=? now)%N;
    simpl; by rewrite ?andb_false_r, ?andb_true_r.
Qed.

Lemma stages_ext (s1 s2 : StageRuntime) :
  plan s1 = plan s2 → partitions s1 = partitions s2 → s1 = s2.
Proof. by destruct s1, s2; simpl; intros -> ->. Qed.

(** [advance_time] is total, and its two phases amount to one entry-wise map. *)
Lemma advance_time_advanced now c : advance_time now c = Ok (advanced now c).
Proof.
  unfold advance_time. set (dead := timed_out_workers c now).
  destruct (mark_all_dead_ok dead (workers c)) as (ws & -> & Hws).
  { intros w (wr & Hwr & _)%elem_of_timed_out. eauto. }
  simpl. set (c1 := with_workers c ws).
  destruct (expire_all_ok (expired_tasks c1 now dead) c1) as (c2 & -> & [C Q W N S]).
  { intros e (key & i & p & Hp & He)%elem_of_expired.
    apply expired_partition_pos in He as [-> ->]. by eexists. }
  f_equal. unfold advanced. fold dead.
  destruct c2 as [cfg2 ws2 ss2 cq2]; simpl in *. f_equal; try done.
  - apply map_eq. intros w. rewrite W, Hws, map_lookup_imap, count_expired.
    change (freed_slots c1 now dead w) with (freed_slots c now dead w).
    destruct (workers c !! w) as [wr|] eqn:Ew; simpl; [|by case_decide].
    assert (w ∈ dead ↔ timed_out c now wr = true) as Hd.
    { unfold dead. rewrite elem_of_timed_out, Ew. naive_solver. }
    case_decide as Hdec; simpl; do 2 f_equal.
    + by rewrite (proj1 Hd Hdec).
    + destruct (timed_out c now wr); [by destruct Hdec; apply Hd|done].
  - apply map_eq. intros key. rewrite lookup_fmap.
    destruct (stages c !! key) as [st|] eqn:Est; [|by apply N].
    destruct (S key st Est) as (st' & -> & Hp & Hl & Hr). simpl. f_equal.
    apply stages_ext; [done|]. simpl. apply list_eq. intros i.
    rewrite list_lookup_fmap. destruct (partitions st !! i) as [p|] eqn:Ep.
    + destruct (Hr i p Ep) as (p' & -> & HR). simpl. f_equal.
      rewrite (expire_partition_alt c now dead key i).
      destruct HR as [[-> Hno]|(e & He & <- & <- & ->)].
      * destruct (expired_partition now dead key i p) as [e|] eqn:Ee; [|done].
        exfalso. apply (Hno e); [|by eapply expired_partition_pos].
        apply elem_of_expired. exists key, i, p. split; [apply part_Some; eauto|done].
      * apply elem_of_expired in He as (key & i & p0 & (st0 & Hst0 & Hp0)%part_Some & He).
        pose proof (expired_partition_pos _ _ _ _ _ _ He) as [Hk Hi]. subst key i.
        simpl in Hst0. simplify_eq. by rewrite He.
    + simpl. apply lookup_ge_None_2. rewrite Hl. by apply lookup_ge_None_1.
Qed.
