(* ===== verification/CoordinatorInv.v ===== *)
(** * The coordinator invariant

    Well-formed coordinator states, and the proof that every transition of
    [Coordinator.v], successful or not, keeps a state well formed. *)
From S2P Require Import Prelude Text Protocol Coordinator CoordinatorClock.

(** ** Well-formed states *)

(** A validated configuration whose [u32] fields fit their width. *)
Record valid_config (cfg : CoordinatorConfig) : Prop := {
  vc_lease : (0 < lease_duration_ms cfg)%N;
  vc_heartbeat : (0 < heartbeat_timeout_ms cfg)%N;
  vc_attempts : (0 < max_task_attempts cfg ≤ U32_MAX)%N;
  vc_partitions : (0 < max_stage_partitions cfg ≤ U32_MAX)%N;
}.

(** The attempts that occupy a slot of [w]. *)
Definition busy (c : Coordinator) (w : WorkerId) : nat :=
  map_sum (λ st, count (occupies w) (partitions st)) (stages c).

(** [t] names partition [i] of stage [key]. *)
Definition names_partition (key : StageKey) (i : nat) (t : TaskAttemptId) : Prop :=
  ta_query_id t = key.1 ∧ ta_stage_id t = key.2 ∧
  partition_num (ta_partition_id t) = N.of_nat i.

Definition lease_for (w : WorkerId) (l : TaskLease) : Prop :=
  tl_worker_id l = w ∧ (tl_issued_at_ms l < tl_expires_at_ms l)%N.

Section invariant.
Context `{PlanFragments}.

Record stage_wf (c : Coordinator) (key : StageKey) (st : StageRuntime) : Prop := {
  sw_key : (sp_query_id (plan st), sp_stage_id (plan st)) = key;
  sw_valid : valid_stage (plan st);
  sw_length : length (partitions st) = N.to_nat (sp_partition_count (plan st));
  sw_max : (sp_partition_count (plan st) ≤ max_stage_partitions (config c))%N;
  sw_deps : ∀ d, d ∈ sp_input_stages (plan st) →
    ∃ up, stages c !! (key.1, d) = Some up ∧
      (sp_partitioned_input (plan st) = true →
       he_partition_count <$> sp_output_exchange (plan up)
         = Some (sp_partition_count (plan st)));
}.

Definition part_wf (c : Coordinator) (key : StageKey) (i : nat) (p : PartitionRuntime) : Prop :=
  let max := max_task_attempts (config c) in
  match p with
  | Pending n => (n < max)%N ∧ cancelled_queries c !! key.1 = None
  | Active t w l _ =>
      names_partition key i t ∧ (ta_attempt t < max)%N ∧ lease_for w l ∧
      is_Some (workers c !! w) ∧ cancelled_queries c !! key.1 = None
  | Cancelling t w l =>
      names_partition key i t ∧ (ta_attempt t < max)%N ∧ lease_for w l ∧
      is_Some (workers c !! w) ∧ is_Some (cancelled_queries c !! key.1)
  | Succeeded t blocks =>
      names_partition key i t ∧ (ta_attempt t < max)%N ∧
      Forall (λ b, ShuffleBlock_validate b = Ok tt ∧ sb_producer b = t) blocks ∧
      (∀ st, stages c !! key = Some st →
         exchange_mismatch (plan st) (TaskSucceeded 0 blocks) = false)
  | Failed a _ _ => (a < max)%N ∧ cancelled_queries c !! key.1 = None
  | PartitionCancelled => True
  end.

(** The slot account of one worker that runs [n] attempts. *)
Definition slots_wf (n : nat) (wr : WorkerRuntime) : Prop :=
  if alive wr
  then (available_slots wr + N.of_nat n ≤ wr_slots (registration wr))%N
  else available_slots wr = 0%N ∧ n = 0.

Record worker_wf (n : nat) (w : WorkerId) (wr : WorkerRuntime) : Prop := {
  ww_id : wr_worker_id (registration wr) = w;
  ww_good : good_id (worker_text w);
  ww_u32 : (wr_slots (registration wr) ≤ U32_MAX)%N;
  ww_slots : slots_wf n wr;
}.

Record wf (c : Coordinator) : Prop := {
  wf_config : valid_config (config c);
  wf_stage : ∀ key st, stages c !! key = Some st → stage_wf c key st;
  wf_part : ∀ key i p, part c key i = Some p → part_wf c key i p;
  wf_worker : ∀ w wr, workers c !! w = Some wr → worker_wf (busy c w) w wr;
}.

(** ** Frames *)

(** What no transition takes away: the configuration, submitted plans,
    registered workers, cancellations. *)
Record extends (c c' : Coordinator) : Prop := {
  et_config : config c' = config c;
  et_plan : ∀ key st, stages c !! key = Some st →
    ∃ st', stages c' !! key = Some st' ∧ plan st' = plan st ∧
      length (partitions st') = length (partitions st);
  et_worker : ∀ w wr, workers c !! w = Some wr →
    ∃ wr', workers c' !! w = Some wr' ∧ registration wr' = registration wr;
  et_cancelled : ∀ q r, cancelled_queries c !! q = Some r → cancelled_queries c' !! q = Some r;
}.

#[export] Instance extends_preorder : PreOrder extends.
Proof.
  split.
  - intros c. split; eauto.
  - intros c1 c2 c3 [C1 P1 W1 Q1] [C2 P2 W2 Q2]. split; [congruence|..|by eauto].
    + intros key st (st1 & Hst1 & E1 & L1)%P1.
      destruct (P2 _ _ Hst1) as (st2 & ? & ? & ?). exists st2. split_and!; congruence.
    + intros w wr (wr1 & Hw1 & E1)%W1. destruct (W2 _ _ Hw1) as (wr2 & ? & ?).
      exists wr2. split; congruence.
Qed.

Lemma stage_wf_frame c c' key st ps :
  extends c c' → stage_wf c key st → length ps = length (partitions st) →
  stage_wf c' key (MkStageRuntime (plan st) ps).
Proof.
  intros [C P _ _] [K V L M D] Hps. split; simpl; try done; try congruence.
  intros d (up & Hup & Hx)%D. destruct (P _ _ Hup) as (up' & Hup' & E & _).
  exists up'. split; [done|]. by rewrite E.
Qed.

(** A partition's condition only reads the configuration, its query's
    cancellation, its plan and the set of workers. *)
Lemma part_wf_frame c c' key i p :
  extends c c' → cancelled_queries c' !! key.1 = cancelled_queries c !! key.1 →
  is_Some (stages c !! key) → part_wf c key i p → part_wf c' key i p.
Proof.
  intros [C P W _] Hq [st Hst]. unfold part_wf. rewrite C, Hq.
  assert (∀ w, is_Some (workers c !! w) → is_Some (workers c' !! w)) as Hw.
  { intros w [wr (wr' & -> & _)%W]. by eexists. }
  destruct p as [n|t w l s|t w l|t bs|a e r|]; try done.
  { by intros (? & ? & ? & ?%Hw & ?). }
  { by intros (? & ? & ? & ?%Hw & ?). }
  intros (? & ? & ? & Hx). split_and!; try done.
  intros st' Hst'. destruct (P _ _ Hst) as (st'' & ? & E & _). simplify_eq.
  rewrite E. by apply Hx.
Qed.

(** ** Slots *)

Lemma active_tasks_busy c w :
  active_tasks_for_worker c w = N.min (N.of_nat (busy c w)) U32_MAX.
Proof.
  unfold active_tasks_for_worker, busy.
  assert (length (base.filter (λ p, occupies w p = true)
            (mjoin (partitions <$> btree_values (stages c))))
          = map_sum (λ st, count (occupies w) (partitions st)) (stages c)) as ->.
  { fold (count (occupies w) (mjoin (partitions <$> btree_values (stages c)))).
    rewrite count_mjoin. apply btree_values_sum. }
  unfold try_u32. destruct (_ <=? _)%N eqn:E; bool_to_prop; lia.
Qed.

Lemma busy_insert c key st st' w :
  stages c !! key = Some st →
  map_sum (λ st, count (occupies w) (partitions st)) (<[key:=st']> (stages c))
    + count (occupies w) (partitions st)
  = busy c w + count (occupies w) (partitions st').
Proof. intros Hst. apply (map_sum_insert_Some (λ st, count (occupies w) (partitions st)) _ _ _ st' Hst). Qed.

Lemma busy_replace c key st i p q w :
  stages c !! key = Some st → partitions st !! i = Some p →
  map_sum (λ st, count (occupies w) (partitions st))
    (<[key:=MkStageRuntime (plan st) (<[i:=q]> (partitions st))]> (stages c))
    + (if occupies w p then 1 else 0)
  = busy c w + (if occupies w q then 1 else 0).
Proof.
  intros Hst Hp.
  pose proof (busy_insert c key st (MkStageRuntime (plan st) (<[i:=q]> (partitions st))) w Hst).
  pose proof (count_insert (occupies w) (partitions st) i p q Hp). simpl in *. lia.
Qed.

Lemma busy_pos c key i p w : part c key i = Some p → occupies w p = true → 0 < busy c w.
Proof.
  intros (st & Hst & Hp)%part_Some Ho.
  pose proof (map_sum_le_lookup (λ st, count (occupies w) (partitions st)) _ _ _ Hst) as Hle.
  assert (count (occupies w) (partitions st) ≠ 0); [|unfold busy; lia].
  rewrite count_zero. intros Hz. specialize (Hz _ _ Hp). congruence.
Qed.

Lemma release_slot_registration wr : registration (release_slot wr) = registration wr.
Proof. unfold release_slot. by destruct (alive wr). Qed.
Lemma release_slot_alive wr : alive (release_slot wr) = alive wr.
Proof. unfold release_slot. by destruct (alive wr) eqn:E. Qed.

Lemma slots_wf_release n wr : slots_wf (S n) wr → slots_wf n (release_slot wr).
Proof.
  unfold slots_wf. rewrite release_slot_alive, release_slot_registration.
  unfold release_slot. destruct (alive wr) eqn:E; simpl; [|intros [??]; lia].
  unfold saturating_add_u32. lia.
Qed.

Lemma slots_wf_iter_release n k wr :
  slots_wf (k + n) wr → slots_wf n (Nat.iter k release_slot wr).
Proof.
  revert wr. induction k as [|k IH]; intros wr Hw; [done|].
  rewrite Nat.iter_succ_r. apply IH. by apply slots_wf_release.
Qed.

Lemma iter_release_registration k wr :
  registration (Nat.iter k release_slot wr) = registration wr.
Proof. induction k as [|k IH]; [done|]. simpl. by rewrite release_slot_registration. Qed.
Lemma iter_release_alive k wr : alive (Nat.iter k release_slot wr) = alive wr.
Proof. induction k as [|k IH]; [done|]. simpl. by rewrite release_slot_alive. Qed.

Lemma worker_wf_release n w wr : worker_wf (S n) w wr → worker_wf n w (release_slot wr).
Proof.
  intros [I G U S]. split; rewrite ?release_slot_registration; try done.
  by apply slots_wf_release.
Qed.

(** ** Replacing one partition *)

(** [c] with [q] at position [(key, i)] and the workers [ws]. *)
Definition replaced (c : Coordinator) (key : StageKey) (i : nat) (q : PartitionRuntime)
    (ws : gmap WorkerId WorkerRuntime) (st : StageRuntime) : Coordinator :=
  MkCoordinator (config c) ws
    (<[key := MkStageRuntime (plan st) (<[i:=q]> (partitions st))]> (stages c))
    (cancelled_queries c).

Lemma extends_replaced c key i q ws st :
  stages c !! key = Some st →
  (∀ w wr, workers c !! w = Some wr →
     ∃ wr', ws !! w = Some wr' ∧ registration wr' = registration wr) →
  extends c (replaced c key i q ws st).
Proof.
  intros Hst Hws. split; simpl; try done.
  intros key' st' Hst'. destruct (decide (key = key')) as [<-|Hne].
  - rewrite lookup_insert_eq. eexists. split; [done|]. simpl. rewrite length_insert.
    by simplify_eq.
  - rewrite lookup_insert_ne by done. eauto.
Qed.

Lemma part_replaced c key i q ws st key' j p :
  stages c !! key = Some st →
  part (replaced c key i q ws st) key' j = Some p →
  (key' = key ∧ j = i ∧ p = q) ∨ part c key' j = Some p.
Proof.
  intros Hst. rewrite !part_Some. simpl. intros (st' & Hst' & Hp).
  apply lookup_insert_Some in Hst' as [[<- <-]|[Hne Hst']]; [|eauto].
  apply list_lookup_insert_Some in Hp as [(-> & -> & ?)|[Hne Hp]]; [by left|].
  right. eauto.
Qed.

Lemma wf_replaced c key i p q ws st :
  wf c → stages c !! key = Some st → partitions st !! i = Some p →
  (∀ w wr, workers c !! w = Some wr →
     ∃ wr', ws !! w = Some wr' ∧ registration wr' = registration wr) →
  part_wf c key i q →
  (∀ w wr', ws !! w = Some wr' → ∀ n,
     n + (if occupies w p then 1 else 0) = busy c w + (if occupies w q then 1 else 0) →
     worker_wf n w wr') →
  wf (replaced c key i q ws st).
Proof.
  intros [C S P W] Hst Hp Hws Hq Hww.
  pose proof (extends_replaced c key i q ws st Hst Hws) as Hext. split; [done|..].
  - intros key' st' Hst'. simpl in Hst'.
    apply lookup_insert_Some in Hst' as [[<- <-]|[Hne Hst']].
    + eapply stage_wf_frame; [done|by apply S|by rewrite length_insert].
    + destruct st' as [pl ps]. by eapply (stage_wf_frame c _ _ (MkStageRuntime pl ps)); eauto.
  - intros key' j p' Hp'.
    destruct (part_replaced _ _ _ _ _ _ _ _ _ Hst Hp') as [(-> & -> & ->)|Hold].
    + eapply part_wf_frame; eauto.
    + pose proof Hold as (st' & ? & _)%part_Some. eapply part_wf_frame; eauto.
  - intros w wr Hwr. apply Hww; [done|]. by apply busy_replace.
Qed.

(** ** The clock *)

Lemma retry_or_fail_wf c key i a e :
  valid_config (config c) → (a < max_task_attempts (config c))%N →
  cancelled_queries c !! key.1 = None →
  part_wf c key i (retry_or_fail (max_task_attempts (config c)) a e).
Proof.
  intros [_ _ ? _] Ha Hq. unfold retry_or_fail, saturating_add_u32.
  case_match; bool_to_prop; split; done || lia.
Qed.

Lemma expire_partition_wf c key i now dead p :
  valid_config (config c) → part_wf c key i p →
  part_wf c key i (expire_partition (config c) now dead p).
Proof.
  intros Hc Hp. destruct p as [n|t w l s|t w l|t bs|a e r|]; try done; simpl in *;
    destruct Hp as (? & ? & ? & ? & ?); repeat case_match; try done;
    by apply retry_or_fail_wf.
Qed.

Lemma lookup_advanced_stage now c key :
  stages (advanced now c) !! key =
  map_partitions (expire_partition (config c) now (timed_out_workers c now)) <$> stages c !! key.
Proof. apply lookup_fmap. Qed.

Lemma part_advanced now c key i :
  part (advanced now c) key i =
  expire_partition (config c) now (timed_out_workers c now) <$> part c key i.
Proof.
  unfold part. rewrite lookup_advanced_stage. destruct (stages c !! key); [|done].
  simpl. apply list_lookup_fmap.
Qed.

Lemma extends_advanced now c : extends c (advanced now c).
Proof.
  split; try done.
  - intros key st Hst. rewrite lookup_advanced_stage, Hst. eexists. split; [done|].
    simpl. by rewrite length_fmap.
  - intros w wr Hwr. simpl. rewrite map_lookup_imap, Hwr. eexists. split; [done|].
    rewrite iter_release_registration. by destruct (timed_out _ _ _).
Qed.

(** What expires from [w]'s account: returned slots, or everything if [w]
    just timed out. *)
Definition leaves (now : N) (dead : list WorkerId) (w : WorkerId) (p : PartitionRuntime) : bool :=
  match p with
  | Active _ w' l _ | Cancelling _ w' l =>
      bool_decide (w' = w) && (bool_decide (w' ∈ dead) || (tl_expires_at_ms l <=? now)%N)
  | _ => false
  end.

Lemma count_expire cfg now dead w ps :
  count (occupies w) (expire_partition cfg now dead <$> ps) + count (leaves now dead w) ps
  = count (occupies w) ps.
Proof.
  induction ps as [|p ps IH]; [done|]. rewrite fmap_cons, !count_cons.
  cut ((if occupies w (expire_partition cfg now dead p) then 1 else 0)
       + (if leaves now dead w p then 1 else 0) = if occupies w p then 1 else 0); [lia|].
  destruct p as [|t w' l s|t w' l| | |]; try done; simpl; unfold retry_or_fail;
    destruct (decide (w' = w)); destruct (decide (w' ∈ dead));
    rewrite ?(bool_decide_eq_true_2 (w' = w)), ?(bool_decide_eq_false_2 (w' = w)),
      ?(bool_decide_eq_true_2 (w' ∈ dead)), ?(bool_decide_eq_false_2 (w' ∈ dead)) by done;
    repeat case_match; simpl in *;
    rewrite ?(bool_decide_eq_true_2 (w' = w)), ?(bool_decide_eq_false_2 (w' = w)) in * by done;
    done.
Qed.

Lemma busy_advanced now c w :
  busy (advanced now c) w
    + map_sum (λ st, count (leaves now (timed_out_workers c now) w) (partitions st)) (stages c)
  = busy c w.
Proof.
  unfold busy, advanced; simpl.
  etrans; [|apply (map_sum_imap_balance (λ st, count (occupies w) (partitions st))
    (λ st, count (leaves now (timed_out_workers c now) w) (partitions st))
    (λ _, map_partitions (expire_partition (config c) now (timed_out_workers c now))))].
  - do 2 f_equal. apply map_eq. intros key. rewrite lookup_fmap, map_lookup_imap.
    by destruct (stages c !! key).
  - intros key st _. simpl. apply count_expire.
Qed.

Lemma map_sum_ext {V} `{Countable K} (f g : V → nat) (m : gmap K V) :
  (∀ v, f v = g v) → map_sum f m = map_sum g m.
Proof.
  intros Hfg. induction m as [|k v m Hk IH] using map_ind; [by rewrite !map_sum_empty|].
  rewrite !map_sum_insert_None by done. by rewrite Hfg, IH.
Qed.

Lemma count_ext {A} (f g : A → bool) (l : list A) :
  (∀ x, x ∈ l → f x = g x) → count f l = count g l.
Proof.
  induction l as [|x l IH]; intros Hfg; [done|]. rewrite !count_cons, (Hfg x) by by left.
  f_equal. apply IH. intros y Hy. apply Hfg. by right.
Qed.

(** A worker that timed out keeps nothing; any other gets back what expired. *)
Lemma leaves_dead c now w :
  w ∈ timed_out_workers c now →
  map_sum (λ st, count (leaves now (timed_out_workers c now) w) (partitions st)) (stages c)
  = busy c w.
Proof.
  intros Hw. apply map_sum_ext. intros st. apply count_ext. intros p _.
  destruct p as [|t w' l s|t w' l| | |]; try done; simpl;
    destruct (decide (w' = w)) as [->|];
    rewrite ?(bool_decide_eq_true_2 (w = w)), ?(bool_decide_eq_true_2 (w ∈ _)),
      ?(bool_decide_eq_false_2 (w' = w)) by done; done.
Qed.

Lemma leaves_live c now w :
  w ∉ timed_out_workers c now →
  map_sum (λ st, count (leaves now (timed_out_workers c now) w) (partitions st)) (stages c)
  = freed_slots c now (timed_out_workers c now) w.
Proof.
  intros Hw. apply map_sum_ext. intros st. apply count_ext. intros p _.
  destruct p as [|t w' l s|t w' l| | |]; try done; simpl;
    destruct (decide (w' = w)) as [->|];
    rewrite ?(bool_decide_eq_true_2 (w = w)), ?(bool_decide_eq_false_2 (w ∈ _)),
      ?(bool_decide_eq_false_2 (w' = w)) by done; done.
Qed.

Lemma wf_advanced now c : wf c → wf (advanced now c).
Proof.
  intros [C S P W]. pose proof (extends_advanced now c) as Hext. split; [done|..].
  - intros key st Hst. rewrite lookup_advanced_stage in Hst.
    apply fmap_Some in Hst as (st0 & Hst0 & ->).
    eapply stage_wf_frame; [done|by apply S|by rewrite length_fmap].
  - intros key i p Hp. rewrite part_advanced in Hp.
    apply fmap_Some in Hp as (p0 & Hp0 & ->).
    pose proof Hp0 as (st & ? & _)%part_Some.
    eapply part_wf_frame; [done|done|by eexists|]. apply expire_partition_wf; auto.
  - intros w wr Hwr. simpl in Hwr. rewrite map_lookup_imap in Hwr.
    destruct (workers c !! w) as [wr0|] eqn:E; simplify_eq/=.
    destruct (W w wr0 E) as [I G U Sl].
    split; rewrite ?iter_release_registration; try done; try (by destruct (timed_out _ _ _)).
    pose proof (busy_advanced now c w) as Hb. apply slots_wf_iter_release.
    destruct (timed_out c now wr0) eqn:Et.
    + assert (w ∈ timed_out_workers c now) as Hin by (apply elem_of_timed_out; eauto).
      rewrite leaves_dead in Hb by done.
      assert (freed_slots c now (timed_out_workers c now) w = 0) as ->.
      { apply map_sum_zero. intros key st _. apply count_zero. intros i p _.
        destruct p as [|t w' l s|t w' l| | |]; try done; simpl;
          destruct (decide (w' = w)) as [->|];
          rewrite ?(bool_decide_eq_true_2 (w = w)), ?(bool_decide_eq_true_2 (w ∈ _)),
            ?(bool_decide_eq_false_2 (w' = w)) by done; done. }
      split; [done|]. lia.
    + assert (w ∉ timed_out_workers c now) as Hin.
      { rewrite elem_of_timed_out. intros (? & ? & ?). simplify_eq. congruence. }
      rewrite leaves_live in Hb by done. unfold slots_wf in *.
      case_match; [lia|]. destruct Sl as [-> ?]. split; [done|lia].
Qed.
End invariant.
