(* ===== verification/CoordinatorSpec.v ===== *)
(** * The life cycle of one partition, as a specification

    What a client of the coordinator may rely on for a single partition,
    without the maps, slots and clocks of the implementation: a labelled
    transition system on the partition's state.  [CoordinatorSteps.v] shows that
    the coordinator implements it. *)
From S2P Require Import Prelude Protocol Coordinator.

(** [lifecycle max p q]: one step of a partition that may be attempted [max]
    times. *)
Inductive lifecycle (max : N) : PartitionRuntime → PartitionRuntime → Prop :=
| life_assign n t w l :
    ta_attempt t = n → lifecycle max (Pending n) (Active t w l None)
| life_start t w l s :
    lifecycle max (Active t w l None) (Active t w l (Some s))
| life_succeed t w l s blocks :
    lifecycle max (Active t w l s) (Succeeded t blocks)
| life_retry t w l s :
    (ta_attempt t + 1 < max)%N → lifecycle max (Active t w l s) (Pending (ta_attempt t + 1))
| life_fail t w l s e retryable :
    (retryable = true → (max ≤ ta_attempt t + 1)%N) →
    lifecycle max (Active t w l s) (Failed (ta_attempt t) e retryable)
| life_abort t w l s :
    lifecycle max (Active t w l s) PartitionCancelled
| life_cancel t w l s :
    lifecycle max (Active t w l s) (Cancelling t w l)
| life_cancelled t w l :
    lifecycle max (Cancelling t w l) PartitionCancelled
| life_drop_pending n :
    lifecycle max (Pending n) PartitionCancelled
| life_drop_failed a e r :
    lifecycle max (Failed a e r) PartitionCancelled.

#[export] Hint Constructors lifecycle : sparkx.

(** How many attempts of the partition have been handed out. *)
Definition attempts_issued (p : PartitionRuntime) : option N :=
  match p with
  | Pending n => Some n
  | Active t _ _ _ | Cancelling t _ _ | Succeeded t _ => Some (ta_attempt t + 1)%N
  | Failed a _ _ => Some (a + 1)%N
  | PartitionCancelled => None
  end.

(** No step leaves a terminal state. *)
Definition terminal (p : PartitionRuntime) : bool :=
  match p with Succeeded _ _ | PartitionCancelled => true | _ => false end.

Lemma lifecycle_terminal max p q : lifecycle max p q → terminal p = false.
Proof. by destruct 1. Qed.

Lemma lifecycle_terminal_rtc max p q : rtc (lifecycle max) p q → terminal p = true → q = p.
Proof. destruct 1 as [|p p1 q H1 _]; [done|]. apply lifecycle_terminal in H1. congruence. Qed.

Lemma lifecycle_attempts max p q n m :
  lifecycle max p q → attempts_issued p = Some n → attempts_issued q = Some m → (n ≤ m ≤ n + 1)%N.
Proof. destruct 1; simpl; intros; simplify_eq; lia. Qed.

(** Once cancelled, always cancelled, so defined attempt numbers never drop. *)
Lemma lifecycle_attempts_rtc max p q n m :
  rtc (lifecycle max) p q → attempts_issued p = Some n → attempts_issued q = Some m → (n ≤ m)%N.
Proof.
  intros Hr. revert n. induction Hr as [p|p p1 q H1 Hr IH]; intros n Hn Hm; [simplify_eq; lia|].
  destruct (attempts_issued p1) as [k|] eqn:Hk.
  - pose proof (lifecycle_attempts _ _ _ _ _ H1 Hn Hk). specialize (IH k eq_refl Hm). lia.
  - destruct p1; try done. by rewrite (lifecycle_terminal_rtc _ _ _ Hr eq_refl) in Hm.
Qed.

(** A measure that every step decreases. *)
Definition remaining (max : N) (p : PartitionRuntime) : N :=
  match p with
  | Pending n => 3 * (max - n) + 5
  | Active t _ _ None => 3 * (max - ta_attempt t) + 4
  | Active t _ _ (Some _) => 3 * (max - ta_attempt t) + 3
  | Cancelling _ _ _ | Failed _ _ _ => 1
  | Succeeded _ _ | PartitionCancelled => 0
  end%N.

Lemma lifecycle_remaining max p q : lifecycle max p q → (remaining max q < remaining max p)%N.
Proof. destruct 1; simpl; repeat case_match; simplify_eq; lia. Qed.

Lemma lifecycle_nsteps max k p q :
  nsteps (lifecycle max) k p q → (N.of_nat k + remaining max q ≤ remaining max p)%N.
Proof.
  induction 1 as [|k p p1 q H1 _ IH]; [lia|].
  apply lifecycle_remaining in H1. lia.
Qed.

(** [retry_or_fail] is a retry while attempts remain and a failure otherwise. *)
Lemma lifecycle_retry_or_fail max t w l s e :
  (max ≤ U32_MAX)%N → (ta_attempt t < max)%N →
  lifecycle max (Active t w l s) (retry_or_fail max (ta_attempt t) e).
Proof.
  intros Hm Ht. unfold retry_or_fail, saturating_add_u32.
  replace (N.min (ta_attempt t + 1) U32_MAX) with (ta_attempt t + 1)%N by lia.
  case_match; bool_to_prop; constructor; [done|]. intros _. lia.
Qed.

(** ** Attempts that lost their partition *)

(** The partition is no longer held by the attempt [t]: it was committed, or
    the partition moved past it. *)
Definition past (t : TaskAttemptId) (p : PartitionRuntime) : Prop :=
  (∃ blocks, p = Succeeded t blocks) ∨ superseded t p = true.

Definition held_by (t : TaskAttemptId) (p : PartitionRuntime) : Prop :=
  match p with Active t' _ _ _ | Cancelling t' _ _ => t' = t | _ => False end.

Lemma lifecycle_past max t p q : lifecycle max p q → past t p → past t q.
Proof.
  unfold past. destruct 1; simpl; intros [[? Hp]|Hp]; try discriminate; right; simpl; try done;
    apply N.ltb_lt in Hp; rewrite ?N.ltb_lt, ?N.leb_le; lia.
Qed.

Lemma lifecycle_held max t p q : lifecycle max p q → held_by t p → held_by t q ∨ past t q.
Proof.
  unfold past. destruct 1; simpl; intros Ht; try done; subst; auto.
  - right. left. eauto.
  - right. right. apply N.ltb_lt. lia.
  - right. right. apply N.leb_le. lia.
Qed.

Lemma lifecycle_past_rtc max t p q : rtc (lifecycle max) p q → past t p → past t q.
Proof. induction 1; eauto using lifecycle_past. Qed.

Lemma lifecycle_held_rtc max t p q :
  rtc (lifecycle max) p q → held_by t p → held_by t q ∨ past t q.
Proof.
  induction 1 as [|p p1 q H1 Hr IH]; [by left|]. intros Ht.
  destruct (lifecycle_held _ _ _ _ H1 Ht) as [?|?]; [auto|].
  right. by eapply lifecycle_past_rtc.
Qed.
