(* ===== verification/CoordinatorSteps.v ===== *)
(** * Every transition is a good step

    A good step keeps the state well formed, takes nothing away, and moves each
    partition along its specified life cycle.  The lemmas here cover all public
    methods of [Coordinator], on every branch. *)
From S2P Require Import Prelude Text Protocol Coordinator CoordinatorClock CoordinatorInv CoordinatorSpec.

(** Every partition of [c] is still there and went through life-cycle steps. *)
Definition moves (c c' : Coordinator) : Prop :=
  ∀ key i p, part c key i = Some p →
    ∃ p', part c' key i = Some p' ∧ rtc (lifecycle (max_task_attempts (config c))) p p'.

Lemma moves_refl c : moves c c.
Proof. intros key i p Hp. exists p. by split. Qed.

Lemma moves_trans c1 c2 c3 : config c2 = config c1 → moves c1 c2 → moves c2 c3 → moves c1 c3.
Proof.
  intros Hc H12 H23 key i p (p2 & Hp2 & R12)%H12.
  destruct (H23 _ _ _ Hp2) as (p3 & Hp3 & R23). exists p3. split; [done|].
  rewrite Hc in R23. by etrans.
Qed.

Lemma moves_stages c c' : stages c' = stages c → moves c c'.
Proof. intros Hs key i p Hp. exists p. split; [|done]. unfold part in *. by rewrite Hs. Qed.

(** The dependencies of the submitted stages can be ranked: there is no cycle. *)
Definition acyclic (c : Coordinator) : Prop :=
  ∃ rank : StageKey → nat, ∀ key st d,
    stages c !! key = Some st → d ∈ sp_input_stages (plan st) → rank (key.1, d) < rank key.

Lemma acyclic_same_plans c c' :
  (∀ key st', stages c' !! key = Some st' →
     ∃ st, stages c !! key = Some st ∧ plan st' = plan st) →
  acyclic c → acyclic c'.
Proof.
  intros Hs [rank Hr]. exists rank. intros key st' d (st & Hst & ->)%Hs. eauto.
Qed.

Section steps.
Context `{PlanFragments}.

Record good_step (c c' : Coordinator) : Prop := {
  gs_wf : wf c';
  gs_extends : extends c c';
  gs_moves : moves c c';
  gs_acyclic : acyclic c → acyclic c';
}.

Lemma good_step_refl c : wf c → good_step c c.
Proof. intros Hc. split; [done|reflexivity|apply moves_refl|done]. Qed.

Lemma good_step_trans c1 c2 c3 : good_step c1 c2 → good_step c2 c3 → good_step c1 c3.
Proof.
  intros [W1 E1 M1 A1] [W2 E2 M2 A2]. split; [done|by etrans| |auto].
  eapply moves_trans; [|done..]. apply E1.
Qed.

(** ** The clock *)

Lemma expire_lifecycle c key i now dead p :
  wf c → part_wf c key i p →
  rtc (lifecycle (max_task_attempts (config c))) p (expire_partition (config c) now dead p).
Proof.
  intros [[_ _ ? _] _ _ _] Hp. destruct p as [n|t w l s|t w l|t bs|a e r|]; try done;
    destruct Hp as (? & ? & _); simpl; repeat case_match; try done;
    apply rtc_once; eauto using lifecycle_retry_or_fail, lifecycle with lia.
  all: apply lifecycle_retry_or_fail; lia.
Qed.

Lemma good_step_advanced now c : wf c → good_step c (advanced now c).
Proof.
  intros Hc. split; [by apply wf_advanced|apply extends_advanced|..].
  - intros key i p Hp. rewrite part_advanced, Hp. eexists. split; [done|].
    eapply expire_lifecycle; [done|]. by apply Hc.
  - apply acyclic_same_plans. intros key st'. rewrite lookup_advanced_stage.
    intros (st & -> & ->)%fmap_Some. eauto.
Qed.

(** ** Updates of one partition *)

Lemma good_step_replaced c key i p q ws st :
  wf c → stages c !! key = Some st → partitions st !! i = Some p →
  (∀ w wr, workers c !! w = Some wr →
     ∃ wr', ws !! w = Some wr' ∧ registration wr' = registration wr) →
  part_wf c key i q →
  (∀ w wr', ws !! w = Some wr' → ∀ n,
     n + (if occupies w p then 1 else 0) = busy c w + (if occupies w q then 1 else 0) →
     worker_wf n w wr') →
  lifecycle (max_task_attempts (config c)) p q →
  good_step c (replaced c key i q ws st).
Proof.
  intros Hc Hst Hp Hws Hq Hww Hl.
  split; [by eapply wf_replaced|by apply extends_replaced| |].
  2:{ apply acyclic_same_plans. intros key' st'. simpl.
      intros [[<- <-]|[_ ?]]%lookup_insert_Some; eauto. }
  intros key' j p' (st' & Hst' & Hp')%part_Some. unfold part; simpl.
  destruct (decide (key = key')) as [<-|Hk].
  - rewrite lookup_insert_eq. simplify_eq/=.
    destruct (decide (i = j)) as [<-|Hij].
    + rewrite list_lookup_insert_eq by by eapply lookup_lt_Some.
      simplify_eq. exists q. split; [done|by apply rtc_once].
    + rewrite list_lookup_insert_ne by done. exists p'. by split.
  - rewrite lookup_insert_ne, Hst' by done. exists p'. by split.
Qed.

(** A final report: the partition leaves the worker and its slot comes back. *)
Lemma good_step_finish c key i p q w0 st :
  wf c → stages c !! key = Some st → partitions st !! i = Some p →
  (∀ w, occupies w p = bool_decide (w0 = w)) → (∀ w, occupies w q = false) →
  part_wf c key i q → lifecycle (max_task_attempts (config c)) p q →
  ∃ c1, set_partition key i q c = Ok c1 ∧ good_step c (release_worker_slot w0 c1).
Proof.
  intros Hc Hst Hp Hocc Hno Hq Hl.
  rewrite (set_partition_ok _ _ _ _ st) by (done || by eapply lookup_lt_Some).
  eexists. split; [done|]. rewrite release_worker_slot_alter.
  apply (good_step_replaced c key i p q (alter release_slot w0 (workers c)) st); try done.
  - intros w wr Hwr. rewrite lookup_alter. case_decide; subst; rewrite Hwr; simpl;
      eexists; (split; [done|]); [apply release_slot_registration|done].
  - intros w wr' Hwr' n Hn. rewrite Hocc, Hno in Hn. rewrite lookup_alter in Hwr'.
    destruct (decide (w0 = w)) as [<-|Hne].
    + rewrite bool_decide_eq_true_2 in Hn by done.
      apply fmap_Some in Hwr' as (wr & Hwr & ->). apply worker_wf_release.
      replace (S n) with (busy c w0) by lia. by apply Hc.
    + rewrite bool_decide_eq_false_2 in Hn by done.
      replace n with (busy c w) by lia. by apply Hc.
Qed.

Lemma good_step_start c key i t w l s st :
  wf c → stages c !! key = Some st → partitions st !! i = Some (Active t w l None) →
  ∃ c1, set_partition key i (Active t w l (Some s)) c = Ok c1 ∧ good_step c c1.
Proof.
  intros Hc Hst Hp.
  rewrite (set_partition_ok _ _ _ _ st) by (done || by eapply lookup_lt_Some).
  eexists. split; [done|].
  assert (part_wf c key i (Active t w l None)) as Hw by (apply Hc, part_Some; eauto).
  apply (good_step_replaced c key i (Active t w l None) _ (workers c) st); eauto.
  - intros w' wr' Hwr' n Hn. simpl in Hn.
    replace n with (busy c w') by (destruct (bool_decide (w = w')); lia). by apply Hc.
  - constructor.
Qed.

(** ** Worker messages *)

(** The [u32] and [u64] fields of a message fit their width. *)
Definition typed_message (m : WorkerMessage) : Prop :=
  match m with Register _ r => (wr_slots r ≤ U32_MAX)%N | _ => True end.

Lemma busy_unregistered c w : wf c → workers c !! w = None → busy c w = 0.
Proof.
  intros Hc Hw. apply map_sum_zero. intros key st Hst. apply count_zero. intros i p Hp.
  assert (part_wf c key i p) as Hpw by (apply Hc, part_Some; eauto).
  destruct p as [n|t w' l s|t w' l|t bs|a e r|]; try done; simpl in *;
    destruct Hpw as (_ & _ & _ & [wr Hwr] & _);
    apply bool_decide_eq_false_2; intros ->; congruence.
Qed.

(** Transitions that only touch the worker table. *)
Lemma good_step_worker c w0 wr0 :
  wf c → worker_wf (busy c w0) w0 wr0 →
  (∀ wr, workers c !! w0 = Some wr → registration wr0 = registration wr) →
  good_step c (with_workers c (<[w0 := wr0]> (workers c))).
Proof.
  intros Hc Hw Hreg.
  assert (extends c (with_workers c (<[w0 := wr0]> (workers c)))) as Hext.
  { split; simpl; eauto. intros w wr Hwr. rewrite lookup_insert.
    case_decide; subst; eauto. }
  split; [split|done|by apply moves_stages|apply acyclic_same_plans; eauto].
  - apply Hc.
  - intros key st Hst. destruct st as [pl ps].
    apply (stage_wf_frame c _ _ (MkStageRuntime pl ps)); [done| |done]. by apply Hc.
  - intros key i p Hp. pose proof Hp as (st & ? & _)%part_Some.
    eapply part_wf_frame; [done|done|by eexists|]. by apply Hc.
  - intros w wr Hwr. simpl in Hwr.
    apply lookup_insert_Some in Hwr as [[<- <-]|[Hne Hwr]]; [done|by apply Hc].
Qed.

Lemma register_worker_step r now c res c' :
  wf c → WorkerRegistration_validate r = Ok tt → (wr_slots r ≤ U32_MAX)%N →
  register_worker r now c = (res, c') →
  good_step c c' ∧ no_panic res ∧ (∀ e, res = Err e → c' = c).
Proof.
  intros Hc Hv Hu. unfold register_worker.
  destruct (contains_key _ _) eqn:E; intros Heq; injection Heq as <- <-.
  { split_and!; [by apply good_step_refl|done..]. }
  apply contains_key_false in E. apply bind_unit_ok in Hv as [Hg%validate_text_id_ok _].
  split_and!; [|done..]. apply good_step_worker; [done| |congruence].
  split; simpl; try done. unfold slots_wf; simpl. rewrite busy_unregistered by done. lia.
Qed.

Lemma record_heartbeat_step h now c res c' :
  wf c → record_heartbeat h now c = (res, c') →
  good_step c c' ∧ no_panic res ∧ (∀ e, res = Err e → c' = c).
Proof.
  intros Hc. unfold record_heartbeat.
  destruct (workers c !! wh_worker_id h) as [wr|] eqn:E; cbn [ok_or];
    [|intros Heq; injection Heq as <- <-; split_and!; [by apply good_step_refl|done..]].
  case_match; [intros Heq; injection Heq as <- <-; split_and!; [by apply good_step_refl|done..]|].
  case_match eqn:Es;
    [intros Heq; injection Heq as <- <-; split_and!; [by apply good_step_refl|done..]|].
  case_match; [intros Heq; injection Heq as <- <-; split_and!; [by apply good_step_refl|done..]|].
  intros Heq; injection Heq as <- <-. split_and!; [|done..].
  destruct (wf_worker _ Hc _ _ E) as [I G U S].
  apply good_step_worker; [done| |naive_solver].
  split; simpl; try done. unfold slots_wf in *; simpl.
  rewrite active_tasks_busy in Es. unfold saturating_sub in Es. bool_to_prop.
  destruct (alive wr); [lia|]. destruct S as [_ Hb]. rewrite Hb in *. lia.
Qed.

Lemma validate_reported_time_no_panic ev t l now : no_panic (validate_reported_time ev t l now).
Proof. unfold validate_reported_time. by repeat case_match. Qed.

Ltac unchanged :=
  match goal with
  | |- (_, _) = (_, _) → _ =>
      intros Heq; injection Heq as <- <-; split_and!; [by apply good_step_refl|done..]
  end.

(** Cases on the timestamp check of a report. *)
Ltac check_time :=
  match goal with
  | |- context [validate_reported_time ?ev ?ts ?l ?now] =>
      let Hnp := fresh "Hnp" in
      pose proof (validate_reported_time_no_panic ev ts l now) as Hnp;
      destruct (validate_reported_time ev ts l now); [clear Hnp|unchanged|done]
  end.

Lemma update_cancelling_step w t s now key i t' w' l c st res c' :
  wf c → stages c !! key = Some st → partitions st !! i = Some (Cancelling t' w' l) →
  update_cancelling w t s now key i t' w' l c = (res, c') →
  good_step c c' ∧ no_panic res ∧ (∀ e, res = Err e → c' = c).
Proof.
  intros Hc Hst Hp. unfold update_cancelling.
  case_decide as Ht; [|unchanged]. case_decide as Hw; [|unchanged].
  destruct Hw as [-> _].
  destruct (good_step_finish c key i (Cancelling t' w l) PartitionCancelled w st)
    as (c1 & Hset & Hgs); try done; [constructor|].
  destruct s as [ts|ts bs|ts e r|ts r]; check_time; try unchanged;
    rewrite Hset; intros Heq; injection Heq as <- <-; by split_and!.
Qed.

(** [record_task_update] accepted the report: what the partition becomes. *)
Definition reported (cfg : CoordinatorConfig) (task : TaskAttemptId) (s : TaskState)
    : PartitionRuntime :=
  match s with
  | TaskRunning _ => PartitionCancelled
  | TaskSucceeded _ blocks => Succeeded task blocks
  | TaskFailed _ e true => retry_or_fail (max_task_attempts cfg) (ta_attempt task) e
  | TaskFailed _ e false => Failed (ta_attempt task) e false
  | TaskCancelled _ _ => PartitionCancelled
  end.

Lemma reported_wf c key i st t w l s0 s :
  wf c → stages c !! key = Some st → part_wf c key i (Active t w l s0) →
  TaskState_validate_for s t w = Ok tt → exchange_mismatch (plan st) s = false →
  part_wf c key i (reported (config c) t s) ∧
  lifecycle (max_task_attempts (config c)) (Active t w l s0) (reported (config c) t s).
Proof.
  intros Hc Hst (Hn & Ha & Hl & Hw & Hq) Hv Hx.
  pose proof (vc_attempts _ (wf_config _ Hc)) as [_ Hmax].
  destruct s as [ts|ts bs|ts e r|ts r]; simpl; [by split; [|constructor]|..].
  - split; [|constructor]. split_and!; try done.
    + simpl in Hv. apply for_each_ok in Hv. eapply List.Forall_impl; [|exact Hv].
      intros b (? & ? & _)%ShuffleBlock_validate_for_ok. done.
    + intros st' Hst'. by simplify_eq.
  - destruct r; simpl.
    + split; [by apply retry_or_fail_wf; [apply Hc|..]|]. by apply lifecycle_retry_or_fail.
    + split; [done|]. by constructor.
  - split; [done|constructor].
Qed.

Lemma reported_free cfg t s w : occupies w (reported cfg t s) = false.
Proof.
  destruct s as [|?|? ? []|]; try done. simpl. unfold retry_or_fail. by case_match.
Qed.

Lemma apply_report_step w t s now key i l s0 c st res c' :
  wf c → stages c !! key = Some st → partitions st !! i = Some (Active t w l s0) →
  TaskState_validate_for s t w = Ok tt → exchange_mismatch (plan st) s = false →
  apply_report w t s now key i t w l s0 c = (res, c') →
  good_step c c' ∧ no_panic res ∧ (∀ e, res = Err e → c' = c).
Proof.
  intros Hc Hst Hp Hv Hx.
  assert (part_wf c key i (Active t w l s0)) as Hw by (apply Hc, part_Some; eauto).
  destruct (reported_wf _ _ _ _ _ _ _ _ _ Hc Hst Hw Hv Hx) as [Hrw Hrl].
  destruct (good_step_finish c key i (Active t w l s0) (reported (config c) t s) w st)
    as (c1 & Hset & Hgs); try done; [intros; apply reported_free|].
  destruct s as [ts|ts bs|ts e r|ts r]; unfold apply_report; check_time; try unchanged.
  - destruct s0 as [s0|].
    + case_decide; unchanged.
    + destruct (good_step_start c key i t w l ts st Hc Hst Hp) as (c2 & -> & Hg2).
      intros Heq; injection Heq as <- <-. by split_and!.
  - simpl in Hset. rewrite Hset. intros Heq; injection Heq as <- <-. by split_and!.
  - replace (if r then _ else _) with (reported (config c) t (TaskFailed ts e r))
      by by destruct r.
    rewrite Hset. intros Heq; injection Heq as <- <-. by split_and!.
  - simpl in Hset. rewrite Hset. intros Heq; injection Heq as <- <-. by split_and!.
Qed.

Lemma record_task_update_step w t s now c res c' :
  wf c → TaskState_validate_for s t w = Ok tt →
  record_task_update w t s now c = (res, c') →
  good_step c c' ∧ no_panic res ∧ (∀ e, res = Err e → c' = c).
Proof.
  intros Hc Hv. unfold record_task_update.
  destruct (contains_key _ _) eqn:Ew; cbn [negb]; [|unchanged].
  destruct (stages c !! _) as [st|] eqn:Est; cbn [ok_or]; [|unchanged].
  pose proof (TaskAttemptId_validate_for_no_panic t (plan st)).
  destruct (TaskAttemptId_validate_for t (plan st)) as [[]| |] eqn:Etv; [|unchanged|done].
  apply TaskAttemptId_validate_for_ok in Etv as (_ & _ & _ & Hlt).
  destruct (partitions st !! _) as [p|] eqn:Ep; cbn [expect].
  2:{ apply lookup_ge_None_1 in Ep. rewrite (sw_length _ _ _ (wf_stage _ Hc _ _ Est)) in Ep.
      lia. }
  destruct (superseded t p); [unchanged|].
  destruct (exchange_mismatch _ _) eqn:Ex; [unchanged|].
  destruct p as [n|t' w' l s0|t' w' l|t' bs|a e r|]; try unchanged.
  - unfold update_active. case_decide as Ht; [|unchanged].
    case_decide as Hw'; [|unchanged]. destruct Hw' as [-> _]. subst t'.
    case_match; [unchanged|]. by eapply apply_report_step.
  - by eapply update_cancelling_step.
Qed.

Lemma handle_worker_message_step m now c res c' :
  wf c → typed_message m → handle_worker_message m now c = (res, c') →
  good_step c c' ∧ no_panic res ∧
  (∀ e, res = Err e → c' = c ∨ c' = advanced now c).
Proof.
  intros Hc Hm. unfold handle_worker_message.
  pose proof (WorkerMessage_validate_no_panic m).
  destruct (WorkerMessage_validate m) as [[]| |] eqn:Ev; [| |done].
  2:{ intros Heq; injection Heq as <- <-.
      split_and!; [by apply good_step_refl|done|by left]. }
  rewrite advance_time_advanced.
  pose proof (good_step_advanced now c Hc) as Hadv. pose proof (gs_wf _ _ Hadv) as Hc1.
  assert (∀ (r : result unit) c2, good_step (advanced now c) c2 ∧ no_panic r ∧
      (∀ e, r = Err e → c2 = advanced now c) →
      good_step c c2 ∧ no_panic r ∧ (∀ e, r = Err e → c2 = c ∨ c2 = advanced now c)) as Hlift.
  { intros r c2 (? & ? & ?). split_and!; [by eapply good_step_trans|done|by eauto]. }
  destruct m as [v r|v h|v w t s]; intros Heq; apply Hlift; simpl in Ev;
    apply bind_unit_ok in Ev as [_ Ev].
  - by eapply register_worker_step.
  - by eapply record_heartbeat_step.
  - apply bind_unit_ok in Ev as [_ Ev]. apply bind_unit_ok in Ev as [_ Ev].
    by eapply record_task_update_step.
Qed.

(** ** Submission *)

Lemma check_dependency_ok c stage d :
  check_dependency c stage d = Ok tt ↔ is_Some (stages c !! (sp_query_id stage, d)).
Proof.
  unfold check_dependency. destruct (contains_key _ _) eqn:E.
  - apply contains_key_spec in E. done.
  - apply contains_key_false in E. rewrite E. split; [done|]. by intros [? ?].
Qed.

Lemma check_partitioned_ok c stage d :
  check_partitioned_dependency c stage d = Ok tt ↔
  ∃ up, stages c !! (sp_query_id stage, d) = Some up ∧
    he_partition_count <$> sp_output_exchange (plan up) = Some (sp_partition_count stage).
Proof.
  unfold check_partitioned_dependency.
  destruct (stages c !! (sp_query_id stage, d)) as [up|]; simpl; [|naive_solver].
  case_decide; naive_solver.
Qed.

(** The stages [submit_stage] accepts. *)
Record acceptable (c : Coordinator) (stage : StagePlan) : Prop := {
  ac_valid : valid_stage stage;
  ac_max : (sp_partition_count stage ≤ max_stage_partitions (config c))%N;
  ac_live : cancelled_queries c !! sp_query_id stage = None;
  ac_fresh : stages c !! (sp_query_id stage, sp_stage_id stage) = None;
  ac_deps : ∀ d, d ∈ sp_input_stages stage →
    ∃ up, stages c !! (sp_query_id stage, d) = Some up ∧
      (sp_partitioned_input stage = true →
       he_partition_count <$> sp_output_exchange (plan up) = Some (sp_partition_count stage));
  ac_exchange : ∀ e, sp_output_exchange stage = Some e →
    (he_partition_count e ≤ max_stage_partitions (config c))%N;
}.

Lemma submit_checks_ok c stage : submit_checks c stage = Ok tt → acceptable c stage.
Proof.
  unfold submit_checks. rewrite bind_unit_ok, StagePlan_validate_ok. intros [Hv Hr].
  destruct (_ <? sp_partition_count stage)%N eqn:E1; [done|].
  destruct (contains_key (cancelled_queries c) _) eqn:E2; [done|].
  destruct (contains_key (stages c) _) eqn:E3; [done|].
  rewrite !bind_unit_ok, for_each_ok, Forall_forall in Hr. destruct Hr as (Hd & Hp & Hx).
  apply contains_key_false in E2, E3. bool_to_prop. split; try done.
  - intros d Hin. destruct (proj1 (check_dependency_ok c stage d)) as [up Hup].
    { by apply Hd, list_elem_of_In. }
    exists up. split; [done|]. intros Hpi. rewrite Hpi in Hp.
    apply for_each_ok in Hp. rewrite Forall_forall in Hp.
    destruct (proj1 (check_partitioned_ok c stage d)) as (up' & ? & ?).
    { by apply Hp, list_elem_of_In. } by simplify_eq.
  - intros e He. rewrite He in Hx. destruct (_ <? _)%N eqn:E; [done|]. bool_to_prop. done.
Qed.

Lemma submit_checks_no_panic c stage : no_panic (submit_checks c stage).
Proof.
  unfold submit_checks. pose proof (StagePlan_validate_no_panic stage).
  destruct (StagePlan_validate stage); simpl; [|done..]. skip_guards.
  assert (no_panic (for_each (check_dependency c stage) (sp_input_stages stage))) as Hd.
  { apply for_each_no_panic. intros d _. unfold check_dependency. by case_match. }
  destruct (for_each (check_dependency c stage) _) as [[]| |] eqn:Ed; simpl; [|done..].
  apply for_each_ok in Ed. rewrite Forall_forall in Ed.
  destruct (sp_partitioned_input stage); simpl; [|by repeat case_match].
  assert (no_panic (for_each (check_partitioned_dependency c stage) (sp_input_stages stage)))
    as Hp.
  { apply for_each_no_panic. intros d Hd'. apply list_elem_of_In, Ed in Hd'.
    apply check_dependency_ok in Hd' as [up Hup].
    unfold check_partitioned_dependency. rewrite Hup. simpl. by case_decide. }
  destruct (for_each (check_partitioned_dependency c stage) _); simpl; [|done..].
  by repeat case_match.
Qed.

(** The state after a stage was accepted. *)
Definition submitted (c : Coordinator) (stage : StagePlan) : Coordinator :=
  with_stages c (<[(sp_query_id stage, sp_stage_id stage) :=
    MkStageRuntime stage (replicate (N.to_nat (sp_partition_count stage)) (Pending 0))]>
    (stages c)).

Lemma extends_submitted c stage :
  stages c !! (sp_query_id stage, sp_stage_id stage) = None → extends c (submitted c stage).
Proof.
  intros Hf. split; simpl; eauto. intros key st Hst.
  rewrite lookup_insert_ne by congruence. eauto.
Qed.

Lemma acyclic_submitted c stage :
  wf c → acceptable c stage → acyclic c → acyclic (submitted c stage).
Proof.
  intros Hc [V _ _ F D _] [rank Hr]. set (new := (sp_query_id stage, sp_stage_id stage)).
  set (high := max_list ((λ d, rank (sp_query_id stage, d)) <$> sp_input_stages stage)).
  exists (λ k, if decide (k = new) then S high else rank k). intros key st d Hst Hd.
  simpl in Hst. apply lookup_insert_Some in Hst as [[<- <-]|[Hne Hst]].
  - simpl in *. rewrite decide_False; [|by intros [= ->]; apply (vs_irreflexive _ V)].
    rewrite decide_True by done. apply Nat.lt_succ_r, max_list_elem_of_le.
    apply list_elem_of_fmap. eauto.
  - destruct (sw_deps _ _ _ (wf_stage _ Hc _ _ Hst) d Hd) as (up & Hup & _).
    rewrite !decide_False by (unfold new; congruence). eauto.
Qed.

Lemma good_step_submitted c stage : wf c → acceptable c stage → good_step c (submitted c stage).
Proof.
  intros Hc Hacc. pose proof Hacc as [V M L F D X].
  pose proof (extends_submitted c stage F) as Hext.
  split; [split|done| |by apply acyclic_submitted].
  - apply Hc.
  - intros key st Hst. simpl in Hst.
    apply lookup_insert_Some in Hst as [[<- <-]|[Hne Hst]].
    + split; simpl; try done; [by rewrite length_replicate|].
      intros d Hin. destruct (D d Hin) as (up & Hup & Hx). exists up. split; [|done].
      rewrite lookup_insert_ne; [done|]. intros [= <-]. by apply (vs_irreflexive _ V).
    + destruct st as [pl ps].
      apply (stage_wf_frame c _ _ (MkStageRuntime pl ps)); [done| |done]. by apply Hc.
  - intros key i p (st & Hst & Hp)%part_Some. simpl in Hst.
    apply lookup_insert_Some in Hst as [[<- <-]|[Hne Hst]].
    + simpl in Hp. apply lookup_replicate_1 in Hp as [-> _].
      split; [|done]. pose proof (vc_attempts _ (wf_config _ Hc)). simpl. lia.
    + eapply part_wf_frame; [done|done|by eexists|]. apply Hc, part_Some. eauto.
  - intros w wr Hwr. replace (busy (submitted c stage) w) with (busy c w); [by apply Hc|].
    unfold busy, submitted; simpl. rewrite map_sum_insert_None by done. simpl.
    replace (count (occupies w) _) with 0; [done|]. symmetry. apply count_zero.
    by intros i x [-> _]%lookup_replicate_1.
  - intros key i p (st & Hst & Hp)%part_Some. exists p. split; [|done].
    apply part_Some. exists st. split; [|done]. simpl. by rewrite lookup_insert_ne by congruence.
Qed.

Lemma submit_stage_step stage c res c' :
  wf c → submit_stage stage c = (res, c') →
  good_step c c' ∧ no_panic res ∧ (∀ e, res = Err e → c' = c).
Proof.
  intros Hc. unfold submit_stage. pose proof (submit_checks_no_panic c stage).
  destruct (submit_checks c stage) as [[]| |] eqn:E; [|unchanged|done].
  intros Heq; injection Heq as <- <-. split_and!; [|done..].
  apply good_step_submitted; [done|]. by apply submit_checks_ok.
Qed.

(** ** Cancellation *)

Definition cancelled_state (c : Coordinator) (q : QueryId) (reason : string) : Coordinator :=
  with_cancelled (with_stages c (map_imap (λ k s, Some (cancel_stage q k s)) (stages c)))
    (<[q := reason]> (cancelled_queries c)).

Lemma lookup_cancelled_stage c q r key :
  stages (cancelled_state c q r) !! key = cancel_stage q key <$> stages c !! key.
Proof. simpl. rewrite map_lookup_imap. by destruct (stages c !! key). Qed.

Lemma part_cancelled c q r key i :
  part (cancelled_state c q r) key i =
  (if decide (key.1 = q) then cancel_partition else id) <$> part c key i.
Proof.
  unfold part. rewrite lookup_cancelled_stage. destruct (stages c !! key) as [st|]; simpl.
  - unfold cancel_stage. case_decide; simpl; [apply list_lookup_fmap|].
    by rewrite option_fmap_id.
  - done.
Qed.

Lemma map_sum_imap_le {V} `{Countable K} (f : V → nat) (h : K → V → V) (m : gmap K V) :
  (∀ k v, f (h k v) ≤ f v) → map_sum f (map_imap (λ k v, Some (h k v)) m) ≤ map_sum f m.
Proof.
  intros Hle. induction m as [|k v m Hk IH] using map_ind.
  { by rewrite map_imap_empty. }
  rewrite (map_imap_insert_Some _ _ _ _ (h k v)) by done.
  rewrite !map_sum_insert_None by (try done; by rewrite map_lookup_imap, Hk).
  specialize (Hle k v). lia.
Qed.

Lemma busy_cancelled c q r w : busy (cancelled_state c q r) w ≤ busy c w.
Proof.
  apply map_sum_imap_le. intros key st. unfold cancel_stage. case_decide; [|done]. simpl.
  induction (partitions st) as [|p ps IH]; [done|]. rewrite fmap_cons, !count_cons.
  destruct p; simpl; lia.
Qed.

Lemma cancel_lifecycle max p : rtc (lifecycle max) p (cancel_partition p).
Proof. destruct p; try done; apply rtc_once; constructor. Qed.

Lemma good_step_cancelled c q r :
  wf c → cancelled_queries c !! q = None → good_step c (cancelled_state c q r).
Proof.
  intros Hc Hq. assert (extends c (cancelled_state c q r)) as Hext.
  { split; simpl; eauto.
    - intros key st Hst. rewrite map_lookup_imap, Hst. simpl. eexists. split; [done|].
      unfold cancel_stage. case_decide; simpl; by rewrite ?length_fmap.
    - intros q' r' Hq'. by rewrite lookup_insert_ne by congruence. }
  split; [split|done| |].
  6:{ apply acyclic_same_plans. intros key st'. rewrite lookup_cancelled_stage.
      intros (st & -> & ->)%fmap_Some. exists st. split; [done|].
      unfold cancel_stage. by case_decide. }
  - apply Hc.
  - intros key st Hst. rewrite lookup_cancelled_stage in Hst.
    apply fmap_Some in Hst as (st0 & Hst0 & ->). pose proof (wf_stage _ Hc _ _ Hst0).
    unfold cancel_stage. case_decide; [eapply stage_wf_frame; by rewrite ?length_fmap|].
    destruct st0 as [pl ps]. by apply (stage_wf_frame c _ _ (MkStageRuntime pl ps)).
  - intros key i p Hp. rewrite part_cancelled in Hp.
    apply fmap_Some in Hp as (p0 & Hp0 & ->). pose proof (wf_part _ Hc _ _ _ Hp0) as Hw.
    pose proof Hp0 as (st & Hst & _)%part_Some.
    case_decide as Hk.
    + destruct p0 as [n|t w l s|t w l|t bs|a e z|]; simpl; try done.
      * destruct Hw as (? & ? & ? & ? & ?). split_and!; try done.
        rewrite Hk, lookup_insert_eq. by eexists.
      * destruct Hw as (? & ? & ? & Hx). split_and!; try done.
        intros st' Hst'. destruct (et_plan _ _ Hext _ _ Hst) as (st'' & Hst'' & E & _).
        change (stages (cancelled_state c q r) !! key = Some st') in Hst'.
        assert (st'' = st') as <- by congruence. rewrite E. by apply Hx.
    + eapply part_wf_frame; [done| |by eexists|done]. simpl. by rewrite lookup_insert_ne.
  - intros w wr Hwr. destruct (wf_worker _ Hc _ _ Hwr) as [I G U S]. split; try done.
    pose proof (busy_cancelled c q r w). unfold slots_wf in *.
    destruct (alive wr); [lia|]. destruct S. split; [done|lia].
  - intros key i p Hp. rewrite part_cancelled, Hp. eexists. split; [done|].
    case_decide; [apply cancel_lifecycle|done].
Qed.

Lemma CancelQuery_validate_no_panic v q r :
  no_panic (CoordinatorMessage_validate (CancelQuery v q r)).
Proof.
  unfold CoordinatorMessage_validate. pose proof (validate_version_no_panic v).
  destruct (validate_version v); simpl; [|done..].
  pose proof (validate_text_id_no_panic "query" (query_text q)).
  unfold QueryId_validate. destruct (validate_text_id _ _); simpl; [|done..].
  by destruct (trim_is_empty r).
Qed.

Lemma cancel_query_step q r c res c' :
  wf c → cancel_query q r c = (res, c') →
  good_step c c' ∧ no_panic res ∧ (∀ e, res = Err e → c' = c).
Proof.
  intros Hc. unfold cancel_query.
  pose proof (CancelQuery_validate_no_panic PROTOCOL_VERSION q r).
  destruct (CoordinatorMessage_validate _) as [[]| |]; [|unchanged|done].
  case_match; [unchanged|].
  destruct (cancelled_queries c !! q) as [r'|] eqn:Eq; [case_decide; unchanged|].
  intros Heq; injection Heq as <- <-. split_and!; [|done..].
  by apply good_step_cancelled.
Qed.
End steps.
