(* ===== verification/CoordinatorAssign.v ===== *)
(** * Assignment

    Which partition [assign_to_worker] picks, which input blocks it ships, and
    that the message it builds always passes the worker's validation: the
    [validate()?] that follows the mutation can never lose an assignment. *)
From S2P Require Import Prelude Text Protocol Coordinator CoordinatorClock CoordinatorInv CoordinatorSpec CoordinatorSteps.

(** The committed output of a stage, in partition order. *)
Definition stage_blocks (c : Coordinator) (q : QueryId) (d : StageId) : list ShuffleBlock :=
  match stages c !! (q, d) with
  | Some up => mjoin (succeeded_blocks <$> partitions up)
  | None => []
  end.

(** The inputs of the partition [pid] of [p]: dependency by dependency, and for
    a partitioned stage only what is addressed to it. *)
Definition expected_inputs (c : Coordinator) (p : StagePlan) (pid : PartitionId)
    : list ShuffleBlock :=
  let all := mjoin (stage_blocks c (sp_query_id p) <$> sp_input_stages p) in
  if sp_partitioned_input p then base.filter (λ b, sb_output_partition b = pid) all else all.

(** The assignment of attempt [n] of partition [i]. *)
Definition assigned_task (key : StageKey) (i : nat) (n : N) : TaskAttemptId :=
  MkTaskAttemptId key.1 key.2 (MkPartitionId (N.of_nat i)) n.

Section assign.
Context `{PlanFragments}.

Lemma first_pending_Some ps i n :
  first_pending ps = Some (i, n) → ps !! i = Some (Pending n).
Proof.
  unfold first_pending. intros ([j p] & Hin%elem_of_enumerate & Hf)%find_map_Some.
  simpl in Hf. by destruct p; simplify_eq.
Qed.

Lemma first_pending_None ps i n : first_pending ps = None → ps !! i ≠ Some (Pending n).
Proof.
  unfold first_pending. rewrite find_map_None, Forall_forall. intros Hf Hi.
  specialize (Hf (i, Pending n)). rewrite <-list_elem_of_In, elem_of_enumerate in Hf.
  by specialize (Hf Hi).
Qed.

Lemma dependencies_succeeded_spec c st :
  dependencies_succeeded c st = true ↔
  ∀ d, d ∈ sp_input_stages (plan st) →
    ∃ up, stages c !! (sp_query_id (plan st), d) = Some up ∧
      forallb is_succeeded (partitions up) = true.
Proof.
  unfold dependencies_succeeded. rewrite forallb_forall. split.
  - intros Hd d Hin%list_elem_of_In. specialize (Hd d Hin). case_match; [eauto|done].
  - intros Hd d Hin%list_elem_of_In. destruct (Hd d Hin) as (up & -> & ?). done.
Qed.

Lemma next_pending_Some c key i n :
  next_pending_partition c = Some (key, i, n) →
  ∃ st, stages c !! key = Some st ∧ cancelled_queries c !! key.1 = None ∧
    dependencies_succeeded c st = true ∧ partitions st !! i = Some (Pending n).
Proof.
  unfold next_pending_partition.
  intros ([key' st] & Hin%elem_of_btree_iter & Hf)%find_map_Some. simpl in Hf.
  destruct (contains_key _ _) eqn:Ec; [done|]. simpl in Hf.
  destruct (dependencies_succeeded c st) eqn:Ed; [|done]. simpl in Hf.
  destruct (first_pending _) as [[j m]|] eqn:Ef; simplify_eq.
  exists st. split_and!; try done; [by apply contains_key_false|by apply first_pending_Some].
Qed.

Lemma next_pending_None c key st i n :
  next_pending_partition c = None → stages c !! key = Some st →
  cancelled_queries c !! key.1 = None → dependencies_succeeded c st = true →
  partitions st !! i ≠ Some (Pending n).
Proof.
  unfold next_pending_partition. rewrite find_map_None, Forall_forall. intros Hf Hst Hq Hd.
  specialize (Hf (key, st)). rewrite <-list_elem_of_In, elem_of_btree_iter in Hf.
  specialize (Hf Hst). simpl in Hf. apply contains_key_false in Hq.
  rewrite Hq, Hd in Hf. simpl in Hf. apply first_pending_None. by repeat case_match.
Qed.

Lemma committed_blocks_ok s d ps :
  forallb is_succeeded ps = true →
  committed_blocks s d ps = Ok (mjoin (succeeded_blocks <$> ps)).
Proof.
  induction ps as [|p ps IH]; intros Hs; [done|]. simpl in Hs.
  apply andb_true_iff in Hs as [Hp Hs]. destruct p; try done.
  cbn [committed_blocks]. by rewrite IH.
Qed.

Lemma dependency_blocks_ok c key deps :
  (∀ d, d ∈ deps → ∃ up, stages c !! (key.1, d) = Some up ∧
     forallb is_succeeded (partitions up) = true) →
  dependency_blocks c key deps = Ok (mjoin (stage_blocks c key.1 <$> deps)).
Proof.
  induction deps as [|d deps IH]; intros Hd; [done|]. cbn [dependency_blocks].
  destruct (Hd d) as (up & Hup & Hs); [by left|]. rewrite Hup. simpl.
  rewrite committed_blocks_ok by done. simpl. rewrite IH by (intros; apply Hd; by right).
  simpl. unfold stage_blocks at 2. by rewrite Hup.
Qed.

(** A block among the inputs was committed by some partition of a dependency. *)
Lemma elem_of_inputs c p pid b :
  b ∈ expected_inputs c p pid →
  (sp_partitioned_input p = true → sb_output_partition b = pid) ∧
  ∃ d up i t blocks, d ∈ sp_input_stages p ∧ stages c !! (sp_query_id p, d) = Some up ∧
    partitions up !! i = Some (Succeeded t blocks) ∧ b ∈ blocks.
Proof.
  intros Hb.
  assert (b ∈ mjoin (stage_blocks c (sp_query_id p) <$> sp_input_stages p) ∧
    (sp_partitioned_input p = true → sb_output_partition b = pid)) as [Hin Hp].
  { unfold expected_inputs in Hb. destruct (sp_partitioned_input p); [|done].
    by apply list_elem_of_filter in Hb as [??]. }
  split; [done|].
  apply list_elem_of_join in Hin as (l & Hb' & (d & -> & Hd)%list_elem_of_fmap).
  unfold stage_blocks in Hb'. destruct (stages c !! _) as [up|] eqn:Hup; [|by inversion Hb'].
  apply list_elem_of_join in Hb' as (l & Hb' & (q & -> & Hq)%list_elem_of_fmap).
  apply list_elem_of_lookup in Hq as [i Hi].
  destruct q as [n|t w l s|t w l|t blocks|a e r|]; simpl in Hb'; try by inversion Hb'.
  by exists d, up, i, t, blocks.
Qed.

(** The message built for a pending partition of a well-formed state. *)
Lemma assignment_valid c key i n st w now :
  wf c → stages c !! key = Some st → partitions st !! i = Some (Pending n) →
  good_id (worker_text w) →
  CoordinatorMessage_validate
    (AssignTask PROTOCOL_VERSION (plan st) (assigned_task key i n)
      (MkTaskLease w now (now + lease_duration_ms (config c))%N)
      (expected_inputs c (plan st) (MkPartitionId (N.of_nat i)))) = Ok tt.
Proof.
  intros Hc Hst Hp Hw. destruct (wf_stage _ Hc _ _ Hst) as [K V L M D].
  pose proof (vc_lease _ (wf_config _ Hc)).
  apply AssignTask_validate_ok. split_and!; try done.
  - apply TaskAttemptId_validate_for_ok. subst key. simpl. split_and!; try done; [apply V|].
    apply lookup_lt_Some in Hp. lia.
  - apply TaskLease_validate_ok. simpl. split; [done|lia].
  - apply Forall_forall. intros b [Hpart Hin]%list_elem_of_In%elem_of_inputs.
    destruct Hin as (d & up & j & t & blocks & Hd & Hup & Hj & Hb).
    assert (part_wf c (sp_query_id (plan st), d) j (Succeeded t blocks))
      as ((Hq & Hs & _) & _ & HF & _) by (apply Hc, part_Some; eauto).
    rewrite Forall_forall in HF. destruct (HF b) as [Hv Hpr]; [by apply list_elem_of_In|].
    apply validate_input_block_ok. split_and!; try done.
    + by rewrite Hpr, Hq.
    + by rewrite Hpr, Hs.
Qed.

Lemma take_worker_slot_ok w wr c :
  workers c !! w = Some wr → (0 < available_slots wr)%N →
  take_worker_slot w c =
    Ok (with_workers c (<[w := set_slots wr (available_slots wr - 1)]> (workers c))).
Proof.
  intros Hw Ha. unfold take_worker_slot. rewrite Hw. simpl.
  destruct (N.eqb_spec (available_slots wr) 0); [lia|done].
Qed.

(** [assign_to_worker], branch by branch, for a worker with a free slot. *)
Lemma assign_to_worker_spec c w wr now :
  wf c → workers c !! w = Some wr → alive wr = true → (0 < available_slots wr)%N →
  match next_pending_partition c with
  | None => assign_to_worker w now c = (Ok None, c)
  | Some (key, i, n) =>
      ((U64_MAX < now + lease_duration_ms (config c))%N ∧
       assign_to_worker w now c =
         (Err (coordinator_error "task lease timestamp overflowed"), c)) ∨
      ∃ st c', (now + lease_duration_ms (config c) ≤ U64_MAX)%N ∧
        stages c !! key = Some st ∧
        let lease := MkTaskLease w now (now + lease_duration_ms (config c)) in
        let m := AssignTask PROTOCOL_VERSION (plan st) (assigned_task key i n) lease
                   (expected_inputs c (plan st) (MkPartitionId (N.of_nat i))) in
        assign_to_worker w now c = (Ok (Some m), c') ∧
        CoordinatorMessage_validate m = Ok tt ∧ good_step c c' ∧
        part c' key i = Some (Active (assigned_task key i n) w lease None)
  end.
Proof.
  intros Hc Hwr Hal Hav. unfold assign_to_worker.
  destruct (next_pending_partition c) as [[[key i] n]|] eqn:En; [|done].
  destruct (next_pending_Some _ _ _ _ En) as (st & Hst & Hq & Hd & Hp).
  destruct (wf_stage _ Hc _ _ Hst) as [K V L M D].
  unfold checked_add_u64.
  destruct (_ <=? U64_MAX)%N eqn:Et; bool_to_prop; cbn [ok_or]; [right|by left].
  assert (try_u32 (N.of_nat i) = Some (N.of_nat i)) as ->.
  { unfold try_u32. case_match; [done|]. bool_to_prop.
    pose proof (vc_partitions _ (wf_config _ Hc)). apply lookup_lt_Some in Hp. lia. }
  cbn [ok_or].
  assert (dependency_output_blocks c key =
    Ok (mjoin (stage_blocks c (sp_query_id (plan st)) <$> sp_input_stages (plan st)))) as ->.
  { unfold dependency_output_blocks. rewrite Hst. simpl. rewrite <-K. simpl.
    apply (dependency_blocks_ok c (sp_query_id (plan st), sp_stage_id (plan st))).
    by apply dependencies_succeeded_spec. }
  rewrite Hst. cbn [expect].
  rewrite (set_partition_ok _ _ _ _ st) by (done || by eapply lookup_lt_Some).
  rewrite (take_worker_slot_ok w wr) by done.
  set (lease := MkTaskLease w now (now + lease_duration_ms (config c))).
  set (m := AssignTask _ _ _ _ _).
  assert (CoordinatorMessage_validate m = Ok tt) as Hm.
  { destruct (wf_worker _ Hc _ _ Hwr) as [_ G _ _]. by apply assignment_valid. }
  rewrite Hm. eexists st, _. split; [done|]. split; [done|]. split; [done|]. split; [done|].
  split.
  - eapply (good_step_replaced c key i (Pending n) (Active (assigned_task key i n) w lease None)
      (<[w := set_slots wr (available_slots wr - 1)]> (workers c)) st); try done.
    + intros w' wr' Hwr'. rewrite lookup_insert. case_decide; subst; eauto.
      eexists. split; [done|]. simpl. congruence.
    + split_and!; try done.
      * assert (part_wf c key i (Pending n)) as [? _] by (apply Hc, part_Some; eauto). done.
      * split; [done|]. simpl. pose proof (vc_lease _ (wf_config _ Hc)). lia.
    + intros w' wr' Hwr' k Hk. simpl in Hk.
      apply lookup_insert_Some in Hwr' as [[<- <-]|[Hne Hwr']].
      * rewrite bool_decide_eq_true_2 in Hk by done.
        destruct (wf_worker _ Hc _ _ Hwr) as [I G U S]. split; try done.
        unfold slots_wf in *. simpl. rewrite Hal in *. simpl. lia.
      * rewrite bool_decide_eq_false_2 in Hk by done.
        replace k with (busy c w') by lia. by apply Hc.
    + by constructor.
  - unfold part. simpl. rewrite lookup_insert_eq. simpl.
    apply list_lookup_insert_eq. by eapply lookup_lt_Some.
Qed.

Lemma assign_to_worker_step c w wr now res c' :
  wf c → workers c !! w = Some wr → alive wr = true → (0 < available_slots wr)%N →
  assign_to_worker w now c = (res, c') →
  good_step c c' ∧ no_panic res ∧ (∀ e, res = Err e → c' = c).
Proof.
  intros Hc Hwr Hal Hav Heq. pose proof (assign_to_worker_spec c w wr now Hc Hwr Hal Hav) as Hs.
  rewrite Heq in Hs. destruct (next_pending_partition c) as [[[key i] n]|].
  - destruct Hs as [[_ Hs]|(st & c1 & _ & _ & Hs & _ & Hg & _)]; simplify_eq; [|done].
    split_and!; [by apply good_step_refl|done..].
  - simplify_eq. split_and!; [by apply good_step_refl|done..].
Qed.

(** The worker [next_assignment] picks: the first live one with a free slot. *)
Definition free_worker (c : Coordinator) : option (WorkerId * WorkerRuntime) :=
  find_first (λ e : WorkerId * WorkerRuntime, alive e.2 && (0 <? available_slots e.2)%N)
    (btree_iter (workers c)).

Lemma free_worker_Some c w wr :
  free_worker c = Some (w, wr) →
  workers c !! w = Some wr ∧ alive wr = true ∧ (0 < available_slots wr)%N.
Proof.
  intros ([w' wr'] & Hin%elem_of_btree_iter & Hf)%find_map_Some. simpl in Hf.
  destruct (alive wr' && _) eqn:E; simplify_eq. bool_to_prop. done.
Qed.

Lemma free_worker_None c w wr :
  free_worker c = None → workers c !! w = Some wr → alive wr = true →
  available_slots wr = 0%N.
Proof.
  unfold free_worker, find_first. rewrite find_map_None, Forall_forall. intros Hf Hwr Hal.
  specialize (Hf (w, wr)). rewrite <-list_elem_of_In, elem_of_btree_iter in Hf.
  specialize (Hf Hwr). simpl in Hf. rewrite Hal in Hf. simpl in Hf.
  destruct (0 <? _)%N eqn:E; [done|]. bool_to_prop. lia.
Qed.

Lemma next_assignment_eq now c :
  next_assignment now c =
  match free_worker (advanced now c) with
  | Some (w, _) => assign_to_worker w now (advanced now c)
  | None => (Ok None, advanced now c)
  end.
Proof. unfold next_assignment. by rewrite advance_time_advanced. Qed.

Lemma next_assignment_step now c res c' :
  wf c → next_assignment now c = (res, c') →
  good_step c c' ∧ no_panic res ∧ (∀ e, res = Err e → c' = advanced now c).
Proof.
  intros Hc. rewrite next_assignment_eq. pose proof (good_step_advanced now c Hc) as Ha.
  destruct (free_worker _) as [[w wr]|] eqn:Ef.
  - apply free_worker_Some in Ef as (Hw & Hal & Hav). intros Heq.
    destruct (assign_to_worker_step _ _ _ _ _ _ (gs_wf _ _ Ha) Hw Hal Hav Heq)
      as (Hg & Hp & He). split_and!; [by eapply good_step_trans|done..].
  - intros Heq; injection Heq as <- <-. by split_and!.
Qed.

Lemma next_assignment_for_step w now c res c' :
  wf c → next_assignment_for w now c = (res, c') →
  good_step c c' ∧ no_panic res ∧ (∀ e, res = Err e → c' = advanced now c).
Proof.
  intros Hc. unfold next_assignment_for. rewrite advance_time_advanced.
  pose proof (good_step_advanced now c Hc) as Ha.
  destruct (workers (advanced now c) !! w) as [wr|] eqn:Ew; cbn [ok_or];
    [|by intros Heq; injection Heq as <- <-; split_and!].
  destruct (alive wr) eqn:Eal; [|by intros Heq; injection Heq as <- <-; split_and!].
  cbn [negb orb]. destruct (N.eqb_spec (available_slots wr) 0);
    [by intros Heq; injection Heq as <- <-; split_and!|]. intros Heq.
  destruct (assign_to_worker_step _ _ wr _ _ _ (gs_wf _ _ Ha) Ew Eal ltac:(lia) Heq)
    as (Hg & Hp & He). split_and!; [by eapply good_step_trans|done..].
Qed.
End assign.
