(* ===== verification/CoordinatorRun.v ===== *)
(** * Histories of the coordinator

    The public methods of [Coordinator] as commands, the states that sequences
    of commands reach, and the task attempts those sequences hand out. *)
From S2P Require Import Prelude Text Protocol Coordinator CoordinatorClock CoordinatorInv CoordinatorSpec CoordinatorSteps CoordinatorAssign.

(** A call of one of the [pub fn]s that take [&mut self]. *)
Inductive command :=
| DoSubmit (stage : StagePlan)
| DoMessage (message : WorkerMessage) (received_at_ms : N)
| DoNext (now_ms : N)
| DoNextFor (worker_id : WorkerId) (now_ms : N)
| DoCancel (query_id : QueryId) (reason : string)
| DoAdvance (now_ms : N).

(** What the call returned. *)
Inductive reply :=
| Done
| Assigned (message : option CoordinatorMessage)
| CancelSent (message : CoordinatorMessage).

Definition replying {A} (f : A → reply) (r : result A * Coordinator)
    : result reply * Coordinator := (f <$> r.1, r.2).

(** The arguments fit the widths of their Rust types. *)
Definition typed_command (cmd : command) : Prop :=
  match cmd with DoMessage m _ => typed_message m | _ => True end.

Definition typed_config (cfg : CoordinatorConfig) : Prop :=
  (max_task_attempts cfg ≤ U32_MAX)%N ∧ (max_stage_partitions cfg ≤ U32_MAX)%N.

(** The clock reading a call carries. *)
Definition clock (cmd : command) : option N :=
  match cmd with
  | DoMessage _ now | DoNext now | DoNextFor _ now | DoAdvance now => Some now
  | DoSubmit _ | DoCancel _ _ => None
  end.

(** The attempt a reply hands to a worker. *)
Definition issued_task (r : result reply) : option TaskAttemptId :=
  match r with
  | Ok (Assigned (Some (AssignTask _ _ task _ _))) => Some task
  | _ => None
  end.

Section run.
Context `{PlanFragments}.

Definition execute (cmd : command) (c : Coordinator) : result reply * Coordinator :=
  match cmd with
  | DoSubmit stage => replying (λ _, Done) (submit_stage stage c)
  | DoMessage m now => replying (λ _, Done) (handle_worker_message m now c)
  | DoNext now => replying Assigned (next_assignment now c)
  | DoNextFor w now => replying Assigned (next_assignment_for w now c)
  | DoCancel q reason => replying CancelSent (cancel_query q reason c)
  | DoAdvance now => propagate c1 := advance_time now c keeping c in (Ok Done, c1)
  end.

Fixpoint run (cmds : list command) (c : Coordinator) : list (result reply) * Coordinator :=
  match cmds with
  | [] => ([], c)
  | cmd :: rest =>
      let '(r, c1) := execute cmd c in
      let '(rs, c2) := run rest c1 in
      (r :: rs, c2)
  end.

(** The states of a coordinator created with [cfg]. *)
Inductive reachable (cfg : CoordinatorConfig) : Coordinator → Prop :=
| reachable_new c : Coordinator_new cfg = Ok c → reachable cfg c
| reachable_execute c cmd :
    reachable cfg c → typed_command cmd → reachable cfg (execute cmd c).2.

Lemma replying_inv {A} (f : A → reply) m r c' :
  replying f m = (r, c') → ∃ r0, m = (r0, c') ∧ r = f <$> r0.
Proof. destruct m as [r0 c0]. intros [= <- <-]. eauto. Qed.

Lemma no_panic_fmap {A B} (f : A → B) (r : result A) : no_panic r → no_panic (f <$> r).
Proof. by destruct r. Qed.

Lemma err_fmap {A B} (f : A → B) (r : result A) e : f <$> r = Err e → r = Err e.
Proof. destruct r; simpl; congruence. Qed.

(** The three facts every method provides, for all of them at once. *)
Lemma execute_step cmd c r c' :
  wf c → typed_command cmd → execute cmd c = (r, c') →
  good_step c c' ∧ no_panic r ∧
  (∀ e, r = Err e → c' = c ∨ ∃ now, clock cmd = Some now ∧ c' = advanced now c).
Proof.
  intros Hc Ht Hx. destruct cmd as [s|m now|now|w now|q reason|now]; cbn [execute] in Hx;
    try apply replying_inv in Hx as (r0 & Hx & ->).
  - destruct (submit_stage_step _ _ _ _ Hc Hx) as (? & ? & He).
    split_and!; [done|by apply no_panic_fmap|]. intros e Hr%err_fmap. eauto.
  - destruct (handle_worker_message_step _ _ _ _ _ Hc Ht Hx) as (? & ? & He).
    split_and!; [done|by apply no_panic_fmap|]. intros e Hr%err_fmap.
    destruct (He e Hr); eauto.
  - destruct (next_assignment_step _ _ _ _ Hc Hx) as (? & ? & He).
    split_and!; [done|by apply no_panic_fmap|]. intros e Hr%err_fmap. eauto.
  - destruct (next_assignment_for_step _ _ _ _ _ Hc Hx) as (? & ? & He).
    split_and!; [done|by apply no_panic_fmap|]. intros e Hr%err_fmap. eauto.
  - destruct (cancel_query_step _ _ _ _ _ Hc Hx) as (? & ? & He).
    split_and!; [done|by apply no_panic_fmap|]. intros e Hr%err_fmap. eauto.
  - rewrite advance_time_advanced in Hx. injection Hx as <- <-.
    split_and!; [by apply good_step_advanced|done..].
Qed.

Lemma new_wf cfg c : typed_config cfg → Coordinator_new cfg = Ok c → wf c ∧ acyclic c.
Proof.
  intros [Ha Hp] Hn. unfold Coordinator_new, CoordinatorConfig_validate in Hn.
  destruct (N.eqb_spec (lease_duration_ms cfg) 0); [done|].
  destruct (N.eqb_spec (heartbeat_timeout_ms cfg) 0); [done|].
  destruct (N.eqb_spec (max_task_attempts cfg) 0); [done|].
  destruct (N.eqb_spec (max_stage_partitions cfg) 0); [done|].
  injection Hn as <-. split; [split|]; simpl.
  - split; lia.
  - intros key st. by rewrite lookup_empty.
  - intros key i p. unfold part; simpl. by rewrite lookup_empty.
  - intros w wr. by rewrite lookup_empty.
  - exists (λ _, 0). intros key st d; simpl. by rewrite lookup_empty.
Qed.

Lemma reachable_wf cfg c : typed_config cfg → reachable cfg c → wf c ∧ acyclic c.
Proof.
  intros Hcfg. induction 1 as [c Hn|c cmd _ [IHw IHa] Ht]; [by apply new_wf with cfg|].
  destruct (execute cmd c) as [r c'] eqn:Hx.
  destruct (execute_step _ _ _ _ IHw Ht Hx) as ([] & _). eauto.
Qed.

Lemma run_step cmds c rs c' :
  wf c → Forall typed_command cmds → run cmds c = (rs, c') → good_step c c'.
Proof.
  intros Hc Ht. revert c rs Hc. induction Ht as [|cmd cmds Ht _ IH]; intros c rs Hc Hr;
    cbn [run] in Hr.
  { injection Hr as <- <-. by apply good_step_refl. }
  destruct (execute cmd c) as [r c1] eqn:Hx. destruct (run cmds c1) as [rs' c2] eqn:Hr'.
  injection Hr as <- <-. destruct (execute_step _ _ _ _ Hc Ht Hx) as (Hg & _).
  eapply good_step_trans; [done|]. eapply IH; [apply Hg|done].
Qed.

(** ** Issued attempts *)

(** Both assignment methods advance the clock and then serve one live worker
    that has a free slot. *)
Lemma execute_assigned cmd c m c' :
  execute cmd c = (Ok (Assigned (Some m)), c') →
  ∃ now w wr, (cmd = DoNext now ∨ cmd = DoNextFor w now) ∧
    workers (advanced now c) !! w = Some wr ∧ alive wr = true ∧
    (0 < available_slots wr)%N ∧ assign_to_worker w now (advanced now c) = (Ok (Some m), c').
Proof.
  intros Hx. destruct cmd as [s|msg now|now|w now|q reason|now]; cbn [execute] in Hx;
    try (apply replying_inv in Hx as ([[]| |] & Hx & Hr); simpl in Hr; try discriminate).
  - rewrite next_assignment_eq in Hx. destruct (free_worker _) as [[w wr]|] eqn:Ef; [|done].
    apply free_worker_Some in Ef as (? & ? & ?). injection Hr as <-.
    exists now, w, wr. by split_and!; [left|..].
  - unfold next_assignment_for in Hx. rewrite advance_time_advanced in Hx.
    destruct (workers (advanced now c) !! w) as [wr|] eqn:Ew; cbn [ok_or] in Hx; [|done].
    destruct (alive wr) eqn:Eal; [|done]. cbn [negb orb] in Hx. injection Hr as <-.
    destruct (N.eqb_spec (available_slots wr) 0); [done|].
    exists now, w, wr. split_and!; try done; [by right|lia].
  - by rewrite advance_time_advanced in Hx.
Qed.

(** An assignment comes out of a pending partition and leaves it active with
    exactly the attempt that was pending. *)
Lemma issued_step cmd c r c' t :
  wf c → execute cmd c = (r, c') → issued_task r = Some t →
  ∃ c1 w l, good_step c c1 ∧ good_step c1 c' ∧
    let key := (ta_query_id t, ta_stage_id t) in
    let i := N.to_nat (partition_num (ta_partition_id t)) in
    part c1 key i = Some (Pending (ta_attempt t)) ∧ part c' key i = Some (Active t w l None).
Proof.
  intros Hc Hx Ht. destruct r as [[|[m|]|]| |]; try done.
  destruct (execute_assigned _ _ _ _ Hx) as (now & w & wr & _ & Hw & Hal & Hav & Has).
  pose proof (good_step_advanced now c Hc) as Hg. exists (advanced now c).
  pose proof (assign_to_worker_spec _ w wr now (gs_wf _ _ Hg) Hw Hal Hav) as Hs.
  destruct (next_pending_partition _) as [[[key i] n]|] eqn:En; [|by rewrite Has in Hs].
  destruct Hs as [[_ Hs]|(st & c2 & _ & Hst & Hs & _ & Hg' & Hp')]; [by rewrite Has in Hs|].
  rewrite Has in Hs. simplify_eq. simpl in Ht. injection Ht as <-. cbn [assigned_task
    ta_query_id ta_stage_id ta_partition_id partition_num ta_attempt] in *.
  rewrite Nat2N.id, <-surjective_pairing.
  apply next_pending_Some in En as (st' & Hst' & _ & _ & Hpen).
  eexists w, _. split_and!; [done|done| |done]. apply part_Some. eauto.
Qed.

(** Every attempt handed out so far is behind its partition's counter. *)
Definition fenced (ts : list TaskAttemptId) (c : Coordinator) : Prop :=
  ∀ t, t ∈ ts → ∃ p,
    part c (ta_query_id t, ta_stage_id t) (N.to_nat (partition_num (ta_partition_id t))) = Some p ∧
    ∀ n, attempts_issued p = Some n → (ta_attempt t < n)%N.

Lemma fenced_step ts c c' : good_step c c' → fenced ts c → fenced ts c'.
Proof.
  intros Hg Hf t Ht. destruct (Hf t Ht) as (p & Hp & Hn).
  destruct (gs_moves _ _ Hg _ _ _ Hp) as (p' & Hp' & Hr). exists p'. split; [done|].
  intros n' Hn'. destruct (attempts_issued p) as [n|] eqn:E.
  - specialize (Hn n eq_refl). pose proof (lifecycle_attempts_rtc _ _ _ _ _ Hr E Hn'). lia.
  - destruct p; try done. by rewrite (lifecycle_terminal_rtc _ _ _ Hr eq_refl) in Hn'.
Qed.

Lemma fenced_issue ts cmd c r c' :
  wf c → typed_command cmd → execute cmd c = (r, c') → fenced ts c →
  fenced (option_list (issued_task r) ++ ts) c' ∧
  (∀ t, issued_task r = Some t → t ∉ ts ∧ (ta_attempt t < max_task_attempts (config c))%N).
Proof.
  intros Hc Ht Hx Hf. destruct (execute_step _ _ _ _ Hc Ht Hx) as (Hg & _).
  destruct (issued_task r) as [t|] eqn:Ei; [|split; [by eapply fenced_step|done]].
  destruct (issued_step _ _ _ _ _ Hc Hx Ei) as (c1 & w & l & Hg1 & Hg2 & Hp1 & Hp2).
  split.
  - intros t' Ht'. simpl in Ht'. apply elem_of_cons in Ht' as [->|Ht'];
      [|exact (fenced_step _ _ _ Hg Hf t' Ht')].
    eexists. split; [done|]. simpl. intros n [= <-]. lia.
  - intros t' [= <-]. split.
    + intros Hin. destruct (fenced_step _ _ _ Hg1 Hf t Hin) as (p & Hp & Hn).
      simplify_eq. simpl in Hn. specialize (Hn _ eq_refl). lia.
    + pose proof (wf_part _ (gs_wf _ _ Hg1) _ _ _ Hp1) as [Hlt _].
      by rewrite (et_config _ _ (gs_extends _ _ Hg1)) in Hlt.
Qed.

Lemma run_issued cmds c rs c' ts :
  wf c → Forall typed_command cmds → run cmds c = (rs, c') → fenced ts c → NoDup ts →
  NoDup (rev (omap issued_task rs) ++ ts) ∧
  Forall (λ t, ta_attempt t < max_task_attempts (config c))%N (omap issued_task rs).
Proof.
  intros Hc Ht. revert c rs ts Hc. induction Ht as [|cmd cmds Ht _ IH];
    intros c rs ts Hc Hr Hf Hnd; cbn [run] in Hr.
  { injection Hr as <- <-. by split. }
  destruct (execute cmd c) as [r c1] eqn:Hx. destruct (run cmds c1) as [rs' c2] eqn:Hr'.
  injection Hr as <- <-. destruct (execute_step _ _ _ _ Hc Ht Hx) as (Hg & _).
  destruct (fenced_issue _ _ _ _ _ Hc Ht Hx Hf) as [Hf1 Hnew].
  pose proof (gs_wf _ _ Hg) as Hc1. pose proof (et_config _ _ (gs_extends _ _ Hg)) as Hcfg.
  destruct (IH c1 rs' (option_list (issued_task r) ++ ts) Hc1 Hr' Hf1) as [IHn IHa].
  { destruct (issued_task r) as [t|]; [|done]. apply list.NoDup_cons.
    split; [by apply Hnew|done]. }
  rewrite Hcfg in IHa. cbn [omap list_omap].
  destruct (issued_task r) as [t|] eqn:Ei; simpl; [|done].
  split.
  - cbn [rev]. by rewrite <-app_assoc.
  - constructor; [by apply Hnew|done].
Qed.
End run.

(** ** What the others do to a worker's attempts

    A call that does not come from a worker leaves its attempts alone, starts to cancel
    them, or moves their partitions past them; and it never gives the worker a new
    one. *)

(** The attempt [t] runs on [w] under the lease [l], started when the lease was issued
    if at all. *)
Definition holds (t : TaskAttemptId) (w : WorkerId) (l : TaskLease) (p : PartitionRuntime) : Prop :=
  match p with
  | Active t' w' l' s => t' = t ∧ w' = w ∧ l' = l ∧ (s = None ∨ s = Some (tl_issued_at_ms l))
  | Cancelling t' w' l' => t' = t ∧ w' = w ∧ l' = l
  | _ => False
  end.

Lemma holds_occupies t w l p : holds t w l p → occupies w p = true.
Proof. destruct p; try done; intros (_ & -> & _); by apply bool_decide_eq_true_2. Qed.

Lemma holds_not_superseded t w l p : holds t w l p → superseded t p = false.
Proof. destruct p; try done; intros (-> & _); apply N.ltb_irrefl. Qed.

Lemma lifecycle_superseded max t p q : lifecycle max p q → superseded t p = true → superseded t q = true.
Proof.
  destruct 1; simpl; intros Hp; try done; rewrite ?N.ltb_lt, ?N.leb_le in *; lia.
Qed.

Lemma lifecycle_superseded_rtc max t p q :
  rtc (lifecycle max) p q → superseded t p = true → superseded t q = true.
Proof. induction 1; eauto using lifecycle_superseded. Qed.

(** What becomes of a partition, as [w] sees it. *)
Record kept (max : N) (w : WorkerId) (p p' : PartitionRuntime) : Prop := {
  kp_life : rtc (lifecycle max) p p';
  kp_stays : occupies w p' = true → occupies w p = true ∧ ∀ t l, holds t w l p → holds t w l p';
  kp_holds : ∀ t l, holds t w l p → holds t w l p' ∨ superseded t p' = true;
}.

Lemma kept_refl max w p : kept max w p p.
Proof. split; [done|by split|by left]. Qed.

Lemma kept_trans max w p1 p2 p3 : kept max w p1 p2 → kept max w p2 p3 → kept max w p1 p3.
Proof.
  intros [L1 S1 H1] [L2 S2 H2]. split.
  - by etrans.
  - intros Ho. destruct (S2 Ho) as [Ho2 ?]. destruct (S1 Ho2). eauto.
  - intros t l Ht. destruct (H1 t l Ht) as [?|?]; [eauto|]. right. by eapply lifecycle_superseded_rtc.
Qed.

(** A partition that is not the worker's and does not become so. *)
Lemma kept_other max w p p' :
  rtc (lifecycle max) p p' → occupies w p = false → occupies w p' = false → kept max w p p'.
Proof.
  intros Hl Hp Hp'. split; [done|congruence|].
  intros t l Ht%holds_occupies. congruence.
Qed.

Section frame.
Context `{PlanFragments} (w : WorkerId).

Record frame (c c' : Coordinator) : Prop := {
  fr_config : config c' = config c;
  fr_part : ∀ key i p, part c key i = Some p →
    ∃ p', part c' key i = Some p' ∧ kept (max_task_attempts (config c)) w p p';
  fr_new : ∀ key i p', part c' key i = Some p' → part c key i = None → occupies w p' = false;
  fr_worker : ∀ wr, workers c !! w = Some wr → ∃ wr', workers c' !! w = Some wr' ∧
    registration wr' = registration wr ∧ last_observed_at_ms wr' = last_observed_at_ms wr;
}.

Lemma frame_refl c : frame c c.
Proof. split; eauto using kept_refl; congruence. Qed.

Lemma frame_trans c1 c2 c3 : frame c1 c2 → frame c2 c3 → frame c1 c3.
Proof.
  intros [C1 P1 N1 W1] [C2 P2 N2 W2]. split.
  - congruence.
  - intros key i p (p2 & Hp2 & K1)%P1. destruct (P2 _ _ _ Hp2) as (p3 & Hp3 & K2).
    exists p3. split; [done|]. rewrite C1 in K2. by eapply kept_trans.
  - intros key i p' Hp' Hn. destruct (part c2 key i) as [p2|] eqn:E; [|by eapply N2].
    destruct (P2 _ _ _ E) as (p3 & Hp3 & K2). simplify_eq.
    destruct (occupies w p') eqn:Ho; [|done]. destruct (kp_stays _ _ _ _ K2 Ho) as [Ho2 _].
    by rewrite (N1 _ _ _ E Hn) in Ho2.
  - intros wr (wr2 & Hw2 & R1 & O1)%W1. destruct (W2 _ Hw2) as (wr3 & ? & ? & ?).
    exists wr3. split_and!; congruence.
Qed.

(** *** The clock *)

Lemma retry_or_fail_superseded max t e :
  (ta_attempt t < max ≤ U32_MAX)%N → superseded t (retry_or_fail max (ta_attempt t) e) = true.
Proof.
  intros Ht. unfold retry_or_fail, saturating_add_u32. case_match; cbn; [apply N.ltb_lt|apply N.leb_le]; lia.
Qed.

Lemma retry_or_fail_free max a e v : occupies v (retry_or_fail max a e) = false.
Proof. unfold retry_or_fail. by case_match. Qed.

Lemma kept_expired c key i now dead p :
  wf c → part_wf c key i p → kept (max_task_attempts (config c)) w p (expire_partition (config c) now dead p).
Proof.
  intros Hc Hp. pose proof (vc_attempts _ (wf_config _ Hc)) as [_ Hm].
  split; [by eapply expire_lifecycle|..].
  - destruct p as [n|t v l s|t v l|t bs|a e r|]; try done; cbn [expire_partition];
      repeat (case_decide || case_match); rewrite ?retry_or_fail_free; try done; by split.
  - intros t l Ht. destruct p as [n|t' v l' s|t' v l'|t' bs|a e r|]; try done; simpl;
      repeat (case_decide || case_match); try (by left); right; [..|done|done].
    all: destruct Ht as (-> & _), Hp as (_ & Ha & _); apply retry_or_fail_superseded; lia.
Qed.

Lemma release_slot_observed wr : last_observed_at_ms (release_slot wr) = last_observed_at_ms wr.
Proof. unfold release_slot. by destruct (alive wr). Qed.

Lemma frame_advanced now c : wf c → frame c (advanced now c).
Proof.
  intros Hc. split; [done|..].
  - intros key i p Hp. rewrite part_advanced, Hp. eexists. split; [done|].
    eapply kept_expired; [done|]. by apply Hc.
  - intros key i p'. rewrite part_advanced. by intros (p & -> & _)%fmap_Some.
  - intros wr Hwr. simpl. rewrite map_lookup_imap, Hwr. eexists. split; [done|].
    rewrite iter_release_registration. split; [by destruct (timed_out _ _ _)|].
    transitivity (last_observed_at_ms (if timed_out c now wr then mark_dead wr else wr)); [|by destruct (timed_out _ _ _)].
    generalize (freed_slots c now (timed_out_workers c now) w) as k. intros k.
    induction k as [|k IH]; [done|]. cbn [Nat.iter nat_rect]. by rewrite release_slot_observed.
Qed.

(** *** One partition of another worker *)

Lemma frame_replaced c key i p q ws st :
  stages c !! key = Some st → partitions st !! i = Some p → lifecycle (max_task_attempts (config c)) p q →
  occupies w p = false → occupies w q = false →
  (∀ wr, workers c !! w = Some wr → ∃ wr', ws !! w = Some wr' ∧
    registration wr' = registration wr ∧ last_observed_at_ms wr' = last_observed_at_ms wr) →
  frame c (replaced c key i q ws st).
Proof.
  intros Hst Hp Hl Ho Ho' Hw. split; [done|..|done].
  - intros key' j p' (st' & Hst' & Hp')%part_Some. unfold part; simpl.
    destruct (decide (key = key')) as [<-|Hk]; [|rewrite lookup_insert_ne, Hst' by done; eauto using kept_refl].
    rewrite lookup_insert_eq. simplify_eq/=. destruct (decide (i = j)) as [<-|Hij].
    + rewrite list_lookup_insert_eq by by eapply lookup_lt_Some. simplify_eq.
      exists q. split; [done|]. by apply kept_other; [apply rtc_once|..].
    + rewrite list_lookup_insert_ne by done. eauto using kept_refl.
  - intros key' j p' Hp' Hn. exfalso. revert Hp'. unfold part in *; simpl.
    destruct (decide (key = key')) as [<-|Hk]; [|rewrite lookup_insert_ne by done; congruence].
    rewrite lookup_insert_eq. rewrite Hst in Hn. simpl in *. intros Hj%lookup_lt_Some.
    rewrite length_insert in Hj. apply lookup_ge_None in Hn. lia.
Qed.

Lemma frame_workers c ws :
  (∀ wr, workers c !! w = Some wr → ∃ wr', ws !! w = Some wr' ∧
    registration wr' = registration wr ∧ last_observed_at_ms wr' = last_observed_at_ms wr) →
  frame c (with_workers c ws).
Proof.
  intros Hw. split; [done|..|done].
  - intros key i p Hp. exists p. split; [done|apply kept_refl].
  - intros key i p' Hp' Hn. change (part c key i = Some p') in Hp'. congruence.
Qed.

Lemma frame_other_worker c v wr :
  v ≠ w → frame c (with_workers c (<[v := wr]> (workers c))).
Proof. intros Hne. apply frame_workers. intros wr' Hwr'. rewrite lookup_insert_ne by done. eauto. Qed.

(** *** Messages of other workers *)

Lemma frame_finish c key i p q v st :
  v ≠ w → stages c !! key = Some st → partitions st !! i = Some p → lifecycle (max_task_attempts (config c)) p q →
  occupies w p = false → occupies w q = false →
  ∃ c1, set_partition key i q c = Ok c1 ∧ frame c (release_worker_slot v c1).
Proof.
  intros Hv Hst Hp Hl Ho Ho'. rewrite (set_partition_ok _ _ _ _ st) by (done || by eapply lookup_lt_Some).
  eexists. split; [done|]. rewrite release_worker_slot_alter.
  apply (frame_replaced c key i p q (alter release_slot v (workers c)) st); try done.
  intros wr Hwr. rewrite lookup_alter_ne by done. eauto.
Qed.

Ltac same_state := intros Heq; injection Heq as <- <-; apply frame_refl.
Ltac time_check := match goal with |- context [validate_reported_time ?a ?b ?l ?d] =>
  destruct (validate_reported_time a b l d); [|same_state..] end.

Lemma frame_update_cancelling v t s now key i t' v' l c st r c' :
  v ≠ w → stages c !! key = Some st → partitions st !! i = Some (Cancelling t' v' l) →
  update_cancelling v t s now key i t' v' l c = (r, c') → frame c c'.
Proof.
  intros Hv Hst Hp. unfold update_cancelling. case_decide; [|same_state]. case_decide as Hw; [|same_state].
  destruct Hw as [-> _].
  destruct (frame_finish c key i (Cancelling t' v l) PartitionCancelled v st) as (c1 & Hset & Hf); try done.
  { constructor. }
  { by apply bool_decide_eq_false_2. }
  destruct s; time_check; try same_state; rewrite Hset; intros Heq; by injection Heq as <- <-.
Qed.

Lemma frame_apply_report v t s now key i l s0 c st r c' :
  v ≠ w → wf c → stages c !! key = Some st → partitions st !! i = Some (Active t v l s0) →
  TaskState_validate_for s t v = Ok tt → exchange_mismatch (plan st) s = false →
  apply_report v t s now key i t v l s0 c = (r, c') → frame c c'.
Proof.
  intros Hv Hc Hst Hp Hs Hx.
  assert (part_wf c key i (Active t v l s0)) as Hw by (apply Hc, part_Some; eauto).
  destruct (reported_wf _ _ _ _ _ _ _ _ _ Hc Hst Hw Hs Hx) as [_ Hl].
  assert (∀ s, occupies w (Active t v l s) = false) as Ho by (intros; by apply bool_decide_eq_false_2).
  destruct (frame_finish c key i (Active t v l s0) (reported (config c) t s) v st) as (c1 & Hset & Hf); try done.
  { apply reported_free. }
  destruct s as [ts|ts bs|ts e rt|ts why]; unfold apply_report; time_check; try same_state.
  - destruct s0 as [s0|]; [case_decide; same_state|].
    rewrite (set_partition_ok _ _ _ _ st) by (done || by eapply lookup_lt_Some). intros Heq; injection Heq as <- <-.
    apply (frame_replaced c key i (Active t v l None) _ (workers c) st); try done; [constructor|eauto].
  - simpl in Hset. rewrite Hset. intros Heq; by injection Heq as <- <-.
  - replace (if rt then _ else _) with (reported (config c) t (TaskFailed ts e rt)) by by destruct rt.
    rewrite Hset. intros Heq; by injection Heq as <- <-.
  - simpl in Hset. rewrite Hset. intros Heq; by injection Heq as <- <-.
Qed.

Lemma frame_task_update v t s now c r c' :
  v ≠ w → wf c → TaskState_validate_for s t v = Ok tt → record_task_update v t s now c = (r, c') → frame c c'.
Proof.
  intros Hv Hc Hs. unfold record_task_update. destruct (contains_key _ _); cbn [negb]; [|same_state].
  destruct (stages c !! _) as [st|] eqn:Est; cbn [ok_or]; [|same_state].
  destruct (TaskAttemptId_validate_for t (plan st)); [|same_state..].
  destruct (partitions st !! _) as [p|] eqn:Ep; cbn [expect]; [|same_state].
  destruct (superseded t p); [same_state|]. destruct (exchange_mismatch _ _) eqn:Ex; [same_state|].
  destruct p as [n|t' v' l s0|t' v' l|t' bs|a' e z|]; try same_state.
  - unfold update_active. case_decide as Ht; [|same_state]. case_decide as Hw; [|same_state].
    destruct Hw as [-> _]. subst t'. case_match; [same_state|]. by eapply frame_apply_report.
  - by eapply frame_update_cancelling.
Qed.

Definition sender (m : WorkerMessage) : WorkerId :=
  match m with Register _ r => wr_worker_id r | Heartbeat _ h => wh_worker_id h | TaskUpdate _ v _ _ => v end.

Lemma frame_message m now c r c' :
  sender m ≠ w → wf c → handle_worker_message m now c = (r, c') → frame c c'.
Proof.
  intros Hv Hc. unfold handle_worker_message.
  destruct (WorkerMessage_validate m) as [[]| |] eqn:Ev; [|same_state..]. rewrite advance_time_advanced.
  pose proof (gs_wf _ _ (good_step_advanced now c Hc)) as Hc1. intros Hx.
  apply (frame_trans c (advanced now c)); [by apply frame_advanced|]. revert Hx. generalize dependent (advanced now c). intros c1 Hc1.
  destruct m as [v g|v h|v u t s]; cbn [sender] in Hv.
  - unfold register_worker. case_match; [same_state|]. intros Heq; injection Heq as <- <-. by apply frame_other_worker.
  - unfold record_heartbeat. destruct (workers c1 !! _); cbn [ok_or]; [|same_state].
    repeat (case_match; [same_state|]). intros Heq; injection Heq as <- <-. by apply frame_other_worker.
  - simpl in Ev. repeat (apply bind_unit_ok in Ev as [_ Ev]). by apply frame_task_update.
Qed.

(** *** Assignments to other workers *)

Lemma assign_to_worker_state v now c m c' key i a :
  next_pending_partition c = Some (key, i, a) → assign_to_worker v now c = (Ok (Some m), c') →
  ∃ stage task lease blocks c1, m = AssignTask PROTOCOL_VERSION stage task lease blocks ∧
    set_partition key i (Active task v lease None) c = Ok c1 ∧ take_worker_slot v c1 = Ok c'.
Proof.
  intros Hn. unfold assign_to_worker. rewrite Hn.
  repeat match goal with |- context [match ?r with Ok _ => _ | Err _ => _ | Panic _ => _ end] =>
    let E := fresh "E" in destruct r eqn:E; [|done..] end.
  intros Heq. injection Heq as <- <-. by eauto 10.
Qed.

Lemma frame_next_for v now c r c' :
  v ≠ w → wf c → next_assignment_for v now c = (r, c') → frame c c'.
Proof.
  intros Hv Hc. unfold next_assignment_for. rewrite advance_time_advanced.
  pose proof (gs_wf _ _ (good_step_advanced now c Hc)) as Hc1. intros Hx.
  apply (frame_trans c (advanced now c)); [by apply frame_advanced|]. revert Hx. generalize dependent (advanced now c). intros c1 Hc1.
  destruct (workers c1 !! v) as [wr|] eqn:Ew; cbn [ok_or]; [|same_state].
  destruct (alive wr) eqn:Ea; cbn [negb orb]; [|same_state].
  destruct (N.eqb_spec (available_slots wr) 0) as [|Hz]; [same_state|].
  pose proof (assign_to_worker_spec c1 v wr now Hc1 Ew Ea ltac:(lia)) as Hs.
  destruct (next_pending_partition c1) as [[[key i] n]|] eqn:En; [|rewrite Hs; same_state].
  destruct Hs as [[_ ->]|(st & c2 & _ & Hst & Has & _)]; [same_state|]. rewrite Has. intros Heq; injection Heq as <- <-.
  destruct (assign_to_worker_state _ _ _ _ _ _ _ _ En Has) as (? & task & lease & ? & c3 & Hm & Hset & Htake).
  injection Hm as _ <- _ _.
  destruct (next_pending_Some _ _ _ _ En) as (st' & Hst' & _ & _ & Hp). simplify_eq.
  rewrite (set_partition_ok _ _ _ _ st) in Hset by (done || by eapply lookup_lt_Some). injection Hset as <-.
  rewrite (take_worker_slot_ok v wr) in Htake by (done || lia). injection Htake as <-.
  apply (frame_replaced c1 key i (Pending n) _ (<[v := set_slots wr (available_slots wr - 1)]> (workers c1)) st);
    try done; [by constructor|by apply bool_decide_eq_false_2|].
  intros wr' Hwr'. rewrite lookup_insert_ne by done. eauto.
Qed.

(** *** Submissions and cancellations *)

Lemma frame_submit stage c r c' : wf c → submit_stage stage c = (r, c') → frame c c'.
Proof.
  intros Hc. unfold submit_stage. destruct (submit_checks c stage) as [[]| |] eqn:E; [|same_state..].
  apply submit_checks_ok in E. intros Heq; injection Heq as <- <-.
  pose proof (ac_fresh _ _ E) as Hf. split; [done|..|eauto].
  - intros key i p (st & Hst & Hp)%part_Some. exists p. split; [|apply kept_refl].
    apply part_Some. exists st. simpl. by rewrite lookup_insert_ne by congruence.
  - intros key i p' (st & Hst & Hp)%part_Some Hn. simpl in Hst.
    apply lookup_insert_Some in Hst as [[<- <-]|[_ Hst]].
    + simpl in Hp. by apply lookup_replicate_1 in Hp as [-> _].
    + assert (part c key i = Some p') by (apply part_Some; eauto). congruence.
Qed.

Lemma kept_cancel max p : kept max w p (cancel_partition p).
Proof.
  split; [apply cancel_lifecycle|..].
  - destruct p; try done; intros Ho; (split; [done|]); intros t l Ht; by destruct Ht as (-> & -> & -> & _).
  - intros t l. destruct p; try done; intros Ht; [left|by right]. by destruct Ht as (-> & -> & -> & _).
Qed.

Lemma frame_cancel q reason c r c' : wf c → cancel_query q reason c = (r, c') → frame c c'.
Proof.
  intros Hc. unfold cancel_query. destruct (CoordinatorMessage_validate _); [|same_state..].
  case_match; [same_state|]. destruct (cancelled_queries c !! q); [case_decide; same_state|].
  intros Heq; injection Heq as <- <-. fold (cancelled_state c q reason). split; [done|..|eauto].
  - intros key i p Hp. rewrite part_cancelled, Hp. eexists. split; [done|].
    case_decide; [apply kept_cancel|apply kept_refl].
  - intros key i p'. rewrite part_cancelled. by intros (p & -> & _)%fmap_Some.
Qed.

(** *** Any call that is not the worker's *)

(** [next_assignment] hands out tasks nobody asked for; only the in-process cluster
    calls it. *)
Definition foreign (cmd : command) : Prop :=
  match cmd with
  | DoMessage m _ => sender m ≠ w
  | DoNext _ => False
  | DoNextFor v _ => v ≠ w
  | DoSubmit _ | DoCancel _ _ | DoAdvance _ => True
  end.

Lemma frame_foreign cmd c r c' : wf c → foreign cmd → execute cmd c = (r, c') → frame c c'.
Proof.
  intros Hc Hf Hx. destruct cmd as [s|m now|now|v now|q reason|now]; cbn [execute] in Hx; try done;
    try apply replying_inv in Hx as (r0 & Hx & _).
  - by eapply frame_submit.
  - by eapply frame_message.
  - by eapply frame_next_for.
  - by eapply frame_cancel.
  - rewrite advance_time_advanced in Hx. injection Hx as _ <-. by apply frame_advanced.
Qed.
End frame.
