(* ===== verification/CoordinatorDemo.v ===== *)
(** * A concrete two-stage query

    One worker, a map stage of two partitions whose output is hash-partitioned
    two ways, and a partitioned reduce stage.  The states below are the inputs
    at which the coordinator's theorems are instantiated. *)
From S2P Require Import Prelude Text Protocol Coordinator CoordinatorClock CoordinatorInv CoordinatorSpec CoordinatorSteps CoordinatorAssign CoordinatorRun.

(** A plan codec that accepts every non-empty fragment. *)
Definition demo_validate (bytes : list N) : result unit :=
  match bytes with [] => Err (Protocol "empty plan fragment") | _ => Ok tt end.

Lemma demo_validate_no_panic bytes : no_panic (demo_validate bytes).
Proof. by destruct bytes. Qed.

#[export] Instance demo_fragments : PlanFragments :=
  {| validate_fragment := demo_validate; validate_fragment_no_panic := demo_validate_no_panic |}.

Definition demo_config : CoordinatorConfig := MkCoordinatorConfig 1000 500 2 16.
Definition demo_query : QueryId := MkQueryId "q1".
Definition demo_worker : WorkerId := MkWorkerId "w1".

Definition demo_map : StagePlan :=
  MkStagePlan demo_query (MkStageId 0) [] 2 [1%N] (Some (MkHashExchange [0%N] 2)) false.
Definition demo_reduce : StagePlan :=
  MkStagePlan demo_query (MkStageId 1) [MkStageId 0] 2 [1%N] None true.

Definition demo_task (s p a : N) : TaskAttemptId :=
  MkTaskAttemptId demo_query (MkStageId s) (MkPartitionId p) a.

Definition demo_block (t : TaskAttemptId) (dest : N) : ShuffleBlock :=
  MkShuffleBlock t (MkPartitionId dest) 10 100 "abc" (Worker demo_worker).

Definition demo_success (p finished : N) : WorkerMessage :=
  TaskUpdate PROTOCOL_VERSION demo_worker (demo_task 0 p 0)
    (TaskSucceeded finished [demo_block (demo_task 0 p 0) 0; demo_block (demo_task 0 p 0) 1]).

Definition demo_new : Coordinator := MkCoordinator demo_config ∅ ∅ ∅.

(** Both map tasks handed out. *)
Definition demo_start : list command :=
  [ DoMessage (Register PROTOCOL_VERSION (MkWorkerRegistration demo_worker 2 1000)) 10;
    DoSubmit demo_map; DoSubmit demo_reduce; DoNext 20; DoNext 30 ].

(** Both map tasks finished. *)
Definition demo_mapped : list command :=
  demo_start ++ [ DoMessage (demo_success 0 40) 50; DoMessage (demo_success 1 45) 60 ].

Definition demo_running : Coordinator := (run demo_start demo_new).2.
Definition demo_ready : Coordinator := (run demo_mapped demo_new).2.

Lemma reachable_run cfg cmds c :
  reachable cfg c → Forall typed_command cmds → reachable cfg (run cmds c).2.
Proof.
  intros Hr Ht. revert c Hr. induction Ht as [|cmd cmds Ht _ IH]; intros c Hr; [done|].
  cbn [run]. pose proof (reachable_execute _ _ cmd Hr Ht) as Hr1.
  destruct (execute cmd c) as [r c1]. specialize (IH c1 Hr1).
  by destruct (run cmds c1).
Qed.

Lemma demo_typed : Forall typed_command demo_mapped.
Proof. repeat constructor; vm_compute; discriminate. Qed.

Lemma demo_running_reachable : reachable demo_config demo_running.
Proof.
  apply reachable_run; [by apply reachable_new|]. repeat constructor; vm_compute; discriminate.
Qed.

Lemma demo_ready_reachable : reachable demo_config demo_ready.
Proof. apply reachable_run; [by apply reachable_new|apply demo_typed]. Qed.

Lemma demo_config_typed : typed_config demo_config.
Proof. split; vm_compute; discriminate. Qed.

Example demo_issued :
  omap issued_task (run (demo_mapped ++ [DoNext 70; DoNext 70]) demo_new).1 =
  [demo_task 0 0 0; demo_task 0 1 0; demo_task 1 0 0; demo_task 1 1 0].
Proof. vm_compute. reflexivity. Qed.
