(* ===== verification/CoordinatorProps.v ===== *)
(** * What the coordinator guarantees

    The theorems about reachable coordinator states, each instantiated at the
    two-stage query of [CoordinatorDemo.v]. *)
From S2P Require Import Prelude Text Protocol Coordinator CoordinatorClock CoordinatorInv CoordinatorSpec CoordinatorSteps CoordinatorAssign CoordinatorRun CoordinatorDemo.

(** ** Blocks of a hash exchange *)

Lemma size_list_to_set_le (l : list N) : size (list_to_set l : gset N) ≤ length l.
Proof.
  induction l as [|x l IH]; [done|]. cbn [list_to_set length].
  rewrite size_union_alt, size_singleton.
  assert (size (list_to_set l ∖ {[x]} : gset N) ≤ size (list_to_set l : gset N))
    by (apply subseteq_size; set_solver).
  lia.
Qed.

Lemma NoDup_of_size (l : list N) : size (list_to_set l : gset N) = length l → NoDup l.
Proof.
  induction l as [|x l IH]; [constructor|]. cbn [list_to_set length].
  rewrite size_union_alt, size_singleton. intros Hs.
  pose proof (size_list_to_set_le l).
  assert (size (list_to_set l ∖ {[x]} : gset N) ≤ size (list_to_set l : gset N))
    by (apply subseteq_size; set_solver).
  apply list.NoDup_cons. split; [|apply IH; lia].
  intros Hx. assert (size (list_to_set l ∖ {[x]} : gset N) < size (list_to_set l : gset N)).
  { apply subset_size. assert (x ∈ (list_to_set l : gset N)) by by apply elem_of_list_to_set.
    set_solver. }
  lia.
Qed.

Definition below (k : N) : gset N := list_to_set (N.of_nat <$> seq 0 (N.to_nat k)).

Lemma elem_of_below k x : x ∈ below k ↔ (x < k)%N.
Proof.
  unfold below. rewrite elem_of_list_to_set, list_elem_of_fmap. split.
  - intros (n & -> & Hn%list.elem_of_seq). lia.
  - intros Hx. exists (N.to_nat x). rewrite list.elem_of_seq. lia.
Qed.

Lemma size_below k : size (below k) = N.to_nat k.
Proof.
  unfold below. rewrite size_list_to_set.
  - by rewrite length_fmap, length_seq.
  - apply NoDup_fmap_2; [apply _|]. apply NoDup_ListNoDup, seq_NoDup.
Qed.

Lemma filter_unique {A} (f : A → N) (l : list A) x :
  NoDup (f <$> l) → x ∈ f <$> l → ∃ a, base.filter (λ b, f b = x) l = [a].
Proof.
  induction l as [|b l IH]; simpl; intros Hnd Hx; [by inversion Hx|].
  apply list.NoDup_cons in Hnd as [Hb Hnd]. apply elem_of_cons in Hx as [->|Hx].
  - rewrite filter_cons_True by done. exists b. f_equal.
    destruct (base.filter _ l) as [|a k] eqn:Ef; [done|].
    assert (a ∈ base.filter (λ a, f a = f b) l) as [Hfa Ha]%list_elem_of_filter
      by (rewrite Ef; left).
    destruct Hb. rewrite <-Hfa. by apply list_elem_of_fmap_2.
  - rewrite filter_cons_False; [auto|]. intros <-. done.
Qed.

(** A committed exchange has exactly one block for each destination. *)
Lemma exchange_one_block p blocks e pid :
  sp_output_exchange p = Some e → exchange_mismatch p (TaskSucceeded 0 blocks) = false →
  (partition_num pid < he_partition_count e)%N →
  ∃ b, base.filter (λ b, sb_output_partition b = pid) blocks = [b].
Proof.
  intros He Hx Hp. unfold exchange_mismatch in Hx. rewrite He in Hx.
  set (dests := (λ b, partition_num (sb_output_partition b)) <$> blocks) in Hx.
  bool_to_prop.
  assert (list_to_set dests = below (he_partition_count e)) as Hall.
  { apply set_subseteq_size_eq.
    - intros x Hin. apply elem_of_below. destruct (decide (x < he_partition_count e)%N); [done|].
      match goal with H : existsb _ _ = false |- _ =>
        rewrite <-not_true_iff_false, existsb_exists in H; destruct H end.
      exists x. rewrite <-list_elem_of_In, elem_of_elements. split; [done|]. apply N.leb_le. lia.
    - rewrite size_below. lia. }
  destruct (filter_unique (λ b, partition_num (sb_output_partition b)) blocks
              (partition_num pid)) as [b Hb].
  - apply NoDup_of_size. fold dests. unfold dests at 2. rewrite length_fmap. lia.
  - fold dests. apply (elem_of_list_to_set (C:=gset N)). rewrite Hall. by apply elem_of_below.
  - exists b. rewrite <-Hb. apply list_filter_iff. intros a. destruct (sb_output_partition a), pid.
    simpl. naive_solver.
Qed.

(** ** Lemmas behind the guarantees *)

(** The tasks whose output a downstream task reads, in partition order. *)
Definition committed_task (p : PartitionRuntime) : option TaskAttemptId :=
  match p with Succeeded task _ => Some task | _ => None end.

Definition stage_producers (c : Coordinator) (q : QueryId) (d : StageId) : list TaskAttemptId :=
  match stages c !! (q, d) with Some up => omap committed_task (partitions up) | None => [] end.

Section lemmas.
Context `{PlanFragments}.

Lemma producers_of_exchange c key st e pid ps off :
  wf c → stages c !! key = Some st → sp_output_exchange (plan st) = Some e →
  (partition_num pid < he_partition_count e)%N →
  (∀ i p, ps !! i = Some p → partitions st !! (off + i) = Some p) →
  sb_producer <$> base.filter (λ b, sb_output_partition b = pid) (mjoin (succeeded_blocks <$> ps))
  = omap committed_task ps.
Proof.
  intros Hc Hst He Hpid. revert off. induction ps as [|p ps IH]; intros off Hps; [done|].
  rewrite fmap_cons. change (mjoin (?x :: ?l)) with (x ++ mjoin l).
  rewrite list.filter_app, fmap_app, (IH (S off)).
  2:{ intros i q Hq. rewrite Nat.add_succ_comm. by apply (Hps (S i)). }
  destruct p as [n|t w l s|t w l|t bs|a e' r|]; try done. simpl.
  assert (part_wf c key off (Succeeded t bs)) as (_ & _ & HF & Hx).
  { apply Hc, part_Some. exists st. split; [done|]. rewrite <-(Nat.add_0_r off).
    by apply (Hps 0). }
  destruct (exchange_one_block _ _ _ _ He (Hx _ Hst) Hpid) as [b Hb]. rewrite Hb. simpl. f_equal.
  assert (b ∈ base.filter (λ b, sb_output_partition b = pid) bs) as [_ Hin]%list_elem_of_filter
    by (rewrite Hb; left).
  rewrite Forall_forall in HF. by apply HF, list_elem_of_In.
Qed.

Lemma partitioned_producers c key st pid :
  wf c → stages c !! key = Some st → sp_partitioned_input (plan st) = true →
  (partition_num pid < sp_partition_count (plan st))%N →
  sb_producer <$> expected_inputs c (plan st) pid
  = mjoin (stage_producers c (sp_query_id (plan st)) <$> sp_input_stages (plan st)).
Proof.
  intros Hc Hst Hpi Hpid. pose proof (wf_stage _ Hc _ _ Hst) as [K _ _ _ D].
  subst key. simpl in D. unfold expected_inputs. rewrite Hpi.
  assert (∀ d, d ∈ sp_input_stages (plan st) →
    sb_producer <$> base.filter (λ b, sb_output_partition b = pid)
      (stage_blocks c (sp_query_id (plan st)) d)
    = stage_producers c (sp_query_id (plan st)) d) as Hone.
  { intros d (up & Hup & Hx)%D. specialize (Hx Hpi). unfold stage_blocks, stage_producers.
    rewrite Hup. destruct (sp_output_exchange (plan up)) as [e|] eqn:He; [|done].
    simpl in Hx. eapply (producers_of_exchange c _ up e pid _ 0); eauto. congruence. }
  clear D Hst. induction (sp_input_stages (plan st)) as [|d ds IH]; [done|].
  rewrite !fmap_cons. change (mjoin (?x :: ?l)) with (x ++ mjoin l).
  rewrite list.filter_app, fmap_app, (Hone d) by by left. f_equal.
  apply IH. intros d' Hd'. apply Hone. by right.
Qed.

(** Some stage of an unfinished query has all its inputs and is unfinished. *)
Lemma runnable_stage c q s st :
  wf c → acyclic c → stages c !! (q, s) = Some st → forallb is_succeeded (partitions st) = false →
  ∃ s' st', stages c !! (q, s') = Some st' ∧ dependencies_succeeded c st' = true ∧
    forallb is_succeeded (partitions st') = false.
Proof.
  intros Hc [rank Hr]. remember (rank (q, s)) as k eqn:Hk. revert s st Hk.
  induction (lt_wf k) as [k _ IH]. intros s st -> Hst Hun.
  destruct (dependencies_succeeded c st) eqn:Ed; [by exists s, st|].
  unfold dependencies_succeeded in Ed.
  destruct (wf_stage _ Hc _ _ Hst) as [K _ _ _ D]. simplify_eq.
  apply not_true_iff_false in Ed. rewrite forallb_forall in Ed.
  assert (∃ d up, d ∈ sp_input_stages (plan st) ∧
    stages c !! (sp_query_id (plan st), d) = Some up ∧
    forallb is_succeeded (partitions up) = false) as (d & up & Hd & Hup & Hf).
  { destruct (decide (Exists (λ d, match stages c !! (sp_query_id (plan st), d) with
      | Some dep => forallb is_succeeded (partitions dep) | None => false end = false)
      (sp_input_stages (plan st)))) as [(d & Hd & Hx)%Exists_exists|Hno].
    - apply list_elem_of_In in Hd. destruct (D d Hd) as (up & Hup & _). simpl in Hup.
      rewrite Hup in Hx. eauto.
    - destruct Ed. intros d Hd. apply not_false_iff_true. intros Hx. apply Hno.
      apply Exists_exists. eauto. }
  eapply IH; [|done..]. exact (Hr _ st d Hst Hd).
Qed.

(** Partitions of a cancelled query are finished or winding down. *)
Lemma cancelled_part c q s i p :
  wf c → is_Some (cancelled_queries c !! q) → part c (q, s) i = Some p →
  match p with
  | Cancelling _ _ _ | Succeeded _ _ | PartitionCancelled => True
  | _ => False
  end.
Proof.
  intros Hc [r Hr] Hp. apply (wf_part _ Hc) in Hp.
  destruct p; simpl in Hp; try done; intuition congruence.
Qed.

Lemma cancelled_not_issued cmds c rs c' q :
  wf c → Forall typed_command cmds → run cmds c = (rs, c') → is_Some (cancelled_queries c !! q) →
  Forall (λ t, ta_query_id t ≠ q) (omap issued_task rs).
Proof.
  intros Hc Ht. revert c rs Hc. induction Ht as [|cmd cmds Ht _ IH]; intros c rs Hc Hr Hq;
    cbn [run] in Hr; [by injection Hr as <- <-|].
  destruct (execute cmd c) as [r c1] eqn:Hx. destruct (run cmds c1) as [rs' c2] eqn:Hr'.
  injection Hr as <- <-. destruct (execute_step _ _ _ _ Hc Ht Hx) as (Hg & _).
  assert (Forall (λ t, ta_query_id t ≠ q) (omap issued_task rs')) as Hrest.
  { eapply IH; [apply Hg|done|]. destruct Hq as [x Hx'].
    exists x. by apply (et_cancelled _ _ (gs_extends _ _ Hg)). }
  cbn [omap list_omap]. destruct (issued_task r) as [t|] eqn:Ei; simpl; [|done].
  constructor; [|done]. intros <-.
  destruct (issued_step _ _ _ _ _ Hc Hx Ei) as (c3 & w & l & Hg1 & _ & Hp & _).
  eapply (cancelled_part c3) in Hp; [done|apply Hg1|].
  destruct Hq as [x Hx']. exists x. by apply (et_cancelled _ _ (gs_extends _ _ Hg1)).
Qed.

(** What survives the expiry check has not expired. *)
Lemma held_lease_fresh c now key i p t w l s :
  part (advanced now c) key i = Some p → (p = Active t w l s ∨ p = Cancelling t w l) →
  (now < tl_expires_at_ms l)%N.
Proof.
  rewrite part_advanced. intros (p0 & _ & ->)%fmap_Some Hp.
  destruct p0 as [n|t0 w0 l0 s0|t0 w0 l0|t0 bs|a e r|]; simpl in Hp;
    try (by destruct Hp); unfold retry_or_fail in Hp;
    repeat (case_decide || case_match); destruct Hp as [Hp|Hp]; simplify_eq; bool_to_prop; lia.
Qed.

Lemma iter_release_received k wr :
  last_received_at_ms (Nat.iter k release_slot wr) = last_received_at_ms wr.
Proof.
  induction k as [|k IH]; [done|]. cbn [Nat.iter nat_rect]. rewrite <-IH.
  unfold release_slot at 1. by destruct (alive _).
Qed.

Lemma advanced_worker_fresh c now w wr :
  workers (advanced now c) !! w = Some wr → alive wr = true →
  (saturating_sub now (last_received_at_ms wr) ≤ heartbeat_timeout_ms (config c))%N.
Proof.
  simpl. rewrite map_lookup_imap. destruct (workers c !! w) as [wr0|]; simpl; [|done].
  intros [= <-]. rewrite iter_release_alive, iter_release_received.
  destruct (timed_out c now wr0) eqn:Et; [done|]. intros Hal. unfold timed_out in Et.
  rewrite Hal in Et. cbn [andb] in Et. bool_to_prop. done.
Qed.

(** The report of an attempt that lost its partition changes nothing. *)
Lemma past_report_rejected c v w t state now r c' p :
  wf c → part c (ta_query_id t, ta_stage_id t)
    (N.to_nat (partition_num (ta_partition_id t))) = Some p → past t p →
  handle_worker_message (TaskUpdate v w t state) now c = (r, c') →
  (∃ e, r = Err e) ∧ (c' = c ∨ c' = advanced now c).
Proof.
  intros Hc Hp Hpast. pose proof (good_step_advanced now c Hc) as Hg.
  destruct (gs_moves _ _ Hg _ _ _ Hp) as (p1 & Hp1 & Hr).
  apply (lifecycle_past_rtc _ _ _ _ Hr) in Hpast. unfold handle_worker_message.
  pose proof (WorkerMessage_validate_no_panic (TaskUpdate v w t state)).
  destruct (WorkerMessage_validate _); [|intros Hx; injection Hx as <- <-; eauto|done].
  rewrite advance_time_advanced. unfold record_task_update.
  destruct (contains_key _ _); cbn [negb]; [|intros Hx; injection Hx as <- <-; eauto].
  apply part_Some in Hp1 as (st & Hst & Hi). rewrite Hst. cbn [ok_or].
  pose proof (TaskAttemptId_validate_for_no_panic t (plan st)).
  destruct (TaskAttemptId_validate_for _ _); [|intros Hx; injection Hx as <- <-; eauto|done].
  rewrite Hi. cbn [expect].
  destruct (superseded t p1) eqn:Es; [intros Hx; injection Hx as <- <-; eauto|].
  destruct (exchange_mismatch _ _); [intros Hx; injection Hx as <- <-; eauto|].
  destruct Hpast as [[bs ->]|?]; [|congruence]. intros Hx; injection Hx as <- <-; eauto.
Qed.

(** Committed blocks stay: success is terminal, and a partition that has not
    succeeded when its query is cancelled never will. *)
Lemma blocks_stable max q s i p p' c :
  wf c → part c (q, s) i = Some p → rtc (lifecycle max) p p' →
  (is_Some (cancelled_queries c !! q) ∨ is_succeeded p = true) →
  succeeded_blocks p' = succeeded_blocks p ∧ (is_succeeded p = true → is_succeeded p' = true).
Proof.
  intros Hc Hp Hr Hor.
  assert (terminal p = true ∨ ∃ t w l, p = Cancelling t w l) as [Ht|(t & w & l & ->)].
  { destruct Hor as [Hq|Hs]; [|by left; destruct p].
    pose proof (cancelled_part _ _ _ _ _ Hc Hq Hp). destruct p; try done; eauto. }
  - by rewrite (lifecycle_terminal_rtc _ _ _ Hr Ht).
  - inversion Hr as [|? p1 ? H1 Hr']; subst; [done|]. inversion H1; subst.
    by rewrite (lifecycle_terminal_rtc _ _ _ Hr' eq_refl).
Qed.

Lemma stage_blocks_stable c c' q s st st' :
  wf c → good_step c c' → stages c !! (q, s) = Some st → stages c' !! (q, s) = Some st' →
  (is_Some (cancelled_queries c !! q) ∨ forallb is_succeeded (partitions st) = true) →
  succeeded_blocks <$> partitions st' = succeeded_blocks <$> partitions st ∧
  (forallb is_succeeded (partitions st) = true → forallb is_succeeded (partitions st') = true).
Proof.
  intros Hc Hg Hst Hst' Hor.
  assert (∀ i p', partitions st' !! i = Some p' → ∃ p, partitions st !! i = Some p ∧
    succeeded_blocks p' = succeeded_blocks p ∧ (is_succeeded p = true → is_succeeded p' = true))
    as Hpt.
  { intros i p' Hp'. destruct (et_plan _ _ (gs_extends _ _ Hg) _ _ Hst) as (st2 & ? & _ & Hl).
    simplify_eq. destruct (lookup_lt_is_Some_2 (partitions st) i) as [p Hp].
    { rewrite <-Hl. by eapply lookup_lt_Some. }
    exists p. split; [done|]. assert (part c (q, s) i = Some p) as Hpc by (apply part_Some; eauto).
    destruct (gs_moves _ _ Hg _ _ _ Hpc) as (p2 & (st3 & ? & ?)%part_Some & Hr). simplify_eq.
    eapply blocks_stable; [done..|]. destruct Hor as [?|Hall]; [by left|right].
    rewrite forallb_forall in Hall. apply Hall, list_elem_of_In. by eapply list_elem_of_lookup_2. }
  split.
  - apply list_eq_same_length with (length (partitions st)); rewrite ?length_fmap; [done| |].
    + by destruct (et_plan _ _ (gs_extends _ _ Hg) _ _ Hst) as (st2 & ? & _ & ?); simplify_eq.
    + intros i x y _ Hx Hy. rewrite list_lookup_fmap in Hx, Hy.
      apply fmap_Some in Hx as (p' & Hp' & ->). apply fmap_Some in Hy as (p & Hp & ->).
      destruct (Hpt _ _ Hp') as (p0 & ? & ? & _). simplify_eq. done.
  - rewrite !forallb_forall. intros Hall p' [i Hi]%list_elem_of_In%list_elem_of_lookup.
    destruct (Hpt _ _ Hi) as (p & Hp & _ & Himp). apply Himp, Hall, list_elem_of_In.
    by eapply list_elem_of_lookup_2.
Qed.
End lemmas.

(** ** Guarantees *)

Section guarantees.
Context `{PlanFragments}.

(** C1: every state a coordinator reaches, whatever calls it receives and
    whether they succeed or fail, is well formed: plans are valid and their
    partition vectors have the planned length, dependencies exist, each
    partition's task, attempt number, lease, worker and blocks are consistent
    with its position, and each worker's slot account balances. *)
Theorem coordinator_invariant cfg c : typed_config cfg → reachable cfg c → wf c.
Proof. intros Hcfg Hr. by apply (reachable_wf cfg). Qed.

(** C2: no call panics in a reachable state: every [expect], every index and
    the unchecked slot subtraction are safe. *)
Theorem coordinator_never_panics cfg c cmd :
  typed_config cfg → reachable cfg c → typed_command cmd → no_panic (execute cmd c).1.
Proof.
  intros Hcfg Hr Ht. destruct (execute cmd c) as [r c'] eqn:Hx.
  by apply (execute_step _ _ _ _ (proj1 (reachable_wf _ _ Hcfg Hr)) Ht Hx).
Qed.

(** C3: the coordinator implements the life cycle of [CoordinatorSpec.v]:
    over any sequence of calls a partition stays in place under the same plan
    and moves only along specified transitions, of which there are at most
    [3 * max_task_attempts + 5]. *)
Theorem coordinator_refines_lifecycle cfg c cmds rs c' key i p :
  typed_config cfg → reachable cfg c → Forall typed_command cmds → run cmds c = (rs, c') →
  part c key i = Some p →
  ∃ p' k, part c' key i = Some p' ∧
    nsteps (lifecycle (max_task_attempts (config c))) k p p' ∧
    (N.of_nat k ≤ 3 * max_task_attempts (config c) + 5)%N ∧
    plan <$> stages c' !! key = plan <$> stages c !! key.
Proof.
  intros Hcfg Hr Ht Hrun Hp. destruct (reachable_wf _ _ Hcfg Hr) as [Hc _].
  pose proof (run_step _ _ _ _ Hc Ht Hrun) as Hg.
  destruct (gs_moves _ _ Hg _ _ _ Hp) as (p' & Hp' & [k Hk]%rtc_nsteps).
  exists p', k. split_and!; [done|done|..].
  - pose proof (lifecycle_nsteps _ _ _ _ Hk).
    assert (remaining (max_task_attempts (config c)) p ≤ 3 * max_task_attempts (config c) + 5)%N.
    { destruct p as [|??? []| | | |]; simpl; lia. }
    lia.
  - apply part_Some in Hp as (st & Hst & _).
    destruct (et_plan _ _ (gs_extends _ _ Hg) _ _ Hst) as (st' & -> & E & _).
    rewrite Hst. simpl. by rewrite E.
Qed.

(** C4: over the whole life of a coordinator no task attempt is handed out
    twice, and a partition is attempted at most [max_task_attempts] times. *)
Theorem attempts_unique_and_bounded cfg c cmds rs c' :
  typed_config cfg → Coordinator_new cfg = Ok c → Forall typed_command cmds →
  run cmds c = (rs, c') →
  NoDup (omap issued_task rs) ∧
  ∀ q s p, (N.of_nat (length (base.filter (λ t,
      ta_query_id t = q ∧ ta_stage_id t = s ∧ ta_partition_id t = p) (omap issued_task rs)))
    ≤ max_task_attempts cfg)%N.
Proof.
  intros Hcfg Hnew Ht Hrun. destruct (new_wf _ _ Hcfg Hnew) as [Hc _].
  assert (config c = cfg) as Ecfg.
  { unfold Coordinator_new in Hnew. apply bind_ok in Hnew as (cfg' & Hv & [= <-]).
    unfold CoordinatorConfig_validate in Hv. split_matches. }
  destruct (run_issued cmds c rs c' [] Hc Ht Hrun) as [Hnd Hlt]; [by intros t ?%elem_of_nil|constructor|].
  rewrite app_nil_r in Hnd. rewrite Ecfg in Hlt.
  assert (NoDup (omap issued_task rs)) as Hnd'.
  { rewrite <-(rev_involutive (omap issued_task rs)). by apply NoDup_ListNoDup, NoDup_rev, NoDup_ListNoDup. }
  split; [done|]. intros q s p.
  set (l := base.filter _ _).
  assert (NoDup (ta_attempt <$> l)) as Hl.
  { apply NoDup_fmap_2_strong; [|by apply list.NoDup_filter].
    intros [] [] [(? & ? & ?) _]%list_elem_of_filter [(? & ? & ?) _]%list_elem_of_filter ?.
    simpl in *. congruence. }
  assert (list_to_set (ta_attempt <$> l) ⊆ below (max_task_attempts cfg)) as Hsub.
  { intros a. rewrite elem_of_list_to_set, elem_of_below.
    intros (t & -> & [_ Hin]%list_elem_of_filter)%list_elem_of_fmap.
    rewrite Forall_forall in Hlt. by apply Hlt, list_elem_of_In. }
  apply subseteq_size in Hsub. rewrite size_below, size_list_to_set, length_fmap in Hsub by done.
  lia.
Qed.

(** Slots are never oversubscribed: what a live worker runs plus what it
    offers is within what it registered, and a worker that missed its
    heartbeat runs and offers nothing. *)
Theorem slots_never_oversubscribed cfg c w wr :
  typed_config cfg → reachable cfg c → workers c !! w = Some wr →
  if alive wr
  then (active_tasks_for_worker c w + available_slots wr ≤ wr_slots (registration wr))%N
  else active_tasks_for_worker c w = 0%N ∧ available_slots wr = 0%N.
Proof.
  intros Hcfg Hr Hw. destruct (reachable_wf _ _ Hcfg Hr) as [Hc _].
  destruct (wf_worker _ Hc _ _ Hw) as [_ _ Hu Hs]. rewrite active_tasks_busy.
  unfold slots_wf in Hs. destruct (alive wr); lia.
Qed.

(** C6: an assignment, from either method, is for a pending attempt of an
    uncancelled query whose dependencies have all succeeded; it carries the
    submitted plan, a lease for a live worker with a free slot, and exactly the
    committed blocks of the dependencies (for a partitioned stage, the ones
    addressed to the partition); it passes the worker's own validation; and the
    partition is active under that lease afterwards. *)
Theorem assignment_correct cfg c cmd m c' :
  typed_config cfg → reachable cfg c → execute cmd c = (Ok (Assigned (Some m)), c') →
  ∃ now c1 w wr q s st i n,
    (cmd = DoNext now ∨ cmd = DoNextFor w now) ∧ advance_time now c = Ok c1 ∧
    workers c1 !! w = Some wr ∧ alive wr = true ∧ (0 < available_slots wr)%N ∧
    stages c1 !! (q, s) = Some st ∧ cancelled_queries c1 !! q = None ∧
    dependencies_succeeded c1 st = true ∧ partitions st !! i = Some (Pending n) ∧
    let task := MkTaskAttemptId q s (MkPartitionId (N.of_nat i)) n in
    let lease := MkTaskLease w now (now + lease_duration_ms (config c)) in
    m = AssignTask PROTOCOL_VERSION (plan st) task lease
          (expected_inputs c1 (plan st) (MkPartitionId (N.of_nat i))) ∧
    CoordinatorMessage_validate m = Ok tt ∧
    part c' (q, s) i = Some (Active task w lease None).
Proof.
  intros Hcfg Hr Hx. destruct (reachable_wf _ _ Hcfg Hr) as [Hc _].
  destruct (execute_assigned _ _ _ _ Hx) as (now & w & wr & Hcmd & Hw & Hal & Hav & Has).
  pose proof (gs_wf _ _ (good_step_advanced now c Hc)) as Hc1.
  pose proof (assign_to_worker_spec _ w wr now Hc1 Hw Hal Hav) as Hs. rewrite Has in Hs.
  destruct (next_pending_partition _) as [[[[q s] i] n]|] eqn:En; [|done].
  destruct Hs as [[_ Hs]|(st & c2 & _ & Hst & Hs & Hv & _ & Hp)]; [done|].
  apply next_pending_Some in En as (st' & Hst' & Hq & Hd & Hpen).
  rewrite Hst in Hst'. injection Hst' as <-. injection Hs as -> <-.
  exists now, (advanced now c), w, wr, q, s, st, i, n.
  split_and!; try done. apply advance_time_advanced.
Qed.

(** C7: the inputs of partition [pid] of a partitioned stage hold exactly one
    block from every task of every dependency, in dependency and partition
    order: the shuffle neither loses nor duplicates an upstream task. *)
Theorem partitioned_inputs_complete cfg c key st pid :
  typed_config cfg → reachable cfg c → stages c !! key = Some st →
  sp_partitioned_input (plan st) = true → (partition_num pid < sp_partition_count (plan st))%N →
  sb_producer <$> expected_inputs c (plan st) pid
  = mjoin (stage_producers c (sp_query_id (plan st)) <$> sp_input_stages (plan st)).
Proof.
  intros Hcfg Hr Hst Hpi Hpid. destruct (reachable_wf _ _ Hcfg Hr) as [Hc _].
  by eapply partitioned_producers.
Qed.

(** C8: [next_assignment] is work conserving: while a pending partition has
    its inputs, some live worker has a free slot and the lease end does not
    overflow, it returns an assignment. *)
Theorem next_assignment_progress cfg c now c1 q s st i n w wr :
  typed_config cfg → reachable cfg c → advance_time now c = Ok c1 →
  stages c1 !! (q, s) = Some st → cancelled_queries c1 !! q = None →
  dependencies_succeeded c1 st = true → partitions st !! i = Some (Pending n) →
  workers c1 !! w = Some wr → alive wr = true → (0 < available_slots wr)%N →
  (now + lease_duration_ms cfg ≤ U64_MAX)%N → config c = cfg →
  ∃ m c', next_assignment now c = (Ok (Some m), c').
Proof.
  intros Hcfg Hr Ha Hst Hq Hd Hp Hw Hal Hav Hov Ecfg.
  destruct (reachable_wf _ _ Hcfg Hr) as [Hc _].
  rewrite advance_time_advanced in Ha. injection Ha as <-. rewrite next_assignment_eq.
  destruct (free_worker _) as [[w' wr']|] eqn:Ef.
  2:{ pose proof (free_worker_None _ _ _ Ef Hw Hal). lia. }
  apply free_worker_Some in Ef as (Hw' & Hal' & Hav').
  pose proof (gs_wf _ _ (good_step_advanced now c Hc)) as Hc1.
  pose proof (assign_to_worker_spec _ w' wr' now Hc1 Hw' Hal' Hav') as Hs.
  destruct (next_pending_partition _) as [[[key j] m]|] eqn:En.
  - simpl in Hs. rewrite Ecfg in Hs. destruct Hs as [[? _]|(st' & c' & _ & _ & Hs & _)]; [lia|].
    rewrite Hs. eauto.
  - by destruct (next_pending_None _ _ _ i n En Hst Hq Hd).
Qed.

(** Dependencies never deadlock: in an unfinished query there is always
    an unfinished partition whose stage has all its inputs. *)
Theorem no_dependency_deadlock cfg c q s st :
  typed_config cfg → reachable cfg c → stages c !! (q, s) = Some st →
  forallb is_succeeded (partitions st) = false →
  ∃ s' st' i p, stages c !! (q, s') = Some st' ∧ dependencies_succeeded c st' = true ∧
    partitions st' !! i = Some p ∧ is_succeeded p = false.
Proof.
  intros Hcfg Hr Hst Hun. destruct (reachable_wf _ _ Hcfg Hr) as [Hc Hac].
  destruct (runnable_stage _ _ _ _ Hc Hac Hst Hun) as (s' & st' & Hst' & Hd & Hf).
  assert (∃ i p, partitions st' !! i = Some p ∧ is_succeeded p = false) as (i & p & ? & ?);
    [|by exists s', st', i, p].
  induction (partitions st') as [|p ps IH]; [done|]. simpl in Hf.
  destruct (is_succeeded p) eqn:Ep; [|by exists 0, p].
  destruct (IH Hf) as (i & p' & ? & ?). by exists (S i), p'.
Qed.

(** Once readable, the output of a stage never changes, whatever calls
    follow, cancellation of the query included. *)
Theorem stage_output_stable cfg c cmds rs c' q s blocks :
  typed_config cfg → reachable cfg c → Forall typed_command cmds → run cmds c = (rs, c') →
  stage_output_blocks c q s = Ok blocks → stage_output_blocks c' q s = Ok blocks.
Proof.
  intros Hcfg Hr Ht Hrun. destruct (reachable_wf _ _ Hcfg Hr) as [Hc _].
  pose proof (run_step _ _ _ _ Hc Ht Hrun) as Hg. unfold stage_output_blocks.
  destruct (stages c !! (q, s)) as [st|] eqn:Hst; [|done].
  destruct (et_plan _ _ (gs_extends _ _ Hg) _ _ Hst) as (st' & Hst' & _). rewrite Hst'.
  cbn [ok_or mbind result_bind].
  destruct (contains_key (cancelled_queries c) q) eqn:Eq; cbn [negb andb].
  - apply contains_key_spec in Eq as [r Hq].
    rewrite (proj2 (contains_key_spec (cancelled_queries c') q)).
    2:{ exists r. by apply (et_cancelled _ _ (gs_extends _ _ Hg)). }
    cbn [negb andb]. intros <-. do 2 f_equal.
    by eapply stage_blocks_stable; eauto.
  - destruct (forallb is_succeeded (partitions st)) eqn:Ef; [|done].
    destruct (stage_blocks_stable _ _ _ _ _ _ Hc Hg Hst Hst') as [-> Hall]; [by right|].
    rewrite (Hall Ef), andb_false_r. done.
Qed.

(** C11: a call that fails changes nothing beyond what the passage of time
    does: no half-applied update is ever visible. *)
Theorem errors_leave_no_trace cfg c cmd e c' :
  typed_config cfg → reachable cfg c → typed_command cmd → execute cmd c = (Err e, c') →
  c' = c ∨ ∃ now, clock cmd = Some now ∧ advance_time now c = Ok c'.
Proof.
  intros Hcfg Hr Ht Hx. destruct (reachable_wf _ _ Hcfg Hr) as [Hc _].
  destruct (execute_step _ _ _ _ Hc Ht Hx) as (_ & _ & He).
  destruct (He e eq_refl) as [->|(now & ? & ->)]; [by left|right].
  exists now. split; [done|]. apply advance_time_advanced.
Qed.

(** Fencing. An attempt that was active and has lost its partition (its
    lease or worker expired, it failed, it committed, it was cancelled) can
    never influence it again: any later report about it, from any worker, is an
    error and changes nothing beyond the passage of time. *)
Theorem lost_attempts_are_fenced cfg c0 cmds rs c t w l s p v w' state now r c' :
  typed_config cfg → reachable cfg c0 → Forall typed_command cmds → run cmds c0 = (rs, c) →
  let key := (ta_query_id t, ta_stage_id t) in
  let i := N.to_nat (partition_num (ta_partition_id t)) in
  part c0 key i = Some (Active t w l s) → part c key i = Some p → ¬ held_by t p →
  handle_worker_message (TaskUpdate v w' t state) now c = (r, c') →
  (∃ e, r = Err e) ∧ (c' = c ∨ advance_time now c = Ok c').
Proof.
  intros Hcfg Hr Ht Hrun key i Hp0 Hp Hnot Hx.
  destruct (reachable_wf _ _ Hcfg Hr) as [Hc _].
  pose proof (run_step _ _ _ _ Hc Ht Hrun) as Hg.
  destruct (gs_moves _ _ Hg _ _ _ Hp0) as (p' & Hp' & Hl). simplify_eq.
  destruct (lifecycle_held_rtc _ t _ _ Hl) as [?|Hpast]; [done|done|].
  rewrite advance_time_advanced.
  destruct (past_report_rejected _ _ _ _ _ _ _ _ _ (gs_wf _ _ Hg) Hp Hpast Hx) as [? [?|?]];
    subst; auto.
Qed.

(** C13: after a successful [cancel_query], no attempt of the query is ever
    handed out again, its partitions are finished or winding down, and its
    stages report [Cancelled], whatever calls follow. *)
Theorem cancellation_is_final cfg c q reason m c1 cmds rs c' :
  typed_config cfg → reachable cfg c → cancel_query q reason c = (Ok m, c1) →
  Forall typed_command cmds → run cmds c1 = (rs, c') →
  Forall (λ t, ta_query_id t ≠ q) (omap issued_task rs) ∧
  (∀ s st, stages c' !! (q, s) = Some st → stage_status c' q s = Ok StageCancelled) ∧
  (∀ s i p, part c' (q, s) i = Some p →
     match p with
     | Cancelling _ _ _ | Succeeded _ _ | PartitionCancelled => True
     | _ => False
     end).
Proof.
  intros Hcfg Hr Hx Ht Hrun. destruct (reachable_wf _ _ Hcfg Hr) as [Hc _].
  pose proof (gs_wf _ _ (proj1 (cancel_query_step _ _ _ _ _ Hc Hx))) as Hc1.
  assert (is_Some (cancelled_queries c1 !! q)) as Hq.
  { unfold cancel_query in Hx. destruct (CoordinatorMessage_validate _); [|done..].
    destruct (negb _); [done|]. destruct (cancelled_queries c !! q) eqn:Eq.
    - case_decide; [|done]. injection Hx as _ <-. by rewrite Eq.
    - injection Hx as _ <-. simpl. rewrite lookup_insert_eq. by eexists. }
  pose proof (run_step _ _ _ _ Hc1 Ht Hrun) as Hg.
  assert (is_Some (cancelled_queries c' !! q)) as Hq'.
  { destruct Hq as [x Hx']. exists x. by apply (et_cancelled _ _ (gs_extends _ _ Hg)). }
  split_and!.
  - by eapply cancelled_not_issued.
  - intros s st Hst. unfold stage_status. rewrite Hst. simpl.
    by rewrite (proj2 (contains_key_spec _ _)).
  - intros s i p. apply cancelled_part; [apply Hg|done].
Qed.

(** Once the clock has advanced to [now], every attempt that still holds
    a slot has an unexpired lease and a worker that is alive and within its
    heartbeat timeout. *)
Theorem no_stale_lease_after_advance cfg c now :
  typed_config cfg → reachable cfg c →
  ∃ c1, advance_time now c = Ok c1 ∧
    ∀ key i t w l s, part c1 key i = Some (Active t w l s) ∨ part c1 key i = Some (Cancelling t w l) →
      (now < tl_expires_at_ms l)%N ∧
      ∃ wr, workers c1 !! w = Some wr ∧ alive wr = true ∧
        (saturating_sub now (last_received_at_ms wr) ≤ heartbeat_timeout_ms (config c))%N.
Proof.
  intros Hcfg Hr. destruct (reachable_wf _ _ Hcfg Hr) as [Hc _].
  exists (advanced now c). split; [apply advance_time_advanced|].
  intros key i t w l s Hp. pose proof (wf_advanced now c Hc) as Hc1.
  assert (∃ p, part (advanced now c) key i = Some p ∧ occupies w p = true ∧
    (p = Active t w l s ∨ p = Cancelling t w l)) as (p & Hpp & Ho & Hcase).
  { destruct Hp as [Hp|Hp]; eexists; (split; [exact Hp|]); simpl;
      rewrite bool_decide_eq_true_2 by done; auto. }
  split; [by eapply held_lease_fresh|].
  pose proof (busy_pos _ _ _ _ _ Hpp Ho) as Hb.
  assert (is_Some (workers (advanced now c) !! w)) as [wr Hwr].
  { pose proof (wf_part _ Hc1 _ _ _ Hpp) as Hw. destruct Hcase as [->| ->]; apply Hw. }
  destruct (wf_worker _ Hc1 _ _ Hwr) as [_ _ _ Hs]. unfold slots_wf in Hs.
  exists wr. destruct (alive wr) eqn:Eal; [|lia]. split_and!; [done|done|].
  by eapply advanced_worker_fresh.
Qed.
End guarantees.

(** ** The guarantees at the two-stage query *)

Definition demo_reduce_key : StageKey := (demo_query, MkStageId 1).
Definition demo_map_key : StageKey := (demo_query, MkStageId 0).

Lemma coordinator_invariant_witness : reachable demo_config demo_ready ∧ wf demo_ready.
Proof.
  split; [exact demo_ready_reachable|].
  exact (coordinator_invariant demo_config demo_ready demo_config_typed demo_ready_reachable).
Defined.

Lemma coordinator_never_panics_witness : no_panic (execute (DoNext 70) demo_ready).1.
Proof.
  exact (coordinator_never_panics demo_config demo_ready (DoNext 70) demo_config_typed
           demo_ready_reachable I).
Defined.

Lemma coordinator_refines_lifecycle_witness :
  ∃ p' k, part (run [DoNext 70] demo_ready).2 demo_reduce_key 0 = Some p' ∧
    nsteps (lifecycle 2) k (Pending 0) p' ∧ (N.of_nat k ≤ 11)%N.
Proof.
  destruct (coordinator_refines_lifecycle demo_config demo_ready [DoNext 70]
    (run [DoNext 70] demo_ready).1 (run [DoNext 70] demo_ready).2 demo_reduce_key 0 (Pending 0)
    demo_config_typed demo_ready_reachable) as (p' & k & Hp & Hn & Hk & _).
  - repeat constructor.
  - apply surjective_pairing.
  - vm_compute. reflexivity.
  - exists p', k. split; [exact Hp|]. split; [exact Hn|exact Hk].
Defined.

Lemma attempts_unique_and_bounded_witness : NoDup (omap issued_task (run demo_mapped demo_new).1).
Proof.
  apply (attempts_unique_and_bounded demo_config demo_new demo_mapped
    (run demo_mapped demo_new).1 (run demo_mapped demo_new).2 demo_config_typed).
  - reflexivity.
  - exact demo_typed.
  - apply surjective_pairing.
Defined.

Lemma slots_never_oversubscribed_witness :
  ∃ wr, workers demo_running !! demo_worker = Some wr ∧ alive wr = true ∧
    (active_tasks_for_worker demo_running demo_worker + available_slots wr ≤ 2)%N.
Proof.
  eexists. split; [vm_compute; reflexivity|]. split; [reflexivity|].
  exact (slots_never_oversubscribed demo_config demo_running demo_worker _ demo_config_typed
    demo_running_reachable eq_refl).
Defined.

Lemma assignment_correct_witness :
  ∃ m c', execute (DoNext 70) demo_ready = (Ok (Assigned (Some m)), c') ∧
    CoordinatorMessage_validate m = Ok tt.
Proof.
  destruct (execute (DoNext 70) demo_ready) as [r c'] eqn:Hx.
  pose proof (f_equal fst Hx) as Hr. vm_compute in Hr. simpl in Hr. subst r.
  eexists _, c'. split; [reflexivity|].
  destruct (assignment_correct demo_config demo_ready (DoNext 70) _ c' demo_config_typed
    demo_ready_reachable Hx) as (? & ? & ? & ? & ? & ? & ? & ? & ? & _ & _ & _ & _ & _ & _ & _ &
    _ & _ & _ & Hv & _). exact Hv.
Defined.

Lemma partitioned_inputs_complete_witness :
  sb_producer <$> expected_inputs demo_ready demo_reduce (MkPartitionId 1)
  = [demo_task 0 0 0; demo_task 0 1 0].
Proof.
  destruct (stages demo_ready !! demo_reduce_key) as [st|] eqn:Hst;
    [|vm_compute in Hst; discriminate].
  assert (plan st = demo_reduce) as Hp.
  { vm_compute in Hst. injection Hst as <-. reflexivity. }
  pose proof (partitioned_inputs_complete demo_config demo_ready demo_reduce_key st
    (MkPartitionId 1) demo_config_typed demo_ready_reachable Hst) as Hc.
  rewrite Hp in Hc. rewrite Hc; [vm_compute; reflexivity|reflexivity|reflexivity].
Defined.

Lemma next_assignment_progress_witness :
  ∃ m c', next_assignment 70 demo_ready = (Ok (Some m), c').
Proof.
  eapply (next_assignment_progress demo_config demo_ready 70 (advanced 70 demo_ready)
    demo_query (MkStageId 1) _ 0 0 demo_worker _ demo_config_typed demo_ready_reachable);
    [apply advance_time_advanced|vm_compute; reflexivity|vm_compute; reflexivity
    |vm_compute; reflexivity|vm_compute; reflexivity|vm_compute; reflexivity|reflexivity
    |vm_compute; reflexivity|vm_compute; discriminate|reflexivity].
Defined.

Lemma no_dependency_deadlock_witness :
  ∃ s' st' i p, stages demo_running !! (demo_query, s') = Some st' ∧
    dependencies_succeeded demo_running st' = true ∧ partitions st' !! i = Some p ∧
    is_succeeded p = false.
Proof.
  eapply (no_dependency_deadlock demo_config demo_running demo_query (MkStageId 1) _
    demo_config_typed demo_running_reachable); [vm_compute; reflexivity|reflexivity].
Defined.

Lemma stage_output_stable_witness :
  ∃ blocks, stage_output_blocks demo_ready demo_query (MkStageId 0) = Ok blocks ∧
    stage_output_blocks (run [DoNext 70; DoCancel demo_query "stop"] demo_ready).2
      demo_query (MkStageId 0) = Ok blocks.
Proof.
  eexists. split; [vm_compute; reflexivity|].
  eapply (stage_output_stable demo_config demo_ready [DoNext 70; DoCancel demo_query "stop"] _ _
    demo_query (MkStageId 0) _ demo_config_typed demo_ready_reachable);
    [repeat constructor|apply surjective_pairing|vm_compute; reflexivity].
Defined.

Lemma errors_leave_no_trace_witness :
  ∃ e c', execute (DoSubmit demo_map) demo_ready = (Err e, c') ∧
    (c' = demo_ready ∨ ∃ now, clock (DoSubmit demo_map) = Some now ∧
       advance_time now demo_ready = Ok c').
Proof.
  destruct (execute (DoSubmit demo_map) demo_ready) as [r c'] eqn:Hx.
  pose proof (f_equal fst Hx) as Hr. vm_compute in Hr. subst r.
  eexists _, c'. split; [reflexivity|].
  exact (errors_leave_no_trace demo_config demo_ready (DoSubmit demo_map) _ c' demo_config_typed
    demo_ready_reachable I Hx).
Defined.

(** The first map task loses its lease at time 1020 and reports at 1100. *)
Lemma lost_attempts_are_fenced_witness :
  ∃ e, (handle_worker_message (demo_success 0 1000) 1100
          (run [DoAdvance 1020] demo_running).2).1 = Err e.
Proof.
  destruct (handle_worker_message (demo_success 0 1000) 1100
    (run [DoAdvance 1020] demo_running).2) as [r c'] eqn:Hx.
  eapply (lost_attempts_are_fenced demo_config demo_running [DoAdvance 1020] _ _
    (demo_task 0 0 0) demo_worker _ _ _ PROTOCOL_VERSION demo_worker _ 1100 r c'
    demo_config_typed demo_running_reachable);
    [repeat constructor|apply surjective_pairing|vm_compute; reflexivity|vm_compute; reflexivity
    |exact (λ H, H)|exact Hx].
Defined.

Lemma cancellation_is_final_witness :
  Forall (λ t, ta_query_id t ≠ demo_query)
    (omap issued_task (run [DoNext 70] (cancel_query demo_query "stop" demo_ready).2).1).
Proof.
  destruct (cancel_query demo_query "stop" demo_ready) as [r c1] eqn:Hx.
  pose proof (f_equal fst Hx) as Hr. vm_compute in Hr. subst r.
  eapply (cancellation_is_final demo_config demo_ready demo_query "stop" _ c1 [DoNext 70] _ _
    demo_config_typed demo_ready_reachable Hx); [repeat constructor|apply surjective_pairing].
Defined.

Lemma no_stale_lease_after_advance_witness :
  ∃ c1, advance_time 300 demo_running = Ok c1.
Proof.
  destruct (no_stale_lease_after_advance demo_config demo_running 300 demo_config_typed
    demo_running_reachable) as (c1 & H1 & _).
  exists c1. exact H1.
Defined.
