(* ===== verification/Memory.v ===== *)
(** * Query memory accounting ([src/runtime/memory.rs])

    [QueryMemory] is a pair of atomic counters shared by every operator of a
    query, and [MemoryReservation] an owned claim on it.  The methods are split
    at their atomic accesses and interleaved: one [mem_step] is one atomic
    access (or a step that touches no shared state) of one claim holder.  A
    method that takes [&mut self] holds its reservation for as long as it runs,
    so one entry of [holders] is a reservation together with the progress of the
    call it is in. *)
From S2P Require Import Prelude.

Definition DEFAULT_MEMORY_LIMIT_BYTES : N := 512 * 1024 * 1024.

(** The progress of a holder.  [own] is the size of its reservation, [None]
    while [try_reserve] has not created one yet. *)
Inductive holder :=
| Claim (bytes : N)
| Reserving (own : option N) (bytes current : N)
| Peaking (own : option N) (bytes next : N)
| Releasing (own : option N) (bytes : N).

Record QueryMemory := MkQueryMemory {
  limit_bytes : N;
  reserved_bytes : N;
  peak_bytes : N;
  holders : gmap N holder;
}.

Definition QueryMemory_new (limit : N) : QueryMemory := MkQueryMemory (N.max limit 1) 0 0 ∅.

(** The body of the loop of [reserve], up to the compare-and-swap. *)
Definition reserve_check (limit current bytes : N) : result N :=
  next ← ok_or (checked_add_u64 current bytes)
    (ResourceExhausted "query memory reservation overflowed");
  if (limit <? next)%N
  then Err (ResourceExhausted ("query requires at least " +:+ pretty next +:+
              " bytes but its limit is " +:+ pretty limit +:+ " bytes"))
  else Ok next.

(** The first line of [try_grow]. *)
Definition grow_check (bytes additional_bytes : N) : result N :=
  ok_or (checked_add_u64 bytes additional_bytes)
    (ResourceExhausted "memory reservation size overflowed").

(** [AtomicU64::fetch_sub] wraps around. *)
Definition fetch_sub_u64 (v bytes : N) : N := ((v + 2 ^ 64 - bytes) mod 2 ^ 64)%N.

Definition set_holder (m : QueryMemory) (h : N) (s : option holder) : QueryMemory :=
  MkQueryMemory (limit_bytes m) (reserved_bytes m) (peak_bytes m)
    (match s with Some s => <[h := s]> (holders m) | None => delete h (holders m) end).
Definition set_reserved (m : QueryMemory) (v : N) : QueryMemory :=
  MkQueryMemory (limit_bytes m) v (peak_bytes m) (holders m).
Definition set_peak (m : QueryMemory) (v : N) : QueryMemory :=
  MkQueryMemory (limit_bytes m) (reserved_bytes m) v (holders m).

(** What a call leaves behind when it ends with a reservation of [own] bytes. *)
Definition settled (own : option N) : option holder := Claim <$> own.
Definition owned (own : option N) : N := default 0%N own.

(** Returning bytes: [release] does nothing for zero bytes. *)
Definition start_release (own : option N) (bytes : N) : option holder :=
  if (bytes =? 0)%N then settled own else Some (Releasing own bytes).

(** One access of the shared counters. *)
Inductive mem_step : QueryMemory → QueryMemory → Prop :=
| step_try_reserve m h bytes :
    holders m !! h = None → (bytes ≤ U64_MAX)%N →
    mem_step m (set_holder m h (Some (Reserving None bytes (reserved_bytes m))))
| step_try_grow m h b additional next :
    holders m !! h = Some (Claim b) → (additional ≤ U64_MAX)%N →
    grow_check b additional = Ok next →
    mem_step m (set_holder m h (Some (Reserving (Some b) additional (reserved_bytes m))))
| step_refused m h own bytes current e :
    holders m !! h = Some (Reserving own bytes current) →
    reserve_check (limit_bytes m) current bytes = Err e →
    mem_step m (set_holder m h (settled own))
| step_exchange m h own bytes current next :
    holders m !! h = Some (Reserving own bytes current) →
    reserve_check (limit_bytes m) current bytes = Ok next →
    reserved_bytes m = current →
    mem_step m (set_reserved (set_holder m h (Some (Peaking own bytes next))) next)
| step_retry m h own bytes current next :
    holders m !! h = Some (Reserving own bytes current) →
    reserve_check (limit_bytes m) current bytes = Ok next →
    mem_step m (set_holder m h (Some (Reserving own bytes (reserved_bytes m))))
| step_peak m h own bytes next :
    holders m !! h = Some (Peaking own bytes next) →
    mem_step m (set_peak (set_holder m h (Some (Claim (owned own + bytes))))
                  (N.max (peak_bytes m) next))
| step_shrink m h b bytes :
    holders m !! h = Some (Claim b) →
    mem_step m (set_holder m h (start_release (Some (b - N.min bytes b)%N) (N.min bytes b)))
| step_drop m h b :
    holders m !! h = Some (Claim b) →
    mem_step m (set_holder m h (start_release None b))
| step_release m h own bytes :
    holders m !! h = Some (Releasing own bytes) →
    mem_step m (set_reserved (set_holder m h (settled own))
                  (fetch_sub_u64 (reserved_bytes m) bytes)).

(** The states of a budget created with a [u64] limit. *)
Definition mem_reachable (limit : N) (m : QueryMemory) : Prop :=
  rtc mem_step (QueryMemory_new limit) m.

(** ** The account *)

(** The bytes of the shared counter a holder answers for. *)
Definition held (s : holder) : N :=
  match s with
  | Claim b => b
  | Reserving own _ _ => owned own
  | Peaking own bytes _ | Releasing own bytes => owned own + bytes
  end%N.

Definition total_held (m : QueryMemory) : N := map_total held (holders m).

Record mem_wf (m : QueryMemory) : Prop := {
  mw_limit : (0 < limit_bytes m ≤ U64_MAX)%N;
  mw_account : reserved_bytes m = total_held m;
  mw_reserved : (reserved_bytes m ≤ limit_bytes m)%N;
  mw_peak : (peak_bytes m ≤ limit_bytes m)%N;
  mw_next : ∀ h own bytes next, holders m !! h = Some (Peaking own bytes next) →
    (next ≤ limit_bytes m)%N;
  mw_high : (reserved_bytes m ≤ peak_bytes m)%N ∨
    ∃ h own bytes next, holders m !! h = Some (Peaking own bytes next) ∧
      (reserved_bytes m ≤ next)%N;
}.

Lemma reserve_check_ok limit current bytes next :
  reserve_check limit current bytes = Ok next ↔
  next = (current + bytes)%N ∧ (next ≤ U64_MAX)%N ∧ (next ≤ limit)%N.
Proof.
  unfold reserve_check, checked_add_u64.
  destruct (N.leb_spec (current + bytes) U64_MAX); simpl; [|split; [done|intros (-> & ? & _); lia]].
  destruct (N.ltb_spec limit (current + bytes)); split; try done.
  - intros (-> & _ & ?). lia.
  - by intros [= <-].
  - by intros (-> & _).
Qed.

Lemma total_held_set m h s s' :
  holders m !! h = Some s →
  (total_held (set_holder m h s') + held s = total_held m + default 0 (held <$> s'))%N.
Proof.
  intros Hh. unfold total_held. destruct s' as [s'|]; simpl.
  - by apply map_total_insert_Some.
  - rewrite (map_total_delete held _ _ s Hh). lia.
Qed.

Lemma total_held_new m h s :
  holders m !! h = None → total_held (set_holder m h (Some s)) = (total_held m + held s)%N.
Proof. intros Hh. unfold total_held; simpl. rewrite map_total_insert_None by done. lia. Qed.

Lemma total_held_ge m h s : holders m !! h = Some s → (held s ≤ total_held m)%N.
Proof. apply map_total_lookup. Qed.

Lemma fetch_sub_exact v b : (b ≤ v ≤ U64_MAX)%N → fetch_sub_u64 v b = (v - b)%N.
Proof.
  intros Hb. unfold fetch_sub_u64, U64_MAX in *.
  replace (v + 2 ^ 64 - b)%N with (v - b + 1 * 2 ^ 64)%N by lia.
  rewrite N.Div0.mod_add, N.mod_small; lia.
Qed.

(** Steps that keep both counters and the holder's bytes. *)
Lemma mem_wf_local m h s s' :
  mem_wf m → holders m !! h = Some s → default 0%N (held <$> s') = held s →
  (∀ own bytes next, s ≠ Peaking own bytes next) →
  (∀ own bytes next, s' ≠ Some (Peaking own bytes next)) →
  mem_wf (set_holder m h s').
Proof.
  intros [L A R P X H] Hh Hheld Hs Hs'.
  assert (∀ h' own bytes next, holders (set_holder m h s') !! h' = Some (Peaking own bytes next) →
    holders m !! h' = Some (Peaking own bytes next)) as Hback.
  { intros h' own bytes next. destruct s' as [s'|]; simpl.
    - intros [[<- ->]|[_ ?]]%lookup_insert_Some; [|done]. by destruct (Hs' own bytes next).
    - by intros [_ ?]%lookup_delete_Some. }
  split; try done.
  - pose proof (total_held_set m h s s' Hh) as E. simpl. lia.
  - intros h' own bytes next ?%Hback. eauto.
  - destruct H as [?|(h' & own & bytes & next & Hp & ?)]; [by left|right].
    exists h', own, bytes, next. split; [|done].
    assert (h' ≠ h) by (intros ->; rewrite Hp in Hh; injection Hh as <-; by destruct (Hs own bytes next)).
    destruct s' as [s'|]; simpl; by rewrite ?lookup_insert_ne, ?lookup_delete_ne.
Qed.

Lemma start_release_held own b : default 0%N (held <$> start_release own b) = (owned own + b)%N.
Proof.
  unfold start_release. destruct (N.eqb_spec b 0); [|done].
  subst. destruct own; simpl; lia.
Qed.

Lemma start_release_not_peaking own b o by' n : start_release own b ≠ Some (Peaking o by' n).
Proof. unfold start_release. case_match; [by destruct own|done]. Qed.

Lemma mem_wf_new_holder m h bytes :
  mem_wf m → holders m !! h = None →
  mem_wf (set_holder m h (Some (Reserving None bytes (reserved_bytes m)))).
Proof.
  intros [L A R P X H] Hh. split; try done.
  - rewrite total_held_new by done. simpl. lia.
  - intros h' own b next. simpl. intros [[_ ?]|[_ ?]]%lookup_insert_Some; [done|eauto].
  - destruct H as [?|(h' & own & b & next & Hp & ?)]; [by left|right].
    exists h', own, b, next. split; [|done]. simpl. rewrite lookup_insert_ne; congruence.
Qed.

Lemma mem_wf_exchange m h own bytes next :
  mem_wf m → holders m !! h = Some (Reserving own bytes (reserved_bytes m)) →
  reserve_check (limit_bytes m) (reserved_bytes m) bytes = Ok next →
  mem_wf (set_reserved (set_holder m h (Some (Peaking own bytes next))) next).
Proof.
  intros [L A R P X H] Hh (-> & ? & ?)%reserve_check_ok. split; simpl; try done.
  - pose proof (total_held_set m h _ (Some (Peaking own bytes (reserved_bytes m + bytes)%N)) Hh) as E.
    unfold total_held in *. simpl in *. lia.
  - intros h' own' b next'. intros [[_ ?]|[_ ?]]%lookup_insert_Some; [by simplify_eq|eauto].
  - right. exists h, own, bytes, (reserved_bytes m + bytes)%N. by rewrite lookup_insert_eq.
Qed.

Lemma mem_wf_peak m h own bytes next :
  mem_wf m → holders m !! h = Some (Peaking own bytes next) →
  mem_wf (set_peak (set_holder m h (Some (Claim (owned own + bytes)))) (N.max (peak_bytes m) next)).
Proof.
  intros [L A R P X H] Hh. split; simpl; try done.
  - pose proof (total_held_set m h _ (Some (Claim (owned own + bytes)%N)) Hh) as E.
    unfold total_held in *. simpl in *. lia.
  - specialize (X _ _ _ _ Hh). lia.
  - intros h' own' b next'. intros [[_ ?]|[_ ?]]%lookup_insert_Some; [done|eauto].
  - destruct H as [?|(h' & own' & b & next' & Hp & ?)]; [left; lia|].
    destruct (decide (h = h')) as [<-|Hne]; [simplify_eq; left; lia|].
    right. exists h', own', b, next'. by rewrite lookup_insert_ne.
Qed.

Lemma mem_wf_release m h own bytes :
  mem_wf m → holders m !! h = Some (Releasing own bytes) →
  mem_wf (set_reserved (set_holder m h (settled own)) (fetch_sub_u64 (reserved_bytes m) bytes)).
Proof.
  intros [L A R P X H] Hh. pose proof (total_held_ge _ _ _ Hh) as Hge. simpl in Hge.
  rewrite fetch_sub_exact by lia.
  pose proof (total_held_set m h _ (settled own) Hh) as E.
  replace (default 0%N (held <$> settled own)) with (owned own) in E by by destruct own.
  assert (∀ h' own' b n, holders (set_holder m h (settled own)) !! h' = Some (Peaking own' b n) →
    holders m !! h' = Some (Peaking own' b n)) as Hback.
  { intros h' own' b n. destruct own; simpl; [|by intros [_ ?]%lookup_delete_Some].
    by intros [[_ ?]|[_ ?]]%lookup_insert_Some. }
  split; simpl; try done; try lia.
  - unfold total_held in *. simpl in *. lia.
  - intros h' own' b n ?%Hback. eauto.
  - destruct H as [?|(h' & own' & b & n & Hp & ?)]; [left; lia|right].
    exists h', own', b, n. split; [|lia]. assert (h' ≠ h) by congruence.
    destruct own; simpl; by rewrite ?lookup_insert_ne, ?lookup_delete_ne.
Qed.

Lemma mem_wf_step m m' : mem_wf m → mem_step m m' → mem_wf m'.
Proof.
  intros Hm Hs. destruct Hs as [m h bytes Hh _|m h b additional next Hh _ _
    |m h own bytes current e Hh _|m h own bytes current next Hh Hc <-
    |m h own bytes current next Hh _|m h own bytes next Hh|m h b bytes Hh|m h b Hh|m h own bytes Hh].
  - by apply mem_wf_new_holder.
  - by eapply mem_wf_local.
  - eapply mem_wf_local; [done|done|by destruct own|done|by destruct own].
  - by apply mem_wf_exchange.
  - by eapply mem_wf_local.
  - by apply mem_wf_peak.
  - eapply mem_wf_local; [done|done| |done|intros; apply start_release_not_peaking].
    rewrite start_release_held. simpl. lia.
  - eapply mem_wf_local; [done|done| |done|intros; apply start_release_not_peaking].
    by rewrite start_release_held.
  - by apply mem_wf_release.
Qed.

Lemma mem_reachable_wf limit m : (limit ≤ U64_MAX)%N → mem_reachable limit m → mem_wf m.
Proof.
  intros Hl. unfold mem_reachable. intros Hr.
  assert (mem_wf (QueryMemory_new limit)) as Hnew.
  { split; cbn [QueryMemory_new limit_bytes reserved_bytes peak_bytes]; try lia.
    - unfold U64_MAX in *. lia.
    - unfold total_held, QueryMemory_new. cbn [holders]. by rewrite map_total_empty.
    - intros h own bytes next. simpl. by rewrite lookup_empty. }
  revert Hnew. generalize (QueryMemory_new limit), Hr. clear Hl Hr.
  intros m0 Hr. induction Hr; eauto using mem_wf_step.
Qed.

Lemma mem_step_limit m m' : mem_step m m' → limit_bytes m' = limit_bytes m.
Proof. by destruct 1. Qed.

(** ** Guarantees *)

(** C15: under every interleaving the shared counter is exactly the bytes held
    by reservations and by calls in flight, and neither it nor the recorded peak
    exceeds the limit; when no call is in flight the peak is at least what is
    reserved, and when every reservation was dropped the counter is zero. *)
Theorem memory_budget_respected limit m :
  (limit ≤ U64_MAX)%N → mem_reachable limit m →
  limit_bytes m = N.max limit 1 ∧
  reserved_bytes m = total_held m ∧ (reserved_bytes m ≤ limit_bytes m)%N ∧
  (peak_bytes m ≤ limit_bytes m)%N ∧
  ((∀ h s, holders m !! h = Some s → ∃ b, s = Claim b) → (reserved_bytes m ≤ peak_bytes m)%N) ∧
  (holders m = ∅ → reserved_bytes m = 0%N).
Proof.
  intros Hl Hr. destruct (mem_reachable_wf _ _ Hl Hr) as [L A R P X H]. split_and!; try done.
  - clear -Hr. unfold mem_reachable in Hr.
    assert (limit_bytes (QueryMemory_new limit) = N.max limit 1) as <- by done.
    induction Hr as [|m1 m2 m3 Hs _ IH]; [done|]. rewrite IH. by apply mem_step_limit.
  - intros Hq. destruct H as [?|(h & own & bytes & next & Hp & _)]; [done|].
    by destruct (Hq _ _ Hp).
  - intros He. rewrite A. unfold total_held. by rewrite He, map_total_empty.
Qed.

(** A release never returns more than is reserved: the [debug_assert] of
    [release] holds under every interleaving and [fetch_sub] does not wrap. *)
Theorem release_never_underflows limit m h own bytes :
  (limit ≤ U64_MAX)%N → mem_reachable limit m →
  holders m !! h = Some (Releasing own bytes) →
  (bytes ≤ reserved_bytes m)%N ∧
  fetch_sub_u64 (reserved_bytes m) bytes = (reserved_bytes m - bytes)%N.
Proof.
  intros Hl Hr Hh. destruct (mem_reachable_wf _ _ Hl Hr) as [L A R P X H].
  pose proof (total_held_ge _ _ _ Hh) as Hge. simpl in Hge.
  split; [lia|]. apply fetch_sub_exact. lia.
Qed.

(** A call in the loop of [reserve] that is not interfered with after it
    read the counter finishes: it is granted exactly when the reserved bytes plus
    the request fit the limit, and the reservation then has grown by the request
    and the peak covers it; otherwise the reservation is left as it was. *)
Theorem reserve_decides limit m h own bytes :
  (limit ≤ U64_MAX)%N → mem_reachable limit m →
  holders m !! h = Some (Reserving own bytes (reserved_bytes m)) →
  ∃ m', rtc mem_step m m' ∧
    if (reserved_bytes m + bytes <=? limit_bytes m)%N
    then holders m' = <[h := Claim (owned own + bytes)%N]> (holders m) ∧
         reserved_bytes m' = (reserved_bytes m + bytes)%N ∧
         (reserved_bytes m' ≤ peak_bytes m')%N
    else holders m' = holders (set_holder m h (settled own)) ∧
         reserved_bytes m' = reserved_bytes m.
Proof.
  intros Hl Hr Hh. destruct (mem_reachable_wf _ _ Hl Hr) as [L A R P X H].
  destruct (N.leb_spec (reserved_bytes m + bytes) (limit_bytes m)) as [Hfit|Hfull].
  - assert (reserve_check (limit_bytes m) (reserved_bytes m) bytes
      = Ok (reserved_bytes m + bytes)%N) as Hc by (apply reserve_check_ok; lia).
    eexists. split.
    + eapply rtc_l; [by eapply step_exchange|]. apply rtc_once. eapply (step_peak _ h).
      simpl. apply lookup_insert_eq.
    + simpl. rewrite insert_insert_eq. split_and!; [done|done|lia].
  - destruct (reserve_check (limit_bytes m) (reserved_bytes m) bytes) as [next|e|w] eqn:Hc.
    + apply reserve_check_ok in Hc. lia.
    + eexists. split; [apply rtc_once; by eapply step_refused|]. done.
    + unfold reserve_check in Hc. destruct (checked_add_u64 _ _); simpl in Hc; [|done].
      by case_match.
Qed.

(** ** A concrete budget *)

(** 100 bytes, a first reservation of 60 in flight. *)
Definition demo_memory : QueryMemory :=
  set_holder (QueryMemory_new 100) 0 (Some (Reserving None 60 0)).

(** The same after the compare-and-swap, while the reservation is given back. *)
Definition demo_memory_releasing : QueryMemory :=
  MkQueryMemory 100 60 60 {[ 0%N := Releasing None 60 ]}.

Lemma demo_memory_reachable : mem_reachable 100 demo_memory.
Proof. apply rtc_once, step_try_reserve; [done|vm_compute; discriminate]. Qed.

Lemma demo_memory_releasing_reachable : mem_reachable 100 demo_memory_releasing.
Proof.
  eapply rtc_r; [eapply rtc_r; [eapply rtc_r; [apply demo_memory_reachable|]|]|].
  - eapply (step_exchange _ 0 None 60 0 60); reflexivity.
  - eapply (step_peak _ 0 None 60 60). reflexivity.
  - exact (step_drop (MkQueryMemory 100 60 60 {[ 0%N := Claim 60 ]}) 0 60 eq_refl).
Qed.

Lemma memory_budget_respected_witness :
  reserved_bytes demo_memory_releasing = total_held demo_memory_releasing ∧
  (peak_bytes demo_memory_releasing ≤ 100)%N.
Proof.
  assert (100 ≤ U64_MAX)%N as Hl by (vm_compute; discriminate).
  destruct (memory_budget_respected 100 demo_memory_releasing Hl
    demo_memory_releasing_reachable) as (_ & Ha & _ & Hp & _).
  split; [exact Ha|exact Hp].
Defined.

Lemma release_never_underflows_witness :
  fetch_sub_u64 (reserved_bytes demo_memory_releasing) 60 = 0%N.
Proof.
  assert (100 ≤ U64_MAX)%N as Hl by (vm_compute; discriminate).
  exact (proj2 (release_never_underflows 100 demo_memory_releasing 0 None 60 Hl
    demo_memory_releasing_reachable eq_refl)).
Defined.

Lemma reserve_decides_witness :
  ∃ m', rtc mem_step demo_memory m' ∧ holders m' = {[ 0%N := Claim 60 ]} ∧ reserved_bytes m' = 60%N.
Proof.
  assert (100 ≤ U64_MAX)%N as Hl by (vm_compute; discriminate).
  destruct (reserve_decides 100 demo_memory 0 None 60 Hl demo_memory_reachable eq_refl)
    as (m' & Hs & Hh & Hr & _).
  exists m'. split; [exact Hs|]. split; [rewrite Hh; reflexivity|exact Hr].
Defined.
