(* ===== verification/Cancellation.v ===== *)
(** * Cancellation tokens ([src/runtime/cancellation.rs])

    A token is a flag and a [tokio::sync::Notify] that any number of tasks share.  The
    model interleaves their atomic accesses: a call of [cancelled] checks the flag,
    registers, checks again and waits; a call of [cancel] swaps the flag and, when it was
    the first, wakes every waiter that is registered by then ([notify_waiters] keeps no
    permit for later ones). *)
From S2P Require Import Prelude.

(** Where a call of [cancelled] is: before the first check, before [enable], registered
    before the second check, waiting, and returned. *)
Inductive Waiter :=
| Checking
| Enabling
| Registered (notified : bool)
| Awaiting (notified : bool)
| Woken.

(** Where a call of [cancel] is. *)
Inductive Canceller := Swapping | Notifying | Finished.

Record CancellationState := MkCancellationState {
  cs_cancelled : bool;
  cs_waiters : list Waiter;
  cs_cancellers : list Canceller;
}.

Definition CancellationToken_new : CancellationState := MkCancellationState false [] [].

Definition token_is_cancelled (s : CancellationState) : bool := cs_cancelled s.

Definition token_check (s : CancellationState) : result unit :=
  if token_is_cancelled s then Err Cancelled else Ok tt.

(** The next access of a waiter; [None] while it waits, and at the end. *)
Definition waiter_next (cancelled : bool) (w : Waiter) : option Waiter :=
  match w with
  | Checking => Some (if cancelled then Woken else Enabling)
  | Enabling => Some (Registered false)
  | Registered notified => Some (if cancelled then Woken else Awaiting notified)
  | Awaiting true => Some Woken
  | Awaiting false | Woken => None
  end.

(** [notify_waiters] *)
Definition notified (w : Waiter) : Waiter :=
  match w with
  | Registered _ => Registered true
  | Awaiting _ => Awaiting true
  | w => w
  end.

(** The next access of a call of [cancel]. *)
Definition cancel_next (s : CancellationState) (k : nat) (c : Canceller) : option CancellationState :=
  match c with
  | Swapping =>
      Some (MkCancellationState true (cs_waiters s)
              (<[k := if cs_cancelled s then Finished else Notifying]> (cs_cancellers s)))
  | Notifying => Some (MkCancellationState (cs_cancelled s) (notified <$> cs_waiters s) (<[k := Finished]> (cs_cancellers s)))
  | Finished => None
  end.

(** A waiter moves. *)
Inductive wait_step (k : nat) (s : CancellationState) : CancellationState → Prop :=
| waiter_moves w w' :
    cs_waiters s !! k = Some w → waiter_next (cs_cancelled s) w = Some w' →
    wait_step k s (MkCancellationState (cs_cancelled s) (<[k := w']> (cs_waiters s)) (cs_cancellers s)).

Inductive token_step (s : CancellationState) : CancellationState → Prop :=
| step_wait_call : token_step s (MkCancellationState (cs_cancelled s) (cs_waiters s ++ [Checking]) (cs_cancellers s))
| step_cancel_call : token_step s (MkCancellationState (cs_cancelled s) (cs_waiters s) (cs_cancellers s ++ [Swapping]))
| step_waiter k s' : wait_step k s s' → token_step s s'
| step_cancel k c s' : cs_cancellers s !! k = Some c → cancel_next s k c = Some s' → token_step s s'.

(** ** The invariant *)

(** A waiter that nobody will wake waits only while the token is not cancelled; one that
    returned has seen the cancellation, and so has one that was notified. *)
Record token_inv (s : CancellationState) : Prop := {
  no_lost_wakeup : cs_cancelled s = true → Notifying ∉ cs_cancellers s → Awaiting false ∉ cs_waiters s;
  woken_cancelled : Woken ∈ cs_waiters s ∨ Awaiting true ∈ cs_waiters s → cs_cancelled s = true;
  notifying_cancelled : Notifying ∈ cs_cancellers s → cs_cancelled s = true;
  registered_cancelled : Registered true ∈ cs_waiters s → cs_cancelled s = true;
}.

Lemma elem_of_list_insert {A} (l : list A) k x y : x ∈ <[k := y]> l → x = y ∨ x ∈ l.
Proof.
  intros (i & Hi)%list_elem_of_lookup. apply list_lookup_insert_Some in Hi as [(_ & -> & _)|[_ Hi]]; [by left|right].
  by eapply list_elem_of_lookup_2.
Qed.

Lemma elem_of_list_insert_other {A} (l : list A) k x y z : l !! k = Some z → x ≠ z → x ∈ l → x ∈ <[k := y]> l.
Proof.
  intros Hk Hne (i & Hi)%list_elem_of_lookup. apply (list_elem_of_lookup_2 _ i).
  rewrite list_lookup_insert_ne; [done|]. intros ->. congruence.
Qed.

Lemma notified_elem w (ws : list Waiter) : w ∈ notified <$> ws → w ≠ Awaiting false ∧ (w ≠ Registered true → w ≠ Awaiting true → w ∈ ws).
Proof. intros (v & -> & Hv)%list_elem_of_fmap. by destruct v. Qed.

Lemma wait_step_inv k s s' : token_inv s → wait_step k s s' → token_inv s'.
Proof.
  intros [Hl Hw Hn Hr] Hs. destruct Hs as [w w' Hk Hx]. pose proof (list_elem_of_lookup_2 _ _ _ Hk) as Hin.
  split; cbn.
  - intros Hc Hno Hin'. apply elem_of_list_insert in Hin' as [<-|Hin']; [|by apply Hl].
    rewrite Hc in Hx. by destruct w as [| | |[]|].
  - destruct (cs_cancelled s) eqn:Ec; [done|]. intros [Hin'|Hin']; apply elem_of_list_insert in Hin' as [<-|Hin']; auto;
      destruct w as [| |[]|[]|]; cbn in Hx; simplify_eq; auto.
  - done.
  - intros Hin'. apply elem_of_list_insert in Hin' as [<-|Hin']; [|by apply Hr].
    destruct w as [| | |[]|]; cbn in Hx; by destruct (cs_cancelled s).
Qed.

Lemma cancel_step_inv k c s s' :
  token_inv s → cs_cancellers s !! k = Some c → cancel_next s k c = Some s' → token_inv s'.
Proof.
  intros [Hl Hw Hn Hr] Hk Hx. pose proof (list_elem_of_lookup_2 _ _ _ Hk) as Hin. destruct c; cbn in Hx; [| |done]; injection Hx as <-.
  - split; cbn; [|done..]. intros _ Hno. destruct (cs_cancelled s) eqn:Ec.
    + apply Hl; [done|]. intros Hin'. apply Hno. by eapply elem_of_list_insert_other.
    + destruct Hno. apply (list_elem_of_lookup_2 _ k), list_lookup_insert_eq. by eapply lookup_lt_Some.
  - specialize (Hn Hin). split; cbn; try done. intros _ _ Hin'. by apply notified_elem in Hin' as [? _].
Qed.

Lemma token_step_inv s s' : token_inv s → token_step s s' → token_inv s'.
Proof.
  intros Hi Hs. destruct Hs as [| |k s' Hs|k c s' Hk Hx].
  - destruct Hi as [Hl Hw Hn Hr]. split; cbn; try done.
    + intros Hc Hno [Hin|Hin%list_elem_of_singleton]%elem_of_app; [by apply Hl|done].
    + intros [Hin|Hin]; apply elem_of_app in Hin as [Hin|Hin%list_elem_of_singleton]; auto; done.
    + intros [Hin|Hin%list_elem_of_singleton]%elem_of_app; [by apply Hr|done].
  - destruct Hi as [Hl Hw Hn Hr]. split; cbn; try done.
    + intros Hc Hno. apply Hl; [done|]. intros Hin. apply Hno, elem_of_app. by left.
    + intros [Hin|Hin%list_elem_of_singleton]%elem_of_app; [by apply Hn|done].
  - by eapply wait_step_inv.
  - by eapply cancel_step_inv.
Qed.

Definition token_reachable : CancellationState → Prop := rtc token_step CancellationToken_new.

Lemma reachable_token_inv s : token_reachable s → token_inv s.
Proof.
  intros Hs. enough (∀ s0, rtc token_step s0 s → token_inv s0 → token_inv s) as Hgo.
  { apply (Hgo _ Hs). split; cbn; set_solver. }
  clear Hs. intros s0. induction 1 as [|s0 s1 s2 H1 _ IH]; [done|]. intros Hi. by eapply IH, token_step_inv.
Qed.

(** ** The property *)

(** C9: no wake-up is lost and none is invented.  In every interleaving of any number of
    calls of [cancel] and [cancelled], a call of [cancelled] returns only when the token is
    cancelled; and once a [cancel] has gone through (the flag is set and nobody is still
    about to notify), every call of [cancelled], wherever it was overtaken, returns within
    three accesses of its own. *)
Theorem cancellation_wakes_waiters s k w :
  token_reachable s → cs_waiters s !! k = Some w →
  (w = Woken → token_check s = Err Cancelled) ∧
  (token_is_cancelled s = true → Notifying ∉ cs_cancellers s →
   ∃ n s', n ≤ 3 ∧ nsteps (wait_step k) n s s' ∧ cs_waiters s' !! k = Some Woken).
Proof.
  intros [Hl Hw _ _]%reachable_token_inv Hk. pose proof (list_elem_of_lookup_2 _ _ _ Hk) as Hin.
  pose proof (lookup_lt_Some _ _ _ Hk) as Hlt. unfold token_check, token_is_cancelled. split.
  { intros ->. by rewrite Hw by by left. }
  intros Hc Hno. specialize (Hl Hc Hno).
  assert (∀ s w, cs_waiters s !! k = Some w → cs_cancelled s = true → waiter_next true w = Some Woken →
    nsteps (wait_step k) 1 s (MkCancellationState (cs_cancelled s) (<[k := Woken]> (cs_waiters s)) (cs_cancellers s))) as Hlast.
  { intros s0 w0 Hk0 Hc0 Hx. apply nsteps_once. econstructor; [done|by rewrite Hc0]. }
  destruct w as [| |b|[]|].
  - exists 1. eexists. split; [lia|]. split; [by eapply Hlast|]. cbn. by apply list_lookup_insert_eq.
  - set (s1 := MkCancellationState (cs_cancelled s) (<[k := Registered false]> (cs_waiters s)) (cs_cancellers s)).
    assert (cs_waiters s1 !! k = Some (Registered false)) as Hk1 by by apply list_lookup_insert_eq.
    exists 2. eexists. split; [lia|]. split.
    + eapply nsteps_l; [by econstructor|]. by apply (Hlast s1 (Registered false)).
    + cbn. apply list_lookup_insert_eq. by rewrite length_insert.
  - exists 1. eexists. split; [lia|]. split; [by eapply Hlast|]. cbn. by apply list_lookup_insert_eq.
  - exists 1. eexists. split; [lia|]. split; [by eapply Hlast|]. cbn. by apply list_lookup_insert_eq.
  - done.
  - exists 0, s. split; [lia|]. split; [constructor|done].
Qed.

(** ** A worked race

    A waiter is overtaken by a cancellation between its registration and its second
    check. *)
Definition raced : CancellationState := MkCancellationState true [Registered true] [Finished].

Lemma raced_reachable : token_reachable raced.
Proof.
  unfold token_reachable, CancellationToken_new.
  eapply rtc_l; [apply step_wait_call|]. cbn. eapply rtc_l; [apply step_cancel_call|]. cbn.
  eapply rtc_l; [apply (step_waiter _ 0); by econstructor|]. cbn.
  eapply rtc_l; [apply (step_waiter _ 0); by econstructor|]. cbn.
  eapply rtc_l; [by eapply (step_cancel _ 0)|]. cbn. eapply rtc_l; [by eapply (step_cancel _ 0)|]. cbn.
  apply rtc_refl.
Qed.

Lemma cancellation_wakes_waiters_witness :
  ∃ n s', n ≤ 3 ∧ nsteps (wait_step 0) n raced s' ∧ cs_waiters s' !! 0 = Some Woken.
Proof.
  eapply (cancellation_wakes_waiters raced 0 (Registered true)).
  - apply raced_reachable.
  - reflexivity.
  - reflexivity.
  - set_solver.
Defined.
