(* ===== verification/Metrics.v ===== *)
(** * Query metrics ([src/runtime/metrics.rs])

    Counters that the tasks of a query bump with relaxed atomics, and a map of operators
    behind a lock.  A call is a step; [fetch_add] wraps around, [+=] under the lock panics
    on overflow. *)
From S2P Require Import Prelude.

Record OperatorMetricsSnapshot := MkOperatorMetrics {
  om_operator_id : N;
  om_name : string;
  om_output_rows : N;
  om_output_batches : N;
  om_elapsed_ns : N;
}.

(** What a query reports of its metrics. *)
Record MetricsSnapshot := MkMetricsSnapshot {
  ms_input_rows : N;
  ms_output_rows : N;
  ms_input_batches : N;
  ms_output_batches : N;
  ms_bytes_scanned : N;
  ms_pruned_partitions : N;
  ms_shuffled_rows : N;
  ms_shuffled_bytes : N;
  ms_tasks : N;
  ms_elapsed_ns : N;
  ms_memory_reserved_bytes : N;
  ms_memory_peak_bytes : N;
  ms_operators : list OperatorMetricsSnapshot;
}.

(** The state of [QueryMetrics]. *)
Record QueryMetrics := MkQueryMetrics {
  qm_input_rows : N;
  qm_output_rows : N;
  qm_input_batches : N;
  qm_output_batches : N;
  qm_bytes_scanned : N;
  qm_pruned_partitions : N;
  qm_shuffled_rows : N;
  qm_shuffled_bytes : N;
  qm_tasks : N;
  qm_elapsed_ns : N;
  qm_memory_reserved_bytes : N;
  qm_memory_peak_bytes : N;
  qm_operators : gmap N OperatorMetricsSnapshot;
}.

Definition QueryMetrics_default : QueryMetrics := MkQueryMetrics 0 0 0 0 0 0 0 0 0 0 0 0 ∅.

(** [fetch_add] on an [AtomicU64] *)
Definition fetch_add (counter n : N) : N := ((counter + n) mod 2 ^ 64)%N.

Section calls.
Context (m : QueryMetrics).

Definition record_input (rows : N) : QueryMetrics :=
  MkQueryMetrics (fetch_add (qm_input_rows m) rows) (qm_output_rows m) (fetch_add (qm_input_batches m) 1)
    (qm_output_batches m) (qm_bytes_scanned m) (qm_pruned_partitions m) (qm_shuffled_rows m) (qm_shuffled_bytes m)
    (qm_tasks m) (qm_elapsed_ns m) (qm_memory_reserved_bytes m) (qm_memory_peak_bytes m) (qm_operators m).

Definition record_output (rows : N) : QueryMetrics :=
  MkQueryMetrics (qm_input_rows m) (fetch_add (qm_output_rows m) rows) (qm_input_batches m)
    (fetch_add (qm_output_batches m) 1) (qm_bytes_scanned m) (qm_pruned_partitions m) (qm_shuffled_rows m)
    (qm_shuffled_bytes m) (qm_tasks m) (qm_elapsed_ns m) (qm_memory_reserved_bytes m) (qm_memory_peak_bytes m)
    (qm_operators m).

Definition add_scanned_bytes (bytes : N) : QueryMetrics :=
  MkQueryMetrics (qm_input_rows m) (qm_output_rows m) (qm_input_batches m) (qm_output_batches m)
    (fetch_add (qm_bytes_scanned m) bytes) (qm_pruned_partitions m) (qm_shuffled_rows m) (qm_shuffled_bytes m)
    (qm_tasks m) (qm_elapsed_ns m) (qm_memory_reserved_bytes m) (qm_memory_peak_bytes m) (qm_operators m).

Definition add_pruned_partition : QueryMetrics :=
  MkQueryMetrics (qm_input_rows m) (qm_output_rows m) (qm_input_batches m) (qm_output_batches m) (qm_bytes_scanned m)
    (fetch_add (qm_pruned_partitions m) 1) (qm_shuffled_rows m) (qm_shuffled_bytes m) (qm_tasks m) (qm_elapsed_ns m)
    (qm_memory_reserved_bytes m) (qm_memory_peak_bytes m) (qm_operators m).

Definition add_shuffled_rows (rows : N) : QueryMetrics :=
  MkQueryMetrics (qm_input_rows m) (qm_output_rows m) (qm_input_batches m) (qm_output_batches m) (qm_bytes_scanned m)
    (qm_pruned_partitions m) (fetch_add (qm_shuffled_rows m) rows) (qm_shuffled_bytes m) (qm_tasks m) (qm_elapsed_ns m)
    (qm_memory_reserved_bytes m) (qm_memory_peak_bytes m) (qm_operators m).

Definition add_shuffled_bytes (bytes : N) : QueryMetrics :=
  MkQueryMetrics (qm_input_rows m) (qm_output_rows m) (qm_input_batches m) (qm_output_batches m) (qm_bytes_scanned m)
    (qm_pruned_partitions m) (qm_shuffled_rows m) (fetch_add (qm_shuffled_bytes m) bytes) (qm_tasks m) (qm_elapsed_ns m)
    (qm_memory_reserved_bytes m) (qm_memory_peak_bytes m) (qm_operators m).

Definition add_task : QueryMetrics :=
  MkQueryMetrics (qm_input_rows m) (qm_output_rows m) (qm_input_batches m) (qm_output_batches m) (qm_bytes_scanned m)
    (qm_pruned_partitions m) (qm_shuffled_rows m) (qm_shuffled_bytes m) (fetch_add (qm_tasks m) 1) (qm_elapsed_ns m)
    (qm_memory_reserved_bytes m) (qm_memory_peak_bytes m) (qm_operators m).

(** The nanoseconds of a [Duration] are a [u128], cut to 64 bits. *)
Definition set_elapsed (nanos : N) : QueryMetrics :=
  MkQueryMetrics (qm_input_rows m) (qm_output_rows m) (qm_input_batches m) (qm_output_batches m) (qm_bytes_scanned m)
    (qm_pruned_partitions m) (qm_shuffled_rows m) (qm_shuffled_bytes m) (qm_tasks m) (nanos mod 2 ^ 64)%N
    (qm_memory_reserved_bytes m) (qm_memory_peak_bytes m) (qm_operators m).

Definition set_memory_usage (reserved_bytes peak_bytes : N) : QueryMetrics :=
  MkQueryMetrics (qm_input_rows m) (qm_output_rows m) (qm_input_batches m) (qm_output_batches m) (qm_bytes_scanned m)
    (qm_pruned_partitions m) (qm_shuffled_rows m) (qm_shuffled_bytes m) (qm_tasks m) (qm_elapsed_ns m)
    reserved_bytes peak_bytes (qm_operators m).

Definition with_operators (operators : gmap N OperatorMetricsSnapshot) : QueryMetrics :=
  MkQueryMetrics (qm_input_rows m) (qm_output_rows m) (qm_input_batches m) (qm_output_batches m) (qm_bytes_scanned m)
    (qm_pruned_partitions m) (qm_shuffled_rows m) (qm_shuffled_bytes m) (qm_tasks m) (qm_elapsed_ns m)
    (qm_memory_reserved_bytes m) (qm_memory_peak_bytes m) operators.

(** [operators.entry(id).or_insert_with(..)] *)
Definition operator_entry (operator_id : N) (name : string) : OperatorMetricsSnapshot :=
  default (MkOperatorMetrics operator_id name 0 0 0) (qm_operators m !! operator_id).

(** [a += b] on [u64] *)
Definition add_assign (a b : N) : result N :=
  if (a + b <=? U64_MAX)%N then Ok (a + b)%N else Panic "attempt to add with overflow".

Definition record_operator_output (operator_id : N) (name : string) (rows : N) : result QueryMetrics :=
  let o := operator_entry operator_id name in
  output_rows ← add_assign (om_output_rows o) rows;
  output_batches ← add_assign (om_output_batches o) 1;
  Ok (with_operators (<[operator_id := MkOperatorMetrics (om_operator_id o) (om_name o) output_rows output_batches
        (om_elapsed_ns o)]> (qm_operators m))).

Definition add_operator_elapsed (operator_id : N) (name : string) (nanos : N) : result QueryMetrics :=
  let o := operator_entry operator_id name in
  elapsed ← add_assign (om_elapsed_ns o) (nanos mod 2 ^ 64)%N;
  Ok (with_operators (<[operator_id := MkOperatorMetrics (om_operator_id o) (om_name o) (om_output_rows o)
        (om_output_batches o) elapsed]> (qm_operators m))).

(** A snapshot reads every counter and lists the operators in the order of their
    numbers. *)
Definition metrics_snapshot : MetricsSnapshot :=
  MkMetricsSnapshot (qm_input_rows m) (qm_output_rows m) (qm_input_batches m) (qm_output_batches m)
    (qm_bytes_scanned m) (qm_pruned_partitions m) (qm_shuffled_rows m) (qm_shuffled_bytes m) (qm_tasks m)
    (qm_elapsed_ns m) (qm_memory_reserved_bytes m) (qm_memory_peak_bytes m) (snd <$> btree_iter (qm_operators m)).
End calls.

(** ** Calls in any order *)

Inductive MetricCall :=
| CallInput (rows : N)
| CallOutput (rows : N)
| CallScanned (bytes : N)
| CallPruned
| CallShuffledRows (rows : N)
| CallShuffledBytes (bytes : N)
| CallTask
| CallOperatorOutput (operator_id : N) (name : string) (rows : N)
| CallOperatorElapsed (operator_id : N) (name : string) (nanos : N).

Definition metric_call (m : QueryMetrics) (c : MetricCall) : result QueryMetrics :=
  match c with
  | CallInput rows => Ok (record_input m rows)
  | CallOutput rows => Ok (record_output m rows)
  | CallScanned bytes => Ok (add_scanned_bytes m bytes)
  | CallPruned => Ok (add_pruned_partition m)
  | CallShuffledRows rows => Ok (add_shuffled_rows m rows)
  | CallShuffledBytes bytes => Ok (add_shuffled_bytes m bytes)
  | CallTask => Ok (add_task m)
  | CallOperatorOutput id name rows => record_operator_output m id name rows
  | CallOperatorElapsed id name nanos => add_operator_elapsed m id name nanos
  end.

Fixpoint metric_calls (m : QueryMetrics) (calls : list MetricCall) : result QueryMetrics :=
  match calls with [] => Ok m | c :: calls => m ← metric_call m c; metric_calls m calls end.

(** The counters of the query, and what a call adds to each. *)

Definition totals (m : QueryMetrics) : list N :=
  [qm_input_rows m; qm_output_rows m; qm_input_batches m; qm_output_batches m; qm_bytes_scanned m;
   qm_pruned_partitions m; qm_shuffled_rows m; qm_shuffled_bytes m; qm_tasks m].

Definition added (c : MetricCall) : list N :=
  match c with
  | CallInput rows => [rows; 0; 1; 0; 0; 0; 0; 0; 0]
  | CallOutput rows => [0; rows; 0; 1; 0; 0; 0; 0; 0]
  | CallScanned bytes => [0; 0; 0; 0; bytes; 0; 0; 0; 0]
  | CallPruned => [0; 0; 0; 0; 0; 1; 0; 0; 0]
  | CallShuffledRows rows => [0; 0; 0; 0; 0; 0; rows; 0; 0]
  | CallShuffledBytes bytes => [0; 0; 0; 0; 0; 0; 0; bytes; 0]
  | CallTask => [0; 0; 0; 0; 0; 0; 0; 0; 1]
  | CallOperatorOutput _ _ _ | CallOperatorElapsed _ _ _ => replicate 9 0
  end%N.

Definition operator_added (id : N) (c : MetricCall) : N * N * N :=
  match c with
  | CallOperatorOutput i _ rows => if (i =? id)%N then (rows, 1, 0)%N else (0, 0, 0)%N
  | CallOperatorElapsed i _ nanos => if (i =? id)%N then (0, 0, nanos mod 2 ^ 64)%N else (0, 0, 0)%N
  | _ => (0, 0, 0)%N
  end.
Definition operator_total (id : N) (m : QueryMetrics) : N * N * N :=
  match qm_operators m !! id with
  | Some o => (om_output_rows o, om_output_batches o, om_elapsed_ns o)
  | None => (0, 0, 0)%N
  end.

Definition add_three (x y : N * N * N) : N * N * N := (x.1.1 + y.1.1, x.1.2 + y.1.2, x.2 + y.2)%N.

Lemma fetch_add_mod x n : (x < 2 ^ 64)%N → fetch_add x 0 = x ∧ fetch_add x n = ((x + n) mod 2 ^ 64)%N.
Proof. intros Hx. unfold fetch_add. split; [rewrite N.add_0_r; by apply N.mod_small|done]. Qed.

Lemma add_assign_ok a b c : add_assign a b = Ok c → c = (a + b)%N.
Proof. unfold add_assign. destruct (_ <=? _)%N; [|done]. by intros [= <-]. Qed.

Lemma metric_call_adds m c m' :
  Forall (λ x, x < 2 ^ 64)%N (totals m) → metric_call m c = Ok m' →
  totals m' = zip_with fetch_add (totals m) (added c) ∧
  ∀ id, operator_total id m' = add_three (operator_added id c) (operator_total id m).
Proof.
  intros Hm Hc. assert (∀ x, x ∈ totals m → fetch_add x 0 = x) as H0.
  { intros x Hx. rewrite list.Forall_forall in Hm. by apply (fetch_add_mod x 0), Hm. }
  assert (∀ ops, zip_with fetch_add (totals m) (replicate 9 0%N) = totals (with_operators m ops)) as Hops.
  { intros ops. unfold totals. cbn. rewrite !H0 by (unfold totals; set_solver). done. }
  destruct c; cbn in Hc; try (injection Hc as <-; split;
    [unfold totals; cbn; rewrite ?H0 by (unfold totals; set_solver); done
    |intros id; unfold operator_total, add_three; cbn; by destruct (qm_operators m !! id)]).
  - unfold record_operator_output in Hc. apply bind_ok in Hc as (r & Hr%add_assign_ok & Hc).
    apply bind_ok in Hc as (b & Hb%add_assign_ok & [= <-]). split; [by rewrite <-Hops|]. intros id.
    unfold operator_total, add_three. cbn. destruct (N.eqb_spec operator_id id) as [->|Hne].
    + rewrite lookup_insert_eq. subst. unfold operator_entry. destruct (qm_operators m !! id); cbn [default Datatypes.id om_output_rows om_output_batches om_elapsed_ns fst snd];
        repeat (apply pair_equal_spec; split); lia.
    + rewrite lookup_insert_ne by done. by destruct (qm_operators m !! id).
  - unfold add_operator_elapsed in Hc. apply bind_ok in Hc as (r & Hr%add_assign_ok & [= <-]).
    split; [by rewrite <-Hops|]. intros id.
    unfold operator_total, add_three. cbn. destruct (N.eqb_spec operator_id id) as [->|Hne].
    + rewrite lookup_insert_eq. subst. unfold operator_entry. destruct (qm_operators m !! id); cbn [default Datatypes.id om_output_rows om_output_batches om_elapsed_ns fst snd];
        repeat (apply pair_equal_spec; split); lia.
    + rewrite lookup_insert_ne by done. by destruct (qm_operators m !! id).
Qed.

Definition sum_added (calls : list MetricCall) : list N := foldr (λ c l, zip_with N.add (added c) l) (replicate 9 0%N) calls.
Definition sum_operator (id : N) (calls : list MetricCall) : N * N * N :=
  foldr (λ c, add_three (operator_added id c)) (0, 0, 0)%N calls.

Definition wrap (l : list N) : list N := (λ x, x mod 2 ^ 64)%N <$> l.

Lemma wrap_add l k : length l = length k → wrap (zip_with N.add (wrap l) k) = wrap (zip_with N.add l k).
Proof.
  revert k. induction l as [|x l IH]; intros [|y k] Hl; try done. cbn [zip_with wrap fmap list_fmap]. cbn in Hl.
  f_equal; [apply N.Div0.add_mod_idemp_l|apply IH; lia].
Qed.

Lemma added_length c : length (added c) = 9.
Proof. by destruct c. Qed.

Lemma sum_added_length calls : length (sum_added calls) = 9.
Proof. induction calls as [|c calls IH]; [done|].
  change (sum_added (c :: calls)) with (zip_with N.add (added c) (sum_added calls)). by rewrite length_zip_with, added_length, IH. Qed.

Lemma metric_calls_add calls m m' :
  wrap (totals m) = totals m → metric_calls m calls = Ok m' →
  totals m' = wrap (zip_with N.add (totals m) (sum_added calls)) ∧
  ∀ id, operator_total id m' = add_three (operator_total id m) (sum_operator id calls).
Proof.
  revert m. induction calls as [|c calls IH]; intros m Hm Hc; cbn in Hc.
  - injection Hc as <-. split; [|intros id; unfold add_three; cbn; destruct (operator_total id m) as [[]]; cbn; by rewrite !N.add_0_r].
    cbn [sum_added foldr]. rewrite <-Hm at 1. unfold totals. cbn [replicate zip_with wrap fmap list_fmap]. by rewrite !N.add_0_r.
  - apply bind_ok in Hc as (m1 & H1 & Hc).
    assert (Forall (λ x, x < 2 ^ 64)%N (totals m)) as Hb.
    { rewrite <-Hm. apply Forall_fmap, list.Forall_forall. intros x _. cbn. by apply N.mod_lt. }
    destruct (metric_call_adds m c m1 Hb H1) as [Ht Ho].
    assert (totals m1 = wrap (zip_with N.add (totals m) (added c))) as Ht'.
    { rewrite Ht. unfold wrap. generalize (totals m) (added c). intros l. induction l as [|x l IHl]; intros [|y k]; try done.
      cbn. f_equal. apply IHl. }
    destruct (IH m1) as [Ht1 Ho1]; [rewrite Ht'; unfold wrap; rewrite <-list_fmap_compose; apply list_fmap_ext;
      intros _ x _; cbn; by apply N.Div0.mod_mod|done|]. split.
    + rewrite Ht1, Ht', wrap_add by by rewrite length_zip_with, added_length, sum_added_length.
      change (sum_added (c :: calls)) with (zip_with N.add (added c) (sum_added calls)). f_equal.
      generalize (totals m) (added c) (sum_added calls). intros l. induction l as [|x l IHl]; intros [|y k] [|z j]; try done.
      cbn [zip_with]. f_equal; [lia|apply IHl].
    + intros id. rewrite Ho1, Ho. change (sum_operator id (c :: calls)) with (add_three (operator_added id c) (sum_operator id calls)). unfold add_three. cbn [fst snd].
      repeat (apply pair_equal_spec; split); lia.
Qed.

(** The counters are the sums of what the calls add, modulo 2^64, and those of an
    operator are exact sums: the order in which concurrent tasks make the calls is not
    visible. *)
Theorem metrics_are_sums calls calls' m m' :
  calls ≡ₚ calls' → metric_calls QueryMetrics_default calls = Ok m → metric_calls QueryMetrics_default calls' = Ok m' →
  totals m = wrap (sum_added calls) ∧ totals m' = totals m ∧
  ∀ id, operator_total id m = sum_operator id calls ∧ operator_total id m' = operator_total id m.
Proof.
  intros Hp [Ht Ho]%(metric_calls_add _ QueryMetrics_default _ eq_refl) [Ht' Ho']%(metric_calls_add _ QueryMetrics_default _ eq_refl).
  assert (∀ l, length l = 9 → zip_with N.add (totals QueryMetrics_default) l = l) as H0.
  { intros l Hl. do 9 (destruct l as [|? l]; [done|]). by destruct l. }
  rewrite H0 in Ht, Ht' by apply sum_added_length.
  assert (sum_added calls = sum_added calls') as Es.
  { clear -Hp. induction Hp as [|c l l' _ IH|c d l|l1 l2 l3 _ IH1 _ IH2];
      [done|unfold sum_added; cbn [foldr]; by f_equal| |congruence].
    change (zip_with N.add (added d) (zip_with N.add (added c) (sum_added l)) =
      zip_with N.add (added c) (zip_with N.add (added d) (sum_added l))). generalize (added c) (added d) (sum_added l). intros x. induction x as [|a x IHx]; intros [|b y] [|e z]; try done.
    cbn [zip_with]. f_equal; [lia|apply IHx]. }
  assert (∀ id, sum_operator id calls = sum_operator id calls') as Eo.
  { intros id. clear -Hp. induction Hp as [|c l l' _ IH|c d l|l1 l2 l3 _ IH1 _ IH2];
      [done|unfold sum_operator; cbn [foldr]; by f_equal| |congruence].
    unfold sum_operator, add_three. cbn [foldr fst snd]. repeat (apply pair_equal_spec; split); lia. }
  split; [done|]. split; [congruence|]. intros id. rewrite Ho, Ho', Eo. split; [|done].
  unfold add_three, operator_total. cbn. destruct (sum_operator id calls') as [[]]. done.
Qed.
