(* ===== verification/BlockStore.v ===== *)
(** * Immutable block storage ([src/cluster/block_store.rs])

    The two implementations of the [BlockStorage] trait.  [MemoryBlockStore] is a
    map and a counter.  [DiskBlockStore] also has a directory: a map from file
    names to contents that outlives the store, where every file operation may
    fail.  Arrow IPC, [serde_json] and [crc32fast] are parameters. *)
From Stdlib Require Import Ascii.
From S2P Require Import Prelude Text Protocol.

(** ** Third-party code *)

(** A record-batch library with its stream format, the JSON coding of the block
    header, and a checksum.  The laws are the documented round trips. *)
Class BlockCodec := {
  Schema : Type;
  RecordBatch : Type;
  num_rows : RecordBatch → N;
  get_array_memory_size : RecordBatch → N;
  ipc_write : Schema → list RecordBatch → result (list N);
  ipc_read : list N → result (Schema * list RecordBatch);
  header_to_vec : N → string → string → result (list N);
  header_from_slice : list N → result (N * string * string);
  crc32 : list N → N;
  ipc_write_no_panic : ∀ schema batches, no_panic (ipc_write schema batches);
  ipc_read_no_panic : ∀ bytes, no_panic (ipc_read bytes);
  header_to_vec_no_panic : ∀ v t c, no_panic (header_to_vec v t c);
  header_from_slice_no_panic : ∀ bytes, no_panic (header_from_slice bytes);
  ipc_roundtrip : ∀ schema batches bytes,
    ipc_write schema batches = Ok bytes → ipc_read bytes = Ok (schema, batches);
  header_roundtrip : ∀ v t c bytes,
    header_to_vec v t c = Ok bytes → header_from_slice bytes = Ok (v, t, c);
}.

(** ** Formatting *)

Definition hex_digit (n : N) : ascii :=
  ascii_of_N (if (n <? 10)%N then 48 + n else 87 + n).

(** [format!("{:08x}", n)] for a [u32] *)
Fixpoint hex_digits (k : nat) (n : N) (acc : string) : string :=
  match k with
  | 0 => acc
  | S k => hex_digits k (n / 16)%N (String (hex_digit (n mod 16)%N) acc)
  end.
Definition hex8 (n : N) : string := hex_digits 8 n EmptyString.

(** [s.as_bytes()] *)
Fixpoint as_bytes (s : string) : list N :=
  match s with EmptyString => [] | String c r => N_of_ascii c :: as_bytes r end.

(** [u32::to_le_bytes] and [u32::from_le_bytes] *)
Definition to_le_bytes (n : N) : list N :=
  [n mod 256; (n / 256) mod 256; (n / 65536) mod 256; (n / 16777216) mod 256]%N.
Definition from_le_bytes (b : list N) : N :=
  match b with
  | [b0; b1; b2; b3] => b0 + 256 * b1 + 65536 * b2 + 16777216 * b3
  | _ => 0
  end%N.

Definition len {A} (l : list A) : N := N.of_nat (length l).

(** ** Shared helpers of the module *)

Definition validate_capacity (capacity : N) : result unit :=
  if (capacity =? 0)%N
  then Err (Planning "data-plane storage capacity must be greater than zero")
  else Ok tt.

Definition same_checksum (left right : string) : result unit :=
  if decide (left = right) then Ok tt
  else Err (Protocol "immutable block checksum mismatch").

Definition full : SparkXError := ResourceExhausted "data-plane storage capacity exceeded".
Definition missing : SparkXError := NotFound "data-plane block does not exist".

(** [iter.sum::<u64>()] *)
Fixpoint sum_u64 (l : list N) : result N :=
  match l with
  | [] => Ok 0%N
  | x :: l =>
      rest ← sum_u64 l;
      if (x + rest <=? U64_MAX)%N then Ok (x + rest)%N
      else Panic "attempt to add with overflow"
  end.

(** ** The directory *)

Abbreviation Directory := (gmap string (list N)).

(** The file operations that may fail. *)
Inductive IoOp :=
| IoExists | IoCreatePending | IoWriteLength | IoWriteHeader | IoWriteBatches | IoMetadata
| IoSyncFile | IoRename | IoSyncDirectory | IoRemoveFile | IoOpen | IoRead.

(** Which operations of a call fail, with what error, and how many bytes a
    failing write got onto the disk. *)
Abbreviation Faults := (IoOp → option (SparkXError * nat)).

Definition attempt (faults : Faults) (op : IoOp) : result unit :=
  match faults op with Some (e, _) => Err e | None => Ok tt end.

(** [file.write_all(bytes)] on the file [name] *)
Definition write_all (faults : Faults) (op : IoOp) (name : string) (bytes : list N)
    (d : Directory) : result unit * Directory :=
  let contents := default [] (d !! name) in
  match faults op with
  | Some (e, n) => (Err e, <[name := contents ++ take n bytes]> d)
  | None => (Ok tt, <[name := contents ++ bytes]> d)
  end.

(** [fs::remove_file] *)
Definition remove_file (faults : Faults) (name : string) (d : Directory)
    : result unit * Directory :=
  match faults IoRemoveFile with
  | Some (e, _) => (Err e, d)
  | None => if contains_key d name then (Ok tt, delete name d)
            else (Err (Io "No such file or directory"), d)
  end.

(** [sync_directory] *)
Definition sync_directory (faults : Faults) : result unit := attempt faults IoSyncDirectory.

Section stores.
Context `{BlockCodec}.

Record StoredBlock := MkStoredBlock {
  bl_schema : Schema;
  bl_batches : list RecordBatch;
  bl_checksum : string;
  bl_charged_bytes : N;
}.

(** [block_metadata] of [src/cluster/data_plane.rs]. *)
Definition block_metadata (schema : Schema) (batches : list RecordBatch)
    : result (N * N * string) :=
  rows ← sum_u64 (num_rows <$> batches);
  bytes ← sum_u64 (get_array_memory_size <$> batches);
  stream ← ipc_write schema batches;
  Ok (rows, bytes, "crc32:" +:+ hex8 (crc32 stream)).

(** ** [MemoryBlockStore] *)

Record MemoryBlockStore := MkMemoryBlockStore {
  ms_capacity : N;
  ms_used : N;
  ms_blocks : gmap string StoredBlock;
}.

Definition MemoryBlockStore_new (capacity : N) : result MemoryBlockStore :=
  _ ← validate_capacity capacity; Ok (MkMemoryBlockStore capacity 0 ∅).

Definition ms_available_bytes (s : MemoryBlockStore) : N :=
  saturating_sub (ms_capacity s) (ms_used s).

Definition ms_upload_budget (s : MemoryBlockStore) (ticket : string) : N :=
  saturating_add_u64 (ms_available_bytes s)
    (match ms_blocks s !! ticket with Some block => bl_charged_bytes block | None => 0 end).

Definition ms_insert (ticket : string) (block : StoredBlock) (s : MemoryBlockStore)
    : result unit * MemoryBlockStore :=
  match ms_blocks s !! ticket with
  | Some existing => (same_checksum (bl_checksum existing) (bl_checksum block), s)
  | None =>
      if (ms_available_bytes s <? bl_charged_bytes block)%N then (Err full, s)
      else if (U64_MAX <? ms_used s + bl_charged_bytes block)%N
      then (Panic "attempt to add with overflow", s)
      else (Ok tt, MkMemoryBlockStore (ms_capacity s) (ms_used s + bl_charged_bytes block)%N
                     (<[ticket := block]> (ms_blocks s)))
  end.

Definition ms_get (ticket : string) (s : MemoryBlockStore) : result StoredBlock :=
  ok_or (ms_blocks s !! ticket) missing.

Definition ms_remove (ticket : string) (s : MemoryBlockStore)
    : result unit * MemoryBlockStore :=
  match ms_blocks s !! ticket with
  | None => (Err missing, s)
  | Some block =>
      let s1 := MkMemoryBlockStore (ms_capacity s) (ms_used s) (delete ticket (ms_blocks s)) in
      if (ms_used s <? bl_charged_bytes block)%N
      then (Panic "attempt to subtract with overflow", s1)
      else (Ok tt, MkMemoryBlockStore (ms_capacity s) (ms_used s - bl_charged_bytes block)%N
                     (delete ticket (ms_blocks s)))
  end.

(** ** [DiskBlockStore] *)

Record DiskEntry := MkDiskEntry {
  de_path : string;
  de_bytes : N;
  de_checksum : string;
}.

(** The store's own fields; the directory is separate, since it survives. *)
Record DiskBlockStore := MkDiskBlockStore {
  ds_capacity : N;
  ds_used : N;
  ds_blocks : gmap string DiskEntry;
}.

Definition ds_available_bytes (s : DiskBlockStore) : N :=
  saturating_sub (ds_capacity s) (ds_used s).

Definition ds_upload_budget (s : DiskBlockStore) (ticket : string) : N :=
  saturating_add_u64 (ds_available_bytes s)
    (match ds_blocks s !! ticket with Some entry => de_bytes entry | None => 0 end).

Definition file_name (ticket : string) : string :=
  "sparkx-" +:+ hex8 (crc32 (as_bytes ticket)).

(** [read_block] *)
Definition read_block (faults : Faults) (name : string) (d : Directory)
    : result (N * string * string * StoredBlock) :=
  _ ← attempt faults IoOpen;
  file ← ok_or (d !! name) (Io "No such file or directory");
  _ ← attempt faults IoRead;
  if decide (length file < 4) then Err (Io "failed to fill whole buffer") else
  let size := from_le_bytes (take 4 file) in
  if (4096 <? size)%N then Err (Protocol "invalid persisted block header length") else
  let rest := drop 4 file in
  if (len rest <? size)%N then Err (Io "failed to fill whole buffer") else
  header ← header_from_slice (take (N.to_nat size) rest);
  let '(version, ticket, checksum) := header in
  if negb (version =? PROTOCOL_VERSION)%N
  then Err (Protocol "persisted block version mismatch") else
  decoded ← ipc_read (drop (N.to_nat size) rest);
  let '(schema, batches) := decoded in
  meta ← block_metadata schema batches;
  let '(_, bytes, computed) := meta in
  _ ← same_checksum checksum computed;
  Ok (version, ticket, checksum, MkStoredBlock schema batches computed (N.max bytes 1)).

(** The closure [write] of [insert]: everything between creating the pending
    file and publishing it under its final name. *)
Definition disk_write (faults : Faults) (available : N) (name ticket : string)
    (block : StoredBlock) (d : Directory) : result N * Directory :=
  let pending := name +:+ ".pending" in
  propagate _ := attempt faults IoCreatePending keeping d in
  if contains_key d pending then (Err (Io "File exists"), d) else
  let d := <[pending := []]> d in
  propagate header := header_to_vec PROTOCOL_VERSION ticket (bl_checksum block) keeping d in
  propagate stream := ipc_write (bl_schema block) (bl_batches block) keeping d in
  if (available <? saturating_add_u64 (saturating_add_u64 (len stream) (len header)) 4)%N
  then (Err full, d) else
  call _, d1 := write_all faults IoWriteLength pending (to_le_bytes (len header mod 2 ^ 32)) d in
  call _, d2 := write_all faults IoWriteHeader pending header d1 in
  call _, d3 := write_all faults IoWriteBatches pending stream d2 in
  propagate _ := attempt faults IoMetadata keeping d3 in
  let contents := default [] (d3 !! pending) in
  let bytes := len contents in
  if (available <? bytes)%N then (Err full, d3) else
  propagate _ := attempt faults IoSyncFile keeping d3 in
  propagate _ := attempt faults IoRename keeping d3 in
  let d4 := <[name +:+ ".block" := contents]> (delete pending d3) in
  propagate _ := sync_directory faults keeping d4 in
  (Ok bytes, d4).

Definition ds_insert (faults : Faults) (ticket : string) (block : StoredBlock)
    (s : DiskBlockStore) (d : Directory) : result unit * (DiskBlockStore * Directory) :=
  match ds_blocks s !! ticket with
  | Some existing => (same_checksum (de_checksum existing) (bl_checksum block), (s, d))
  | None =>
      let name := file_name ticket in
      let path := name +:+ ".block" in
      (** [Path::exists] answers [false] when it cannot tell. *)
      if contains_key d path && is_ok (attempt faults IoExists)
      then (Err (Protocol "persistent block filename collision"), (s, d))
      else
        let '(write, d1) := disk_write faults (ds_available_bytes s) name ticket block d in
        let d2 := if is_ok write then d1 else (remove_file faults (name +:+ ".pending") d1).2 in
        propagate bytes := write keeping (s, d2) in
        if (U64_MAX <? ds_used s + bytes)%N
        then (Panic "attempt to add with overflow", (s, d2))
        else (Ok tt, (MkDiskBlockStore (ds_capacity s) (ds_used s + bytes)%N
                        (<[ticket := MkDiskEntry path bytes (bl_checksum block)]> (ds_blocks s)),
                      d2))
  end.

Definition ds_get (faults : Faults) (ticket : string) (s : DiskBlockStore) (d : Directory)
    : result StoredBlock :=
  entry ← ok_or (ds_blocks s !! ticket) missing;
  found ← read_block faults (de_path entry) d;
  let '(_, found_ticket, _, block) := found in
  if decide (found_ticket = ticket) then
    _ ← same_checksum (de_checksum entry) (bl_checksum block); Ok block
  else Err (Protocol "persisted block ticket mismatch").

Definition ds_remove (faults : Faults) (ticket : string) (s : DiskBlockStore) (d : Directory)
    : result unit * (DiskBlockStore * Directory) :=
  match ds_blocks s !! ticket with
  | None => (Err missing, (s, d))
  | Some entry =>
      let '(removed, d1) := remove_file faults (de_path entry) d in
      propagate _ := removed keeping (s, d1) in
      propagate _ := sync_directory faults keeping (s, d1) in
      if (ds_used s <? de_bytes entry)%N
      then (Panic "attempt to subtract with overflow",
            (MkDiskBlockStore (ds_capacity s) (ds_used s) (delete ticket (ds_blocks s)), d1))
      else (Ok tt, (MkDiskBlockStore (ds_capacity s) (ds_used s - de_bytes entry)%N
                      (delete ticket (ds_blocks s)), d1))
  end.

(** [s.starts_with(p)] and [s.ends_with(p)] *)
Definition starts_with (p s : string) : bool := bool_decide (is_Some (strip_prefix p s)).
Fixpoint ends_with (p s : string) : bool :=
  bool_decide (s = p) || match s with EmptyString => false | String _ r => ends_with p r end.

(** One entry of the scan of [DiskBlockStore::open]. *)
Definition scan_entry (faults : Faults) (name : string) (s : DiskBlockStore) (d : Directory)
    : result DiskBlockStore * Directory :=
  if negb (starts_with "sparkx-" name) then (Ok s, d)
  else if ends_with ".pending" name then
    let '(removed, d1) := remove_file faults name d in
    propagate _ := removed keeping d1 in (Ok s, d1)
  else if negb (ends_with ".block" name) then (Ok s, d)
  else
    propagate _ := attempt faults IoMetadata keeping d in
    let bytes := len (default [] (d !! name)) in
    if (ds_available_bytes s <? bytes)%N then (Err full, d) else
    propagate found := read_block faults name d keeping d in
    let '(_, ticket, checksum, _) := found in
    if contains_key (ds_blocks s) ticket
    then (Err (Protocol "duplicate persisted block ticket"), d)
    else if (U64_MAX <? ds_used s + bytes)%N then (Panic "attempt to add with overflow", d)
    else (Ok (MkDiskBlockStore (ds_capacity s) (ds_used s + bytes)%N
                (<[ticket := MkDiskEntry name bytes checksum]> (ds_blocks s))), d).

Fixpoint scan_directory (faults : string → Faults) (names : list string) (s : DiskBlockStore)
    (d : Directory) : result DiskBlockStore * Directory :=
  match names with
  | [] => (Ok s, d)
  | name :: rest =>
      call s1, d1 := scan_entry (faults name) name s d in scan_directory faults rest s1 d1
  end.

(** [DiskBlockStore::open]: [lock] is the outcome of creating the directory and
    taking the lock file, [names] the directory listing in the order the
    operating system gives it. *)
Definition DiskBlockStore_open (lock : result unit) (faults : string → Faults)
    (names : list string) (capacity : N) (d : Directory)
    : result DiskBlockStore * Directory :=
  propagate _ := validate_capacity capacity keeping d in
  propagate _ := lock keeping d in
  scan_directory faults names (MkDiskBlockStore capacity 0 ∅) d.
End stores.
