(* ===== verification/BlockStoreProps.v ===== *)
(** * What block storage guarantees

    Accounting, the write-once contract shared by both stores, the round trip
    through the disk format, and recovery of the directory by [open]. *)
From Stdlib Require Import Ascii.
From S2P Require Import Prelude Text Protocol BlockStore.

(** ** File names *)

Fixpoint last_char (s : string) : option ascii :=
  match s with
  | EmptyString => None
  | String c EmptyString => Some c
  | String _ r => last_char r
  end.

Lemma last_char_app (s t : string) : t ≠ EmptyString → last_char (s +:+ t) = last_char t.
Proof.
  intros Ht. induction s as [|c s IH]; [done|].
  change (String c s +:+ t) with (String c (s +:+ t)). rewrite <-IH. simpl.
  destruct (s +:+ t) eqn:E; [|done]. by destruct s, t.
Qed.

Lemma ends_with_spec p s : ends_with p s = true ↔ ∃ r, s = r +:+ p.
Proof.
  induction s as [|c s IH]; simpl; rewrite ?orb_true_iff, ?bool_decide_eq_true.
  - split.
    + intros [<-|?]; [by exists EmptyString|done].
    + intros [r Hr]. left. by destruct r.
  - rewrite IH. split.
    + intros [<-|[r ->]]; [by exists EmptyString|by exists (String c r)].
    + intros [[|c' r] Hr]; [by left|right]. exists r. by injection Hr as _ ->.
Qed.

Lemma ends_with_app s p : ends_with p (s +:+ p) = true.
Proof. apply ends_with_spec. by exists s. Qed.

Lemma pending_is_not_block s : ends_with ".block" (s +:+ ".pending") = false.
Proof.
  apply not_true_iff_false. rewrite ends_with_spec. intros [r Hr].
  apply (f_equal last_char) in Hr. by rewrite !last_char_app in Hr.
Qed.

Lemma block_is_not_pending s : ends_with ".pending" (s +:+ ".block") = false.
Proof.
  apply not_true_iff_false. rewrite ends_with_spec. intros [r Hr].
  apply (f_equal last_char) in Hr. by rewrite !last_char_app in Hr.
Qed.

Lemma starts_with_app p s : starts_with p (p +:+ s) = true.
Proof. apply bool_decide_eq_true. exists s. by apply strip_prefix_spec. Qed.

Lemma block_ne_pending s t : s +:+ ".block" ≠ t +:+ ".pending".
Proof.
  intros E. pose proof (ends_with_app s ".block") as Hb.
  by rewrite E, pending_is_not_block in Hb.
Qed.

(** ** Bytes *)

Lemma le_bytes_roundtrip n : (n < 2 ^ 32)%N → from_le_bytes (to_le_bytes n) = n.
Proof.
  intros Hn. unfold from_le_bytes, to_le_bytes.
  assert (n / 16777216 < 256)%N by (apply N.Div0.div_lt_upper_bound; lia).
  rewrite (N.mod_small (n / 16777216)) by done.
  pose proof (N.Div0.div_mod n 256). pose proof (N.Div0.div_mod (n / 256) 256).
  pose proof (N.Div0.div_mod (n / 65536) 256).
  rewrite N.Div0.div_div in *. change (256 * 256)%N with 65536%N in *.
  change (65536 * 256)%N with 16777216%N in *. lia.
Qed.

Lemma length_to_le_bytes n : length (to_le_bytes n) = 4.
Proof. done. Qed.

Lemma same_checksum_ok a b : same_checksum a b = Ok tt ↔ a = b.
Proof. unfold same_checksum. by case_decide. Qed.

Lemma same_checksum_no_panic a b : no_panic (same_checksum a b).
Proof. unfold same_checksum. by case_decide. Qed.

Lemma validate_capacity_ok n : validate_capacity n = Ok tt ↔ (0 < n)%N.
Proof. unfold validate_capacity. destruct (N.eqb_spec n 0); split; done || lia. Qed.

Section storage.
Context `{BlockCodec}.

(** A block as [do_put] builds it, under a ticket whose header [read_block]
    accepts. *)
Record sound_block (ticket : string) (b : StoredBlock) : Prop := {
  sb_meta : ∃ rows bytes, block_metadata (bl_schema b) (bl_batches b)
    = Ok (rows, bytes, bl_checksum b) ∧ bl_charged_bytes b = N.max bytes 1;
  sb_header : ∀ header, header_to_vec PROTOCOL_VERSION ticket (bl_checksum b) = Ok header →
    (len header ≤ 4096)%N;
}.

(** ** [MemoryBlockStore] *)

Record ms_wf (s : MemoryBlockStore) : Prop := {
  msw_capacity : (0 < ms_capacity s ≤ U64_MAX)%N;
  msw_used : ms_used s = map_total bl_charged_bytes (ms_blocks s);
  msw_fits : (ms_used s ≤ ms_capacity s)%N;
}.

Lemma ms_new_wf capacity s :
  (capacity ≤ U64_MAX)%N → MemoryBlockStore_new capacity = Ok s → ms_wf s ∧ ms_blocks s = ∅.
Proof.
  intros Hc. unfold MemoryBlockStore_new. rewrite bind_unit_ok, validate_capacity_ok.
  intros [? [= <-]]. split; [|done]. split; simpl; [lia| |lia].
  unfold map_total. by rewrite map_sum_empty.
Qed.

Lemma ms_insert_spec ticket b s r s' :
  ms_wf s → ms_insert ticket b s = (r, s') →
  ms_wf s' ∧ no_panic r ∧
  match ms_blocks s !! ticket with
  | Some old => s' = s ∧ (r = Ok tt ↔ bl_checksum old = bl_checksum b)
  | None =>
      (r = Ok tt ∧ ms_blocks s' = <[ticket := b]> (ms_blocks s) ∧
       (bl_charged_bytes b ≤ ms_available_bytes s)%N) ∨
      (r = Err full ∧ s' = s ∧ (ms_available_bytes s < bl_charged_bytes b)%N)
  end.
Proof.
  intros Hs. pose proof Hs as [C U F]. unfold ms_insert.
  destruct (ms_blocks s !! ticket) as [old|] eqn:E.
  { intros Hx; injection Hx as <- <-.
    by split_and!; [|apply same_checksum_no_panic|..|apply same_checksum_ok]. }
  unfold ms_available_bytes, saturating_sub.
  destruct (N.ltb_spec (ms_capacity s - ms_used s) (bl_charged_bytes b)).
  { intros Hx; injection Hx as <- <-. split_and!; [done|done|by right]. }
  destruct (N.ltb_spec U64_MAX (ms_used s + bl_charged_bytes b)); [lia|].
  intros Hx; injection Hx as <- <-. split_and!; [|done|by left]. split; simpl; try lia.
  rewrite map_total_insert_None by done. lia.
Qed.

Lemma ms_remove_spec ticket s r s' :
  ms_wf s → ms_remove ticket s = (r, s') →
  ms_wf s' ∧ no_panic r ∧ ms_blocks s' = delete ticket (ms_blocks s) ∧
  (r = Ok tt ↔ is_Some (ms_blocks s !! ticket)).
Proof.
  intros Hs. pose proof Hs as [C U F]. unfold ms_remove.
  destruct (ms_blocks s !! ticket) as [b|] eqn:E.
  - pose proof (map_total_delete bl_charged_bytes _ _ _ E).
    destruct (N.ltb_spec (ms_used s) (bl_charged_bytes b)); [lia|].
    intros Hx; injection Hx as <- <-. split_and!; try done. split; simpl; lia.
  - intros Hx; injection Hx as <- <-. split_and!; [done|done|by rewrite delete_id|].
    split; [done|by intros []].
Qed.

(** ** The disk format *)

(** [contents] is a published file for [ticket]. *)
Definition persisted (ticket checksum : string) (schema : Schema) (batches : list RecordBatch)
    (contents : list N) : Prop :=
  ∃ header stream rows bytes,
    header_to_vec PROTOCOL_VERSION ticket checksum = Ok header ∧ (len header ≤ 4096)%N ∧
    ipc_write schema batches = Ok stream ∧
    block_metadata schema batches = Ok (rows, bytes, checksum) ∧
    contents = to_le_bytes (len header) ++ header ++ stream.

Definition no_faults : Faults := λ _, None.

Lemma read_persisted d name ticket checksum schema batches contents :
  d !! name = Some contents → persisted ticket checksum schema batches contents →
  ∃ charged, read_block no_faults name d =
    Ok (PROTOCOL_VERSION, ticket, checksum, MkStoredBlock schema batches checksum charged).
Proof.
  intros Hd (header & stream & rows & bytes & Hh & Hl & Hi & Hm & ->).
  exists (N.max bytes 1). unfold read_block. cbn [attempt no_faults mbind result_bind].
  rewrite Hd. cbn [ok_or mbind result_bind].
  rewrite decide_False by (rewrite length_app, length_to_le_bytes; lia).
  rewrite (take_app_length' (to_le_bytes (len header)) (header ++ stream) 4) by done.
  rewrite (drop_app_length' (to_le_bytes (len header)) (header ++ stream) 4) by done.
  rewrite le_bytes_roundtrip by lia.
  destruct (N.ltb_spec 4096 (len header)); [lia|].
  destruct (N.ltb_spec (len (header ++ stream)) (len header)) as [Hlt|_];
    [unfold len in Hlt; rewrite length_app in Hlt; lia|].
  assert (N.to_nat (len header) = length header) as Hn by (unfold len; lia).
  rewrite take_app_length', drop_app_length' by done.
  rewrite (header_roundtrip _ _ _ _ Hh). cbn [mbind result_bind].
  rewrite N.eqb_refl. cbn [negb]. rewrite (ipc_roundtrip _ _ _ Hi). cbn [mbind result_bind].
  rewrite Hm. cbn [mbind result_bind].
  by rewrite (proj2 (same_checksum_ok _ _)).
Qed.

(** A file holds one ticket and one checksum. *)
Lemma persisted_unique t1 c1 s1 b1 t2 c2 s2 b2 contents :
  persisted t1 c1 s1 b1 contents → persisted t2 c2 s2 b2 contents → t1 = t2 ∧ c1 = c2.
Proof.
  intros P1 P2.
  destruct (read_persisted {[ "f" := contents ]} "f" _ _ _ _ _ (lookup_singleton_eq _ _) P1).
  destruct (read_persisted {[ "f" := contents ]} "f" _ _ _ _ _ (lookup_singleton_eq _ _) P2).
  split; congruence.
Qed.

(** ** Writing a file *)

(** What [disk_write] did to the directory: published a complete file, or only
    touched the pending file; the file can be published although the call
    failed only when syncing the directory failed. *)
Definition published (faults : Faults) (available : N) (ticket : string) (b : StoredBlock)
    (d : Directory) (r : result N) (d1 : Directory) : Prop :=
  let path := file_name ticket +:+ ".block" in
  let complete bytes := ∃ contents, d1 !! path = Some contents ∧
    d1 !! (file_name ticket +:+ ".pending") = None ∧ len contents = bytes ∧
    (bytes ≤ available)%N ∧
    persisted ticket (bl_checksum b) (bl_schema b) (bl_batches b) contents in
  match r with
  | Ok bytes => complete bytes
  | Err _ => d1 !! path = d !! path ∨ (faults IoSyncDirectory ≠ None ∧ ∃ bytes, complete bytes)
  | Panic _ => False
  end.

Definition same_others (name : string) (d d1 : Directory) : Prop :=
  ∀ n, n ≠ name +:+ ".pending" → n ≠ name +:+ ".block" → d1 !! n = d !! n.

Lemma same_others_insert name c d d1 :
  same_others name d d1 → same_others name d (<[name +:+ ".pending" := c]> d1).
Proof. intros Hs n Hp Hb. rewrite lookup_insert_ne by congruence. by apply Hs. Qed.

Lemma write_all_spec faults op name bytes d r d1 contents :
  d !! name = Some contents → write_all faults op name bytes d = (r, d1) →
  (∃ c, d1 = <[name := c]> d) ∧
  match r with
  | Ok _ => d1 = <[name := contents ++ bytes]> d
  | Err _ => True
  | Panic _ => False
  end.
Proof.
  intros Hd. unfold write_all. rewrite Hd. cbn [default].
  destruct (faults op) as [[e n]|]; intros Hx; injection Hx as <- <-; eauto.
Qed.

(** The directory as every failure before publication leaves it. *)
Definition only_pending (name : string) (d d' : Directory) : Prop :=
  same_others name d d' ∧ d' !! (name +:+ ".block") = d !! (name +:+ ".block").

Lemma only_pending_refl name d : only_pending name d d.
Proof. done. Qed.

Lemma only_pending_insert name c d d' :
  only_pending name d d' → only_pending name d (<[name +:+ ".pending" := c]> d').
Proof.
  intros [??]. split; [by apply same_others_insert|].
  rewrite lookup_insert_ne; [done|]. intros E. by apply (block_ne_pending name name).
Qed.

(** One write to the pending file. *)
Lemma only_pending_write name faults op bytes d d' c r d1 :
  only_pending name d (<[name +:+ ".pending" := c]> d') →
  write_all faults op (name +:+ ".pending") bytes (<[name +:+ ".pending" := c]> d') = (r, d1) →
  only_pending name d d1 ∧
  match r with
  | Ok _ => d1 = <[name +:+ ".pending" := c ++ bytes]> d'
  | Err _ => True
  | Panic _ => False
  end.
Proof.
  intros Hd Hw. eapply write_all_spec in Hw as [[c' ->] Hr]; [|apply lookup_insert_eq].
  split; [by apply only_pending_insert|].
  destruct r; [|done..]. by rewrite Hr, insert_insert_eq.
Qed.

(** Renaming the pending file publishes it. *)
Lemma only_pending_rename name d d' c :
  only_pending name d (<[name +:+ ".pending" := c]> d') →
  let d1 := <[name +:+ ".block" := c]> (delete (name +:+ ".pending")
              (<[name +:+ ".pending" := c]> d')) in
  same_others name d d1 ∧ d1 !! (name +:+ ".block") = Some c ∧ d1 !! (name +:+ ".pending") = None.
Proof.
  intros [Ho _]. simpl. pose proof (block_ne_pending name name). split_and!.
  - intros n Hp Hb. rewrite lookup_insert_ne, lookup_delete_ne by congruence. by apply Ho.
  - apply lookup_insert_eq.
  - rewrite lookup_insert_ne by done. apply lookup_delete_eq.
Qed.

Lemma published_fail faults available ticket b d e d' r d1 :
  only_pending (file_name ticket) d d' → (Err e, d') = (r, d1) →
  same_others (file_name ticket) d d1 ∧ published faults available ticket b d r d1.
Proof. intros [? ?] Hx. injection Hx as <- <-. split; [done|]. by left. Qed.

Lemma disk_write_spec faults available ticket b d r d1 :
  sound_block ticket b →
  disk_write faults available (file_name ticket) ticket b d = (r, d1) →
  same_others (file_name ticket) d d1 ∧ published faults available ticket b d r d1.
Proof.
  intros [(rows & bytes & Hm & _) Hh]. unfold disk_write, attempt.
  destruct (faults IoCreatePending) as [[e n]|]; [by apply published_fail|].
  destruct (contains_key d _); [by apply published_fail|].
  pose proof (only_pending_insert _ [] d d (only_pending_refl (file_name ticket) d)) as K.
  pose proof (header_to_vec_no_panic PROTOCOL_VERSION ticket (bl_checksum b)).
  destruct (header_to_vec _ _ _) as [header|e|] eqn:Eh; [|by apply published_fail|done].
  pose proof (ipc_write_no_panic (bl_schema b) (bl_batches b)).
  destruct (ipc_write _ _) as [stream|e|] eqn:Ei; [|by apply published_fail|done].
  destruct (_ <? _)%N; [by apply published_fail|]. specialize (Hh _ eq_refl).
  rewrite N.mod_small by lia.
  destruct (write_all faults IoWriteLength _ _ _) as [r1 d1'] eqn:W.
  destruct (only_pending_write _ _ _ _ _ _ _ _ _ K W) as [K1 E1]; clear W.
  destruct r1; [subst d1'|by apply published_fail|done].
  destruct (write_all faults IoWriteHeader _ _ _) as [r2 d2'] eqn:W.
  destruct (only_pending_write _ _ _ _ _ _ _ _ _ K1 W) as [K2 E2]; clear W.
  destruct r2; [subst d2'|by apply published_fail|done].
  destruct (write_all faults IoWriteBatches _ _ _) as [r3 d3'] eqn:W.
  destruct (only_pending_write _ _ _ _ _ _ _ _ _ K2 W) as [K3 E3]; clear W.
  destruct r3; [subst d3'|by apply published_fail|done].
  rewrite lookup_insert_eq. cbn [from_option id].
  destruct (faults IoMetadata) as [[e n]|]; [by apply published_fail|].
  set (contents := (([] ++ to_le_bytes (len header)) ++ header) ++ stream) in *.
  destruct (N.ltb_spec available (len contents)) as [|Hfit]; [by apply published_fail|].
  destruct (faults IoSyncFile) as [[e n]|]; [by apply published_fail|].
  destruct (faults IoRename) as [[e n]|]; [by apply published_fail|].
  destruct (only_pending_rename _ _ _ _ K3) as (K4 & Hb & Hp).
  assert (persisted ticket (bl_checksum b) (bl_schema b) (bl_batches b) contents) as Hper.
  { by exists header, stream, rows, bytes. }
  unfold sync_directory, attempt.
  destruct (faults IoSyncDirectory) as [[e n]|] eqn:Es;
    intros Hx; injection Hx as <- <-; (split; [exact K4|]);
    [right; split; [congruence|exists (len contents)]|]; exists contents;
    (split; [exact Hb|]); (split; [exact Hp|]); (split; [reflexivity|]); by split.
Qed.

(** ** The invariant of the disk store *)

(** Every published file of the directory is complete and carries the ticket
    its name is derived from. *)
Definition dir_wf (d : Directory) : Prop :=
  ∀ name contents, d !! name = Some contents →
    starts_with "sparkx-" name = true → ends_with ".block" name = true →
    ∃ ticket checksum schema batches, name = file_name ticket +:+ ".block" ∧
      persisted ticket checksum schema batches contents.

Record ds_wf (s : DiskBlockStore) (d : Directory) : Prop := {
  dsw_capacity : (0 < ds_capacity s ≤ U64_MAX)%N;
  dsw_used : ds_used s = map_total de_bytes (ds_blocks s);
  dsw_fits : (ds_used s ≤ ds_capacity s)%N;
  dsw_dir : dir_wf d;
  dsw_entry : ∀ ticket e, ds_blocks s !! ticket = Some e →
    de_path e = file_name ticket +:+ ".block" ∧
    ∃ contents schema batches, d !! de_path e = Some contents ∧ len contents = de_bytes e ∧
      persisted ticket (de_checksum e) schema batches contents;
}.

Lemma file_name_prefix ticket sfx : starts_with "sparkx-" (file_name ticket +:+ sfx) = true.
Proof.
  unfold file_name. replace (("sparkx-" +:+ hex8 (crc32 (as_bytes ticket))) +:+ sfx)
    with ("sparkx-" +:+ (hex8 (crc32 (as_bytes ticket)) +:+ sfx)); [apply starts_with_app|done].
Qed.

(** Two tickets that share a file name cannot both be stored. *)
Lemma ds_path_inj s d t1 t2 e1 e2 :
  ds_wf s d → ds_blocks s !! t1 = Some e1 → ds_blocks s !! t2 = Some e2 →
  de_path e1 = de_path e2 → t1 = t2.
Proof.
  intros Hs H1 H2 E. destruct (dsw_entry _ _ Hs _ _ H1) as (_ & c1 & s1 & b1 & D1 & _ & P1).
  destruct (dsw_entry _ _ Hs _ _ H2) as (_ & c2 & s2 & b2 & D2 & _ & P2).
  rewrite E in D1. assert (c1 = c2) as -> by congruence. exact (proj1 (persisted_unique _ _ _ _ _ _ _ _ _ P1 P2)).
Qed.

(** Changes that only touch files nobody lists, or publish a complete file. *)
Lemma ds_wf_directory s d d1 :
  ds_wf s d → dir_wf d1 →
  (∀ ticket e, ds_blocks s !! ticket = Some e → d1 !! de_path e = d !! de_path e) →
  ds_wf s d1.
Proof.
  intros [C U F D E] Hd Hsame. split; try done. intros t e Ht.
  rewrite (Hsame _ _ Ht). by apply E.
Qed.

Lemma dir_wf_change ticket d d1 :
  dir_wf d → same_others (file_name ticket) d d1 →
  (d1 !! (file_name ticket +:+ ".block") = d !! (file_name ticket +:+ ".block") ∨
   ∃ contents checksum schema batches, d1 !! (file_name ticket +:+ ".block") = Some contents ∧
     persisted ticket checksum schema batches contents) →
  dir_wf d1.
Proof.
  intros Hd Ho Hb name contents Hn Hs He.
  destruct (decide (name = file_name ticket +:+ ".block")) as [->|Hne].
  - destruct Hb as [Hb|(c & ck & sc & bs & Hb & Hp)].
    + rewrite Hb in Hn. by eapply Hd.
    + rewrite Hb in Hn. injection Hn as <-. by exists ticket, ck, sc, bs.
  - apply Hd; [|done..]. rewrite <-Hn. symmetry. apply Ho; [|done].
    intros ->. by rewrite pending_is_not_block in He.
Qed.

(** ** Operations of the disk store *)

Lemma remove_pending_same faults name d :
  let d' := (remove_file faults (name +:+ ".pending") d).2 in
  same_others name d d' ∧ d' !! (name +:+ ".block") = d !! (name +:+ ".block").
Proof.
  unfold remove_file. destruct (faults IoRemoveFile) as [[e n]|]; [done|].
  destruct (contains_key _ _); [|done]. simpl. pose proof (block_ne_pending name name). split.
  - intros n Hn _. by rewrite lookup_delete_ne.
  - by rewrite lookup_delete_ne.
Qed.

Lemma same_others_trans name d1 d2 d3 :
  same_others name d1 d2 → same_others name d2 d3 → same_others name d1 d3.
Proof. intros H1 H2 n Hp Hb. rewrite H2 by done. by apply H1. Qed.

(** No listed file is touched when [ticket]'s file does not exist yet. *)
Lemma listed_untouched s d d1 ticket :
  ds_wf s d → d !! (file_name ticket +:+ ".block") = None →
  same_others (file_name ticket) d d1 →
  ∀ t e, ds_blocks s !! t = Some e → d1 !! de_path e = d !! de_path e.
Proof.
  intros Hs Hn Ho t e Ht. destruct (dsw_entry _ _ Hs _ _ Ht) as (Hp & c & _ & _ & Hc & _).
  apply Ho; [rewrite Hp; apply block_ne_pending|]. intros E. rewrite E in Hc. congruence.
Qed.

(** What an insertion does to the store. *)
Definition inserted (ticket : string) (b : StoredBlock) (s s' : DiskBlockStore) (d' : Directory)
    : Prop :=
  ∃ contents, let path := file_name ticket +:+ ".block" in
    ds_blocks s' = <[ticket := MkDiskEntry path (len contents) (bl_checksum b)]> (ds_blocks s) ∧
    d' !! path = Some contents ∧
    persisted ticket (bl_checksum b) (bl_schema b) (bl_batches b) contents.

(** The test for a file of the same name can be trusted: it works, or there is none. *)
Definition collision_seen (faults : Faults) (ticket : string) (d : Directory) : Prop :=
  faults IoExists = None ∨ d !! (file_name ticket +:+ ".block") = None.

Lemma collision_seen_free faults ticket d :
  collision_seen faults ticket d →
  contains_key d (file_name ticket +:+ ".block") && is_ok (attempt faults IoExists) = false →
  d !! (file_name ticket +:+ ".block") = None.
Proof.
  intros [Hx|Hx] Ek; [|done]. unfold attempt in Ek. rewrite Hx in Ek. cbn in Ek. rewrite andb_true_r in Ek.
  by apply contains_key_false.
Qed.

Lemma ds_insert_spec faults ticket b s d r s' d' :
  ds_wf s d → sound_block ticket b → collision_seen faults ticket d →
  ds_insert faults ticket b s d = (r, (s', d')) →
  ds_wf s' d' ∧ no_panic r ∧
  match ds_blocks s !! ticket with
  | Some old => s' = s ∧ d' = d ∧ (r = Ok tt ↔ de_checksum old = bl_checksum b)
  | None => (r = Ok tt ∧ inserted ticket b s s' d') ∨ (∃ e, r = Err e ∧ s' = s)
  end.
Proof.
  intros Hs Hb Hx. unfold ds_insert.
  destruct (ds_blocks s !! ticket) as [old|] eqn:E.
  { intros Hi; injection Hi as <- <- <-.
    split_and!; [done|apply same_checksum_no_panic|done|done|apply same_checksum_ok]. }
  destruct (contains_key d _ && _) eqn:Ek.
  { intros Hi; injection Hi as <- <- <-. split_and!; [done|done|right; eauto]. }
  apply (collision_seen_free _ _ _ Hx) in Ek.
  destruct (disk_write _ _ _ _ _ _) as [w d1] eqn:Ew.
  destruct (disk_write_spec _ _ _ _ _ _ _ Hb Ew) as [Ho Hp].
  pose proof (listed_untouched _ _ _ _ Hs Ek Ho) as Hl.
  destruct w as [bytes|e|]; cbn [is_ok]; [| |done].
  - destruct Hp as (c & Hc & _ & <- & Hfit & Hper). unfold ds_available_bytes, saturating_sub in Hfit.
    pose proof Hs as [C U F D En].
    destruct (N.ltb_spec U64_MAX (ds_used s + len c)); [lia|].
    intros Hi; injection Hi as <- <- <-. split_and!; [|done|left; split; [done|by exists c]].
    assert (dir_wf d1) as Hd1 by (apply (dir_wf_change ticket d); [done..|right; eauto 6]).
    split; simpl; try done; try lia.
    + rewrite map_total_insert_None by done. simpl. lia.
    + intros t e Ht. apply lookup_insert_Some in Ht as [[<- <-]|[Hne Ht]]; simpl; [by eauto 8|].
      rewrite (Hl _ _ Ht). by apply En.
  - destruct (remove_pending_same faults (file_name ticket) d1) as [Ho2 Hb2].
    intros Hi; injection Hi as <- <- <-. split_and!; [|done|right; eauto].
    assert (same_others (file_name ticket) d (remove_file faults (file_name ticket +:+ ".pending") d1).2)
      as Ho3 by (by eapply same_others_trans).
    apply (ds_wf_directory s d); [done| |by eapply listed_untouched].
    apply (dir_wf_change ticket d); [apply Hs|done|]. rewrite Hb2.
    destruct Hp as [Hp|(_ & n & c & Hc & _ & _ & _ & Hper)]; [by left|right; eauto 6].
Qed.

Lemma ds_get_spec ticket s d :
  ds_wf s d →
  match ds_blocks s !! ticket with
  | Some e => ∃ contents schema batches charged, d !! de_path e = Some contents ∧
      persisted ticket (de_checksum e) schema batches contents ∧
      ds_get no_faults ticket s d = Ok (MkStoredBlock schema batches (de_checksum e) charged)
  | None => ds_get no_faults ticket s d = Err missing
  end.
Proof.
  intros Hs. unfold ds_get. destruct (ds_blocks s !! ticket) as [e|] eqn:E; [|done].
  destruct (dsw_entry _ _ Hs _ _ E) as (_ & c & sc & bs & Hc & _ & Hp).
  destruct (read_persisted _ _ _ _ _ _ _ Hc Hp) as [charged Hr].
  exists c, sc, bs, charged. split_and!; [done|done|]. cbn [ok_or mbind result_bind].
  rewrite Hr. cbn [mbind result_bind]. rewrite decide_True by done.
  by rewrite (proj2 (same_checksum_ok _ _)).
Qed.

Lemma ds_remove_spec faults ticket s d r s' d' :
  ds_wf s d → faults IoSyncDirectory = None →
  ds_remove faults ticket s d = (r, (s', d')) →
  ds_wf s' d' ∧ no_panic r ∧
  match r with
  | Ok _ => is_Some (ds_blocks s !! ticket) ∧ ds_blocks s' = delete ticket (ds_blocks s) ∧
      d' = delete (file_name ticket +:+ ".block") d
  | _ => s' = s ∧ d' = d ∧ (ds_blocks s !! ticket = None ∨ faults IoRemoveFile ≠ None)
  end.
Proof.
  intros Hs Hsync. unfold ds_remove. destruct (ds_blocks s !! ticket) as [e|] eqn:E;
    [|intros Hi; injection Hi as <- <- <-; by split_and!; [..|left]].
  destruct (dsw_entry _ _ Hs _ _ E) as (Hpath & c & sc & bs & Hc & Hlen & Hper).
  unfold remove_file, sync_directory, attempt. rewrite Hsync.
  destruct (faults IoRemoveFile) as [[er n]|];
    [intros Hi; injection Hi as <- <- <-; by split_and!; [..|right]|].
  rewrite (proj2 (contains_key_spec d (de_path e))) by by eexists.
  pose proof Hs as [C U F D En]. pose proof (map_total_delete de_bytes _ _ _ E).
  destruct (N.ltb_spec (ds_used s) (de_bytes e)); [lia|].
  intros Hi; injection Hi as <- <- <-.
  split_and!; [|done|by eexists|done|by rewrite Hpath].
  split; simpl; try done; try lia.
  - intros name contents [_ Hn]%lookup_delete_Some. by apply D.
  - intros t e' [Hne Ht]%lookup_delete_Some. rewrite lookup_delete_ne; [by apply En|].
    intros Ep. apply Hne. by eapply (ds_path_inj s d ticket t).
Qed.

(** ** Recovery *)

(** Every published file is listed: what holds unless syncing the directory
    failed after a rename. *)
Definition all_listed (s : DiskBlockStore) (d : Directory) : Prop :=
  ∀ name contents, d !! name = Some contents →
    starts_with "sparkx-" name = true → ends_with ".block" name = true →
    ∃ ticket e, ds_blocks s !! ticket = Some e ∧ de_path e = name.

(** The files [open] deletes. *)
Definition leftover (name : string) : bool :=
  starts_with "sparkx-" name && ends_with ".pending" name.

(** The scan has found the entries of [s] whose files are not in [names]. *)
Record scanned (s : DiskBlockStore) (d : Directory) (names : list string)
    (c : DiskBlockStore) (dc : Directory) : Prop := {
  sc_capacity : ds_capacity c = ds_capacity s;
  sc_used : ds_used c = map_total de_bytes (ds_blocks c);
  sc_found : ∀ t e, ds_blocks c !! t = Some e → ds_blocks s !! t = Some e ∧ de_path e ∉ names;
  sc_rest : ∀ t e, ds_blocks s !! t = Some e → de_path e ∈ names ∨ ds_blocks c !! t = Some e;
  sc_dir : ∀ n, n ∈ names → dc !! n = d !! n;
}.

Lemma scanned_skip s d name names c dc dc' :
  NoDup (name :: names) → (∀ n, n ≠ name → dc' !! n = dc !! n) →
  (∀ t e, ds_blocks s !! t = Some e → de_path e ≠ name) →
  scanned s d (name :: names) c dc → scanned s d names c dc'.
Proof.
  intros [Hn _]%list.NoDup_cons Hd Hne [C U F R D]. split; try done.
  - intros t e [? Hni]%F. split; [done|]. intros ?. apply Hni. by right.
  - intros t e Ht. destruct (R _ _ Ht) as [[E|?]%elem_of_cons|?]; [|by left|by right].
    by destruct (Hne _ _ Ht E).
  - intros n Hin. rewrite Hd by (intros ->; done). apply D. by right.
Qed.

Lemma listed_is_block s d t e :
  ds_wf s d → ds_blocks s !! t = Some e →
  starts_with "sparkx-" (de_path e) = true ∧ ends_with ".pending" (de_path e) = false ∧
  ends_with ".block" (de_path e) = true.
Proof.
  intros Hs Ht. destruct (dsw_entry _ _ Hs _ _ Ht) as (-> & _).
  by rewrite file_name_prefix, block_is_not_pending, ends_with_app.
Qed.

Lemma scan_entry_block s d names c dc t e :
  ds_wf s d → NoDup (de_path e :: names) → scanned s d (de_path e :: names) c dc →
  ds_blocks s !! t = Some e →
  ∃ c', scan_entry no_faults (de_path e) c dc = (Ok c', dc) ∧ scanned s d names c' dc.
Proof.
  intros Hs Hnd Hsc Ht. pose proof Hsc as [C U F R D].
  destruct (dsw_entry _ _ Hs _ _ Ht) as (Hp & cts & sc & bs & Hc & Hl & Hper).
  assert (dc !! de_path e = Some cts) as Hcd by (rewrite D by left; done).
  assert (ds_blocks c !! t = None) as Hnew.
  { destruct (ds_blocks c !! t) as [e'|] eqn:Ec; [|done].
    destruct (F _ _ Ec) as [Ht' Hni]. simplify_eq. destruct Hni. left. }
  assert (<[t := e]> (ds_blocks c) ⊆ ds_blocks s) as Hsub.
  { apply map_subseteq_spec. intros t' e' [[<- <-]|[_ ?]]%lookup_insert_Some; [done|by apply F]. }
  pose proof (map_total_subseteq de_bytes _ _ Hsub) as Hle.
  rewrite map_total_insert_None, <-U in Hle by done.
  destruct (read_persisted _ _ _ _ _ _ _ Hcd Hper) as [charged Hr].
  pose proof Hs as [SC SU SF _ _]. unfold scan_entry.
  destruct (listed_is_block _ _ _ _ Hs Ht) as (-> & -> & ->). cbn [negb].
  cbn [attempt no_faults]. rewrite Hcd. cbn [from_option id]. rewrite Hl.
  unfold ds_available_bytes, saturating_sub. rewrite C.
  destruct (N.ltb_spec (ds_capacity s - ds_used c) (de_bytes e)); [lia|].
  rewrite Hr, (proj2 (contains_key_false _ _) Hnew).
  destruct (N.ltb_spec U64_MAX (ds_used c + de_bytes e)); [lia|].
  eexists. split; [done|]. apply list.NoDup_cons in Hnd as [Hni Hnd].
  replace (MkDiskEntry (de_path e) (de_bytes e) (de_checksum e)) with e by by destruct e.
  split; simpl; try done.
  - rewrite map_total_insert_None by done. lia.
  - intros t' e' [[<- <-]|[_ [? Hx]%F]]%lookup_insert_Some; [done|]. split; [done|].
    intros ?. apply Hx. by right.
  - intros t' e' Ht'. destruct (R _ _ Ht') as [[E|?]%elem_of_cons|Hin]; [|by left|].
    + right. assert (t' = t) as -> by (by eapply ds_path_inj). simplify_eq.
      apply lookup_insert_eq.
    + right. rewrite lookup_insert_ne; congruence.
  - intros n Hn. apply D. by right.
Qed.

Lemma scan_entry_recovers s d name names c dc :
  ds_wf s d → all_listed s d → NoDup (name :: names) → is_Some (d !! name) →
  scanned s d (name :: names) c dc →
  ∃ c1 d1, scan_entry no_faults name c dc = (Ok c1, d1) ∧ scanned s d names c1 d1 ∧
    ∀ n, d1 !! n = if bool_decide (n = name) && leftover n then None else dc !! n.
Proof.
  intros Hs Ha Hnd [cts Hcts] Hsc.
  assert (dc !! name = Some cts) as Hdc by (rewrite (sc_dir _ _ _ _ _ Hsc) by left; done).
  destruct (starts_with "sparkx-" name) eqn:E1, (ends_with ".pending" name) eqn:E2,
    (ends_with ".block" name) eqn:E3.
  3:{ destruct (Ha _ _ Hcts E1 E3) as (t & e & Ht & <-).
      destruct (scan_entry_block s d names c dc t e Hs Hnd Hsc Ht) as (c' & Hx & Hsc').
      exists c', dc. split_and!; [done|done|]. intros n. unfold leftover.
      case_bool_decide; subst; [|done]. by rewrite E2, andb_false_r. }
  1,2: unfold scan_entry; rewrite E1, E2; cbn [negb]; unfold remove_file; cbn [no_faults];
    rewrite (proj2 (contains_key_spec dc name)) by (by eexists);
    exists c, (delete name dc); (split; [done|split]).
  1,3: eapply scanned_skip; [done| | |done]; [intros; by rewrite lookup_delete_ne|];
    intros t e Ht <-; destruct (listed_is_block _ _ _ _ Hs Ht) as (_ & ? & ?); congruence.
  1,2: intros n; unfold leftover; case_bool_decide; subst;
    [by rewrite E1, E2, lookup_delete_eq|by rewrite lookup_delete_ne].
  all: unfold scan_entry; rewrite E1; cbn [negb]; rewrite ?E2, ?E3; cbn [negb];
    exists c, dc; (split; [done|split]).
  all: try (eapply scanned_skip; [done|done| |done]; intros t e Ht <-;
    destruct (listed_is_block _ _ _ _ Hs Ht) as (? & ? & ?); congruence).
  all: intros n; unfold leftover; case_bool_decide; subst; [|done];
    by rewrite ?E1, ?E2, ?andb_false_r.
Qed.

Lemma scan_recovers s d names c dc :
  ds_wf s d → all_listed s d → NoDup names → (∀ n, n ∈ names → is_Some (d !! n)) →
  scanned s d names c dc →
  ∃ c' d', scan_directory (λ _, no_faults) names c dc = (Ok c', d') ∧ scanned s d [] c' d' ∧
    ∀ n, d' !! n = if bool_decide (n ∈ names) && leftover n then None else dc !! n.
Proof.
  intros Hs Ha. revert c dc. induction names as [|name names IH]; intros c dc Hnd Hin Hsc.
  { exists c, dc. split_and!; [done|done|]. intros n.
    by rewrite bool_decide_eq_false_2 by apply not_elem_of_nil. }
  destruct (scan_entry_recovers s d name names c dc) as (c1 & d1 & Hx & Hsc1 & Hd1);
    [done..|apply Hin; by left|done|].
  pose proof Hnd as [Hni Hnd']%list.NoDup_cons.
  destruct (IH c1 d1) as (c' & d' & Hr & Hsc' & Hd'); [done| |done|].
  { intros n Hn. apply Hin. by right. }
  exists c', d'. cbn [scan_directory]. rewrite Hx. split_and!; [done|done|].
  intros n. rewrite Hd', Hd1. destruct (leftover n); rewrite ?andb_true_r, ?andb_false_r; [|done].
  rewrite (bool_decide_ext (n ∈ name :: names) (n = name ∨ n ∈ names)) by apply elem_of_cons.
  destruct (decide (n = name)), (decide (n ∈ names));
    rewrite ?(bool_decide_eq_true_2 (n = name ∨ _)), ?(bool_decide_eq_true_2 (n ∈ names)),
      ?(bool_decide_eq_true_2 (n = name)) by auto; try done;
    rewrite ?(bool_decide_eq_false_2 (n ∈ names)), ?(bool_decide_eq_false_2 (n = name)),
      ?(bool_decide_eq_false_2 (n = name ∨ _)) by naive_solver; done.
Qed.

(** ** The contract of the [BlockStorage] trait *)

Definition content (b : StoredBlock) : Schema * list RecordBatch * string :=
  (bl_schema b, bl_batches b, bl_checksum b).

(** A write-once map from tickets to block contents.  [inv] is the
    implementation's invariant and [view] the map it stands for. *)
Record write_once {S : Type} (inv : S → Prop)
    (view : S → string → option (Schema * list RecordBatch * string))
    (insert : string → StoredBlock → S → result unit * S)
    (get : string → S → result StoredBlock)
    (remove : string → S → result unit * S) : Prop := {
  wo_insert_new : ∀ s t b r s', inv s → sound_block t b → insert t b s = (r, s') →
    view s t = None →
    inv s' ∧ ((r = Ok tt ∧ view s' t = Some (content b) ∧ ∀ t', t' ≠ t → view s' t' = view s t') ∨
              (∃ e, r = Err e ∧ ∀ t', view s' t' = view s t'));
  wo_insert_again : ∀ s t b r s' c, inv s → insert t b s = (r, s') → view s t = Some c →
    s' = s ∧ no_panic r ∧ (r = Ok tt ↔ c.2 = bl_checksum b);
  wo_get : ∀ s t, inv s →
    match view s t with
    | Some c => ∃ b, get t s = Ok b ∧ content b = c
    | None => get t s = Err missing
    end;
  wo_remove : ∀ s t r s', inv s → remove t s = (r, s') →
    inv s' ∧ no_panic r ∧ (r = Ok tt ↔ view s t ≠ None) ∧ view s' t = None ∧
    ∀ t', t' ≠ t → view s' t' = view s t';
}.

Class BlockStorage (S : Type) := {
  bs_inv : S → Prop;
  bs_view : S → string → option (Schema * list RecordBatch * string);
  bs_upload_budget : S → string → N;
  bs_insert : string → StoredBlock → S → result unit * S;
  bs_get : string → S → result StoredBlock;
  bs_remove : string → S → result unit * S;
  bs_contract : write_once bs_inv bs_view bs_insert bs_get bs_remove;
}.

Definition ms_view (s : MemoryBlockStore) (t : string)
    : option (Schema * list RecordBatch * string) := content <$> ms_blocks s !! t.

Lemma ms_contract : write_once ms_wf ms_view ms_insert ms_get ms_remove.
Proof.
  unfold ms_view. split.
  - intros s t b r s' Hs _ Hi Hv. apply fmap_None in Hv.
    destruct (ms_insert_spec _ _ _ _ _ Hs Hi) as (Hs' & _ & Hc). rewrite Hv in Hc.
    split; [done|]. destruct Hc as [(-> & Hb & _)|(-> & -> & _)]; [left|right; eauto].
    rewrite Hb, lookup_insert_eq. split_and!; [done|done|].
    intros t' Hne. by rewrite lookup_insert_ne.
  - intros s t b r s' c Hs Hi (old & Hv & ->)%fmap_Some.
    destruct (ms_insert_spec _ _ _ _ _ Hs Hi) as (_ & Hp & Hc). rewrite Hv in Hc.
    destruct Hc as [-> Hc]. by split_and!.
  - intros s t Hs. unfold ms_get. destruct (ms_blocks s !! t) as [b|]; simpl; eauto.
  - intros s t r s' Hs Hr. destruct (ms_remove_spec _ _ _ _ Hs Hr) as (Hs' & Hp & Hb & Hiff).
    split_and!; try done.
    + rewrite Hiff. destruct (ms_blocks s !! t); simpl; by split.
    + by rewrite Hb, lookup_delete_eq.
    + intros t' Hne. by rewrite Hb, lookup_delete_ne.
Qed.

(** The disk store with its directory, when no file operation fails. *)
Definition disk_inv (sd : DiskBlockStore * Directory) : Prop := ds_wf sd.1 sd.2.
Definition disk_view (sd : DiskBlockStore * Directory) (t : string)
    : option (Schema * list RecordBatch * string) :=
  match ds_get no_faults t sd.1 sd.2 with Ok b => Some (content b) | _ => None end.

Lemma disk_view_listed s d t e contents schema batches :
  ds_wf s d → ds_blocks s !! t = Some e → d !! de_path e = Some contents →
  persisted t (de_checksum e) schema batches contents →
  disk_view (s, d) t = Some (schema, batches, de_checksum e).
Proof.
  intros Hs Ht Hd Hp. unfold disk_view, ds_get; cbn [fst snd]. rewrite Ht.
  cbn [ok_or mbind result_bind].
  destruct (read_persisted _ _ _ _ _ _ _ Hd Hp) as [charged ->]. cbn [mbind result_bind].
  rewrite decide_True by done. by rewrite (proj2 (same_checksum_ok _ _)).
Qed.

Lemma disk_view_None s d t : ds_wf s d → disk_view (s, d) t = None ↔ ds_blocks s !! t = None.
Proof.
  intros Hs. pose proof (ds_get_spec t s d Hs) as Hg. unfold disk_view; cbn [fst snd].
  destruct (ds_blocks s !! t) as [e|]; [|by rewrite Hg].
  destruct Hg as (? & ? & ? & ? & _ & _ & ->). by split.
Qed.

(** What is stored under a ticket depends only on its entry and its file. *)
Lemma disk_view_frame s d s' d' t :
  ds_wf s d → ds_wf s' d' → ds_blocks s' !! t = ds_blocks s !! t →
  (∀ e, ds_blocks s !! t = Some e → d' !! de_path e = d !! de_path e) →
  disk_view (s', d') t = disk_view (s, d) t.
Proof.
  intros Hs Hs' Hb Hd. destruct (ds_blocks s !! t) as [e|] eqn:E.
  - destruct (dsw_entry _ _ Hs _ _ E) as (_ & c & sc & bs & Hc & _ & Hp).
    rewrite (disk_view_listed s d t e c sc bs), (disk_view_listed s' d' t e c sc bs); try done.
    by rewrite Hd.
  - rewrite (proj2 (disk_view_None s d t Hs)), (proj2 (disk_view_None s' d' t Hs')); done.
Qed.

Lemma ds_insert_frame faults ticket b s d r s' d' :
  ds_wf s d → sound_block ticket b → collision_seen faults ticket d →
  ds_insert faults ticket b s d = (r, (s', d')) →
  ∀ t e, ds_blocks s !! t = Some e → d' !! de_path e = d !! de_path e.
Proof.
  intros Hs Hb Hx. unfold ds_insert. destruct (ds_blocks s !! ticket) as [old|] eqn:E.
  { by intros Hi; injection Hi as <- <- <-. }
  destruct (contains_key d _ && _) eqn:Ek; [by intros Hi; injection Hi as <- <- <-|].
  apply (collision_seen_free _ _ _ Hx) in Ek. destruct (disk_write _ _ _ _ _ _) as [w d1] eqn:Ew.
  destruct (disk_write_spec _ _ _ _ _ _ _ Hb Ew) as [Ho Hp].
  destruct (remove_pending_same faults (file_name ticket) d1) as [Ho2 _].
  destruct w as [bytes|e|]; cbn [is_ok].
  - case_match; intros Hi; injection Hi as <- <- <-; by eapply listed_untouched.
  - intros Hi; injection Hi as <- <- <-. eapply listed_untouched; [done..|].
    by eapply same_others_trans.
  - done.
Qed.

Lemma ds_contract :
  write_once disk_inv disk_view
    (λ t b sd, ds_insert no_faults t b sd.1 sd.2)
    (λ t sd, ds_get no_faults t sd.1 sd.2)
    (λ t sd, ds_remove no_faults t sd.1 sd.2).
Proof.
  split.
  - intros [s d] t b r [s' d'] Hs Hb Hi Hv. cbn [fst snd] in Hi.
    change (ds_wf s d) in Hs. apply (disk_view_None s d t Hs) in Hv.
    destruct (ds_insert_spec _ _ _ _ _ _ _ _ Hs Hb (or_introl eq_refl) Hi) as (Hs' & _ & Hc).
    pose proof (ds_insert_frame _ _ _ _ _ _ _ _ Hs Hb (or_introl eq_refl) Hi) as Hf.
    rewrite Hv in Hc. split; [done|].
    destruct Hc as [[-> (c & Hbl & Hc & Hp)]|(e & -> & ->)]; [left|right].
    + split_and!; [done| |].
      * eapply (disk_view_listed s' d' t (MkDiskEntry _ _ _)); [done| |done|done].
        rewrite Hbl. apply lookup_insert_eq.
      * intros t' Hne. apply disk_view_frame; [done|done|by rewrite Hbl, lookup_insert_ne|].
        intros e He. by apply (Hf t').
    + exists e. split; [done|]. intros t'. apply disk_view_frame; [done|done|done|].
      intros e' He. by apply (Hf t').
  - intros [s d] t b r [s' d'] c Hs Hi Hv. cbn [fst snd] in Hi. change (ds_wf s d) in Hs.
    unfold ds_insert in Hi. destruct (ds_blocks s !! t) as [old|] eqn:E.
    + injection Hi as <- <- <-. destruct (dsw_entry _ _ Hs _ _ E) as (_ & k & sc & bs & Hk & _ & Hp).
      rewrite (disk_view_listed _ _ _ _ _ _ _ Hs E Hk Hp) in Hv. injection Hv as <-.
      split_and!; [done|apply same_checksum_no_panic|apply same_checksum_ok].
    + apply (disk_view_None s d t Hs) in E. congruence.
  - intros [s d] t Hs. cbn [fst snd]. pose proof (ds_get_spec t s d Hs) as Hg.
    unfold disk_view; cbn [fst snd]. destruct (ds_blocks s !! t) as [e|]; [|by rewrite Hg].
    destruct Hg as (k & sc & bs & ch & _ & _ & ->). eauto.
  - intros [s d] t r [s' d'] Hs Hi. cbn [fst snd] in Hi. change (ds_wf s d) in Hs.
    destruct (ds_remove_spec _ _ _ _ _ _ _ Hs eq_refl Hi) as (Hs' & Hp & Hc).
    destruct r as [[]|e|w]; [| |done].
    + destruct Hc as ([en He] & Hb & Hd). split_and!; [done|done| | |].
      * rewrite (disk_view_None s d t Hs). split; [congruence|done].
      * apply disk_view_None; [done|]. by rewrite Hb, lookup_delete_eq.
      * intros t' Hne. apply disk_view_frame; [done|done|by rewrite Hb, lookup_delete_ne|].
        intros e' He'. rewrite Hd, lookup_delete_ne; [done|].
        destruct (dsw_entry _ _ Hs _ _ He) as [<- _]. intros E.
        apply Hne. by eapply (ds_path_inj s d).
    + destruct Hc as (-> & -> & [Hn|Hf]); [|done].
      split_and!; [done|done| |by apply disk_view_None|done].
      split; [done|]. intros Hx. destruct Hx. by apply disk_view_None.
Qed.

#[export] Instance memory_storage : BlockStorage MemoryBlockStore := {|
  bs_upload_budget := ms_upload_budget; bs_contract := ms_contract |}.

#[export] Instance disk_storage : BlockStorage (DiskBlockStore * Directory) := {|
  bs_upload_budget sd := ds_upload_budget sd.1; bs_contract := ds_contract |}.

(** ** Guarantees *)

(** [MemoryBlockStore] is a write-once map: a new ticket is stored or
    refused without effect, an existing ticket is accepted exactly when the
    checksum matches and never changed, [get] returns what was stored, [remove]
    removes exactly one ticket; the invariant that goes with it says that the
    used bytes are the sum of the charges and within the capacity. *)
Theorem memory_store_write_once : write_once ms_wf ms_view ms_insert ms_get ms_remove.
Proof. exact ms_contract. Qed.

(** C19: [DiskBlockStore] on its directory is a write-once map as well: a new ticket is
    stored or refused without effect, an existing one is accepted exactly when the
    checksum matches and never changed, [remove] removes exactly one ticket, and [get]
    returns what was stored although it decodes the file again and verifies its header,
    ticket and checksum. *)
Theorem disk_store_write_once :
  write_once disk_inv disk_view
    (λ t b sd, ds_insert no_faults t b sd.1 sd.2)
    (λ t sd, ds_get no_faults t sd.1 sd.2)
    (λ t sd, ds_remove no_faults t sd.1 sd.2).
Proof. exact ds_contract. Qed.

(** C20: an insertion is atomic under failing file operations.  The store must be able
    to trust its test for a file of the same name, that is, the test works or there is
    no such file; the checksum of the block must be that of its batches and its header
    short enough to be read back.  Then, whichever of the other operations (create,
    writes, syncs, rename, the removal of the pending file) fail, the store stays well
    formed, every block stored before is still read back unchanged, an insertion that
    fails changes neither the list of blocks nor the bytes accounted for, and a ticket that
    was not stored is stored with its content or still absent. *)
Theorem disk_insert_atomic faults ticket b s d r s' d' :
  ds_wf s d → sound_block ticket b → collision_seen faults ticket d →
  ds_insert faults ticket b s d = (r, (s', d')) →
  ds_wf s' d' ∧ no_panic r ∧ (r ≠ Ok tt → s' = s) ∧
  (∀ t, ds_blocks s !! t ≠ None → disk_view (s', d') t = disk_view (s, d) t) ∧
  (ds_blocks s !! ticket = None →
     (r = Ok tt ∧ disk_view (s', d') ticket = Some (content b)) ∨
     (∃ e, r = Err e ∧ s' = s ∧ disk_view (s', d') ticket = None)).
Proof.
  intros Hs Hb Hx Hi. destruct (ds_insert_spec _ _ _ _ _ _ _ _ Hs Hb Hx Hi) as (Hs' & Hp & Hc).
  pose proof (ds_insert_frame _ _ _ _ _ _ _ _ Hs Hb Hx Hi) as Hf. split_and!; [done|done| | |].
  - intros Hr. destruct (ds_blocks s !! ticket); [apply Hc|]. by destruct Hc as [[-> _]|(e & _ & ->)].
  - intros t Ht. apply disk_view_frame; [done|done| |intros e He; by apply (Hf t)].
    destruct (ds_blocks s !! ticket) eqn:E; [by destruct Hc as [-> _]|].
    destruct Hc as [[_ (c & -> & _)]|(e & _ & ->)]; [|done].
    rewrite lookup_insert_ne; [done|congruence].
  - intros Hn. rewrite Hn in Hc.
    destruct Hc as [[-> (c & Hbl & Hc & Hper)]|(e & -> & ->)]; [left|right].
    + split; [done|]. eapply (disk_view_listed s' d' ticket (MkDiskEntry _ _ _)); [done| |done|done].
      rewrite Hbl. apply lookup_insert_eq.
    + exists e. split_and!; [done|done|]. by apply disk_view_None.
Qed.

(** C21: reopening the directory after a crash recovers exactly the stored
    blocks, with the same accounting, from any listing order, and deletes the
    unfinished files. *)
Theorem disk_open_recovers s d names :
  ds_wf s d → all_listed s d → NoDup names → (∀ n, n ∈ names ↔ is_Some (d !! n)) →
  ∃ d', DiskBlockStore_open (Ok tt) (λ _, no_faults) names (ds_capacity s) d = (Ok s, d') ∧
    ds_wf s d' ∧ ∀ n, d' !! n = if leftover n then None else d !! n.
Proof.
  intros Hs Ha Hnd Hn. unfold DiskBlockStore_open.
  rewrite (proj2 (validate_capacity_ok _)) by apply Hs.
  destruct (scan_recovers s d names (MkDiskBlockStore (ds_capacity s) 0 ∅) d)
    as (c' & d' & Hx & Hsc & Hd'); [done|done|done|intros n; by apply Hn| |].
  { split; simpl; try done. intros t e Ht. left. apply Hn.
    destruct (dsw_entry _ _ Hs _ _ Ht) as (_ & c & _ & _ & -> & _). by eexists. }
  exists d'. assert (∀ n, d' !! n = if leftover n then None else d !! n) as Hd.
  { intros n. rewrite Hd'. destruct (leftover n); rewrite ?andb_true_r, ?andb_false_r; [|done].
    case_bool_decide as Hin; [done|]. rewrite Hn in Hin. by apply eq_None_not_Some. }
  assert (ds_blocks c' = ds_blocks s) as Hb.
  { apply map_eq. intros t. destruct (ds_blocks s !! t) as [e|] eqn:E.
    - destruct (sc_rest _ _ _ _ _ Hsc _ _ E) as [?%elem_of_nil|?]; done.
    - destruct (ds_blocks c' !! t) as [e|] eqn:E'; [|done].
      destruct (sc_found _ _ _ _ _ Hsc _ _ E'). congruence. }
  assert (c' = s) as ->.
  { pose proof (sc_capacity _ _ _ _ _ Hsc). pose proof (sc_used _ _ _ _ _ Hsc) as Hu.
    rewrite Hb, <-(dsw_used _ _ Hs) in Hu. destruct c', s; simpl in *; congruence. }
  split_and!; [done| |done]. apply (ds_wf_directory s d); [done| |].
  - intros n c Hc. rewrite Hd in Hc. destruct (leftover n); [done|]. by apply Hs.
  - intros t e He. rewrite Hd. unfold leftover.
    destruct (listed_is_block _ _ _ _ Hs He) as (_ & -> & _). by rewrite andb_false_r.
Qed.
End storage.

(** ** A concrete store *)

Fixpoint of_bytes (l : list N) : string :=
  match l with [] => EmptyString | n :: l => String (ascii_of_N n) (of_bytes l) end.

Lemma of_as_bytes s : of_bytes (as_bytes s) = s.
Proof. induction s as [|c s IH]; simpl; [done|]. by rewrite ascii_N_embedding, IH. Qed.

Definition demo_header_to_vec (v : N) (t c : string) : result (list N) :=
  Ok (v :: len (as_bytes t) :: as_bytes t ++ as_bytes c).
Definition demo_header_from_slice (l : list N) : result (N * string * string) :=
  match l with
  | v :: n :: rest =>
      Ok (v, of_bytes (take (N.to_nat n) rest), of_bytes (drop (N.to_nat n) rest))
  | _ => Err (Protocol "truncated header")
  end.
Definition demo_ipc_read (l : list N) : result (N * list N) :=
  match l with s :: bs => Ok (s, bs) | [] => Err (Arrow "empty stream") end.

Lemma demo_header_roundtrip v t c bytes :
  demo_header_to_vec v t c = Ok bytes → demo_header_from_slice bytes = Ok (v, t, c).
Proof.
  intros [= <-]. unfold demo_header_from_slice, len. rewrite Nat2N.id.
  by rewrite take_app_length, drop_app_length, !of_as_bytes.
Qed.

(** Batches are single numbers. *)
#[local] Instance demo_codec : BlockCodec.
Proof.
  refine {| Schema := N; RecordBatch := N; num_rows := λ _, 1%N;
    get_array_memory_size := λ _, 8%N;
    ipc_write := λ s bs, Ok (s :: bs); ipc_read := demo_ipc_read;
    header_to_vec := demo_header_to_vec; header_from_slice := demo_header_from_slice;
    crc32 := λ l, (foldr N.add 0 l mod 2 ^ 32)%N;
    header_roundtrip := demo_header_roundtrip |}; try done.
  - by intros [].
  - by intros [|? []].
  - by intros s bs l [= <-].
Defined.

Definition demo_stored : StoredBlock := MkStoredBlock 7%N [1; 2]%N "crc32:0000000a" 16.
Definition demo_disk : DiskBlockStore := MkDiskBlockStore 1000 0 ∅.

Lemma demo_sound : sound_block "t1" demo_stored.
Proof.
  split.
  - exists 2%N, 16%N. split; [vm_compute; reflexivity|reflexivity].
  - intros header [= <-]. vm_compute. discriminate.
Qed.

Lemma demo_disk_wf : ds_wf demo_disk ∅.
Proof.
  split; cbn [demo_disk ds_capacity ds_used ds_blocks].
  - split; [reflexivity|discriminate].
  - by rewrite map_total_empty.
  - discriminate.
  - intros name c. by rewrite lookup_empty.
  - intros t e. by rewrite lookup_empty.
Qed.

(** The directory sync of an insertion fails. *)
Definition sync_fails : Faults :=
  λ op, match op with IoSyncDirectory => Some (Io "sync failed", 0) | _ => None end.

Lemma disk_insert_atomic_witness :
  ∃ e s' d', ds_insert sync_fails "t1" demo_stored demo_disk ∅ = (Err e, (s', d')) ∧
    ds_wf s' d' ∧ disk_view (s', d') "t1" = None.
Proof.
  destruct (ds_insert sync_fails "t1" demo_stored demo_disk ∅) as [r [s' d']] eqn:Hi.
  pose proof (f_equal fst Hi) as Hr. vm_compute in Hr. subst r.
  destruct (disk_insert_atomic sync_fails "t1" demo_stored demo_disk ∅ _ s' d' demo_disk_wf
    demo_sound (or_introl eq_refl) Hi) as (Hw & _ & _ & _ & Hn).
  eexists _, s', d'. split; [reflexivity|]. split; [exact Hw|].
  destruct (Hn eq_refl) as [[He _]|(e & _ & _ & Hv)]; [discriminate He|exact Hv].
Defined.

(** The store after one insertion. *)
Definition demo_disk_one : DiskBlockStore * Directory :=
  (ds_insert no_faults "t1" demo_stored demo_disk ∅).2.

Lemma demo_disk_one_wf : ds_wf demo_disk_one.1 demo_disk_one.2.
Proof.
  unfold demo_disk_one. destruct (ds_insert _ _ _ _ _) as [r [s' d']] eqn:Hi.
  by apply (ds_insert_spec _ _ _ _ _ _ _ _ demo_disk_wf demo_sound (or_introl eq_refl) Hi).
Qed.

Definition demo_listing : list string := (map_to_list demo_disk_one.2).*1.

Definition demo_path : string := file_name "t1" +:+ ".block".

Lemma demo_disk_one_dir :
  demo_disk_one.2 = {[ demo_path := default [] (demo_disk_one.2 !! demo_path) ]}.
Proof. vm_compute. reflexivity. Qed.

Lemma disk_open_recovers_witness :
  ∃ d', DiskBlockStore_open (Ok tt) (λ _, no_faults) demo_listing 1000 demo_disk_one.2
    = (Ok demo_disk_one.1, d').
Proof.
  destruct (disk_open_recovers demo_disk_one.1 demo_disk_one.2 demo_listing demo_disk_one_wf)
    as (d' & Hx & _).
  - intros name c Hn _ _. rewrite demo_disk_one_dir in Hn.
    apply lookup_singleton_Some in Hn as [<- _].
    exists "t1". eexists. split; vm_compute; reflexivity.
  - apply NoDup_fst_map_to_list.
  - intros n. unfold demo_listing. rewrite list_elem_of_fmap. split.
    + intros ([k v] & -> & Hk%elem_of_map_to_list). by exists v.
    + intros [v Hv]. exists (n, v). split; [done|]. by apply elem_of_map_to_list.
  - exists d'. exact Hx.
Defined.

(** ** Two failures of [sync_directory] that are not undone

    [remove] deletes the file before it syncs the directory.  When the sync
    fails the entry stays listed without its file: the block can no longer be
    read, a second [remove] fails too, and inserting the same block again
    reports success although nothing is stored. *)
Example remove_sync_failure_loses_block :
  let '(_, (s1, d1)) := ds_remove sync_fails "t1" demo_disk_one.1 demo_disk_one.2 in
  let '(again, (s2, d2)) := ds_insert no_faults "t1" demo_stored s1 d1 in
  again = Ok tt ∧ is_ok (ds_get no_faults "t1" s2 d2) = false ∧
  is_ok (ds_remove no_faults "t1" s2 d2).1 = false.
Proof. vm_compute. done. Qed.

(** [Path::exists] answers [false] when it fails.  A block under another ticket with the
    same file name is then overwritten: it stays listed, and can no longer be read. *)
Definition exists_fails : Faults :=
  λ op, match op with IoExists => Some (Io "stat failed", 0) | _ => None end.

Example exists_failure_overwrites_block :
  let '(r, (s1, d1)) := ds_insert exists_fails "1t" demo_stored demo_disk_one.1 demo_disk_one.2 in
  r = Ok tt ∧ is_Some (ds_blocks s1 !! "t1") ∧ is_ok (ds_get no_faults "t1" s1 d1) = false.
Proof. vm_compute. split_and!; [done|by eexists|done]. Qed.

(** [insert] publishes the file before it syncs the directory.  When the sync
    fails the published file stays behind unaccounted: inserting the same block
    again is refused as a name collision. *)
Example insert_sync_failure_blocks_ticket :
  let '(_, (s1, d1)) := ds_insert sync_fails "t1" demo_stored demo_disk ∅ in
  ds_used s1 = 0%N ∧ is_Some (d1 !! demo_path) ∧
  (ds_insert no_faults "t1" demo_stored s1 d1).1
    = Err (Protocol "persistent block filename collision").
Proof. vm_compute. split; [done|]. split; [by eexists|done]. Qed.

(** ** A header that is written and never read

    [insert] writes a header of any length, [read_block] refuses one above 4096 bytes.
    A block with such a ticket is accepted, cannot be read, and keeps the directory
    from being opened again. *)
Definition long_ticket : string := of_bytes (replicate 5000 97%N).

Example long_ticket_blocks_reopen :
  let '(r, (s, d)) := ds_insert no_faults long_ticket demo_stored (MkDiskBlockStore 10000 0 ∅) ∅ in
  let refused := Protocol "invalid persisted block header length" in
  r = Ok tt ∧ ((λ _, tt) <$> ds_get no_faults long_ticket s d) = Err refused ∧
  ((λ _, tt) <$> (DiskBlockStore_open (Ok tt) (λ _, no_faults) (map_to_list d).*1 10000 d).1) = Err refused.
Proof. vm_compute. done. Qed.
