(* ===== verification/Float.v ===== *)
(** * IEEE 754 numbers by their bit patterns

    The [f64] and [f32] operations the engine uses, on bit patterns: order,
    conversions, addition and division.  Arithmetic goes through the reference
    semantics of binary floating point in the Standard Library. *)
From Stdlib Require Import SpecFloat.
From S2P Require Import Prelude.

(** The two formats: [w] exponent bits and [p] stored mantissa bits. *)
Definition sf_of_bits (w p : N) (bits : N) : spec_float :=
  let s := N.testbit bits (w + p) in
  let ex := N.land (N.shiftr bits p) (2 ^ w - 1) in
  let m := N.land bits (2 ^ p - 1) in
  let bias := (2 ^ (w - 1) - 1)%N in
  if (ex =? 2 ^ w - 1)%N then (if (m =? 0)%N then S754_infinity s else S754_nan)
  else if (ex =? 0)%N then
    match m with
    | N0 => S754_zero s
    | Npos m => S754_finite s m (1 - Z.of_N bias - Z.of_N p)
    end
  else match (m + 2 ^ p)%N with
       | N0 => S754_zero s
       | Npos m => S754_finite s m (Z.of_N ex - Z.of_N bias - Z.of_N p)
       end.

Definition bits_of_sf (w p : N) (x : spec_float) : N :=
  let sign s := if s : bool then (2 ^ (w + p))%N else 0%N in
  let top := ((2 ^ w - 1) * 2 ^ p)%N in
  let bias := (2 ^ (w - 1) - 1)%N in
  match x with
  | S754_zero s => sign s
  | S754_infinity s => (sign s + top)%N
  | S754_nan => (top + 2 ^ (p - 1))%N
  | S754_finite s m e =>
      if (Npos m <? 2 ^ p)%N then (sign s + Npos m)%N
      else (sign s + Z.to_N (e + Z.of_N bias + Z.of_N p) * 2 ^ p + (Npos m - 2 ^ p))%N
  end.

Definition f64_sf : N → spec_float := sf_of_bits 11 52.
Definition sf_f64 : spec_float → N := bits_of_sf 11 52.
Definition f32_sf : N → spec_float := sf_of_bits 8 23.
Definition sf_f32 : spec_float → N := bits_of_sf 8 23.

(** [a + b] and [a / b] on [f64] *)
Definition f64_add (a b : N) : N := sf_f64 (SFadd 53 1024 (f64_sf a) (f64_sf b)).
Definition f64_div (a b : N) : N := sf_f64 (SFdiv 53 1024 (f64_sf a) (f64_sf b)).

(** [z as f64], [z as f32] for an integer *)
Definition int_to_f64 (z : Z) : N := sf_f64 (binary_normalize 53 1024 z 0 false).
Definition int_to_f32 (z : Z) : N := sf_f32 (binary_normalize 24 128 z 0 false).

(** Rounding of a finite number to another format. *)
Definition sf_round (prec emax : Z) (x : spec_float) : spec_float :=
  match x with
  | S754_finite s m e => binary_normalize prec emax (cond_Zopp s (Zpos m)) e s
  | _ => x
  end.

(** [x as f32] for an [f64], and [x as f64] for an [f32], which is exact *)
Definition f64_to_f32 (bits : N) : N := sf_f32 (sf_round 24 128 (f64_sf bits)).
Definition f32_to_f64 (bits : N) : N := sf_f64 (sf_round 53 1024 (f32_sf bits)).

(** ** Order: [f64::partial_cmp]

    No order with a NaN, otherwise the order of the sign-magnitude integers, in
    which both zeros are equal. *)
Definition f64_magnitude (bits : N) : N := N.land bits (2 ^ 63 - 1).
Definition f64_is_nan (bits : N) : bool := (0x7ff0000000000000 <? f64_magnitude bits)%N.
Definition f64_signed (bits : N) : Z :=
  if N.testbit bits 63 then (- Z.of_N (f64_magnitude bits))%Z else Z.of_N (f64_magnitude bits).
Definition f64_partial_cmp (a b : N) : option comparison :=
  if f64_is_nan a || f64_is_nan b then None else Some (f64_signed a ?= f64_signed b)%Z.

Example f64_one_plus_half : f64_add 0x3ff0000000000000 0x3fe0000000000000 = 0x3ff8000000000000%N.
Proof. vm_compute. reflexivity. Qed.

Example f64_seven_halves : f64_div (int_to_f64 7) (int_to_f64 2) = 0x400c000000000000%N.
Proof. vm_compute. reflexivity. Qed.

Example f32_round_trip : f32_to_f64 (f64_to_f32 (int_to_f64 (-5))) = int_to_f64 (-5).
Proof. vm_compute. reflexivity. Qed.

(** ** Facts *)

Lemma f64_partial_cmp_flip a b :
  f64_partial_cmp b a = CompOpp <$> f64_partial_cmp a b.
Proof.
  unfold f64_partial_cmp. rewrite orb_comm. destruct (_ || _); [done|]. simpl.
  by rewrite Z.compare_antisym.
Qed.

Lemma f64_partial_cmp_refl a : f64_partial_cmp a a = if f64_is_nan a then None else Some Eq.
Proof.
  unfold f64_partial_cmp. destruct (f64_is_nan a); [done|]. simpl. by rewrite Z.compare_refl.
Qed.
