(* ===== verification/Expr.v ===== *)
(** * Scalar expressions ([src/query/expr.rs])

    Scalar values, expression trees, name resolution, type inference,
    simplification and evaluation.  Arrow's compute kernels are parameters: what
    is fixed here is that they work element by element and propagate nulls, and
    what each does to one element is a parameter. *)
From Stdlib Require Import Ascii.
From S2P Require Import Prelude Text Float.

(** ** Data types and scalar values *)

(** [arrow::datatypes::DataType]: the types the engine names, and the others
    under their rendered name. *)
Inductive DataType :=
| DtNull | DtBoolean | DtInt32 | DtInt64 | DtUInt32 | DtUInt64 | DtFloat32 | DtFloat64 | DtUtf8
| DtOther (name : string).

#[export] Instance DataType_eq_dec : EqDecision DataType.
Proof. solve_decision. Defined.

Definition display_type (t : DataType) : string :=
  match t with
  | DtNull => "Null" | DtBoolean => "Boolean" | DtInt32 => "Int32" | DtInt64 => "Int64"
  | DtUInt32 => "UInt32" | DtUInt64 => "UInt64" | DtFloat32 => "Float32"
  | DtFloat64 => "Float64" | DtUtf8 => "Utf8" | DtOther name => name
  end.

Record Field := MkField { f_name : string; f_type : DataType; f_nullable : bool }.

#[export] Instance Field_eq_dec : EqDecision Field.
Proof. solve_decision. Defined.

Abbreviation Schema := (list Field).

(** An [f64] is its 64-bit pattern. *)
Inductive ScalarValue :=
| Null
| Boolean (b : bool)
| Int64 (z : Z)
| UInt64 (n : N)
| Float64 (bits : N)
| Utf8 (s : string).

(** The hand-written [PartialEq]: floats compare by bit pattern. *)
#[export] Instance ScalarValue_eq_dec : EqDecision ScalarValue.
Proof. solve_decision. Defined.

Definition scalar_type (v : ScalarValue) : DataType :=
  match v with
  | Null => DtNull | Boolean _ => DtBoolean | Int64 _ => DtInt64
  | UInt64 _ => DtUInt64 | Float64 _ => DtFloat64 | Utf8 _ => DtUtf8
  end.

Definition bool_compare (a b : bool) : comparison :=
  match a, b with false, true => Lt | true, false => Gt | _, _ => Eq end.

Definition partial_compare (a b : ScalarValue) : option comparison :=
  match a, b with
  | Null, Null => Some Eq
  | Null, _ => Some Lt
  | _, Null => Some Gt
  | Boolean x, Boolean y => Some (bool_compare x y)
  | Int64 x, Int64 y => Some (x ?= y)%Z
  | UInt64 x, UInt64 y => Some (x ?= y)%N
  | Float64 x, Float64 y => f64_partial_cmp x y
  | Utf8 x, Utf8 y => Some (String.compare x y)
  | _, _ => None
  end.

(** ** Expressions *)

Inductive Operator :=
| OpEq | OpNotEq | OpLt | OpLtEq | OpGt | OpGtEq | OpAnd | OpOr
| OpAdd | OpSubtract | OpMultiply | OpDivide.

#[export] Instance Operator_eq_dec : EqDecision Operator.
Proof. solve_decision. Defined.

Definition display_op (op : Operator) : string :=
  match op with
  | OpEq => "=" | OpNotEq => "!=" | OpLt => "<" | OpLtEq => "<=" | OpGt => ">" | OpGtEq => ">="
  | OpAnd => "AND" | OpOr => "OR" | OpAdd => "+" | OpSubtract => "-" | OpMultiply => "*"
  | OpDivide => "/"
  end.

Definition is_comparison (op : Operator) : bool :=
  match op with OpEq | OpNotEq | OpLt | OpLtEq | OpGt | OpGtEq => true | _ => false end.
Definition is_arithmetic (op : Operator) : bool :=
  match op with OpAdd | OpSubtract | OpMultiply | OpDivide => true | _ => false end.
Definition is_logical (op : Operator) : bool :=
  match op with OpAnd | OpOr => true | _ => false end.

Inductive AggregateFunction := Count | Sum | SumUInt64 | Min | Max | Avg.

#[export] Instance AggregateFunction_eq_dec : EqDecision AggregateFunction.
Proof. solve_decision. Defined.

(** The derived [Debug] text, which [Display] prints. *)
Definition display_function (f : AggregateFunction) : string :=
  match f with
  | Count => "Count" | Sum => "Sum" | SumUInt64 => "SumUInt64" | Min => "Min" | Max => "Max"
  | Avg => "Avg"
  end.

(** [function.to_string().to_uppercase()] *)
Definition uppercase_function (f : AggregateFunction) : string :=
  match f with
  | Count => "COUNT" | Sum => "SUM" | SumUInt64 => "SUMUINT64" | Min => "MIN" | Max => "MAX"
  | Avg => "AVG"
  end.

Inductive Expr :=
| Column (name : string)
| Literal (value : ScalarValue)
| Binary (left : Expr) (op : Operator) (right : Expr)
| IsNull (expr : Expr) (negated : bool)
| Cast (expr : Expr) (data_type : DataType)
| Alias (expr : Expr) (alias : string)
| Aggregate (function : AggregateFunction) (expr : Expr) (distinct : bool)
| Wildcard.

#[export] Instance Expr_eq_dec : EqDecision Expr.
Proof. solve_decision. Defined.

Definition unalias (e : Expr) : Expr := match e with Alias e _ => e | _ => e end.

Definition unqualified (name : string) : string := after_last "." name.

Fixpoint collect_columns (e : Expr) (columns : gset string) : gset string :=
  match e with
  | Column name => {[ unqualified name ]} ∪ columns
  | Binary l _ r => collect_columns r (collect_columns l columns)
  | IsNull e _ | Cast e _ | Alias e _ | Aggregate _ e _ => collect_columns e columns
  | Literal _ | Wildcard => columns
  end.
Definition columns (e : Expr) : gset string := collect_columns e ∅.

Fixpoint contains_aggregate (e : Expr) : bool :=
  match e with
  | Aggregate _ _ _ => true
  | Binary l _ r => contains_aggregate l || contains_aggregate r
  | IsNull e _ | Cast e _ | Alias e _ => contains_aggregate e
  | _ => false
  end.

(** ** Name resolution *)

Definition ambiguous_column (name : string) : SparkXError :=
  Planning ("column '" +:+ name +:+ "' is ambiguous; qualify it with a table name or alias").
Definition missing_column (name : string) : SparkXError :=
  Planning ("column '" +:+ name +:+ "' does not exist").

(** The indices of the fields that satisfy [p]. *)
Definition field_indices (p : Field → bool) (schema : Schema) : list nat :=
  omap (λ x : nat * Field, if p x.2 then Some x.1 else None) (enumerate schema).

Definition resolve_field_index (schema : Schema) (name : string) : result nat :=
  match field_indices (λ f, bool_decide (f_name f = name)) schema with
  | [index] => Ok index
  | _ :: _ :: _ => Err (ambiguous_column name)
  | [] =>
      let qualified := contains_char "." name in
      let schema_is_qualified := existsb (λ f, contains_char "." (f_name f)) schema in
      if qualified && schema_is_qualified then Err (missing_column name)
      else
        let short := unqualified name in
        match field_indices (λ f, bool_decide (unqualified (f_name f) = short)) schema with
        | [index] => Ok index
        | _ :: _ :: _ => Err (ambiguous_column name)
        | [] => Err (missing_column name)
        end
  end.

Definition find_column : Schema → string → result nat := resolve_field_index.

(** [schema.field(i)] panics out of range. *)
Definition find_field (schema : Schema) (name : string) : result Field :=
  index ← resolve_field_index schema name;
  expect (schema !! index) "index out of bounds".

(** ** Type inference *)

Definition is_numeric (t : DataType) : bool :=
  match t with
  | DtInt32 | DtInt64 | DtUInt32 | DtUInt64 | DtFloat32 | DtFloat64 => true
  | _ => false
  end.

Definition is_boolean_or_null (t : DataType) : bool :=
  match t with DtBoolean | DtNull => true | _ => false end.

Definition normalized_numeric_type (t : DataType) : option DataType :=
  match t with
  | DtInt32 | DtInt64 => Some DtInt64
  | DtUInt32 | DtUInt64 => Some DtUInt64
  | DtFloat32 | DtFloat64 => Some DtFloat64
  | _ => None
  end.

Definition common_numeric_type (left right : DataType) : option DataType :=
  if bool_decide (left = DtNull) && is_numeric right then normalized_numeric_type right
  else if bool_decide (right = DtNull) && is_numeric left then normalized_numeric_type left
  else if negb (is_numeric left) || negb (is_numeric right) then None
  else match left, right with
  | DtFloat64, _ | _, DtFloat64 | DtFloat32, _ | _, DtFloat32 => Some DtFloat64
  | (DtInt64 | DtInt32), (DtInt64 | DtInt32) => Some DtInt64
  | (DtUInt64 | DtUInt32), (DtUInt64 | DtUInt32) => Some DtUInt64
  | _, _ => None
  end.

Definition types_text (left right : DataType) : string :=
  display_type left +:+ " and " +:+ display_type right.

Definition binary_type (op : Operator) (left right : DataType) : result DataType :=
  if is_logical op then
    if is_boolean_or_null left && is_boolean_or_null right then Ok DtBoolean
    else Err (Planning (display_op op +:+ " requires Boolean operands, got " +:+
                        types_text left right))
  else if is_comparison op then
    if bool_decide (left = right) || bool_decide (left = DtNull) || bool_decide (right = DtNull)
       || bool_decide (is_Some (common_numeric_type left right))
    then Ok DtBoolean
    else Err (Planning ("cannot compare " +:+ types_text left right))
  else ok_or (common_numeric_type left right)
         (Planning (display_op op +:+ " requires numeric operands, got " +:+
                    types_text left right)).

Definition unreachable {A} : result A := Panic "internal error: entered unreachable code".

Fixpoint data_type (e : Expr) (schema : Schema) : result DataType :=
  match e with
  | Column name => f_type <$> find_field schema name
  | Literal value => Ok (scalar_type value)
  | Binary l op r =>
      left_type ← data_type l schema;
      right_type ← data_type r schema;
      binary_type op left_type right_type
  | IsNull _ _ => Ok DtBoolean
  | Cast _ t => Ok t
  | Aggregate function e _ =>
      match function with
      | Count => Ok DtUInt64
      | SumUInt64 =>
          t ← data_type e schema;
          if decide (t = DtUInt64) then Ok DtUInt64
          else Err (Planning ("internal unsigned sum requires UInt64, got " +:+ display_type t))
      | Sum | Avg =>
          t ← data_type e schema;
          if is_numeric t then Ok DtFloat64
          else Err (Planning (display_function function +:+
                 " requires a numeric argument, got " +:+ display_type t))
      | Min | Max => data_type e schema
      end
  | Wildcard => Err (Planning "wildcard must be expanded before type inference")
  | Alias (Alias _ _) _ => unreachable
  | Alias e _ => data_type e schema
  end.

(** ** Display *)

(** The shortest decimal text of an [f64]. *)
Class FloatDisplay := display_f64 : N → string.

Section display.
Context `{FloatDisplay}.

Definition display_scalar (v : ScalarValue) : string :=
  match v with
  | Null => "NULL"
  | Boolean b => if b then "true" else "false"
  | Int64 z => pretty z
  | UInt64 n => pretty n
  | Float64 bits => display_f64 bits
  | Utf8 s => "'" +:+ s +:+ "'"
  end.

Fixpoint display_expr (e : Expr) : string :=
  match e with
  | Column name => "#" +:+ name
  | Literal value => display_scalar value
  | Binary l op r =>
      "(" +:+ display_expr l +:+ " " +:+ display_op op +:+ " " +:+ display_expr r +:+ ")"
  | IsNull e negated =>
      "(" +:+ display_expr e +:+ " IS " +:+ (if negated then "NOT " else EmptyString) +:+ "NULL)"
  | Cast e t => "CAST(" +:+ display_expr e +:+ " AS " +:+ display_type t +:+ ")"
  | Alias e alias => display_expr e +:+ " AS " +:+ alias
  | Aggregate function e distinct =>
      uppercase_function function +:+ "(" +:+ (if distinct then "DISTINCT " else EmptyString) +:+
      display_expr e +:+ ")"
  | Wildcard => "*"
  end.

Definition name (e : Expr) : string :=
  match e with
  | Column name => unqualified name
  | Literal value => display_scalar value
  | Binary _ _ _ | IsNull _ _ | Cast _ _ => display_expr e
  | Alias _ alias => alias
  | Aggregate function e _ => uppercase_function function +:+ "(" +:+ display_expr e +:+ ")"
  | Wildcard => "*"
  end.

Definition field (e : Expr) (schema : Schema) : result Field :=
  t ← data_type e schema; Ok (MkField (name e) t true).
End display.

(** ** Arrays *)

(** A non-null element: integers of every width, and floats as the bit pattern
    of their format. *)
Inductive cell :=
| BoolCell (b : bool)
| IntCell (z : Z)
| FloatCell (bits : N)
| StrCell (s : string)
| OpaqueCell (repr : string).

Record array := MkArray { a_type : DataType; a_cells : list (option cell) }.

Record RecordBatch := MkRecordBatch {
  b_schema : Schema;
  b_columns : list array;
  b_rows : nat;
}.

Definition null_array (t : DataType) (n : nat) : array := MkArray t (replicate n None).

Definition scalar_cell (v : ScalarValue) : option cell :=
  match v with
  | Null => None
  | Boolean b => Some (BoolCell b)
  | Int64 z => Some (IntCell z)
  | UInt64 n => Some (IntCell (Z.of_N n))
  | Float64 bits => Some (FloatCell bits)
  | Utf8 s => Some (StrCell s)
  end.

Definition scalar_array (v : ScalarValue) (n : nat) : result array :=
  Ok (MkArray (scalar_type v) (replicate n (scalar_cell v))).

Definition value_at (a : array) (row : nat) : result ScalarValue :=
  c ← expect (a_cells a !! row) "index out of bounds";
  match c with
  | None => Ok Null
  | Some c =>
      match a_type a, c with
      | DtNull, _ => Ok Null
      | DtBoolean, BoolCell b => Ok (Boolean b)
      | DtInt32, IntCell z | DtInt64, IntCell z => Ok (Int64 z)
      | DtUInt32, IntCell z | DtUInt64, IntCell z => Ok (UInt64 (Z.to_N z))
      | DtFloat32, FloatCell bits => Ok (Float64 (f32_to_f64 bits))
      | DtFloat64, FloatCell bits => Ok (Float64 bits)
      | DtUtf8, StrCell s => Ok (Utf8 s)
      | DtOther t, _ => Err (Unsupported ("scalar extraction for " +:+ t))
      | _, _ => Panic "called `Option::unwrap()` on a `None` value"
      end
  end.

(** [z as i32] and [n as u32] *)
Definition wrap_i32 (z : Z) : Z := ((z + 2 ^ 31) mod 2 ^ 32 - 2 ^ 31)%Z.
Definition wrap_u32 (n : N) : N := (n mod 2 ^ 32)%N.

(** The element that [scalars_to_array] stores for a value. *)
Definition built_cell (t : DataType) (v : ScalarValue) : option cell :=
  match t, v with
  | DtBoolean, Boolean b => Some (BoolCell b)
  | DtInt32, Int64 z => Some (IntCell (wrap_i32 z))
  | DtInt64, Int64 z => Some (IntCell z)
  | DtUInt32, UInt64 n => Some (IntCell (Z.of_N (wrap_u32 n)))
  | DtUInt64, UInt64 n => Some (IntCell (Z.of_N n))
  | DtFloat32, Float64 bits => Some (FloatCell (f64_to_f32 bits))
  | DtFloat32, Int64 z => Some (FloatCell (int_to_f32 z))
  | DtFloat32, UInt64 n => Some (FloatCell (int_to_f32 (Z.of_N n)))
  | DtFloat64, Float64 bits => Some (FloatCell bits)
  | DtFloat64, Int64 z => Some (FloatCell (int_to_f64 z))
  | DtFloat64, UInt64 n => Some (FloatCell (int_to_f64 (Z.of_N n)))
  | DtUtf8, Utf8 s => Some (StrCell s)
  | _, _ => None
  end.

Definition scalars_to_array (values : list ScalarValue) (t : DataType) : result array :=
  match t with
  | DtNull | DtOther _ => Err (Unsupported ("building output arrays for " +:+ display_type t))
  | _ => Ok (MkArray t (built_cell t <$> values))
  end.

(** ** Kernels *)

(** [arrow::compute]: [cast] is the safe cast, which turns an element it cannot
    convert into a null; comparison and arithmetic kernels take two arrays of
    one type; [and_kleene] and [or_kleene] are three-valued. *)
Class Kernels := {
  cast_supported : DataType → DataType → bool;
  cast_cell : DataType → DataType → cell → option cell;
  cmp_supported : DataType → bool;
  cmp_cell : Operator → DataType → cell → cell → bool;
  arith_supported : DataType → bool;
  arith_cell : Operator → DataType → cell → cell → result cell;
  and_kleene : option bool → option bool → option bool;
  or_kleene : option bool → option bool → option bool;
}.

(** Whether an element belongs to an array of a type. *)
Definition cell_typed (t : DataType) (c : cell) : bool :=
  match t, c with
  | DtBoolean, BoolCell _ => true
  | DtInt32, IntCell z => (- 2 ^ 31 <=? z)%Z && (z <? 2 ^ 31)%Z
  | DtInt64, IntCell z => (- 2 ^ 63 <=? z)%Z && (z <? 2 ^ 63)%Z
  | DtUInt32, IntCell z => (0 <=? z)%Z && (z <? 2 ^ 32)%Z
  | DtUInt64, IntCell z => (0 <=? z)%Z && (z <? 2 ^ 64)%Z
  | DtFloat32, FloatCell bits => (bits <? 2 ^ 32)%N
  | DtFloat64, FloatCell bits => (bits <? 2 ^ 64)%N
  | DtUtf8, StrCell _ => true
  | DtOther _, OpaqueCell _ => true
  | _, _ => false
  end.

Definition cast_array (k : Kernels) (a : array) (t : DataType) : result array :=
  if cast_supported (a_type a) t
  then Ok (MkArray t ((λ c, c ≫= cast_cell (a_type a) t) <$> a_cells a))
  else Err (Arrow "casting between these types is not supported").

(** An element-wise kernel on two arrays; a null operand gives a null. *)
Fixpoint zip_cells (f : cell → cell → result cell) (l r : list (option cell))
    : result (list (option cell)) :=
  match l, r with
  | [], [] => Ok []
  | x :: l, y :: r =>
      z ← (match x, y with
           | Some x, Some y => c ← f x y; Ok (Some c)
           | _, _ => Ok None
           end);
      rest ← zip_cells f l r; Ok (z :: rest)
  | _, _ => Err (Arrow "cannot apply a kernel to arrays of different lengths")
  end.

Definition as_bool (c : option cell) : option bool :=
  match c with Some (BoolCell b) => Some b | _ => None end.

Fixpoint zip_bools (f : option bool → option bool → option bool) (l r : list (option cell))
    : result (list (option cell)) :=
  match l, r with
  | [], [] => Ok []
  | x :: l, y :: r =>
      rest ← zip_bools f l r; Ok ((BoolCell <$> f (as_bool x) (as_bool y)) :: rest)
  | _, _ => Err (Arrow "cannot apply a kernel to arrays of different lengths")
  end.

Definition as_boolean (a : array) : result (list (option cell)) :=
  if decide (a_type a = DtBoolean) then Ok (a_cells a)
  else Err (Execution "boolean expression expected").

(** ** Evaluation *)

Section evaluation.
Context `{K : Kernels}.

(** The last match of the [Binary] branch: the operands have one type. *)
Definition apply_kernel (op : Operator) (l r : array) : result array :=
  if is_logical op then
    x ← as_boolean l;
    y ← as_boolean r;
    cells ← zip_bools (if decide (op = OpAnd) then and_kleene else or_kleene) x y;
    Ok (MkArray DtBoolean cells)
  else if is_comparison op then
    if negb (cmp_supported (a_type l)) then Err (Arrow "comparison is not supported") else
    cells ← zip_cells (λ x y, Ok (BoolCell (cmp_cell op (a_type l) x y))) (a_cells l) (a_cells r);
    Ok (MkArray DtBoolean cells)
  else
    if negb (arith_supported (a_type l)) then Err (Arrow "arithmetic is not supported") else
    cells ← zip_cells (arith_cell op (a_type l)) (a_cells l) (a_cells r);
    Ok (MkArray (a_type l) cells).

(** The type both operands are cast to when they differ. *)
Definition coercion_target (op : Operator) (l r : DataType) : option DataType :=
  if is_arithmetic op then common_numeric_type l r
  else match l, r with
       | DtNull, r => Some r
       | l, DtNull => Some l
       | l, r => common_numeric_type l r
       end.

Definition evaluate_binary (op : Operator) (rows : nat) (l r : array) : result array :=
  if decide (a_type l = DtNull ∧ a_type r = DtNull) then
    if is_arithmetic op
    then Err (Execution "cannot infer the type of arithmetic on NULL values")
    else Ok (null_array DtBoolean rows)
  else if decide (a_type l = a_type r) then apply_kernel op l r
  else
    target ← ok_or (coercion_target op (a_type l) (a_type r))
      (Execution ("cannot apply " +:+ display_op op +:+ " to " +:+
                  types_text (a_type l) (a_type r)));
    l ← cast_array K l target;
    r ← cast_array K r target;
    apply_kernel op l r.

Fixpoint evaluate (e : Expr) (batch : RecordBatch) : result array :=
  match e with
  | Column name =>
      index ← find_column (b_schema batch) name;
      expect (b_columns batch !! index) "index out of bounds"
  | Literal value => scalar_array value (b_rows batch)
  | Binary l op r =>
      x ← evaluate l batch;
      y ← evaluate r batch;
      evaluate_binary op (b_rows batch) x y
  | Cast e t => a ← evaluate e batch; cast_array K a t
  | IsNull e negated =>
      a ← evaluate e batch;
      Ok (MkArray DtBoolean
            ((λ c : option cell, Some (BoolCell (xorb negated (bool_decide (c = None)))))
             <$> a_cells a))
  | Aggregate _ _ _ => Err (Execution "aggregate expression cannot be evaluated row-wise")
  | Wildcard => Err (Execution "wildcard must be expanded before execution")
  | Alias (Alias _ _) _ => unreachable
  | Alias e _ => evaluate e batch
  end.

(** ** Simplification *)

Definition typed_literal (v : ScalarValue) (t : DataType) : Expr :=
  if decide (scalar_type v = t) then Literal v else Cast (Literal v) t.

Fixpoint is_null_expression (e : Expr) : bool :=
  match e with
  | Literal Null => true
  | Cast e _ => is_null_expression e
  | Alias (Literal Null) _ => true
  | Alias (Cast e _) _ => is_null_expression e
  | _ => false
  end.

Definition boolean_literal (e : Expr) : option bool :=
  match unalias e with Literal (Boolean b) => Some b | _ => None end.

(** The batch of one row and no column. *)
Definition unit_batch : RecordBatch := MkRecordBatch [] [] 1.

(** The rules for a binary node that is not constant. *)
Definition simplify_binary (l : Expr) (op : Operator) (r : Expr) (output_type : DataType) : Expr :=
  if (is_comparison op || is_arithmetic op) && (is_null_expression l || is_null_expression r)
  then typed_literal Null output_type
  else match op, boolean_literal l, boolean_literal r with
  | OpAnd, Some true, _ | OpOr, Some false, _ => r
  | OpAnd, _, Some true | OpOr, _, Some false => l
  | OpAnd, Some false, _ | OpAnd, _, Some false => Literal (Boolean false)
  | OpOr, Some true, _ | OpOr, _, Some true => Literal (Boolean true)
  | _, _, _ => Binary l op r
  end.

Definition simplify_node (e : Expr) (schema : Schema) : result Expr :=
  output_type ← data_type e schema;
  if bool_decide (columns e = ∅) && negb (contains_aggregate e) then
    value ← evaluate e unit_batch;
    v ← value_at value 0;
    Ok (typed_literal v (a_type value))
  else match e with
  | Binary l op r => Ok (simplify_binary l op r output_type)
  | _ => Ok e
  end.

Fixpoint simplify (e : Expr) (schema : Schema) : result Expr :=
  match e with
  | Binary l op r =>
      l ← simplify l schema;
      r ← simplify r schema;
      simplify_node (Binary l op r) schema
  | IsNull e negated => e ← simplify e schema; simplify_node (IsNull e negated) schema
  | Cast e t => e ← simplify e schema; simplify_node (Cast e t) schema
  | Alias e alias => e ← simplify e schema; Ok (Alias e alias)
  | Aggregate function e distinct =>
      e ← simplify e schema; Ok (Aggregate function e distinct)
  | Wildcard => Ok Wildcard
  | Column _ | Literal _ => simplify_node e schema
  end.
End evaluation.
