(* ===== verification/ExprProps.v ===== *)
(** * Types and simplification of expressions

    Evaluation produces arrays of the inferred type, and simplification does not
    change what an expression evaluates to: for columns and casts of the engine's own
    scalar types, and beyond them where no arithmetic is on two operands of one narrow
    type ([widened]). *)
From Stdlib Require Import Ascii.
From S2P Require Import Prelude Text Float Expr.

(** The types [ScalarValue] has a constructor for. *)
Definition native (t : DataType) : bool :=
  match t with DtBoolean | DtInt64 | DtUInt64 | DtFloat64 | DtUtf8 => true | _ => false end.

(** The native types and the 32-bit integers, whose values are written as a cast of a
    64-bit literal. *)
Definition castable (t : DataType) : bool :=
  native t || bool_decide (t = DtInt32) || bool_decide (t = DtUInt32).

(** Every cast of the expression is to one of these types. *)
Fixpoint casts_to (ok : DataType → bool) (e : Expr) : bool :=
  match e with
  | Binary l _ r => casts_to ok l && casts_to ok r
  | IsNull e _ | Alias e _ | Aggregate _ e _ => casts_to ok e
  | Cast e t => ok t && casts_to ok e
  | Column _ | Literal _ | Wildcard => true
  end.
Abbreviation native_casts := (casts_to native).

(** No arithmetic on two operands of one type that inference widens but evaluation does
    not: a 32-bit type or one that is not numeric for the engine. *)
Definition widened_operands (op : Operator) (l r : DataType) : bool :=
  negb (is_arithmetic op) || negb (bool_decide (l = r)) || native l || bool_decide (l = DtNull).
Fixpoint widened (schema : Schema) (e : Expr) : bool :=
  match e with
  | Binary l op r =>
      widened schema l && widened schema r &&
      match data_type l schema, data_type r schema with Ok t, Ok t' => widened_operands op t t' | _, _ => true end
  | IsNull e _ | Cast e _ | Alias e _ | Aggregate _ e _ => widened schema e
  | Column _ | Literal _ | Wildcard => true
  end.

Definition native_schema (schema : Schema) : Prop := Forall (λ f, native (f_type f) = true) schema.

(** Values that fit their types. *)
Definition typed_scalar (v : ScalarValue) : bool :=
  match scalar_cell v with Some c => cell_typed (scalar_type v) c | None => true end.
Fixpoint typed_literals (e : Expr) : bool :=
  match e with
  | Literal v => typed_scalar v
  | Binary l _ r => typed_literals l && typed_literals r
  | IsNull e _ | Alias e _ | Aggregate _ e _ | Cast e _ => typed_literals e
  | Column _ | Wildcard => true
  end.

(** Aliases appear at most at the root of the expressions SQL planning builds. *)
Fixpoint no_alias (e : Expr) : bool :=
  match e with
  | Alias _ _ => false
  | Binary l _ r => no_alias l && no_alias r
  | IsNull e _ | Cast e _ | Aggregate _ e _ => no_alias e
  | Column _ | Literal _ | Wildcard => true
  end.

Definition array_ok (rows : nat) (a : array) : Prop :=
  length (a_cells a) = rows ∧
  Forall (λ c : option cell, ∀ x, c = Some x → cell_typed (a_type a) x = true) (a_cells a).

(** A batch that conforms to its schema. *)
Definition conforming (b : RecordBatch) : Prop :=
  Forall2 (λ f a, a_type a = f_type f ∧ array_ok (b_rows b) a) (b_schema b) (b_columns b).

(** A conforming batch with columns of native types. *)
Definition batch_ok (b : RecordBatch) : Prop := native_schema (b_schema b) ∧ conforming b.

Definition no_null_column (schema : Schema) : Prop := Forall (λ f, f_type f ≠ DtNull) schema.

(** What the code relies on in Arrow's kernels. *)
Class KernelLaws (K : Kernels) := {
  law_cast_null t : castable t = true → cast_supported DtNull t = true;
  law_narrow_supported : cast_supported DtInt64 DtInt32 = true ∧ cast_supported DtUInt64 DtUInt32 = true;
  law_narrow_i32 c : cell_typed DtInt32 c = true → cast_cell DtInt64 DtInt32 c = Some c;
  law_narrow_u32 c : cell_typed DtUInt32 c = true → cast_cell DtUInt64 DtUInt32 c = Some c;
  law_cast_same t c : native t = true → cell_typed t c = true → cast_cell t t c = Some c;
  law_cast_typed s t c c' : cast_cell s t c = Some c' → cell_typed t c' = true;
  law_arith_typed op t x y c : arith_cell op t x y = Ok c → cell_typed t c = true;
  law_arith_numeric t : native t = true → arith_supported t = true → is_numeric t = true;
  law_and_true_l x : and_kleene (Some true) x = x;
  law_and_true_r x : and_kleene x (Some true) = x;
  law_and_false_l x : and_kleene (Some false) x = Some false;
  law_and_false_r x : and_kleene x (Some false) = Some false;
  law_or_false_l x : or_kleene (Some false) x = x;
  law_or_false_r x : or_kleene x (Some false) = x;
  law_or_true_l x : or_kleene (Some true) x = Some true;
  law_or_true_r x : or_kleene x (Some true) = Some true;
}.

(** ** Element-wise kernels *)

Lemma zip_cells_ok f l r cells :
  zip_cells f l r = Ok cells →
  length l = length cells ∧ length r = length cells ∧
  ∀ i c, cells !! i = Some c →
    ∃ x y, l !! i = Some x ∧ r !! i = Some y ∧
      match x, y with Some x, Some y => ∃ z, f x y = Ok z ∧ c = Some z | _, _ => c = None end.
Proof.
  revert r cells. induction l as [|x l IH]; intros [|y r] cells; cbn [zip_cells]; try done.
  { intros [= <-]. by split_and!. }
  rewrite bind_ok. intros (z & Hz & Hrest). apply bind_ok in Hrest as (rest & Hr & [= <-]).
  destruct (IH _ _ Hr) as (L1 & L2 & Hc). split_and!; [simpl; lia..|].
  intros [|i] c; simpl; [|by apply Hc]. intros [= <-]. exists x, y. split_and!; try done.
  destruct x as [x|], y as [y|]; try (by injection Hz).
  apply bind_ok in Hz as (w & Hw & [= <-]). eauto.
Qed.

Lemma zip_bools_ok f l r cells :
  zip_bools f l r = Ok cells →
  length l = length cells ∧ length r = length cells ∧
  ∀ i c, cells !! i = Some c →
    ∃ x y, l !! i = Some x ∧ r !! i = Some y ∧ c = BoolCell <$> f (as_bool x) (as_bool y).
Proof.
  revert r cells. induction l as [|x l IH]; intros [|y r] cells; cbn [zip_bools]; try done.
  { intros [= <-]. by split_and!. }
  rewrite bind_ok. intros (rest & Hr & [= <-]).
  destruct (IH _ _ Hr) as (L1 & L2 & Hc). split_and!; [simpl; lia..|].
  intros [|i] c; simpl; [|by apply Hc]. intros [= <-]. by exists x, y.
Qed.

Lemma replicate_of_lookup {A} (l : list A) n x :
  length l = n → (∀ i y, l !! i = Some y → y = x) → l = replicate n x.
Proof.
  intros Hl Hx. apply list_eq_same_length with n; [by rewrite length_replicate|done|].
  intros i y z _ Hy [-> _]%lookup_replicate_1. by apply Hx in Hy.
Qed.

Section properties.
Context `{K : Kernels, !KernelLaws K}.

Lemma cast_array_inv a t a' :
  cast_array K a t = Ok a' →
  a_type a' = t ∧ a_cells a' = (λ c, c ≫= cast_cell (a_type a) t) <$> a_cells a.
Proof. unfold cast_array. case_match; [|done]. by intros [= <-]. Qed.

Lemma cast_array_ok rows a t a' :
  array_ok rows a → cast_array K a t = Ok a' → a_type a' = t ∧ array_ok rows a'.
Proof.
  intros [Hl _] [Ht Hc]%cast_array_inv. split; [done|]. split; [by rewrite Hc, length_fmap|].
  rewrite Hc, Ht. apply Forall_fmap, Forall_forall. intros c _ x Hx. simpl in Hx.
  destruct c as [c|]; [|done]. by eapply law_cast_typed.
Qed.

Lemma apply_kernel_ok op rows l r a :
  array_ok rows l → array_ok rows r → a_type l = a_type r → apply_kernel op l r = Ok a →
  array_ok rows a ∧ a_type a = if is_arithmetic op then a_type l else DtBoolean.
Proof.
  intros [Ll Tl] [Lr Tr] Ht. unfold apply_kernel. destruct (is_logical op) eqn:Elog.
  { rewrite bind_ok. intros (x & Hx & Hy). apply bind_ok in Hy as (y & Hy & Hz).
    apply bind_ok in Hz as (cells & Hz & [= <-]).
    unfold as_boolean in Hx, Hy.
    destruct (decide (a_type l = DtBoolean)); [|done]. injection Hx as <-.
    destruct (decide (a_type r = DtBoolean)); [|done]. injection Hy as <-.
    apply zip_bools_ok in Hz as (H1 & _ & Hc). split; [|by destruct op]. split; simpl; [lia|].
    apply Forall_lookup. intros i c Hi z Hz. apply Hc in Hi as (? & ? & _ & _ & ->).
    apply fmap_Some in Hz as (? & _ & ->). done. }
  destruct (is_comparison op) eqn:Ecmp.
  { destruct (negb _); [done|]. rewrite bind_ok. intros (cells & Hz & [= <-]).
    apply zip_cells_ok in Hz as (H1 & _ & Hc). split; [|by destruct op]. split; simpl; [lia|].
    apply Forall_lookup. intros i c Hi z Hz. apply Hc in Hi as (x & y & _ & _ & Hxy).
    destruct x, y; try congruence. destruct Hxy as (w & [= <-] & ->). by injection Hz as <-. }
  destruct (negb _); [done|]. rewrite bind_ok. intros (cells & Hz & [= <-]).
  apply zip_cells_ok in Hz as (H1 & _ & Hc). split; [|by destruct op]. split; simpl; [lia|].
  apply Forall_lookup. intros i c Hi z Hz. apply Hc in Hi as (x & y & _ & _ & Hxy).
  destruct x, y; try congruence. destruct Hxy as (w & Hw & ->). injection Hz as <-.
  by eapply law_arith_typed.
Qed.

Lemma common_numeric_native l r t : common_numeric_type l r = Some t → native t = true.
Proof. unfold common_numeric_type. repeat case_match; intros; simplify_eq; try done; destruct l, r; simplify_eq/=; done. Qed.

Lemma common_numeric_numeric l r t : common_numeric_type l r = Some t → is_numeric t = true.
Proof. unfold common_numeric_type. repeat case_match; intros; simplify_eq; try done; destruct l, r; simplify_eq/=; done. Qed.

Lemma binary_type_native op l r t : binary_type op l r = Ok t → native t = true.
Proof.
  unfold binary_type. destruct (is_logical op); [case_match; [by intros [= <-]|done]|].
  destruct (is_comparison op); [case_match; [by intros [= <-]|done]|]. rewrite ok_or_ok. apply common_numeric_native.
Qed.

Lemma coercion_target_inv op l r t :
  coercion_target op l r = Some t →
  common_numeric_type l r = Some t ∨ is_arithmetic op = false ∧ (l = DtNull ∧ t = r ∨ r = DtNull ∧ t = l).
Proof.
  unfold coercion_target. destruct (is_arithmetic op); [by left|].
  destruct l, r; intros [= <-]; auto.
Qed.

Lemma evaluate_binary_cells op rows l r a :
  array_ok rows l → array_ok rows r → evaluate_binary op rows l r = Ok a → array_ok rows a.
Proof.
  intros Hl Hr. unfold evaluate_binary. case_decide as Hnn.
  { destruct (is_arithmetic op); [done|]. intros [= <-]. split; simpl; [apply length_replicate|]. apply Forall_replicate. by intros x. }
  case_decide as Heq; [intros Ha; by destruct (apply_kernel_ok _ _ _ _ _ Hl Hr Heq Ha)|].
  rewrite bind_ok. intros (t & _ & Hx). apply bind_ok in Hx as (l' & Hl' & Hx). apply bind_ok in Hx as (r' & Hr' & Ha).
  destruct (cast_array_ok _ _ _ _ Hl Hl') as [Tl Ol]. destruct (cast_array_ok _ _ _ _ Hr Hr') as [Tr Or].
  by destruct (apply_kernel_ok _ _ _ _ _ Ol Or (eq_trans Tl (eq_sym Tr)) Ha).
Qed.

(** A kernel that was applied: its operands are fit for the operator. *)
Lemma apply_kernel_operands op l r a :
  apply_kernel op l r = Ok a →
  if is_logical op then a_type l = DtBoolean ∧ a_type r = DtBoolean ∧ a_type a = DtBoolean
  else if is_comparison op then a_type a = DtBoolean else arith_supported (a_type l) = true ∧ a_type a = a_type l.
Proof.
  unfold apply_kernel, as_boolean. destruct (is_logical op).
  { destruct (decide (a_type l = DtBoolean)); [|done]. destruct (decide (a_type r = DtBoolean)); [|done]. simpl.
    by intros (cells & _ & [= <-])%bind_ok. }
  destruct (is_comparison op); (destruct (negb _) eqn:E; [done|]); intros (cells & _ & [= <-])%bind_ok; [done|].
  split; [by apply negb_false_iff in E|done].
Qed.

(** A binary node's type is the inferred one whenever it evaluates. *)
Lemma evaluate_binary_type op rows l r a :
  widened_operands op (a_type l) (a_type r) = true → evaluate_binary op rows l r = Ok a →
  binary_type op (a_type l) (a_type r) = Ok (a_type a).
Proof.
  assert (is_arithmetic op = negb (is_logical op || is_comparison op)) as Hop by by destruct op.
  unfold widened_operands, evaluate_binary, binary_type. rewrite Hop. intros Hw.
  destruct (decide (a_type l = DtNull ∧ a_type r = DtNull)) as [[-> ->]|Hnn].
  { destruct (is_logical op), (is_comparison op); try done; by intros [= <-]. }
  destruct (decide (a_type l = a_type r)) as [Heq|Heq].
  - intros Ha%apply_kernel_operands. rewrite <-Heq in *. rewrite bool_decide_eq_true_2 in Hw |- * by done.
    destruct (is_logical op); [by destruct Ha as (-> & _ & ->)|]. destruct (is_comparison op); [by rewrite Ha|].
    destruct Ha as [Hs ->]. cbn in Hw. destruct (native (a_type l)) eqn:Hn; cbn in Hw; [|apply bool_decide_eq_true in Hw; by destruct Hnn].
    pose proof (law_arith_numeric _ Hn Hs). by destruct (a_type l).
  - rewrite bind_ok. intros (t & Ht%ok_or_ok & Hx). apply bind_ok in Hx as (l' & [Tl _]%cast_array_inv & Hx).
    apply bind_ok in Hx as (r' & [Tr _]%cast_array_inv & Ha%apply_kernel_operands).
    apply coercion_target_inv in Ht as [Ht|[Har Ht]].
    + destruct (is_logical op).
      { destruct Ha as (E & _). rewrite Tl in E. rewrite E in Ht. discriminate (common_numeric_numeric _ _ _ Ht). }
      destruct (is_comparison op); [|destruct Ha as [_ ->]; by rewrite Ht, Tl].
      rewrite Ht, Ha, (bool_decide_eq_true_2 (is_Some _)) by done. by rewrite !orb_true_r.
    + rewrite Hop in Har. destruct (is_logical op).
      { destruct Ha as (E1 & _ & ->). rewrite Tl in E1. destruct Ht as [[E2 ->]|[E2 ->]]; by rewrite E1, E2. }
      destruct (is_comparison op); [|done]. rewrite Ha.
      destruct Ht as [[E _]|[E _]]; rewrite (bool_decide_eq_true_2 _ E), ?orb_true_r; done.
Qed.

(** The result of a binary node has the type of an operand or a native one. *)
Lemma evaluate_binary_result op rows l r a :
  evaluate_binary op rows l r = Ok a → a_type a ≠ DtNull ∧ (native (a_type a) = true ∨ a_type a = a_type l).
Proof.
  assert (∀ l' r' : array, a_type l' ≠ DtNull → apply_kernel op l' r' = Ok a →
    a_type a ≠ DtNull ∧ (native (a_type a) = true ∨ a_type a = a_type l')) as Hk.
  { intros l' r' Hl Ha%apply_kernel_operands. destruct (is_logical op); [destruct Ha as (_ & _ & ->); auto|].
    destruct (is_comparison op); [rewrite Ha; auto|]. destruct Ha as [_ ->]. auto. }
  unfold evaluate_binary. destruct (decide (a_type l = DtNull ∧ a_type r = DtNull)) as [|Hnn].
  { destruct (is_arithmetic op); [done|]. intros [= <-]. auto. }
  destruct (decide (a_type l = a_type r)) as [Heq|Heq]; [apply Hk; intros E; apply Hnn; by rewrite <-Heq|].
  rewrite bind_ok. intros (t & Ht%ok_or_ok & Hx). apply bind_ok in Hx as (l' & [Tl _]%cast_array_inv & Hx).
  apply bind_ok in Hx as (r' & _ & Ha). apply coercion_target_inv in Ht as [Ht%common_numeric_native|[Har Ht]].
  - destruct (Hk l' r') as [? [?|E]]; [rewrite Tl; by intros ->|done|auto|]. split; [done|]. left. by rewrite E, Tl.
  - apply apply_kernel_operands in Ha. destruct op; try done; cbn in Ha; first [rewrite Ha|destruct Ha as (_ & _ & ->)]; auto.
Qed.

Lemma evaluate_alias e alias b a : evaluate (Alias e alias) b = Ok a → evaluate e b = Ok a.
Proof. by destruct e. Qed.

Lemma data_type_alias e alias b a :
  evaluate (Alias e alias) b = Ok a →
  data_type (Alias e alias) (b_schema b) = data_type e (b_schema b).
Proof. by destruct e. Qed.

Lemma evaluate_column name b a :
  conforming b → evaluate (Column name) b = Ok a →
  ∃ i f, resolve_field_index (b_schema b) name = Ok i ∧ b_schema b !! i = Some f ∧ a_type a = f_type f ∧ array_ok (b_rows b) a.
Proof.
  intros Hb He. cbn [evaluate] in He. apply bind_ok in He as (i & Hi & He).
  destruct (b_columns b !! i) as [a'|] eqn:Ea; [|done]. injection He as ->.
  destruct (Forall2_lookup_r _ _ _ _ _ Hb Ea) as (f & Hf & Ht & Hok). eauto 6.
Qed.

(** One element of the array's type per row. *)
Lemma evaluate_cells e b a :
  conforming b → typed_literals e = true → evaluate e b = Ok a → array_ok (b_rows b) a.
Proof.
  intros Hb. revert a. induction e as [name|v|l IHl op r IHr|e IH negated|e IH t|e IH alias|f e IH d|]; intros a Hv He; simpl in Hv.
  - by destruct (evaluate_column _ _ _ Hb He) as (_ & _ & _ & _ & _ & ?).
  - injection He as <-. split; simpl; [apply length_replicate|]. apply Forall_replicate. intros x Hx.
    unfold typed_scalar in Hv. by rewrite Hx in Hv.
  - apply andb_true_iff in Hv as [Hvl Hvr]. cbn [evaluate] in He. apply bind_ok in He as (x & Hx & He).
    apply bind_ok in He as (y & Hy & He). eapply evaluate_binary_cells; [..|exact He]; eauto.
  - cbn [evaluate] in He. apply bind_ok in He as (x & Hx & [= <-]). destruct (IH _ Hv Hx) as [Ol _].
    split; simpl; [by rewrite length_fmap|]. apply Forall_fmap, Forall_forall. by intros c _ z [= <-].
  - cbn [evaluate] in He. apply bind_ok in He as (x & Hx & He). by destruct (cast_array_ok _ _ _ _ (IH _ Hv Hx) He).
  - apply evaluate_alias in He. by apply IH.
  - done.
  - done.
Qed.

(** The type that is inferred. *)
Lemma evaluate_inferred e b a :
  conforming b → widened (b_schema b) e = true → evaluate e b = Ok a → data_type e (b_schema b) = Ok (a_type a).
Proof.
  intros Hb. revert a. induction e as [name|v|l IHl op r IHr|e IH negated|e IH t|e IH alias|f e IH d|]; intros a Hw He; simpl in Hw.
  - destruct (evaluate_column _ _ _ Hb He) as (i & f & Hi & Hf & -> & _). cbn [data_type]. unfold find_field. rewrite Hi. cbn [mbind result_bind]. by rewrite Hf.
  - by injection He as <-.
  - apply andb_true_iff in Hw as [[Hwl Hwr]%andb_true_iff Hw]. cbn [evaluate] in He. apply bind_ok in He as (x & Hx & He).
    apply bind_ok in He as (y & Hy & He). rewrite (IHl _ Hwl Hx), (IHr _ Hwr Hy) in Hw.
    cbn [data_type]. rewrite (IHl _ Hwl Hx), (IHr _ Hwr Hy). by eapply evaluate_binary_type.
  - cbn [evaluate] in He. by apply bind_ok in He as (x & Hx & [= <-]).
  - cbn [evaluate] in He. by apply bind_ok in He as (x & Hx & [-> _]%cast_array_inv).
  - rewrite (data_type_alias _ _ _ _ He). apply evaluate_alias in He. by apply IH.
  - done.
  - done.
Qed.

(** Native columns and casts leave nothing to widen. *)
Lemma native_widened schema e :
  native_schema schema → native_casts e = true →
  widened schema e = true ∧ ∀ t, data_type e schema = Ok t → native t = true ∨ t = DtNull.
Proof.
  intros Hn. induction e as [name|v|l IHl op r IHr|e IH negated|e IH t|e IH alias|f e IH d|]; intros Hc; simpl in Hc.
  - split; [done|]. cbn [data_type]. unfold find_field. intros t Ht.
    destruct (resolve_field_index schema name) as [i| |]; [|done..]. cbn in Ht. destruct (schema !! i) as [f|] eqn:E; [|done]. injection Ht as <-. left.
    unfold native_schema in Hn. rewrite Forall_forall in Hn. apply Hn, list_elem_of_In. by eapply list_elem_of_lookup_2.
  - split; [done|]. intros t [= <-]. by destruct v; auto.
  - apply andb_true_iff in Hc as [[Wl Tl]%IHl [Wr Tr]%IHr]. split; cbn.
    + rewrite Wl, Wr. cbn. destruct (data_type l schema) as [tl| |]; [|done..]. destruct (data_type r schema) as [tr| |]; [|done..].
      unfold widened_operands. destruct (Tl _ eq_refl) as [->| ->]; [by rewrite orb_true_r|by rewrite orb_true_r].
    + intros t. rewrite bind_ok. intros (tl & _ & Ht). apply bind_ok in Ht as (tr & _ & Ht). left. by eapply binary_type_native.
  - split; [by apply IH|]. intros t [= <-]. by left.
  - apply andb_true_iff in Hc as [Ht Hc]. split; [by apply IH|]. intros t' [= <-]. by left.
  - destruct (IH Hc) as [Hw Ht]. split; [done|]. destruct e; try done; by intros t Hd%Ht.
  - destruct (IH Hc) as [Hw Ht]. split; [done|]. intros t. cbn [data_type].
    destruct f; try (by intros [= <-]; left); try (by apply Ht); intros (t' & _ & Hx)%bind_ok; case_match; simplify_eq; by left.
  - done.
Qed.

Lemma evaluate_ok e b a :
  batch_ok b → native_casts e = true → typed_literals e = true → evaluate e b = Ok a →
  array_ok (b_rows b) a ∧ (native (a_type a) = true ∨ a_type a = DtNull) ∧
  data_type e (b_schema b) = Ok (a_type a).
Proof.
  intros [Hn Hb] Hc Hv He. destruct (native_widened _ _ Hn Hc) as [Hw Ht].
  pose proof (evaluate_inferred _ _ _ Hb Hw He) as Hd. split_and!; [by eapply evaluate_cells|by apply Ht|done].
Qed.

(** ** Constant expressions *)

Fixpoint has_column (e : Expr) : bool :=
  match e with
  | Column _ => true
  | Binary l _ r => has_column l || has_column r
  | IsNull e _ | Cast e _ | Alias e _ | Aggregate _ e _ => has_column e
  | Literal _ | Wildcard => false
  end.

Lemma collect_columns_empty e s :
  collect_columns e s = ∅ ↔ has_column e = false ∧ s = ∅.
Proof.
  revert s. induction e; intros s; simpl; rewrite ?IHe2, ?IHe1, ?IHe, ?orb_false_iff;
    try (intuition set_solver).
Qed.

Lemma columns_empty e : columns e = ∅ ↔ has_column e = false.
Proof. unfold columns. rewrite collect_columns_empty. by intuition. Qed.

Lemma zip_cells_replicate f n x y cells :
  zip_cells f (replicate n x) (replicate n y) = Ok cells →
  ∀ c, zip_cells f [x] [y] = Ok [c] → cells = replicate n c.
Proof.
  intros Hz c Hc. apply zip_cells_ok in Hz as (Hl & _ & Hz). rewrite length_replicate in Hl.
  apply replicate_of_lookup; [done|]. intros i d Hi.
  destruct (Hz _ _ Hi) as (x' & y' & [-> _]%lookup_replicate_1 & [-> _]%lookup_replicate_1 & Hxy).
  apply zip_cells_ok in Hc as (_ & _ & Hc).
  destruct (Hc 0 c eq_refl) as (x' & y' & [= <-] & [= <-] & Hxy').
  destruct x, y; try congruence. destruct Hxy as (z & ? & ->), Hxy' as (z' & ? & ->). congruence.
Qed.

Lemma zip_bools_replicate f n x y :
  zip_bools f (replicate n x) (replicate n y)
  = Ok (replicate n (BoolCell <$> f (as_bool x) (as_bool y))).
Proof. induction n as [|n IH]; [done|]. cbn [replicate zip_bools]. by rewrite IH. Qed.

(** [a] is [n] copies of the single element of [a1]. *)
Definition copies (a1 : array) (n : nat) (a : array) : Prop :=
  a_type a = a_type a1 ∧ ∃ c, a_cells a1 = [c] ∧ a_cells a = replicate n c.

Lemma apply_kernel_copies op n l1 r1 l r a1 a :
  copies l1 n l → copies r1 n r → apply_kernel op l1 r1 = Ok a1 → apply_kernel op l r = Ok a →
  copies a1 n a.
Proof.
  intros (Tl & cl & Cl1 & Cl) (Tr & cr & Cr1 & Cr). unfold apply_kernel, as_boolean.
  rewrite Tl, Tr, Cl1, Cl, Cr1, Cr. destruct (is_logical op).
  { destruct (decide (a_type l1 = DtBoolean)); [|done].
    destruct (decide (a_type r1 = DtBoolean)); [|done]. cbn [mbind result_bind].
    rewrite zip_bools_replicate. cbn [zip_bools mbind result_bind].
    intros [= <-] [= <-]. split; [done|]. eexists. split; done. }
  destruct (is_comparison op).
  - destruct (negb _); [done|]. rewrite !bind_ok. intros (c1 & H1 & [= <-]) (c & Hc & [= <-]).
    pose proof H1 as (L1 & _ & _)%zip_cells_ok. destruct c1 as [|d [|]]; try done.
    split; [done|]. exists d. split; [done|]. by eapply zip_cells_replicate.
  - destruct (negb _); [done|]. rewrite !bind_ok. intros (c1 & H1 & [= <-]) (c & Hc & [= <-]).
    pose proof H1 as (L1 & _ & _)%zip_cells_ok. destruct c1 as [|d [|]]; try done.
    split; [done|]. exists d. split; [done|]. by eapply zip_cells_replicate.
Qed.

Lemma cast_array_copies n t a1 a a1' a' :
  copies a1 n a → cast_array K a1 t = Ok a1' → cast_array K a t = Ok a' → copies a1' n a'.
Proof.
  intros (Ht & c & C1 & C) [T1 E1]%cast_array_inv [T2 E2]%cast_array_inv.
  split; [congruence|]. rewrite C1 in E1. rewrite C, Ht in E2. simpl in E1.
  eexists. split; [exact E1|]. rewrite E2. by rewrite fmap_replicate.
Qed.

Lemma evaluate_binary_copies op n l1 r1 l r a1 a :
  copies l1 n l → copies r1 n r →
  evaluate_binary op 1 l1 r1 = Ok a1 → evaluate_binary op n l r = Ok a → copies a1 n a.
Proof.
  intros Cl Cr. pose proof Cl as [Tl _]. pose proof Cr as [Tr _].
  unfold evaluate_binary. rewrite Tl, Tr.
  destruct (decide (a_type l1 = DtNull ∧ a_type r1 = DtNull)).
  { destruct (is_arithmetic op); [done|]. intros [= <-] [= <-]. split; [done|]. by exists None. }
  destruct (decide (a_type l1 = a_type r1)); [by apply apply_kernel_copies|].
  rewrite !bind_ok. intros (t & Ht & Hx) (t' & Ht' & Hy).
  assert (t' = t) as -> by congruence.
  apply bind_ok in Hx as (l1' & L1 & Hx). apply bind_ok in Hx as (r1' & R1 & Hx).
  apply bind_ok in Hy as (l' & L2 & Hy). apply bind_ok in Hy as (r' & R2 & Hy).
  exact (apply_kernel_copies _ _ _ _ _ _ _ _ (cast_array_copies _ _ _ _ _ _ Cl L1 L2)
    (cast_array_copies _ _ _ _ _ _ Cr R1 R2) Hx Hy).
Qed.

(** A constant evaluates to the same element in every row of every batch. *)
Lemma evaluate_constant e b a1 a :
  has_column e = false → evaluate e unit_batch = Ok a1 → evaluate e b = Ok a →
  copies a1 (b_rows b) a.
Proof.
  revert a1 a. induction e as [name|v|l IHl op r IHr|e IH negated|e IH t|e IH alias|f e IH d|];
    intros a1 a Hc; simpl in Hc; try done.
  - intros [= <-] [= <-]. split; [done|]. by exists (scalar_cell v).
  - apply orb_false_iff in Hc as [Hcl Hcr]. cbn [evaluate]. rewrite !bind_ok.
    intros (x1 & Hx1 & H1) (x & Hx & H2). apply bind_ok in H1 as (y1 & Hy1 & H1).
    apply bind_ok in H2 as (y & Hy & H2).
    eapply evaluate_binary_copies; [..|exact H1|exact H2]; eauto.
  - cbn [evaluate]. rewrite !bind_ok. intros (x1 & Hx1 & [= <-]) (x & Hx & [= <-]).
    destruct (IH _ _ Hc Hx1 Hx) as (_ & c & C1 & C). split; [done|]. simpl. rewrite C1, C. simpl.
    eexists. split; [done|]. by rewrite fmap_replicate.
  - cbn [evaluate]. rewrite !bind_ok. intros (x1 & Hx1 & H1) (x & Hx & H2).
    eapply cast_array_copies; [by eapply IH|done|done].
  - intros H1%evaluate_alias H2%evaluate_alias. by apply IH.
Qed.

(** ** The rules of [simplify_node] *)

Lemma array_eta a t cells : a_type a = t → a_cells a = cells → a = MkArray t cells.
Proof. destruct a. simpl. congruence. Qed.

(** A null literal of any of these types is a column of nulls. *)
Lemma evaluate_typed_null t b :
  castable t = true ∨ t = DtNull →
  evaluate (typed_literal Null t) b = Ok (null_array t (b_rows b)).
Proof.
  intros Ht. unfold typed_literal. case_decide as E; simpl in E; [by subst t|].
  destruct Ht as [Ht|]; [|congruence]. cbn [evaluate scalar_array mbind result_bind scalar_type].
  unfold cast_array. cbn [a_type a_cells]. rewrite law_cast_null by done.
  by rewrite fmap_replicate.
Qed.

(** A value whose literal is narrowed to its type. *)
Lemma evaluate_narrow_literal v t c b :
  scalar_cell v = Some c → scalar_type v ≠ t → cast_supported (scalar_type v) t = true →
  cast_cell (scalar_type v) t c = Some c →
  evaluate (typed_literal v t) b = Ok (MkArray t (replicate (b_rows b) (Some c))).
Proof.
  intros Hv Ht Hs Hc. unfold typed_literal. rewrite decide_False by done. cbn [evaluate]. unfold scalar_array, cast_array.
  cbn [mbind result_bind a_type a_cells]. rewrite Hs, Hv, fmap_replicate. cbn. by rewrite Hc.
Qed.

(** [value_at] and [typed_literal] invert each other. *)
Lemma evaluate_typed_value a1 b v a :
  array_ok 1 a1 → (castable (a_type a1) = true ∨ a_type a1 = DtNull) →
  value_at a1 0 = Ok v → copies a1 (b_rows b) a →
  evaluate (typed_literal v (a_type a1)) b = Ok a ∧
  typed_scalar v = true ∧ (v = Null ∨ scalar_type v = a_type a1 ∨ native (a_type a1) = false).
Proof.
  intros [_ Hty] Hn Hv (Ht & c & C1 & C). unfold value_at in Hv. rewrite C1 in Hv. simpl in Hv.
  rewrite (array_eta a (a_type a1) (replicate (b_rows b) c)) by done.
  destruct c as [c|]; [|injection Hv as <-; by rewrite evaluate_typed_null; auto].
  rewrite C1 in Hty. apply Forall_cons_iff in Hty as [Hty _]. specialize (Hty c eq_refl).
  destruct law_narrow_supported as [S32 SU32]. destruct (native (a_type a1)) eqn:En.
  - assert (scalar_type v = a_type a1 ∧ scalar_cell v = Some c) as [Hst Hsc].
    { destruct (a_type a1), c; simpl in Hty, Hv; try discriminate;
        simplify_eq; (split; [done|]); try done. simpl. apply andb_true_iff in Hty as [Hz _].
      apply Z.leb_le in Hz. by rewrite Z2N.id. }
    split_and!; [|unfold typed_scalar; by rewrite Hsc, Hst|auto].
    unfold typed_literal. rewrite decide_True by done. cbn [evaluate]. unfold scalar_array. by rewrite Hst, Hsc.
  - destruct (a_type a1), c; try discriminate; try (by destruct Hn); simpl in Hv; injection Hv as <-.
    + split_and!; [by apply evaluate_narrow_literal; [..|apply law_narrow_i32]| |auto].
      unfold typed_scalar; simpl in *. lia.
    + simpl in Hty. apply andb_true_iff in Hty as [H0%Z.leb_le H1%Z.ltb_lt].
      assert (scalar_cell (UInt64 (Z.to_N z)) = Some (IntCell z)) as Hc by (simpl; by rewrite Z2N.id).
      split_and!; [apply evaluate_narrow_literal; [done..|]| |auto].
      * apply law_narrow_u32. simpl. lia.
      * unfold typed_scalar. rewrite Hc. simpl. lia.
Qed.

Lemma unit_conforming : conforming unit_batch.
Proof. constructor. Qed.
Lemma unit_batch_ok : batch_ok unit_batch.
Proof. split; constructor. Qed.

(** Types of casts that simplification keeps: all native ones, and some of those it can
    write as a literal. *)
Definition cast_types (ok : DataType → bool) : Prop :=
  (∀ t, native t = true → ok t = true) ∧ (∀ t, ok t = true → castable t = true).

Lemma cast_types_native : cast_types native.
Proof. split; [done|]. unfold castable. by intros t ->. Qed.
Lemma cast_types_castable : cast_types castable.
Proof. split; [|done]. unfold castable. by intros t ->. Qed.

(** The type of a constant. *)
Lemma constant_type ok e b a :
  cast_types ok → has_column e = false → casts_to ok e = true → evaluate e b = Ok a → ok (a_type a) = true ∨ a_type a = DtNull.
Proof.
  intros [Hnat _]. revert a. induction e as [name|v|l IHl op r IHr|e IH negated|e IH t|e IH alias|f e IH d|];
    intros a Hcol Hc He; simpl in Hcol, Hc; try done.
  - injection He as <-. destruct v; simpl; auto.
  - apply orb_false_iff in Hcol as [? ?]. apply andb_true_iff in Hc as [? ?]. cbn [evaluate] in He.
    apply bind_ok in He as (x & Hx & He). apply bind_ok in He as (y & _ & He).
    destruct (evaluate_binary_result _ _ _ _ _ He) as [Hne [Hn| ->]]; auto.
  - cbn [evaluate] in He. apply bind_ok in He as (x & _ & [= <-]). auto.
  - apply andb_true_iff in Hc as [Ht _]. cbn [evaluate] in He. apply bind_ok in He as (x & _ & [-> _]%cast_array_inv). auto.
  - apply evaluate_alias in He. auto.
Qed.

(** Rewriting a node keeps literals and casts in range. *)
Lemma simplify_node_casts ok e schema e' :
  cast_types ok → casts_to ok e = true → typed_literals e = true → simplify_node e schema = Ok e' →
  casts_to ok e' = true ∧ typed_literals e' = true.
Proof.
  intros Hok Hc Hv. unfold simplify_node. rewrite bind_ok. intros (t & Ht & Hx).
  assert (∀ v t, typed_literals (typed_literal v t) = typed_scalar v) as Htl
    by (intros v' t'; unfold typed_literal; by destruct (decide (scalar_type v' = t'))).
  destruct (_ && _) eqn:Econst.
  - apply andb_true_iff in Econst as [Hcol%bool_decide_eq_true_1%columns_empty _].
    apply bind_ok in Hx as (a1 & Ha1 & Hx). apply bind_ok in Hx as (v & Hva & [= <-]).
    pose proof (evaluate_cells _ _ _ unit_conforming Hv Ha1) as Ho. pose proof (constant_type _ _ _ _ Hok Hcol Hc Ha1) as Hty.
    assert (copies a1 1 a1) as Hcp.
    { split; [done|]. destruct Ho as [Hl _]. destruct (a_cells a1) as [|c [|]]; try done. by exists c. }
    destruct (evaluate_typed_value a1 unit_batch v a1 Ho) as (_ & Hts & _); [|done..|].
    { destruct Hty as [Hty|]; [left; by apply Hok|by right]. }
    rewrite Htl. split; [|done]. unfold typed_literal. case_decide as E; [done|]. simpl.
    destruct Hty as [->|Hty]; [done|]. unfold value_at in Hva. rewrite Hty in Hva, E.
    destruct (a_cells a1 !! 0) as [[c|]|]; simplify_eq/=.
  - destruct e as [name|v|l op r|e negated|e dt|e alias|f e d|]; try (by injection Hx as <-).
    injection Hx as <-. simpl in Hc, Hv. apply andb_true_iff in Hc as [Hcl Hcr].
    apply andb_true_iff in Hv as [Hvl Hvr]. clear Econst. unfold simplify_binary.
    destruct (_ && _) eqn:Eb.
    + cbn [data_type] in Ht. apply bind_ok in Ht as (lt & _ & Ht). apply bind_ok in Ht as (rt & _ & Ht%binary_type_native).
      rewrite Htl. split; [|done]. unfold typed_literal. case_decide; [done|]. simpl. rewrite andb_true_r. by apply Hok.
    + repeat case_match; simpl; rewrite ?Hcl, ?Hcr, ?Hvl, ?Hvr; done.
Qed.

Lemma simplify_casts ok e schema e' :
  cast_types ok → casts_to ok e = true → typed_literals e = true → simplify e schema = Ok e' →
  casts_to ok e' = true ∧ typed_literals e' = true.
Proof.
  intros Hok. revert e'. induction e as [name|v|l IHl op r IHr|e IH negated|e IH t|e IH alias|f e IH d|];
    intros e' Hc Hv; cbn [simplify].
  - by apply simplify_node_casts.
  - by apply simplify_node_casts.
  - simpl in Hc, Hv. apply andb_true_iff in Hc as [Hcl Hcr]. apply andb_true_iff in Hv as [Hvl Hvr].
    rewrite bind_ok. intros (l' & Hl & Hx). apply bind_ok in Hx as (r' & Hr & Hx).
    destruct (IHl _ Hcl Hvl Hl), (IHr _ Hcr Hvr Hr).
    eapply simplify_node_casts; [done|..|exact Hx]; simpl; by apply andb_true_iff.
  - rewrite bind_ok. intros (x & Hx & Hn). destruct (IH _ Hc Hv Hx).
    by eapply simplify_node_casts; [..|exact Hn].
  - simpl in Hc. apply andb_true_iff in Hc as [Ht Hc].
    rewrite bind_ok. intros (x & Hx & Hn). destruct (IH _ Hc Hv Hx) as [H1 H2].
    eapply simplify_node_casts; [done|..|exact Hn]; simpl; [by rewrite Ht, H1|done].
  - rewrite bind_ok. intros (x & Hx & [= <-]). exact (IH _ Hc Hv Hx).
  - rewrite bind_ok. intros (x & Hx & [= <-]). exact (IH _ Hc Hv Hx).
  - by intros [= <-].
Qed.

Lemma simplify_native e schema e' :
  native_casts e = true → typed_literals e = true → simplify e schema = Ok e' →
  native_casts e' = true ∧ typed_literals e' = true.
Proof. apply simplify_casts, cast_types_native. Qed.

Lemma evaluate_null_expression e b a :
  is_null_expression e = true → evaluate e b = Ok a → ∀ i c, a_cells a !! i = Some c → c = None.
Proof.
  revert a. induction e as [name|v|l IHl op r IHr|e IH negated|e IH t|e IH alias|f e IH d|];
    intros a Hn He i c Hi; try done.
  - destruct v; try done. injection He as <-. by apply lookup_replicate_1 in Hi as [-> _].
  - cbn [evaluate] in He. apply bind_ok in He as (x & Hx & [_ Hc]%cast_array_inv).
    rewrite Hc, list_lookup_fmap in Hi. apply fmap_Some in Hi as (c' & Hc' & ->).
    by rewrite (IH _ Hn Hx _ _ Hc').
  - apply evaluate_alias in He. apply (IH a) with i; [|done..].
    destruct e as [|[]| | | | | |]; done.
Qed.

(** A comparison or an arithmetic operation with a null operand is null. *)
Lemma apply_kernel_null op rows l r a :
  array_ok rows l → array_ok rows r → a_type l = a_type r →
  is_logical op = false → apply_kernel op l r = Ok a →
  (∀ i c, a_cells l !! i = Some c → c = None) ∨ (∀ i c, a_cells r !! i = Some c → c = None) →
  a_cells a = replicate rows None.
Proof.
  intros Ol Or Ht Hlog Ha Hn. destruct (apply_kernel_ok _ _ _ _ _ Ol Or Ht Ha) as [[Hla _] _].
  apply replicate_of_lookup; [done|]. intros i c Hi. unfold apply_kernel in Ha. rewrite Hlog in Ha.
  assert (∃ f, zip_cells f (a_cells l) (a_cells r) = Ok (a_cells a)) as [f Hf].
  { destruct (is_comparison op); (destruct (negb _); [done|]);
      apply bind_ok in Ha as (cells & Hz & [= <-]); eauto. }
  apply zip_cells_ok in Hf as (_ & _ & Hf). destruct (Hf _ _ Hi) as (x & y & Hx & Hy & Hxy).
  destruct Hn as [Hn|Hn]; [by rewrite (Hn _ _ Hx) in Hxy|].
  rewrite (Hn _ _ Hy) in Hxy. by destruct x.
Qed.

Lemma cast_array_null a t a' :
  cast_array K a t = Ok a' → (∀ i c, a_cells a !! i = Some c → c = None) →
  ∀ i c, a_cells a' !! i = Some c → c = None.
Proof.
  intros [_ Hc]%cast_array_inv Hn i c. rewrite Hc, list_lookup_fmap.
  intros (c' & Hc' & ->)%fmap_Some. by rewrite (Hn _ _ Hc').
Qed.

Lemma evaluate_binary_null op rows l r a :
  array_ok rows l → array_ok rows r → is_logical op = false → evaluate_binary op rows l r = Ok a →
  (∀ i c, a_cells l !! i = Some c → c = None) ∨ (∀ i c, a_cells r !! i = Some c → c = None) →
  a_cells a = replicate rows None.
Proof.
  intros Ol Or Hlog. unfold evaluate_binary. case_decide.
  { case_match; [done|]. by intros [= <-]. }
  case_decide as Heq; [by intros; eapply (apply_kernel_null op rows l r)|].
  rewrite bind_ok. intros (t & _ & Hx) Hn. apply bind_ok in Hx as (l' & Hl & Hx).
  apply bind_ok in Hx as (r' & Hr & Hx).
  destruct (cast_array_ok _ _ _ _ Ol Hl) as [Tl Ol'].
  destruct (cast_array_ok _ _ _ _ Or Hr) as [Tr Or'].
  eapply (apply_kernel_null op rows l' r'); [done|done|congruence|done|done|].
  destruct Hn; [left|right]; by eapply cast_array_null.
Qed.

Lemma cast_array_same rows a t a' :
  array_ok rows a → native t = true → a_type a = t → cast_array K a t = Ok a' →
  a_cells a' = a_cells a.
Proof.
  intros [_ Hty] Hn Ht [_ ->]%cast_array_inv. rewrite Ht in *.
  induction Hty as [|c cells Hc _ IH]; [done|]. rewrite fmap_cons, IH. f_equal.
  destruct c as [c|]; [|done]. simpl. apply law_cast_same; auto.
Qed.

(** Cells without a value. *)
Definition all_null (cells : list (option cell)) : Prop := ∀ i c, cells !! i = Some c → c = None.

Lemma null_typed_cells rows a : array_ok rows a → a_type a = DtNull → all_null (a_cells a).
Proof.
  intros [_ Hty] Ht i c Hc. rewrite Forall_lookup in Hty. destruct c as [c|]; [|done].
  specialize (Hty _ _ Hc c eq_refl). by rewrite Ht in Hty.
Qed.

(** A connective with a Boolean operand: the other one is Boolean or null. *)
Lemma evaluate_connective op rows l r a :
  array_ok rows l → array_ok rows r →
  is_logical op = true → a_type l = DtBoolean ∨ a_type r = DtBoolean →
  evaluate_binary op rows l r = Ok a →
  ∃ xs ys, zip_bools (if decide (op = OpAnd) then and_kleene else or_kleene) xs ys
      = Ok (a_cells a) ∧ a_type a = DtBoolean ∧
    (a_type l = DtBoolean ∧ xs = a_cells l ∨ a_type l = DtNull ∧ all_null xs) ∧
    (a_type r = DtBoolean ∧ ys = a_cells r ∨ a_type r = DtNull ∧ all_null ys).
Proof.
  intros Ol Or Hlog Hb. unfold evaluate_binary.
  rewrite decide_False by (intros []; destruct Hb; congruence).
  assert (∀ l' r' : array, apply_kernel op l' r' = Ok a →
    zip_bools (if decide (op = OpAnd) then and_kleene else or_kleene) (a_cells l') (a_cells r')
      = Ok (a_cells a) ∧ a_type a = DtBoolean) as Hk.
  { intros l' r' Ha. unfold apply_kernel, as_boolean in Ha. rewrite Hlog in Ha.
    destruct (decide (a_type l' = DtBoolean)); [|done].
    destruct (decide (a_type r' = DtBoolean)); [|done]. simpl in Ha.
    by apply bind_ok in Ha as (cells & Hz & [= <-]). }
  destruct (decide (a_type l = a_type r)) as [Heq|Heq].
  { intros [Hz Ht]%Hk. exists (a_cells l), (a_cells r). split_and!; try done; left;
      (split; [|done]); destruct Hb; congruence. }
  rewrite bind_ok. intros (t & Ht%ok_or_ok & Hx). apply bind_ok in Hx as (l' & Hl & Hx).
  apply bind_ok in Hx as (r' & Hr & [Hz Hta]%Hk).
  assert (t = DtBoolean ∧ (a_type l = DtBoolean ∨ a_type l = DtNull) ∧
    (a_type r = DtBoolean ∨ a_type r = DtNull)) as (-> & Tl & Tr).
  { unfold coercion_target in Ht. assert (is_arithmetic op = false) as Ea by by destruct op.
    rewrite Ea in Ht. destruct (a_type l), (a_type r); try (by destruct Hb); vm_compute in Ht; simplify_eq; auto. }
  exists (a_cells l'), (a_cells r'). split_and!; try done.
  - destruct Tl as [E|E]; [left|right]; (split; [done|]).
    + by apply (cast_array_same rows l DtBoolean).
    + exact (cast_array_null _ _ _ Hl (null_typed_cells _ _ Ol E)).
  - destruct Tr as [E|E]; [left|right]; (split; [done|]).
    + by apply (cast_array_same rows r DtBoolean).
    + exact (cast_array_null _ _ _ Hr (null_typed_cells _ _ Or E)).
Qed.

Lemma evaluate_boolean_literal e v b a :
  boolean_literal e = Some v → evaluate e b = Ok a →
  a = MkArray DtBoolean (replicate (b_rows b) (Some (BoolCell v))) ∧ has_column e = false ∧
  contains_aggregate e = false.
Proof.
  intros Hb He. unfold boolean_literal, unalias in Hb.
  destruct e as [name|[]|l op r|e negated|e t|e alias|f e d|]; simplify_eq.
  - by injection He as <-.
  - destruct e as [|[]| | | | | |]; simplify_eq. by injection He as <-.
Qed.

(** Only the null literal has the null type. *)
Lemma evaluate_null_type e b a :
  conforming b → no_null_column (b_schema b) → casts_to castable e = true → evaluate e b = Ok a →
  a_type a = DtNull → has_column e = false ∧ contains_aggregate e = false.
Proof.
  intros Hb Hn. revert a. induction e as [name|v|l IHl op r IHr|e IH negated|e IH t|e IH alias|f e IH d|];
    intros a Hc He Ht; try done.
  - destruct (evaluate_column _ _ _ Hb He) as (i & f & _ & Hf & E & _). rewrite E in Ht.
    unfold no_null_column in Hn. rewrite Forall_lookup in Hn. by destruct (Hn _ _ Hf).
  - cbn [evaluate] in He. apply bind_ok in He as (x & _ & He). apply bind_ok in He as (y & _ & He).
    by destruct (evaluate_binary_result _ _ _ _ _ He).
  - cbn [evaluate] in He. by apply bind_ok in He as (x & Hx & [= <-]).
  - cbn [evaluate] in He. apply bind_ok in He as (x & Hx & [E _]%cast_array_inv).
    simpl in Hc. by rewrite <-E, Ht in Hc.
  - apply evaluate_alias in He. by eapply IH.
Qed.

Lemma casts_weaken (ok ok' : DataType → bool) e :
  (∀ t, ok t = true → ok' t = true) → casts_to ok e = true → casts_to ok' e = true.
Proof. intros Hok. induction e; simpl; rewrite ?andb_true_iff; naive_solver. Qed.

Lemma native_castable e : native_casts e = true → casts_to castable e = true.
Proof. apply casts_weaken, cast_types_native. Qed.

Lemma batch_ok_no_null b : batch_ok b → no_null_column (b_schema b).
Proof. intros [Hn _]. eapply list.Forall_impl; [exact Hn|]. cbn. intros f Hf E. by rewrite E in Hf. Qed.

(** A constant operand that is neutral or absorbing. *)
Lemma zip_bools_neutral f (side : bool) v n xs ls rs cells :
  (∀ y, (if side then f (Some v) y else f y (Some v)) = y) →
  (ls, rs) = (if side then (replicate n (Some (BoolCell v)), xs)
              else (xs, replicate n (Some (BoolCell v)))) →
  Forall (λ c : option cell, ∀ x, c = Some x → cell_typed DtBoolean x = true) xs →
  zip_bools f ls rs = Ok cells → cells = xs.
Proof.
  intros Hf Heq Hty Hz. apply zip_bools_ok in Hz as (L1 & L2 & Hz).
  apply list_eq_same_length with (length cells);
    [by destruct side; injection Heq as -> ->|done|].
  intros i c c' _ Hc Hc'. destruct (Hz _ _ Hc) as (x & y & Hx & Hy & ->).
  assert (∀ d : option cell, xs !! i = Some d → BoolCell <$> as_bool d = d) as Hback.
  { intros d Hd. rewrite Forall_lookup in Hty. specialize (Hty _ _ Hd).
    destruct d as [d|]; [|done]. specialize (Hty d eq_refl). by destruct d. }
  destruct side; injection Heq as -> ->.
  - apply lookup_replicate_1 in Hx as [-> _]. simpl. rewrite Hf. simplify_eq. by apply Hback.
  - apply lookup_replicate_1 in Hy as [-> _]. simpl. rewrite Hf. simplify_eq. by apply Hback.
Qed.

Lemma zip_bools_absorbing f (side : bool) v w n xs ls rs cells :
  (∀ y, (if side then f (Some v) y else f y (Some v)) = Some w) →
  (ls, rs) = (if side then (replicate n (Some (BoolCell v)), xs)
              else (xs, replicate n (Some (BoolCell v)))) →
  zip_bools f ls rs = Ok cells → cells = replicate n (Some (BoolCell w)).
Proof.
  intros Hf Heq Hz. apply zip_bools_ok in Hz as (L1 & L2 & Hz).
  apply replicate_of_lookup.
  { destruct side; injection Heq as -> ->; by rewrite length_replicate in *. }
  intros i c Hc. destruct (Hz _ _ Hc) as (x & y & Hx & Hy & ->).
  destruct side; injection Heq as -> ->.
  - apply lookup_replicate_1 in Hx as [-> _]. simpl. by rewrite Hf.
  - apply lookup_replicate_1 in Hy as [-> _]. simpl. by rewrite Hf.
Qed.

Section node.
Context (b : RecordBatch) (l r : Expr) (op : Operator) (x y a : array).
Hypothesis Hb : conforming b.
Hypothesis Hcols : no_null_column (b_schema b).
Hypothesis Hcl : casts_to castable l = true.
Hypothesis Hcr : casts_to castable r = true.
Hypothesis Hvl : typed_literals l = true.
Hypothesis Hvr : typed_literals r = true.
Hypothesis Hx : evaluate l b = Ok x.
Hypothesis Hy : evaluate r b = Ok y.
Hypothesis Hw : widened_operands op (a_type x) (a_type y) = true.
Hypothesis Ha : evaluate_binary op (b_rows b) x y = Ok a.

Let kleene := if decide (op = OpAnd) then and_kleene else or_kleene.

Lemma connective_cells :
  is_logical op = true → a_type x = DtBoolean ∨ a_type y = DtBoolean →
  ∃ xs ys, zip_bools kleene xs ys = Ok (a_cells a) ∧ a_type a = DtBoolean ∧
    (a_type x = DtBoolean ∧ xs = a_cells x ∨ a_type x = DtNull ∧ all_null xs) ∧
    (a_type y = DtBoolean ∧ ys = a_cells y ∨ a_type y = DtNull ∧ all_null ys).
Proof.
  intros Hlog Hor. pose proof (evaluate_cells _ _ _ Hb Hvl Hx). pose proof (evaluate_cells _ _ _ Hb Hvr Hy).
  by eapply evaluate_connective.
Qed.

(** A literal that is neutral for the connective leaves the other operand. *)
Lemma neutral_left v :
  is_logical op = true → boolean_literal l = Some v → (∀ z, kleene (Some v) z = z) →
  has_column r = true ∨ contains_aggregate r = true → a = y.
Proof.
  intros Hlog Hl Hk Hr. destruct (evaluate_boolean_literal _ _ _ _ Hl Hx) as (Ex & _).
  destruct connective_cells as (xs & ys & Hz & Ht & Cx & Cy); [done|left; by rewrite Ex|].
  rewrite Ex in Cx. destruct Cx as [[_ ->]|[? _]]; [|done]. destruct Cy as [[Ty ->]|[Ty _]].
  - destruct (evaluate_cells _ _ _ Hb Hvr Hy) as [_ Hty]. rewrite Ty in Hty.
    rewrite (array_eta a DtBoolean (a_cells y)), (array_eta y DtBoolean (a_cells y)); try done.
    by eapply (zip_bools_neutral kleene true v (b_rows b) (a_cells y)).
  - destruct (evaluate_null_type _ _ _ Hb Hcols Hcr Hy Ty). destruct Hr; congruence.
Qed.

Lemma neutral_right v :
  is_logical op = true → boolean_literal r = Some v → (∀ z, kleene z (Some v) = z) →
  has_column l = true ∨ contains_aggregate l = true → a = x.
Proof.
  intros Hlog Hl Hk Hr. destruct (evaluate_boolean_literal _ _ _ _ Hl Hy) as (Ey & _).
  destruct connective_cells as (xs & ys & Hz & Ht & Cx & Cy); [done|right; by rewrite Ey|].
  rewrite Ey in Cy. destruct Cy as [[_ ->]|[? _]]; [|done]. destruct Cx as [[Tx ->]|[Tx _]].
  - destruct (evaluate_cells _ _ _ Hb Hvl Hx) as [_ Hty]. rewrite Tx in Hty.
    rewrite (array_eta a DtBoolean (a_cells x)), (array_eta x DtBoolean (a_cells x)); try done.
    by eapply (zip_bools_neutral kleene false v (b_rows b) (a_cells x)).
  - destruct (evaluate_null_type _ _ _ Hb Hcols Hcl Hx Tx). destruct Hr; congruence.
Qed.

(** A literal that absorbs the connective decides it. *)
Lemma absorbing v w :
  is_logical op = true →
  (boolean_literal l = Some v ∧ (∀ z, kleene (Some v) z = Some w)) ∨
  (boolean_literal r = Some v ∧ (∀ z, kleene z (Some v) = Some w)) →
  evaluate (Literal (Boolean w)) b = Ok a.
Proof.
  intros Hlog Hlr. cut (a = MkArray DtBoolean (replicate (b_rows b) (Some (BoolCell w)))).
  { by intros ->. }
  destruct Hlr as [[Hl Hk]|[Hr Hk]].
  - destruct (evaluate_boolean_literal _ _ _ _ Hl Hx) as (Ex & _).
    destruct connective_cells as (xs & ys & Hz & Ht & Cx & _); [done|left; by rewrite Ex|].
    rewrite Ex in Cx. destruct Cx as [[_ ->]|[? _]]; [|done]. apply array_eta; [done|].
    by eapply (zip_bools_absorbing kleene true v w (b_rows b) ys).
  - destruct (evaluate_boolean_literal _ _ _ _ Hr Hy) as (Ey & _).
    destruct connective_cells as (xs & ys & Hz & Ht & _ & Cy); [done|right; by rewrite Ey|].
    rewrite Ey in Cy. destruct Cy as [[_ ->]|[? _]]; [|done]. apply array_eta; [done|].
    by eapply (zip_bools_absorbing kleene false v w (b_rows b) xs).
Qed.

Lemma null_operand :
  is_comparison op || is_arithmetic op = true → is_null_expression l || is_null_expression r = true →
  evaluate (typed_literal Null (a_type a)) b = Ok a.
Proof.
  intros Hop Hn. pose proof (evaluate_cells _ _ _ Hb Hvl Hx). pose proof (evaluate_cells _ _ _ Hb Hvr Hy).
  pose proof (binary_type_native _ _ _ _ (evaluate_binary_type _ _ _ _ _ Hw Ha)) as Na.
  rewrite evaluate_typed_null by (left; by apply cast_types_native). f_equal. symmetry. apply array_eta; [done|].
  eapply (evaluate_binary_null op (b_rows b) x y); [done|done|by destruct op|done|].
  apply orb_true_iff in Hn as [Hn|Hn]; [left|right]; by eapply evaluate_null_expression.
Qed.

End node.

(** The rules for a binary node keep its value. *)
Lemma simplify_binary_sound b l r op x y a :
  conforming b → no_null_column (b_schema b) → casts_to castable l = true → casts_to castable r = true →
  typed_literals l = true → typed_literals r = true →
  evaluate l b = Ok x → evaluate r b = Ok y → widened_operands op (a_type x) (a_type y) = true →
  evaluate_binary op (b_rows b) x y = Ok a →
  has_column l || has_column r = true ∨ contains_aggregate l || contains_aggregate r = true →
  evaluate (simplify_binary l op r (a_type a)) b = Ok a.
Proof.
  intros Hb Hcols Hcl Hcr Hvl Hvr Hx Hy Hw Ha Hnc. unfold simplify_binary. destruct (_ && _) eqn:Eb.
  { apply andb_true_iff in Eb as [? ?]. by apply (null_operand b l r op x y a). }
  assert (evaluate (Binary l op r) b = Ok a) as Hself by (cbn [evaluate]; by rewrite Hx, Hy).
  assert (∀ v, boolean_literal l = Some v → has_column r = true ∨ contains_aggregate r = true) as HL.
  { intros v Hl. destruct (evaluate_boolean_literal _ _ _ _ Hl Hx) as (_ & E1 & E2).
    rewrite E1, E2 in Hnc. tauto. }
  assert (∀ v, boolean_literal r = Some v → has_column l = true ∨ contains_aggregate l = true) as HR.
  { intros v Hr. destruct (evaluate_boolean_literal _ _ _ _ Hr Hy) as (_ & E1 & E2).
    rewrite E1, E2, !orb_false_r in Hnc. tauto. }
  pose proof (neutral_left b l r op x y a Hb Hcols Hcr Hvl Hvr Hx Hy Ha) as NL.
  pose proof (neutral_right b l r op x y a Hb Hcols Hcl Hvl Hvr Hx Hy Ha) as NR.
  pose proof (absorbing b l r op x y a Hb Hvl Hvr Hx Hy Ha) as AB.
  destruct op; try done; simpl in NL, NR, AB;
    destruct (boolean_literal l) as [[]|] eqn:El, (boolean_literal r) as [[]|] eqn:Er; try done.
  all: first
    [ by rewrite (NL _ eq_refl eq_refl); eauto using law_and_true_l, law_or_false_l
    | by rewrite (NR _ eq_refl eq_refl); eauto using law_and_true_r, law_or_false_r
    | by eapply AB; [done|left; split; [done|]; eauto using law_and_false_l, law_or_true_l]
    | by eapply AB; [done|right; split; [done|]; eauto using law_and_false_r, law_or_true_r] ].
Qed.

(** A rewritten node has no arithmetic that the node has not. *)
Lemma simplify_node_widened schema e e' :
  widened schema e = true → simplify_node e schema = Ok e' → widened schema e' = true.
Proof.
  intros Hw Hs. unfold simplify_node in Hs. apply bind_ok in Hs as (t & _ & Hs).
  assert (∀ v t, widened schema (typed_literal v t) = true) as Hl
    by (intros v' t'; unfold typed_literal; by destruct (decide (scalar_type v' = t'))).
  destruct (_ && _); [by apply bind_ok in Hs as (? & _ & (? & _ & [= <-])%bind_ok)|].
  destruct e as [| |l op r| | | | |]; injection Hs as <-; try done. pose proof Hw as Hlr. simpl in Hlr.
  apply andb_true_iff in Hlr as [[? ?]%andb_true_iff _]. unfold simplify_binary. destruct (_ && _); [apply Hl|]. by repeat case_match.
Qed.

(** Rewriting one node keeps its value. *)
Lemma simplify_node_sound e b e' a :
  conforming b → no_null_column (b_schema b) → casts_to castable e = true → typed_literals e = true →
  widened (b_schema b) e = true → simplify_node e (b_schema b) = Ok e' → evaluate e b = Ok a → evaluate e' b = Ok a.
Proof.
  intros Hb Hcols Hc Hv Hw Hs He. unfold simplify_node in Hs. apply bind_ok in Hs as (t & Ht & Hs).
  destruct (bool_decide (columns e = ∅) && negb (contains_aggregate e)) eqn:Econst.
  - apply andb_true_iff in Econst as [Hcol%bool_decide_eq_true_1%columns_empty _].
    apply bind_ok in Hs as (a1 & Ha1 & Hs). apply bind_ok in Hs as (v & Hva & [= <-]).
    pose proof (evaluate_cells _ _ _ unit_conforming Hv Ha1) as O1. pose proof (constant_type _ _ _ _ cast_types_castable Hcol Hc Ha1) as N1.
    by apply (evaluate_typed_value a1 b v a); [..|eapply evaluate_constant].
  - destruct e as [| |l op r| | | | |]; try (by injection Hs as <-). pose proof (evaluate_inferred _ _ _ Hb Hw He) as Ht'.
    rewrite Ht in Ht'. injection Ht' as ->. injection Hs as <-.
    cbn [evaluate] in He. apply bind_ok in He as (x & Hx & He). apply bind_ok in He as (y & Hy & He).
    simpl in Hc, Hv, Hw. apply andb_true_iff in Hc as [? ?]. apply andb_true_iff in Hv as [? ?].
    apply andb_true_iff in Hw as [[Hwl Hwr]%andb_true_iff Hw].
    rewrite (evaluate_inferred _ _ _ Hb Hwl Hx), (evaluate_inferred _ _ _ Hb Hwr Hy) in Hw.
    eapply (simplify_binary_sound b _ _ _ x y a); try done.
    apply andb_false_iff in Econst as [Hcol|Hagg]; [left|right].
    + apply bool_decide_eq_false in Hcol. rewrite columns_empty in Hcol. simpl in Hcol.
      by apply not_false_iff_true.
    + by apply negb_false_iff in Hagg.
Qed.

(** Simplification keeps every property of trees that literals have and that
    holds of a node when it holds of its operands: it introduces no alias and no
    aggregate. *)
Section structural.
Context (P : Expr → bool).
Hypothesis P_literal : ∀ v, P (Literal v) = true.
Hypothesis P_binary : ∀ l op r, P (Binary l op r) = P l && P r.
Hypothesis P_is_null : ∀ e negated, P (IsNull e negated) = P e.
Hypothesis P_cast : ∀ e t, P (Cast e t) = P e.
Hypothesis P_alias : (∀ e alias, P (Alias e alias) = P e) ∨ (∀ e alias, P (Alias e alias) = false).
Hypothesis P_aggregate :
  (∀ f e d, P (Aggregate f e d) = P e) ∨ (∀ f e d, P (Aggregate f e d) = false).

Lemma typed_literal_structural v t : P (typed_literal v t) = true.
Proof. unfold typed_literal. destruct (decide _); by rewrite ?P_cast, P_literal. Qed.

Lemma simplify_node_structural e schema e' :
  P e = true → simplify_node e schema = Ok e' → P e' = true.
Proof.
  intros Hn Hs. unfold simplify_node in Hs. apply bind_ok in Hs as (t & Ht & Hs).
  destruct (_ && _).
  { apply bind_ok in Hs as (a1 & _ & Hs). apply bind_ok in Hs as (v & _ & [= <-]).
    apply typed_literal_structural. }
  destruct e as [| |l op r| | | | |]; injection Hs as <-; try done.
  pose proof Hn as Hlr. rewrite P_binary in Hlr. apply andb_true_iff in Hlr as [Hl Hr].
  unfold simplify_binary. destruct (_ && _); [apply typed_literal_structural|].
  destruct op, (boolean_literal l) as [[]|], (boolean_literal r) as [[]|]; auto.
Qed.

Lemma simplify_structural e schema e' : P e = true → simplify e schema = Ok e' → P e' = true.
Proof.
  revert e'. induction e as [name|v|l IHl op r IHr|e IH negated|e IH t|e IH alias|f e IH d|];
    intros e' Hn Hs; cbn [simplify] in Hs.
  - by eapply simplify_node_structural.
  - by eapply simplify_node_structural.
  - apply bind_ok in Hs as (l' & Hl & Hs). apply bind_ok in Hs as (r' & Hr & Hs).
    rewrite P_binary in Hn. apply andb_true_iff in Hn as [? ?].
    eapply simplify_node_structural; [|done]. rewrite P_binary. by rewrite (IHl l'), (IHr r').
  - apply bind_ok in Hs as (e1 & H1 & Hs). eapply simplify_node_structural; [|done].
    rewrite P_is_null in *. by apply (IH e1).
  - apply bind_ok in Hs as (e1 & H1 & Hs). eapply simplify_node_structural; [|done].
    rewrite P_cast in *. by apply (IH e1).
  - apply bind_ok in Hs as (e1 & H1 & [= <-]). destruct P_alias as [E|E]; rewrite E in *; eauto.
  - apply bind_ok in Hs as (e1 & H1 & [= <-]). destruct P_aggregate as [E|E]; rewrite E in *; eauto.
  - by injection Hs as <-.
Qed.
End structural.

Lemma simplify_no_alias e schema e' :
  no_alias e = true → simplify e schema = Ok e' → no_alias e' = true.
Proof. apply simplify_structural; try done; [by right|by left]. Qed.

Lemma simplify_no_aggregate e schema e' :
  contains_aggregate e = false → simplify e schema = Ok e' → contains_aggregate e' = false.
Proof.
  rewrite <-!negb_true_iff. apply (simplify_structural (λ e, negb (contains_aggregate e)));
    try done; [intros; apply negb_orb|by left|by right].
Qed.

(** The operands of a rewritten node evaluate as before. *)
Lemma simplify_evaluate e b e' a :
  conforming b → no_null_column (b_schema b) → casts_to castable e = true → typed_literals e = true →
  widened (b_schema b) e = true → no_alias e = true →
  simplify e (b_schema b) = Ok e' → evaluate e b = Ok a → evaluate e' b = Ok a ∧ widened (b_schema b) e' = true.
Proof.
  intros Hb Hcols. revert e' a.
  assert (∀ e e' a, casts_to castable e = true → typed_literals e = true → widened (b_schema b) e = true →
    simplify_node e (b_schema b) = Ok e' → evaluate e b = Ok a → evaluate e' b = Ok a ∧ widened (b_schema b) e' = true) as Hnode.
  { intros e0 e1 a0 ?????. split; [by eapply simplify_node_sound|by eapply simplify_node_widened]. }
  pose proof (λ e e', simplify_casts castable e (b_schema b) e' cast_types_castable) as Hkeep.
  induction e as [name|v|l IHl op r IHr|e IH negated|e IH t|e IH alias|f e IH d|];
    intros e' a Hc Hv Hw Hna Hs He; cbn [simplify] in Hs; try done.
  - by eapply Hnode.
  - by eapply Hnode.
  - apply bind_ok in Hs as (l' & Hl & Hs). apply bind_ok in Hs as (r' & Hr & Hs).
    cbn [evaluate] in He. apply bind_ok in He as (x & Hx & He). apply bind_ok in He as (y & Hy & He).
    simpl in Hc, Hv, Hna, Hw. apply andb_true_iff in Hc as [Hcl Hcr].
    apply andb_true_iff in Hv as [Hvl Hvr]. apply andb_true_iff in Hna as [Hnl Hnr]. apply andb_true_iff in Hw as [[Hwl Hwr]%andb_true_iff Hw].
    rewrite (evaluate_inferred _ _ _ Hb Hwl Hx), (evaluate_inferred _ _ _ Hb Hwr Hy) in Hw.
    destruct (Hkeep _ _ Hcl Hvl Hl), (Hkeep _ _ Hcr Hvr Hr).
    destruct (IHl _ _ Hcl Hvl Hwl Hnl Hl Hx) as [Hx' Hwl'], (IHr _ _ Hcr Hvr Hwr Hnr Hr Hy) as [Hy' Hwr'].
    eapply Hnode; [..|exact Hs|]; [by apply andb_true_iff..| |cbn [evaluate]; by rewrite Hx', Hy'].
    simpl. rewrite Hwl', Hwr'. by rewrite (evaluate_inferred _ _ _ Hb Hwl' Hx'), (evaluate_inferred _ _ _ Hb Hwr' Hy').
  - apply bind_ok in Hs as (e1 & H1 & Hs). cbn [evaluate] in He. apply bind_ok in He as (x & Hx & He).
    destruct (Hkeep e _ Hc Hv H1). destruct (IH _ _ Hc Hv Hw Hna H1 Hx) as [Hx' Hw'].
    apply (Hnode (IsNull e1 negated)); [done..|]. cbn [evaluate]. by rewrite Hx'.
  - apply bind_ok in Hs as (e1 & H1 & Hs). cbn [evaluate] in He. apply bind_ok in He as (x & Hx & He).
    simpl in Hc. apply andb_true_iff in Hc as [Ht Hc]. destruct (Hkeep e _ Hc Hv H1). destruct (IH _ _ Hc Hv Hw Hna H1 Hx) as [Hx' Hw'].
    apply (Hnode (Cast e1 t)); [simpl; by rewrite Ht|done..|]. cbn [evaluate]. by rewrite Hx'.
Qed.

Lemma simplify_root_evaluate e b e' a :
  conforming b → no_null_column (b_schema b) → casts_to castable e = true → typed_literals e = true →
  widened (b_schema b) e = true → no_alias (unalias e) = true →
  simplify e (b_schema b) = Ok e' → evaluate e b = Ok a → evaluate e' b = Ok a.
Proof.
  intros Hb Hcols Hc Hv Hw Hna Hs He. destruct e as [| | | | |e alias| |]; try (by eapply simplify_evaluate).
  cbn [simplify] in Hs. apply bind_ok in Hs as (e1 & H1 & [= <-]).
  pose proof (simplify_no_alias _ _ _ Hna H1) as Hn1.
  destruct (simplify_evaluate e b e1 a Hb Hcols Hc Hv Hw Hna H1 (evaluate_alias _ _ _ _ He)) as [He1 _].
  by destruct e1.
Qed.

Lemma simplify_alias_evaluate e b e' a :
  batch_ok b → native_casts e = true → typed_literals e = true → no_alias (unalias e) = true →
  simplify e (b_schema b) = Ok e' → evaluate e b = Ok a → evaluate e' b = Ok a.
Proof.
  intros Hb Hc Hv. apply simplify_root_evaluate; [apply Hb|by apply batch_ok_no_null|by apply native_castable|done|].
  by apply native_widened; [apply Hb|].
Qed.
End properties.

(** ** Kernels on concrete elements *)

(** Comparison, checked arithmetic on integers, the identity cast, the
    conversion of integers to their decimal text, and Kleene's connectives. *)
Definition demo_cast (s t : DataType) (c : cell) : option cell :=
  if decide (s = t) then if cell_typed t c then Some c else None
  else match t, c with
  | DtUtf8, IntCell z => Some (StrCell (pretty z))
  | DtInt64, BoolCell b => Some (IntCell (if b then 1 else 0)%Z)
  | (DtInt32 | DtInt64 | DtUInt32 | DtUInt64), IntCell z => if cell_typed t c then Some c else None
  | DtFloat64, IntCell z =>
      let c := FloatCell (int_to_f64 z) in if cell_typed t c then Some c else None
  | _, _ => None
  end.
Definition demo_arith (op : Operator) (t : DataType) (x y : cell) : result cell :=
  match x, y with
  | IntCell x, IntCell y =>
      z ← (match op with
           | OpAdd => Ok (x + y)%Z | OpSubtract => Ok (x - y)%Z | OpMultiply => Ok (x * y)%Z
           | _ => if decide (y = 0%Z) then Err (Arrow "divide by zero") else Ok (Z.quot x y)
           end);
      if cell_typed t (IntCell z) then Ok (IntCell z) else Err (Arrow "arithmetic overflow")
  | _, _ => Err (Arrow "invalid arithmetic operands")
  end.
(** The order of elements; floats by the total order of IEEE 754. *)
Definition total_order_key (bits : N) : Z :=
  if N.testbit bits 63 then (- Z.of_N (f64_magnitude bits) - 1)%Z else Z.of_N (f64_magnitude bits).
Definition demo_order (x y : cell) : option comparison :=
  match x, y with
  | IntCell x, IntCell y => Some (x ?= y)%Z
  | BoolCell x, BoolCell y => Some (bool_compare x y)
  | StrCell x, StrCell y => Some (String.compare x y)
  | FloatCell x, FloatCell y => Some (total_order_key x ?= total_order_key y)%Z
  | _, _ => None
  end.
Definition demo_cmp (op : Operator) (t : DataType) (x y : cell) : bool :=
  match demo_order x y, op with
  | Some Eq, (OpEq | OpLtEq | OpGtEq) | Some Lt, (OpNotEq | OpLt | OpLtEq)
  | Some Gt, (OpNotEq | OpGt | OpGtEq) => true
  | _, _ => false
  end.
#[export] Instance demo_kernels : Kernels := {
  cast_supported s t := bool_decide (s = DtNull) || bool_decide (s = t) || is_numeric t;
  cast_cell := demo_cast;
  cmp_supported _ := true;
  cmp_cell := demo_cmp;
  arith_supported := is_numeric;
  arith_cell := demo_arith;
  and_kleene x y := match x, y with
    | Some false, _ | _, Some false => Some false
    | Some true, Some true => Some true
    | _, _ => None
    end;
  or_kleene x y := match x, y with
    | Some true, _ | _, Some true => Some true
    | Some false, Some false => Some false
    | _, _ => None
    end;
}.

#[export] Instance demo_kernel_laws : KernelLaws demo_kernels.
Proof.
  constructor; simpl; try (by intros [[]|]).
  - done.
  - done.
  - intros c Hc. change (cell_typed DtInt32 c = true) in Hc. unfold demo_cast. rewrite decide_False, Hc by done. by destruct c.
  - intros c Hc. change (cell_typed DtUInt32 c = true) in Hc. unfold demo_cast. rewrite decide_False, Hc by done. by destruct c.
  - intros t c _ Hc. unfold demo_cast. rewrite decide_True by done. by rewrite Hc.
  - intros s t c c'. unfold demo_cast. repeat case_match; intros; simplify_eq; done.
  - intros op t x y c. unfold demo_arith. destruct x, y; try done.
    rewrite bind_ok. intros (w & _ & Hw). case_match; by simplify_eq.
  - done.
Qed.

(** Two columns and three rows. *)
Definition demo_batch : RecordBatch :=
  MkRecordBatch [MkField "t.a" DtInt64 true; MkField "t.b" DtBoolean true]
    [MkArray DtInt64 [Some (IntCell 5); None; Some (IntCell 40)];
     MkArray DtBoolean [Some (BoolCell true); Some (BoolCell false); None]] 3.
(** [a > 1 + 2 AND (b OR FALSE)] *)
Definition demo_expr : Expr :=
  Binary (Binary (Column "a") OpGt (Binary (Literal (Int64 1)) OpAdd (Literal (Int64 2)))) OpAnd
    (Binary (Column "b") OpOr (Literal (Boolean false))).

Lemma demo_batch_ok : batch_ok demo_batch.
Proof.
  split; [by repeat constructor|].
  repeat constructor; simpl; repeat constructor; intros x Hx; by simplify_eq.
Qed.

(** ** The properties *)

(** A 32-bit column, a float column of 32 bits and a date. *)
Definition narrow_columns : RecordBatch :=
  MkRecordBatch [MkField "t.a" DtInt32 true; MkField "t.f" DtFloat32 true; MkField "t.d" (DtOther "Date32") true]
    [MkArray DtInt32 [Some (IntCell 5); None]; MkArray DtFloat32 [None; None]; MkArray (DtOther "Date32") [None; None]] 2.
(** [a + 1 > CAST(3 AS INT) AND TRUE] *)
Definition narrow_expr : Expr :=
  Binary (Binary (Binary (Column "a") OpAdd (Literal (Int64 1))) OpGt (Cast (Literal (Int64 3)) DtInt32)) OpAnd
    (Literal (Boolean true)).

Lemma narrow_columns_conform : conforming narrow_columns.
Proof. repeat constructor; simpl; repeat constructor; intros x Hx; by simplify_eq. Qed.

(** C22: type soundness.  On a batch that conforms to its schema, of whatever column
    types, an expression whose literals fit their types and that evaluates yields one
    element per row, each of the type of the array, whatever the kernels compute on
    elements and whatever the expression casts to.  The type of the array is exactly the
    one that [data_type] infers from the schema, unless the expression has arithmetic on
    two operands of one and the same type that is 32 bits wide or not numeric for the
    engine ([widened]; see [narrow_sum_type_mismatch]). *)
Theorem evaluate_type_sound `{K : Kernels, !KernelLaws K} e b a :
  conforming b → typed_literals e = true → evaluate e b = Ok a →
  array_ok (b_rows b) a ∧ (widened (b_schema b) e = true → data_type e (b_schema b) = Ok (a_type a)).
Proof. intros Hb Hv He. split; [by eapply evaluate_cells|]. intros Hw. by apply evaluate_inferred. Qed.

Lemma evaluate_type_sound_witness :
  ∃ a, evaluate narrow_expr narrow_columns = Ok a ∧ array_ok 2 a ∧
    data_type narrow_expr (b_schema narrow_columns) = Ok (a_type a).
Proof.
  eexists. split; [vm_compute; reflexivity|].
  refine ((λ H, conj (proj1 H) (proj2 H _)) (evaluate_type_sound narrow_expr narrow_columns _ narrow_columns_conform _ _));
    vm_compute; reflexivity.
Defined.

(** C23: the optimizer's expression simplification (constant folding, null
    propagation, and the Boolean identities of AND and OR) preserves meaning: an
    expression that evaluates to an array still evaluates to the same array, of the same
    type, after [simplify].  The batch conforms to its schema, which has columns of any
    types but [Null]; the expression has no arithmetic on two operands of one narrow type
    ([widened]), casts to the native types and the 32-bit integers, literals that fit
    their types, and an alias at its root at most (as SQL planning builds them; see the
    examples below for what happens otherwise). *)
Theorem simplify_sound `{K : Kernels, !KernelLaws K} e b e' a :
  conforming b → no_null_column (b_schema b) → widened (b_schema b) e = true → casts_to castable e = true →
  typed_literals e = true → no_alias (unalias e) = true →
  simplify e (b_schema b) = Ok e' → evaluate e b = Ok a → evaluate e' b = Ok a.
Proof. intros ??????. by apply simplify_root_evaluate. Qed.

Lemma simplify_sound_witness :
  ∃ e' a, simplify narrow_expr (b_schema narrow_columns) = Ok e' ∧
    e' = Binary (Binary (Column "a") OpAdd (Literal (Int64 1))) OpGt (Cast (Literal (Int64 3)) DtInt32) ∧
    evaluate narrow_expr narrow_columns = Ok a ∧ evaluate e' narrow_columns = Ok a.
Proof.
  eexists _, _. split; [vm_compute; reflexivity|]. split; [reflexivity|].
  split; [vm_compute; reflexivity|].
  apply (simplify_sound narrow_expr narrow_columns);
    [exact narrow_columns_conform|by repeat constructor|reflexivity..|vm_compute; reflexivity|vm_compute; reflexivity].
Defined.

(** All rules on native columns. *)
Example demo_expr_simplified :
  simplify demo_expr (b_schema demo_batch) = Ok (Binary (Binary (Column "a") OpGt (Literal (Int64 3))) OpAnd (Column "b")).
Proof. vm_compute. reflexivity. Qed.

(** ** Outside these conditions *)

(** The inferred type of a sum of two 32-bit columns is 64-bit, but equal operand
    types are not widened, so the array has the 32-bit type. *)
Definition narrow_batch : RecordBatch :=
  MkRecordBatch [MkField "a" DtInt32 true] [MkArray DtInt32 [Some (IntCell 7)]] 1.
Example narrow_sum_type_mismatch :
  let e := Binary (Column "a") OpAdd (Column "a") in
  data_type e (b_schema narrow_batch) = Ok DtInt64 ∧
  a_type <$> evaluate e narrow_batch = Ok DtInt32.
Proof. vm_compute. by split. Qed.

(** A column of type [Null]: [x AND TRUE] is Boolean, what it simplifies to is
    not. *)
Example null_column_simplifies_to_null :
  let schema := [MkField "x" DtNull true] in
  let e := Binary (Column "x") OpAnd (Literal (Boolean true)) in
  data_type e schema = Ok DtBoolean ∧ simplify e schema = Ok (Column "x") ∧
  data_type (Column "x") schema = Ok DtNull.
Proof. vm_compute. by split_and!. Qed.

(** An alias below the root: simplification can move it under another alias,
    which evaluation does not expect. *)
Example nested_alias_panics :
  let e := Alias (Binary (Alias (Column "b") "x") OpAnd (Literal (Boolean true))) "y" in
  (∃ a, evaluate e demo_batch = Ok a) ∧
  (e' ← simplify e (b_schema demo_batch); evaluate e' demo_batch) = unreachable.
Proof. vm_compute. split; [eauto|done]. Qed.

(** ** The order of scalar values

    [ScalarValue::partial_compare] is antisymmetric and transitive where it is
    defined: between values of one type, NaNs apart. *)

Definition scalar_le (a b : ScalarValue) : Prop :=
  partial_compare a b = Some Lt ∨ partial_compare a b = Some Eq.

Lemma partial_compare_flip a b : partial_compare b a = CompOpp <$> partial_compare a b.
Proof.
  destruct a, b; try done; simpl; f_equal.
  - by destruct b0, b.
  - apply Z.compare_antisym.
  - apply N.compare_antisym.
  - apply f64_partial_cmp_flip.
  - rewrite String.compare_antisym. done.
Qed.

Lemma scalar_le_utf8 x y : scalar_le (Utf8 x) (Utf8 y) ↔ String.le x y.
Proof.
  unfold scalar_le, String.le, String.leb. simpl. destruct (String.compare x y); naive_solver.
Qed.

Lemma scalar_le_trans a b c : scalar_le a b → scalar_le b c → scalar_le a c.
Proof.
  assert (∀ o : comparison, Some o = Some Lt ∨ Some o = Some Eq ↔ o ≠ Gt) as E
    by (intros []; naive_solver).
  destruct a as [|x|x|x|x|x], b as [|y|y|y|y|y], c as [|z|z|z|z|z];
    try (rewrite !scalar_le_utf8; by intros; etrans);
    unfold scalar_le; simpl; rewrite ?E; try (by intuition).
  - by destruct x, y, z; simpl.
  - rewrite !Z.compare_ngt_iff. lia.
  - rewrite !N.compare_ngt_iff. lia.
  - unfold f64_partial_cmp. destruct (f64_is_nan x), (f64_is_nan y), (f64_is_nan z);
      simpl; try (by intuition). rewrite !E, !Z.compare_ngt_iff. lia.
Qed.

Lemma scalar_le_false a b : scalar_le a b → partial_compare b a ≠ Some Lt.
Proof. unfold scalar_le. rewrite (partial_compare_flip a b). intros [-> | ->]; done. Qed.

Lemma compare_le a b : partial_compare a b ≠ Some Gt → partial_compare a b ≠ None → scalar_le a b.
Proof. unfold scalar_le. destruct (partial_compare a b) as [[]|]; naive_solver. Qed.

(** Values that are equal in the order are equal, floats apart. *)
Lemma compare_eq a b :
  (∀ x, a ≠ Float64 x) → partial_compare a b = Some Eq → a = b.
Proof.
  intros Hf. destruct a as [|x|x|x|x|x], b as [|y|y|y|y|y]; simpl; try done.
  - by destruct x, y.
  - intros [= E%Z.compare_eq]. by subst.
  - intros [= E%N.compare_eq]. by subst.
  - by destruct (Hf x).
  - intros [= E%String.compare_eq_iff]. by subst.
Qed.
