(* ===== verification/Logical.v ===== *)
(** * Logical plans ([src/query/logical.rs])

    The plan tree and its checked constructors.  Every node stores its output
    schema, as in the source; [wf_plan] says that the stored schemas are the ones
    the constructors compute. *)
From S2P Require Import Prelude Text Float Expr.

Inductive JoinType := Inner | JoinLeft.

#[export] Instance JoinType_eq_dec : EqDecision JoinType.
Proof. solve_decision. Defined.

Record SortExpr := MkSortExpr { s_expr : Expr; s_ascending : bool; s_nulls_first : bool }.

#[export] Instance SortExpr_eq_dec : EqDecision SortExpr.
Proof. solve_decision. Defined.

Inductive LogicalPlan :=
| LScan (table : string) (projection : option (list string)) (filters : list Expr)
    (schema : Schema)
| LProjection (input : LogicalPlan) (exprs : list Expr) (schema : Schema)
| LFilter (input : LogicalPlan) (predicate : Expr) (schema : Schema)
| LAggregate (input : LogicalPlan) (group_exprs aggregate_exprs : list Expr) (schema : Schema)
| LSort (input : LogicalPlan) (exprs : list SortExpr) (schema : Schema)
| LLimit (input : LogicalPlan) (limit : N) (schema : Schema)
| LJoin (left right : LogicalPlan) (join_type : JoinType) (left_on right_on : list Expr)
    (schema : Schema).

#[export] Instance LogicalPlan_eq_dec : EqDecision LogicalPlan.
Proof. solve_decision. Defined.

Definition plan_schema (p : LogicalPlan) : Schema :=
  match p with
  | LScan _ _ _ s | LProjection _ _ s | LFilter _ _ s | LAggregate _ _ _ s | LSort _ _ s
  | LLimit _ _ s | LJoin _ _ _ _ _ s => s
  end.

Section constructors.
Context `{FloatDisplay}.

Definition scan (table : string) (schema : Schema) : LogicalPlan := LScan table None [] schema.

Definition expand_projection (exprs : list Expr) (schema : Schema) : list Expr :=
  mjoin ((λ e, match e with Wildcard => (λ f, Column (f_name f)) <$> schema | _ => [e] end)
         <$> exprs).

Definition project (input : LogicalPlan) (exprs : list Expr) : result LogicalPlan :=
  let expanded := expand_projection exprs (plan_schema input) in
  fields ← collect (λ e, field e (plan_schema input)) expanded;
  Ok (LProjection input expanded fields).

Definition filter (input : LogicalPlan) (predicate : Expr) : result LogicalPlan :=
  t ← data_type predicate (plan_schema input);
  if decide (t = DtBoolean) then Ok (LFilter input predicate (plan_schema input))
  else Err (Planning ("filter predicate must be Boolean, got " +:+ display_type t)).

Definition aggregate (input : LogicalPlan) (group_exprs aggregate_exprs : list Expr)
    : result LogicalPlan :=
  fields ← collect (λ e, field e (plan_schema input)) (group_exprs ++ aggregate_exprs);
  Ok (LAggregate input group_exprs aggregate_exprs fields).

Definition sort (input : LogicalPlan) (exprs : list SortExpr) : result LogicalPlan :=
  _ ← for_each (λ s, _ ← data_type (s_expr s) (plan_schema input); Ok tt) exprs;
  Ok (LSort input exprs (plan_schema input)).

Definition limit (input : LogicalPlan) (n : N) : LogicalPlan := LLimit input n (plan_schema input).

(** The check of one pair of join keys. *)
Definition check_join_key (left right : Schema) (keys : Expr * Expr) : result unit :=
  left_type ← data_type keys.1 left;
  right_type ← data_type keys.2 right;
  if decide (left_type = right_type) then Ok tt
  else Err (Planning ("join key types differ: " +:+ display_type left_type +:+ " versus " +:+
                      display_type right_type)).

(** The output field of a field of the right input, after the fields so far. *)
Definition join_field (join_type : JoinType) (fields : list Field) (f : Field) : Field :=
  MkField
    (if existsb (λ existing, bool_decide (f_name existing = f_name f)) fields
     then "right." +:+ f_name f else f_name f)
    (f_type f)
    (match join_type with JoinLeft => true | Inner => f_nullable f end).

Definition join_schema (join_type : JoinType) (left right : Schema) : Schema :=
  foldl (λ fields f, fields ++ [join_field join_type fields f]) left right.

Definition join (left right : LogicalPlan) (join_type : JoinType) (left_on right_on : list Expr)
    : result LogicalPlan :=
  if negb (bool_decide (length left_on = length right_on)) || bool_decide (left_on = []) then
    Err (Planning "joins require the same non-zero number of left and right keys")
  else
    _ ← for_each (check_join_key (plan_schema left) (plan_schema right)) (zip left_on right_on);
    Ok (LJoin left right join_type left_on right_on
          (join_schema join_type (plan_schema left) (plan_schema right))).

(** ** Well-formed plans *)

(** Every node is what its constructor returns for its children. *)
Fixpoint wf_plan (p : LogicalPlan) : Prop :=
  match p with
  | LScan _ _ filters s => Forall (λ e, data_type e s = Ok DtBoolean) filters
  | LProjection input exprs _ => wf_plan input ∧ project input exprs = Ok p
  | LFilter input predicate _ => wf_plan input ∧ filter input predicate = Ok p
  | LAggregate input group aggr _ => wf_plan input ∧ aggregate input group aggr = Ok p
  | LSort input exprs _ => wf_plan input ∧ sort input exprs = Ok p
  | LLimit input n _ => wf_plan input ∧ limit input n = p
  | LJoin l r t lo ro _ => wf_plan l ∧ wf_plan r ∧ join l r t lo ro = Ok p
  end.
End constructors.
