(* ===== verification/Optimizer.v ===== *)
(** * The logical optimizer ([src/query/optimizer.rs]) *)
From S2P Require Import Prelude Text Float Expr Logical.

Section optimizer.
Context `{FloatDisplay, Kernels}.

Definition simplify_sort (schema : Schema) (s : SortExpr) : result SortExpr :=
  e ← simplify (s_expr s) schema; Ok (MkSortExpr e (s_ascending s) (s_nulls_first s)).

Definition simplify_expressions (plan : LogicalPlan) : result LogicalPlan :=
  match plan with
  | LScan table projection filters schema =>
      filters ← collect (λ e, simplify e schema) filters;
      Ok (LScan table projection filters schema)
  | LProjection input exprs _ =>
      exprs ← collect (λ e, simplify e (plan_schema input)) exprs;
      project input exprs
  | LFilter input predicate _ =>
      predicate ← simplify predicate (plan_schema input);
      filter input predicate
  | LAggregate input group_exprs aggregate_exprs _ =>
      group_exprs ← collect (λ e, simplify e (plan_schema input)) group_exprs;
      aggregate_exprs ← collect (λ e, simplify e (plan_schema input)) aggregate_exprs;
      aggregate input group_exprs aggregate_exprs
  | LSort input exprs _ =>
      exprs ← collect (simplify_sort (plan_schema input)) exprs;
      sort input exprs
  | LLimit input n _ => Ok (limit input n)
  | LJoin l r join_type left_on right_on _ =>
      left_on ← collect (λ e, simplify e (plan_schema l)) left_on;
      right_on ← collect (λ e, simplify e (plan_schema r)) right_on;
      join l r join_type left_on right_on
  end.

(** Whether a projected expression is the field at its position. *)
Definition is_identity (e : Expr) (f : Field) : bool :=
  match unalias e with
  | Column name => bool_decide (Expr.name e = f_name f) && bool_decide (unqualified name = f_name f)
  | _ => false
  end.

Definition eliminate_identity_projection (plan : LogicalPlan) : result LogicalPlan :=
  match plan with
  | LProjection input exprs _ =>
      let schema := plan_schema input in
      if bool_decide (length exprs = length schema)
         && forallb (λ x : Expr * Field, is_identity x.1 x.2) (zip exprs schema)
      then Ok input
      else project input exprs
  | _ => Ok plan
  end.

Definition push_filter_into_scan (plan : LogicalPlan) : result LogicalPlan :=
  match plan with
  | LFilter (LScan table projection filters schema) predicate _ =>
      Ok (LScan table projection (filters ++ [predicate]) schema)
  | LFilter input predicate _ => filter input predicate
  | _ => Ok plan
  end.

(** [BTreeSet<String>]: iteration is in ascending order. *)
Definition sorted_names (s : gset string) : list string := merge_sort String.le (elements s).

Definition required_columns (exprs : list Expr) : gset string :=
  foldl (λ required e, columns e ∪ required) ∅ exprs.

Definition projection_indices (schema : Schema) (required : gset string) : result (list nat) :=
  collect (find_column schema) (sorted_names required).

(** [schema.field(index)] for every index. *)
Definition fields_at (schema : Schema) (indices : list nat) : result (list Field) :=
  collect (λ i, expect (schema !! i) "index out of bounds") indices.

Definition push_projection_into_scan (plan : LogicalPlan) : result LogicalPlan :=
  match plan with
  | LProjection (LScan table _ filters schema as input) exprs _ =>
      let required := required_columns (exprs ++ filters) in
      if decide (required = ∅) then project input exprs
      else
        indices ← projection_indices schema required;
        projected_fields ← fields_at schema indices;
        project (LScan table (Some (f_name <$> projected_fields)) filters projected_fields) exprs
  | LProjection input exprs _ => project input exprs
  | _ => Ok plan
  end.

Definition optimize_node (plan : LogicalPlan) : result LogicalPlan :=
  plan ← simplify_expressions plan;
  plan ← push_filter_into_scan plan;
  plan ← push_projection_into_scan plan;
  eliminate_identity_projection plan.

Definition optimize_children (optimize : LogicalPlan → result LogicalPlan) (plan : LogicalPlan)
    : result LogicalPlan :=
  match plan with
  | LScan _ _ _ _ => Ok plan
  | LProjection input exprs _ => input ← optimize input; project input exprs
  | LFilter input predicate _ => input ← optimize input; filter input predicate
  | LAggregate input group_exprs aggregate_exprs _ =>
      input ← optimize input; aggregate input group_exprs aggregate_exprs
  | LSort input exprs _ => input ← optimize input; sort input exprs
  | LLimit input n _ => input ← optimize input; Ok (limit input n)
  | LJoin l r join_type left_on right_on _ =>
      l ← optimize l; r ← optimize r; join l r join_type left_on right_on
  end.

Fixpoint optimize (plan : LogicalPlan) : result LogicalPlan :=
  plan ← optimize_children optimize plan;
  optimize_node plan.
End optimizer.
