(* ===== verification/SchemaProps.v ===== *)
(** * Name resolution and typing across schemas

    What the optimizer relies on when it changes the schema below an expression:
    resolution depends on names only, a narrowed scan schema resolves the columns
    it kept as the full one does, and simplification keeps inferred types. *)
From Stdlib Require Import Ascii.
From S2P Require Import Prelude Text Float Expr ExprProps.

(** ** Signatures *)

(** The names and types of a schema, without nullability. *)
Definition signature (s : Schema) : list (string * DataType) := (λ f, (f_name f, f_type f)) <$> s.

Lemma signature_names s s' : signature s = signature s' → f_name <$> s = f_name <$> s'.
Proof.
  revert s'. induction s as [|f s IH]; intros [|f' s'] E; try done.
  injection E as E1 _ E2. rewrite !fmap_cons, E1. f_equal. by apply IH.
Qed.

Lemma field_indices_from_elem (p : Field → bool) s k i :
  i ∈ omap (λ x : nat * Field, if p x.2 then Some x.1 else None) (enumerate_from k s) ↔
  ∃ j f, i = k + j ∧ s !! j = Some f ∧ p f = true.
Proof.
  rewrite list_elem_of_omap. setoid_rewrite list_elem_of_lookup.
  setoid_rewrite enumerate_from_lookup. split.
  - intros ([n f] & (j & [Hn Hf]) & Hp). simpl in *. destruct (p f) eqn:E; [|done].
    injection Hp as <-. by exists j, f.
  - intros (j & f & -> & Hf & Hp). exists (k + j, f). simpl. rewrite Hp. eauto.
Qed.

Lemma elem_of_field_indices p s i : i ∈ field_indices p s ↔ ∃ f, s !! i = Some f ∧ p f = true.
Proof.
  unfold field_indices, enumerate. rewrite field_indices_from_elem. naive_solver.
Qed.

Lemma field_indices_names (p : Field → bool) s s' :
  (∀ f f', f_name f = f_name f' → p f = p f') → f_name <$> s = f_name <$> s' →
  field_indices p s = field_indices p s'.
Proof.
  intros Hp. unfold field_indices, enumerate. generalize 0 as k. revert s'.
  induction s as [|f s IH]; intros [|f' s'] k; simpl; try done.
  intros [= E1 E2]. rewrite (Hp f f' E1). destruct (p f'); [f_equal|]; by apply IH.
Qed.

Lemma field_indices_NoDup p s : NoDup (field_indices p s).
Proof.
  unfold field_indices, enumerate. generalize 0 as k.
  induction s as [|f s IH]; intros k; simpl; [constructor|].
  destruct (p f); [|apply IH]. constructor; [|apply IH].
  rewrite field_indices_from_elem. intros (j & f' & E & _). lia.
Qed.

(** The indices are exactly [[i]] when only the field at [i] satisfies [p]. *)
Lemma field_indices_single p s i f :
  s !! i = Some f → p f = true → (∀ j g, s !! j = Some g → p g = true → j = i) →
  field_indices p s = [i].
Proof.
  intros Hf Hp Hu. pose proof (field_indices_NoDup p s) as Hnd.
  assert (∀ j, j ∈ field_indices p s ↔ j = i) as Hin.
  { intros j. rewrite elem_of_field_indices. split; [intros (g & ? & ?); eauto|intros ->; eauto]. }
  destruct (field_indices p s) as [|x [|y l]].
  - pose proof (proj2 (Hin i) eq_refl) as Hi. by apply not_elem_of_nil in Hi.
  - f_equal. apply Hin. by left.
  - assert (x = i) as -> by (apply Hin; by left).
    assert (y = i) as -> by (apply Hin; by right; left).
    inversion Hnd as [|? ? Hni _]; subst. destruct Hni. by left.
Qed.

Lemma field_indices_none p s :
  (∀ j g, s !! j = Some g → p g = false) → field_indices p s = [].
Proof.
  intros Hn. destruct (field_indices p s) as [|x l] eqn:E; [done|].
  assert (x ∈ field_indices p s) as Hx by (rewrite E; by left).
  apply elem_of_field_indices in Hx as (g & Hg & Hp). by rewrite (Hn _ _ Hg) in Hp.
Qed.

Lemma resolve_names s s' n :
  f_name <$> s = f_name <$> s' → resolve_field_index s n = resolve_field_index s' n.
Proof.
  intros E. unfold resolve_field_index.
  rewrite !(field_indices_names _ s s') by (try done; by intros f f' ->).
  assert (existsb (λ f, contains_char "." (f_name f)) s
          = existsb (λ f, contains_char "." (f_name f)) s') as ->; [|done].
  revert s' E. induction s as [|f s IH]; intros [|f' s']; simpl; try done.
  intros [= -> E]. f_equal. by apply IH.
Qed.

Lemma find_field_signature s s' n :
  signature s = signature s' → f_type <$> find_field s n = f_type <$> find_field s' n.
Proof.
  intros E. unfold find_field. rewrite (resolve_names s s' n) by by apply signature_names.
  destruct (resolve_field_index s' n) as [i| |]; simpl; try done.
  apply (f_equal (lookup i)) in E. unfold signature in E. rewrite !list_lookup_fmap in E.
  destruct (s !! i), (s' !! i); simplify_eq/=; congruence.
Qed.

Lemma data_type_signature s s' e : signature s = signature s' → data_type e s = data_type e s'.
Proof.
  intros E. induction e as [n|v|l IHl op r IHr|e IH negated|e IH t|e IH alias|f e IH d|]; try done.
  - cbn [data_type]. by apply find_field_signature.
  - cbn [data_type]. by rewrite IHl, IHr.
  - cbn [data_type]. by destruct e.
  - cbn [data_type]. by destruct f; rewrite ?IH.
Qed.

(** ** Narrowed schemas *)

Definition dotted (f : Field) : bool := contains_char "." (f_name f).
Definition short_name (f : Field) : string := unqualified (f_name f).

(** The schema of a table: short names are distinct, and either every field is
    qualified (as [qualify_schema] makes them) or none is. *)
Definition uniform_schema (s : Schema) : Prop :=
  NoDup (short_name <$> s) ∧ ∃ d, Forall (λ f, dotted f = d) s.

Lemma uniform_unique s i j f g :
  uniform_schema s → s !! i = Some f → s !! j = Some g → short_name f = short_name g → i = j.
Proof.
  intros [Hnd _] Hf Hg E. eapply NoDup_lookup; [exact Hnd|rewrite list_lookup_fmap, Hf; done|].
  rewrite list_lookup_fmap, Hg. simpl. by rewrite E.
Qed.

(** When a name refers to a field of a uniform schema. *)
Definition refers (n : string) (f : Field) : Prop :=
  short_name f = unqualified n ∧
  (f_name f = n ∨ contains_char "." n = false ∨ dotted f = false).

Lemma resolve_field_refers s n i :
  resolve_field_index s n = Ok i → ∃ f, s !! i = Some f ∧ refers n f.
Proof.
  unfold resolve_field_index. intros Hr.
  destruct (field_indices (λ f, bool_decide (f_name f = n)) s) as [|k [|]] eqn:E; [|..|done].
  - destruct (contains_char "." n && existsb _ _) eqn:Eq; [done|].
    destruct (field_indices (λ f, bool_decide (unqualified (f_name f) = unqualified n)) s)
      as [|k [|]] eqn:E2; [done| |done]. injection Hr as ->.
    assert (i ∈ [i]) as Hi by by left. rewrite <-E2 in Hi.
    apply elem_of_field_indices in Hi as (f & Hf & Hp%bool_decide_eq_true_1).
    exists f. split; [done|]. split; [done|]. right. apply andb_false_iff in Eq as [Eq|Eq]; [by left|right].
    apply not_true_is_false. intros Hd. rewrite <-not_true_iff_false in Eq. apply Eq.
    apply existsb_exists. exists f. split; [|done]. apply list_elem_of_In. by eapply list_elem_of_lookup_2.
  - injection Hr as ->. assert (i ∈ [i]) as Hi by by left. rewrite <-E in Hi.
    apply elem_of_field_indices in Hi as (f & Hf & Hp%bool_decide_eq_true_1).
    exists f. unfold refers, short_name. rewrite Hp. auto.
Qed.

Lemma uniform_resolve s n i f :
  uniform_schema s → s !! i = Some f → refers n f → resolve_field_index s n = Ok i.
Proof.
  intros Hu Hf [Hs Hq]. pose proof Hu as [_ [d Hd]]. unfold resolve_field_index.
  assert (∀ j g, s !! j = Some g → short_name g = unqualified n → j = i) as Hun.
  { intros j g Hg E. eapply uniform_unique; [done..|congruence]. }
  assert (∀ j g, s !! j = Some g → bool_decide (f_name g = n) = true → j = i) as Hex.
  { intros j g Hg E%bool_decide_eq_true_1. eapply Hun; [done|]. unfold short_name. by rewrite E. }
  destruct (decide (f_name f = n)) as [En|En].
  { by rewrite (field_indices_single _ s i f Hf (bool_decide_eq_true_2 _ En) Hex). }
  rewrite field_indices_none.
  2:{ intros j g Hg. destruct (bool_decide (f_name g = n)) eqn:E; [|done].
      specialize (Hex _ _ Hg E) as ->. apply bool_decide_eq_true_1 in E. congruence. }
  assert (contains_char "." n && existsb (λ f, contains_char "." (f_name f)) s = false) as ->.
  { destruct Hq as [|[->|Hq]]; [done|done|]. apply andb_false_iff. right.
    rewrite <-not_true_iff_false, existsb_exists. intros (g & Hg & Hdg).
    rewrite list.Forall_forall in Hd.
    assert (dotted g = d) as E1 by (by apply Hd, list_elem_of_In, Hg).
    assert (dotted f = d) as E2 by (eapply Hd, list_elem_of_lookup_2; done).
    unfold dotted in *. congruence. }
  rewrite (field_indices_single _ s i f Hf (bool_decide_eq_true_2 _ Hs)); [done|].
  intros j g Hg E%bool_decide_eq_true_1. by eapply Hun.
Qed.

Lemma find_field_spec s n f : uniform_schema s → find_field s n = Ok f ↔ f ∈ s ∧ refers n f.
Proof.
  intros Hu. unfold find_field. rewrite bind_ok. split.
  - intros (i & Hi & He). apply resolve_field_refers in Hi as (g & Hg & Hr). rewrite Hg in He.
    injection He as <-. split; [by eapply list_elem_of_lookup_2|done].
  - intros [Hf Hr]. apply list_elem_of_lookup in Hf as [i Hi]. exists i.
    rewrite Hi. split; [by eapply uniform_resolve|done].
Qed.

(** [t] keeps exactly the fields of [s] with the given short names. *)
Definition narrows (names : list string) (s t : Schema) : Prop :=
  short_name <$> t = names ∧ Forall (λ f, f ∈ s) t ∧ NoDup names.

Lemma narrows_uniform names s t : uniform_schema s → narrows names s t → uniform_schema t.
Proof.
  intros [_ [d Hd]] (Hn & Hin & Hnd). split; [by rewrite Hn|]. exists d.
  eapply list.Forall_impl; [exact Hin|]. intros f Hf. rewrite list.Forall_forall in Hd. by apply Hd.
Qed.

Lemma narrows_elem names s t f :
  uniform_schema s → narrows names s t → f ∈ s → short_name f ∈ names → f ∈ t.
Proof.
  intros Hu (Hn & Hin & _) Hf Hs. rewrite <-Hn in Hs. apply list_elem_of_fmap in Hs as (g & E & Hg).
  rewrite list.Forall_forall in Hin. specialize (Hin g Hg) as Hgs.
  apply list_elem_of_lookup in Hf as [i Hi]. apply list_elem_of_lookup in Hgs as [j Hj].
  assert (i = j) as -> by by eapply uniform_unique. congruence.
Qed.

Lemma narrows_find_field names s t n f :
  uniform_schema s → narrows names s t → unqualified n ∈ names →
  find_field s n = Ok f ↔ find_field t n = Ok f.
Proof.
  intros Hu Ht Hn. rewrite !find_field_spec by (try done; by eapply narrows_uniform).
  pose proof Ht as (_ & Hin & _). rewrite list.Forall_forall in Hin.
  split; intros [Hf Hr]; (split; [|done]); [|by apply Hin].
  eapply narrows_elem; [done..|]. by destruct Hr as [-> _].
Qed.

Lemma collect_columns_union e s : collect_columns e s = columns e ∪ s.
Proof.
  unfold columns. revert s. induction e; intros s; simpl; try (by apply IHe); try set_solver.
Qed.

Lemma columns_binary l op r : columns (Binary l op r) = columns l ∪ columns r.
Proof. unfold columns. simpl. rewrite collect_columns_union. unfold columns. set_solver. Qed.

(** Inference sees the same types in the narrowed schema. *)
Lemma narrows_data_type names s t e ty :
  uniform_schema s → narrows names s t → columns e ⊆ list_to_set names →
  data_type e s = Ok ty → data_type e t = Ok ty.
Proof.
  intros Hu Ht. revert ty.
  induction e as [n|v|l IHl op r IHr|e IH negated|e IH u|e IH alias|f e IH d|]; intros ty Hc He; try done.
  - cbn [data_type] in *. destruct (find_field s n) as [f| |] eqn:E; try done.
    apply (narrows_find_field names s t n f Hu Ht) in E as ->; [done|].
    unfold columns in Hc. simpl in Hc. set_solver.
  - rewrite columns_binary in Hc. cbn [data_type] in *.
    apply bind_ok in He as (x & Hx & He). apply bind_ok in He as (y & Hy & He).
    rewrite (IHl x), (IHr y); [done|set_solver|done|set_solver|done].
  - change (columns e ⊆ list_to_set names) in Hc. cbn [data_type] in *. destruct e; eauto.
  - change (columns e ⊆ list_to_set names) in Hc. cbn [data_type] in *. destruct f; try done; eauto.
    all: apply bind_ok in He as (x & Hx & He); by rewrite (IH x).
Qed.

(** ** Simplification keeps inferred types *)

(** Row expressions over native types, as they appear under a [WHERE] or an
    aggregate function. *)
Definition plain (e : Expr) : bool :=
  native_casts e && typed_literals e && no_alias e && negb (contains_aggregate e).

Lemma plain_inv e :
  plain e = true ↔
  native_casts e = true ∧ typed_literals e = true ∧ no_alias e = true ∧ contains_aggregate e = false.
Proof. unfold plain. rewrite !andb_true_iff, negb_true_iff. tauto. Qed.

Lemma plain_binary l op r : plain (Binary l op r) = true ↔ plain l = true ∧ plain r = true.
Proof. rewrite !plain_inv. simpl. rewrite !andb_true_iff, orb_false_iff. tauto. Qed.

Lemma data_type_no_column e s s' : has_column e = false → data_type e s = data_type e s'.
Proof.
  induction e as [n|v|l IHl op r IHr|e IH negated|e IH t|e IH alias|f e IH d|]; intros Hc; try done.
  - simpl in Hc. apply orb_false_iff in Hc as [? ?]. cbn [data_type]. by rewrite IHl, IHr.
  - cbn [data_type]. simpl in Hc. destruct e; auto.
  - cbn [data_type]. simpl in Hc. by destruct f; rewrite ?IH.
Qed.

Lemma binary_type_not_null op l r : binary_type op l r ≠ Ok DtNull.
Proof. intros H. by apply binary_type_native in H. Qed.

(** A row expression of type [Null] is a constant. *)
Lemma null_type_constant e s :
  native_schema s → plain e = true → data_type e s = Ok DtNull → has_column e = false.
Proof.
  intros Hs. induction e as [n|v|l IHl op r IHr|e IH negated|e IH t|e IH alias|f e IH d|];
    intros Hp He; try done; apply plain_inv in Hp as (Hc & Hv & Hna & Hag); try done.
  - cbn [data_type] in He. destruct (find_field s n) as [f| |] eqn:E; try done. injection He as Ht.
    unfold find_field in E. apply bind_ok in E as (i & _ & E).
    destruct (s !! i) as [g|] eqn:Hg; [|done]. injection E as ->. unfold native_schema in Hs.
    rewrite list.Forall_forall in Hs. specialize (Hs f (list_elem_of_lookup_2 _ _ _ Hg)).
    by rewrite Ht in Hs.
  - cbn [data_type] in He. apply bind_ok in He as (x & _ & He). apply bind_ok in He as (y & _ & He).
    by apply binary_type_not_null in He.
  - cbn [data_type] in He. injection He as ->. by simpl in Hc.
Qed.

Section simplify_type.
Context `{K : Kernels, !KernelLaws K}.

Lemma simplify_plain e s e' : plain e = true → simplify e s = Ok e' → plain e' = true.
Proof.
  rewrite !plain_inv. intros (Hc & Hv & Hna & Hag) Hs.
  destruct (simplify_native _ _ _ Hc Hv Hs). split_and!; try done.
  - by eapply simplify_no_alias.
  - by eapply simplify_no_aggregate.
Qed.

Lemma typed_literal_type v t s : data_type (typed_literal v t) s = Ok t.
Proof. unfold typed_literal. destruct (decide _) as [<-|]; done. Qed.

(** A connective whose other operand is a literal has a Boolean operand. *)
Lemma connective_type s l r op t :
  native_schema s → plain l = true → plain r = true → is_logical op = true →
  has_column l || has_column r = true → data_type (Binary l op r) s = Ok t →
  t = DtBoolean ∧
  (has_column l = true → data_type l s = Ok DtBoolean) ∧
  (has_column r = true → data_type r s = Ok DtBoolean).
Proof.
  intros Hs Hl Hr Hop Hc He. cbn [data_type] in He. apply bind_ok in He as (x & Hx & He).
  apply bind_ok in He as (y & Hy & He). unfold binary_type in He. rewrite Hop in He.
  destruct (is_boolean_or_null x && is_boolean_or_null y) eqn:E; [|done]. injection He as <-.
  apply andb_true_iff in E as [Ex Ey].
  split; [done|]. split; intros H; [rewrite Hx|rewrite Hy].
  - destruct x; try done. by rewrite (null_type_constant l s) in H.
  - destruct y; try done. by rewrite (null_type_constant r s) in H.
Qed.

Lemma simplify_node_type e s t e' :
  native_schema s → plain e = true → data_type e s = Ok t → simplify_node e s = Ok e' →
  data_type e' s = Ok t.
Proof.
  intros Hs Hp Ht Hn. unfold simplify_node in Hn. rewrite Ht in Hn. cbn [mbind result_bind] in Hn.
  pose proof Hp as (Hc & Hv & Hna & Hag)%plain_inv.
  destruct (bool_decide (columns e = ∅) && negb (contains_aggregate e)) eqn:Econst.
  - apply andb_true_iff in Econst as [Hcol%bool_decide_eq_true_1%columns_empty _].
    apply bind_ok in Hn as (a & Ha & Hn). apply bind_ok in Hn as (v & _ & [= <-]).
    destruct (evaluate_ok _ _ _ unit_batch_ok Hc Hv Ha) as (_ & _ & Hty).
    rewrite (data_type_no_column e _ s Hcol), Ht in Hty. injection Hty as ->. apply typed_literal_type.
  - rewrite Hag, andb_true_r, bool_decide_eq_false, columns_empty, not_false_iff_true in Econst.
    destruct e as [| |l op r| | | | |]; injection Hn as <-; try done.
    unfold simplify_binary. destruct (_ && _); [apply typed_literal_type|].
    apply plain_binary in Hp as [Hl Hr]. simpl in Econst.
    assert (∀ x v, boolean_literal x = Some v → plain x = true → has_column x = false) as Hlit.
    { intros x v Hx (_ & _ & Hxa & _)%plain_inv. by destruct x. }
    pose proof (Hlit l) as Hll. pose proof (Hlit r) as Hlr.
    pose proof (connective_type s l r op t Hs Hl Hr) as Hct.
    destruct op; try done; specialize (Hct eq_refl Econst Ht) as (-> & HL & HR);
      destruct (boolean_literal l) as [[]|], (boolean_literal r) as [[]|]; try done;
      rewrite ?(Hll _ eq_refl Hl), ?(Hlr _ eq_refl Hr), ?orb_false_r in Econst; try done; auto.
Qed.

Lemma simplify_type e s t e' :
  native_schema s → plain e = true → data_type e s = Ok t → simplify e s = Ok e' →
  data_type e' s = Ok t.
Proof.
  intros Hs. revert t e'.
  induction e as [n|v|l IHl op r IHr|e IH negated|e IH u|e IH alias|f e IH d|];
    intros t e' Hp Ht Hn; cbn [simplify] in Hn.
  - by eapply simplify_node_type.
  - by eapply simplify_node_type.
  - apply bind_ok in Hn as (l' & Hl & Hn). apply bind_ok in Hn as (r' & Hr & Hn).
    apply plain_binary in Hp as [Hpl Hpr]. cbn [data_type] in Ht.
    apply bind_ok in Ht as (x & Hx & Ht). apply bind_ok in Ht as (y & Hy & Ht).
    eapply simplify_node_type; [done| | |exact Hn].
    + apply plain_binary. split; [by eapply (simplify_plain l)|by eapply (simplify_plain r)].
    + cbn [data_type]. by rewrite (IHl x l'), (IHr y r').
  - apply bind_ok in Hn as (e1 & H1 & Hn).
    apply (simplify_node_type (IsNull e1 negated)); try done. change (plain e1 = true). by eapply (simplify_plain e).
  - apply bind_ok in Hn as (e1 & H1 & Hn). apply (simplify_node_type (Cast e1 u)); try done.
    apply plain_inv in Hp as (Hc & Hv & Hna & Hag). simpl in Hc. apply andb_true_iff in Hc as [Hu Hc].
    assert (plain e1 = true) as (? & ? & ? & ?)%plain_inv
      by (eapply (simplify_plain e); [by apply plain_inv|done]).
    apply plain_inv. simpl. by rewrite Hu.
  - apply plain_inv in Hp as (_ & _ & ? & _). done.
  - apply plain_inv in Hp as (_ & _ & _ & ?). done.
  - by injection Hn as <-.
Qed.
End simplify_type.
