(* ===== verification/OptimizerProps.v ===== *)
(** * What optimization preserves of a plan

    [optimize] returns a well-formed plan whose output columns have the names and
    types of the input plan's, for plans whose unaliased expressions keep their
    names under simplification. *)
From S2P Require Import Prelude Text Float Expr ExprProps Logical Optimizer SchemaProps.

(** ** Plain plans *)

(** Expressions whose name simplification does not change. *)
Definition stable_name (e : Expr) : bool :=
  match e with
  | Alias _ _ | Column _ | Literal _ => true
  | Aggregate _ (Column _ | Literal _ | Wildcard) _ => true
  | _ => false
  end.

(** An expression of a [SELECT] list or a [GROUP BY]. *)
Definition select_expr (e : Expr) : bool := stable_name e && plain (unalias e).

(** An aggregate of a [SELECT] list. *)
Definition aggregate_expr (e : Expr) : bool :=
  stable_name e &&
  match unalias e with Aggregate _ Wildcard _ => true | Aggregate _ x _ => plain x | _ => false end.

Fixpoint plain_plan (p : LogicalPlan) : Prop :=
  native_schema (plan_schema p) ∧
  match p with
  | LScan _ _ filters s => uniform_schema s ∧ Forall (λ e, plain e = true) filters
  | LProjection input exprs _ => plain_plan input ∧ Forall (λ e, select_expr e = true) exprs
  | LFilter input predicate _ => plain_plan input ∧ plain predicate = true
  | LAggregate input group aggr _ =>
      plain_plan input ∧ Forall (λ e, select_expr e = true) group ∧
      Forall (λ e, aggregate_expr e = true) aggr
  | LSort input exprs _ => plain_plan input ∧ Forall (λ s, plain (s_expr s) = true) exprs
  | LLimit input _ _ => plain_plan input
  | LJoin l r _ left_on right_on _ =>
      plain_plan l ∧ plain_plan r ∧ Forall (λ e, plain e = true) left_on ∧
      Forall (λ e, plain e = true) right_on
  end.

Lemma plain_plan_native p : plain_plan p → native_schema (plan_schema p).
Proof. by destruct p; intros [? _]. Qed.

Lemma native_signature s s' : signature s = signature s' → native_schema s → native_schema s'.
Proof.
  unfold native_schema. revert s'. induction s as [|f s IH]; intros [|f' s'] E; try done.
  injection E as _ E1 E2. rewrite !list.Forall_cons. intros [Hf Hs].
  split; [by rewrite <-E1|by apply IH].
Qed.

Section optimizer_schema.
Context `{FloatDisplay, K : Kernels, !KernelLaws K}.

Definition good (p : LogicalPlan) : Prop := wf_plan p ∧ plain_plan p.

(** ** Fields *)

Lemma field_signature e s s' : signature s = signature s' → field e s = field e s'.
Proof. intros E. unfold field. by rewrite (data_type_signature s s' e E). Qed.

Lemma collect_ext {A B} (f g : A → result B) l :
  (∀ x, f x = g x) → collect f l = collect g l.
Proof. intros E. induction l as [|x l IH]; [done|]. simpl. by rewrite E, IH. Qed.

Lemma simplify_literal v s : simplify (Literal v) s = Ok (Literal v).
Proof.
  destruct v as [| | |n| |]; try done. cbn [simplify]. unfold simplify_node. cbn. by rewrite N2Z.id.
Qed.

Lemma simplify_column n s e' : simplify (Column n) s = Ok e' → e' = Column n.
Proof.
  cbn [simplify]. unfold simplify_node. intros Hs. apply bind_ok in Hs as (t & _ & Hs).
  destruct (bool_decide (columns (Column n) = ∅)) eqn:E; [|by injection Hs].
  apply bool_decide_eq_true_1, columns_empty in E. done.
Qed.

Lemma simplify_stable e s e' :
  stable_name e = true → simplify e s = Ok e' → name e' = name e ∧ stable_name e' = true.
Proof.
  intros Hst Hs. destruct e as [n|v| | | |x alias|f x d|]; try done.
  - by apply simplify_column in Hs as ->.
  - rewrite simplify_literal in Hs. by injection Hs as <-.
  - cbn [simplify] in Hs. by apply bind_ok in Hs as (x' & _ & [= <-]).
  - cbn [simplify] in Hs. apply bind_ok in Hs as (x' & Hx & [= <-]).
    destruct x as [n|v| | | | | |]; try done.
    + by apply simplify_column in Hx as ->.
    + rewrite simplify_literal in Hx. by injection Hx as <-.
    + by injection Hx as <-.
Qed.

Lemma data_type_unalias e s :
  no_alias (unalias e) = true → data_type e s = data_type (unalias e) s.
Proof. destruct e as [| | | | |x| |]; try done. by destruct x. Qed.

(** Simplification below an alias. *)
Lemma simplify_unalias e s e' :
  no_alias (unalias e) = true → simplify e s = Ok e' →
  simplify (unalias e) s = Ok (unalias e') ∧ no_alias (unalias e') = true.
Proof.
  intros Hna Hs. destruct e as [| | | | |x alias| |]; cbn [unalias] in *.
  6:{ cbn [simplify] in Hs. apply bind_ok in Hs as (x' & Hx & [= <-]).
      split; [done|]. by eapply simplify_no_alias. }
  all: pose proof (simplify_no_alias _ _ _ Hna Hs) as Hna'; by destruct e'.
Qed.

Lemma select_simplify e s f e' :
  native_schema s → select_expr e = true → field e s = Ok f → simplify e s = Ok e' →
  field e' s = Ok f ∧ select_expr e' = true.
Proof.
  unfold select_expr. intros Hn [Hst Hp]%andb_true_iff Hf Hs.
  unfold field in *. apply bind_ok in Hf as (t & Ht & [= <-]).
  destruct (simplify_stable _ _ _ Hst Hs) as [-> Hst'].
  pose proof Hp as (_ & _ & Hna & _)%plain_inv.
  destruct (simplify_unalias _ _ _ Hna Hs) as [Hs' Hna'].
  rewrite data_type_unalias in Ht by done. rewrite data_type_unalias by done.
  rewrite (simplify_type _ _ _ _ Hn Hp Ht Hs'). split; [done|].
  rewrite Hst'. by rewrite (simplify_plain _ _ _ Hp Hs').
Qed.

Lemma aggregate_expr_inv e :
  aggregate_expr e = true → no_alias (unalias e) = true ∧
  ∃ f x d, unalias e = Aggregate f x d ∧ (x = Wildcard ∨ plain x = true).
Proof.
  unfold aggregate_expr. intros [_ Hu]%andb_true_iff.
  destruct (unalias e) as [| | | | | |f x d|]; try done.
  assert (x = Wildcard ∨ plain x = true) as Hx by (destruct x; auto).
  split; [|eauto 8]. by destruct Hx as [->|(_ & _ & ? & _)%plain_inv].
Qed.

Lemma aggregate_simplify e s f e' :
  native_schema s → aggregate_expr e = true → field e s = Ok f → simplify e s = Ok e' →
  field e' s = Ok f ∧ aggregate_expr e' = true.
Proof.
  intros Hn Ha Hf Hs. destruct (aggregate_expr_inv _ Ha) as (Hna & g & x & d & Eu & Hx).
  apply andb_true_iff in Ha as [Hst _].
  unfold field in *. apply bind_ok in Hf as (t & Ht & [= <-]).
  destruct (simplify_stable _ _ _ Hst Hs) as [-> Hst'].
  destruct (simplify_unalias _ _ _ Hna Hs) as [Hs' Hna'].
  rewrite data_type_unalias in Ht by done. rewrite data_type_unalias by done.
  rewrite Eu in Hs', Ht. cbn [simplify] in Hs'. apply bind_ok in Hs' as (x' & Hx' & [= Eu']).
  unfold aggregate_expr. rewrite Hst', <-Eu'.
  destruct Hx as [->|Hp].
  { injection Hx' as <-. by rewrite Ht. }
  pose proof (simplify_plain _ _ _ Hp Hx') as Hp'. split; [|by destruct x'].
  assert (data_type (Aggregate g x' d) s = Ok t) as ->; [|done].
  cbn [data_type] in *. destruct g; try done.
  all: try (apply bind_ok in Ht as (u & Hu & Ht)).
  all: first [by rewrite (simplify_type _ _ _ _ Hn Hp Hu Hx')|exact (simplify_type _ _ _ _ Hn Hp Ht Hx')].
Qed.

(** ** Constructors *)

Lemma collect_simplify (good : Expr → bool) es s fs es' :
  (∀ e f e', good e = true → field e s = Ok f → simplify e s = Ok e' →
     field e' s = Ok f ∧ good e' = true) →
  Forall (λ e, good e = true) es → collect (λ e, field e s) es = Ok fs →
  collect (λ e, simplify e s) es = Ok es' →
  collect (λ e, field e s) es' = Ok fs ∧ Forall (λ e, good e = true) es'.
Proof.
  intros Hg. revert fs es'. induction es as [|e es IH]; intros fs es' Hall Hf Hs.
  { injection Hs as <-. by injection Hf as <-. }
  apply list.Forall_cons in Hall as [He Hall]. cbn [collect] in Hf, Hs.
  apply bind_ok in Hf as (f & Hf & Hfs). apply bind_ok in Hfs as (fs1 & Hfs & [= <-]).
  apply bind_ok in Hs as (e' & He' & Hs). apply bind_ok in Hs as (es1 & Hs & [= <-]).
  destruct (Hg _ _ _ He Hf He') as [Hf' Hg']. destruct (IH _ _ Hall Hfs Hs) as [Hfs' Hall'].
  split; [|by constructor]. cbn [collect]. by rewrite Hf', Hfs'.
Qed.

Lemma expand_projection_id es s :
  Forall (λ e, select_expr e = true) es → expand_projection es s = es.
Proof.
  unfold expand_projection. induction 1 as [|e es He _ IH]; [done|].
  rewrite fmap_cons. simpl. rewrite IH. by destruct e.
Qed.

Lemma project_select i es p :
  Forall (λ e, select_expr e = true) es →
  project i es = Ok p ↔
  ∃ fs, collect (λ e, field e (plan_schema i)) es = Ok fs ∧ p = LProjection i es fs.
Proof.
  intros Hes. unfold project. rewrite expand_projection_id, bind_ok by done. naive_solver.
Qed.

Lemma filter_ok i e p :
  filter i e = Ok p ↔ data_type e (plan_schema i) = Ok DtBoolean ∧ p = LFilter i e (plan_schema i).
Proof.
  unfold filter. rewrite bind_ok. split.
  - intros (t & Ht & He). destruct (decide (t = DtBoolean)) as [->|]; [|done]. by injection He as <-.
  - intros [Ht ->]. by exists DtBoolean.
Qed.

Lemma sort_ok i es p :
  sort i es = Ok p ↔
  Forall (λ s, is_ok (data_type (s_expr s) (plan_schema i)) = true) es ∧
  p = LSort i es (plan_schema i).
Proof.
  unfold sort. rewrite bind_unit_ok, for_each_ok.
  assert (∀ s, (_ ← data_type (s_expr s) (plan_schema i); Ok tt) = Ok tt ↔
               is_ok (data_type (s_expr s) (plan_schema i)) = true) as E
    by (intros s; by destruct (data_type _ _)).
  setoid_rewrite E. naive_solver.
Qed.

Lemma join_schema_signature t l l' r r' :
  signature l = signature l' → signature r = signature r' →
  signature (join_schema t l r) = signature (join_schema t l' r').
Proof.
  unfold join_schema. intros Hl Hr. revert l l' r' Hl Hr.
  induction r as [|f r IH]; intros l l' [|f' r'] Hl Hr; try done.
  injection Hr as E1 E2 E3. simpl. apply IH; [|done]. unfold signature in *.
  rewrite !fmap_app, Hl. cbn. rewrite E1, E2.
  assert (existsb (λ g, bool_decide (f_name g = f_name f')) l
          = existsb (λ g, bool_decide (f_name g = f_name f')) l') as ->; [|done].
  clear -Hl. revert l' Hl. induction l as [|g l IH]; intros [|g' l'] Hl; try done.
  injection Hl as E1 _ E2. simpl. rewrite E1. f_equal. by apply IH.
Qed.

Lemma join_ok l r t lo ro p :
  join l r t lo ro = Ok p ↔
  (length lo = length ro ∧ lo ≠ []) ∧
  Forall (λ k : Expr * Expr, ∃ ty, data_type k.1 (plan_schema l) = Ok ty ∧
            data_type k.2 (plan_schema r) = Ok ty) (zip lo ro) ∧
  p = LJoin l r t lo ro (join_schema t (plan_schema l) (plan_schema r)).
Proof.
  unfold join. destruct (decide (length lo = length ro)) as [El|El];
    [rewrite (bool_decide_eq_true_2 _ El)|rewrite (bool_decide_eq_false_2 _ El); naive_solver].
  destruct (decide (lo = [])) as [En|En];
    [rewrite (bool_decide_eq_true_2 _ En); naive_solver|rewrite (bool_decide_eq_false_2 _ En)].
  simpl. rewrite bind_unit_ok, for_each_ok.
  assert (∀ k, check_join_key (plan_schema l) (plan_schema r) k = Ok tt ↔
    ∃ ty, data_type k.1 (plan_schema l) = Ok ty ∧ data_type k.2 (plan_schema r) = Ok ty) as E.
  { intros k. unfold check_join_key. rewrite bind_ok. setoid_rewrite bind_ok. split.
    - intros (x & Hx & y & Hy & He). destruct (decide (x = y)); naive_solver.
    - intros (ty & Hx & Hy). exists ty. split; [done|]. exists ty. split; [done|].
      by rewrite decide_True. }
  setoid_rewrite E. naive_solver.
Qed.

(** ** The passes *)

(** [p'] is a plan the optimizer may return for [p]. *)
Definition keeps_schema (p p' : LogicalPlan) : Prop :=
  good p' ∧ signature (plan_schema p') = signature (plan_schema p).

Lemma keeps_schema_refl p : good p → keeps_schema p p.
Proof. by split. Qed.

Lemma keeps_schema_trans p q r : keeps_schema p q → keeps_schema q r → keeps_schema p r.
Proof. intros [_ H1] [Hg H2]. split; [done|]. by rewrite H2. Qed.

(** Rebuilding a node over inputs with the same signatures. *)
Lemma project_keeps i i' es es' s p' :
  good i' → signature (plan_schema i') = signature (plan_schema i) →
  native_schema s → Forall (λ e, select_expr e = true) es' →
  collect (λ e, field e (plan_schema i)) es' = Ok s → project i' es' = Ok p' →
  keeps_schema (LProjection i es s) p'.
Proof.
  intros [Hw Hp] Hsig Hn Hes Hc Hproj. pose proof Hproj as (fs & Hfs & ->)%project_select; [|done].
  rewrite (collect_ext _ (λ e, field e (plan_schema i))) in Hfs by (intros; by apply field_signature).
  rewrite Hc in Hfs. injection Hfs as <-. split; [|done]. by split.
Qed.

Lemma filter_keeps i i' e e' s p' :
  good i' → signature (plan_schema i') = signature (plan_schema i) → s = plan_schema i →
  plain e' = true → filter i' e' = Ok p' → keeps_schema (LFilter i e s) p'.
Proof.
  intros [Hw Hp] Hsig -> He Hf. pose proof Hf as (Ht & ->)%filter_ok. split; [|done].
  split; [done|]. split; [exact (plain_plan_native _ Hp)|done].
Qed.

Lemma aggregate_keeps i i' g a g' a' s p' :
  good i' → signature (plan_schema i') = signature (plan_schema i) → native_schema s →
  Forall (λ e, select_expr e = true) g' → Forall (λ e, aggregate_expr e = true) a' →
  collect (λ e, field e (plan_schema i)) (g' ++ a') = Ok s → aggregate i' g' a' = Ok p' →
  keeps_schema (LAggregate i g a s) p'.
Proof.
  intros [Hw Hp] Hsig Hn Hg Ha Hc Hagg. pose proof Hagg as Hagg'. unfold aggregate in Hagg'.
  apply bind_ok in Hagg' as (fs & Hfs & [= <-]).
  rewrite (collect_ext _ (λ e, field e (plan_schema i))) in Hfs by (intros; by apply field_signature).
  rewrite Hc in Hfs. injection Hfs as <-. split; [|done]. by split.
Qed.

Lemma sort_keeps i i' es es' s p' :
  good i' → signature (plan_schema i') = signature (plan_schema i) → s = plan_schema i →
  Forall (λ x, plain (s_expr x) = true) es' → sort i' es' = Ok p' → keeps_schema (LSort i es s) p'.
Proof.
  intros [Hw Hp] Hsig -> He Hs. pose proof Hs as (Ht & ->)%sort_ok. split; [|done].
  split; [done|]. split; [exact (plain_plan_native _ Hp)|done].
Qed.

Lemma limit_keeps i i' n s :
  good i' → signature (plan_schema i') = signature (plan_schema i) → s = plan_schema i →
  keeps_schema (LLimit i n s) (limit i' n).
Proof.
  intros [Hw Hp] Hsig ->. split; [|done]. split; [done|]. split; [exact (plain_plan_native _ Hp)|done].
Qed.

Lemma join_keeps l r l' r' t lo ro lo' ro' s p' :
  good l' → good r' →
  signature (plan_schema l') = signature (plan_schema l) →
  signature (plan_schema r') = signature (plan_schema r) →
  s = join_schema t (plan_schema l) (plan_schema r) → native_schema s →
  Forall (λ e, plain e = true) lo' → Forall (λ e, plain e = true) ro' →
  join l' r' t lo' ro' = Ok p' → keeps_schema (LJoin l r t lo ro s) p'.
Proof.
  intros [Hw Hp] [Hw' Hp'] Hl Hr -> Hn Hlo Hro Hj. pose proof Hj as (_ & _ & ->)%join_ok.
  pose proof (join_schema_signature t _ _ _ _ Hl Hr) as Hsig. split; [|done].
  split; [done|]. split; [|done]. by eapply native_signature.
Qed.

Lemma good_projection i es s :
  good (LProjection i es s) →
  good i ∧ native_schema s ∧ Forall (λ e, select_expr e = true) es ∧
  collect (λ e, field e (plan_schema i)) es = Ok s.
Proof.
  intros [[Hw Hp] (Hn & Hpl & Hes)]. apply project_select in Hp as (fs & Hfs & [= <-]); [|done].
  by split_and!.
Qed.

Lemma good_filter i e s :
  good (LFilter i e s) →
  good i ∧ plain e = true ∧ s = plan_schema i ∧ data_type e (plan_schema i) = Ok DtBoolean.
Proof. intros [[Hw Hp] (Hn & Hpl & He)]. apply filter_ok in Hp as [Ht [= ->]]. by split_and!. Qed.

Lemma good_aggregate i g a s :
  good (LAggregate i g a s) →
  good i ∧ native_schema s ∧ Forall (λ e, select_expr e = true) g ∧
  Forall (λ e, aggregate_expr e = true) a ∧
  collect (λ e, field e (plan_schema i)) (g ++ a) = Ok s.
Proof.
  intros [[Hw Hp] (Hn & Hpl & Hg & Ha)]. unfold aggregate in Hp.
  apply bind_ok in Hp as (fs & Hfs & [= ->]). by split_and!.
Qed.

Lemma good_sort i es s :
  good (LSort i es s) →
  good i ∧ Forall (λ x, plain (s_expr x) = true) es ∧ s = plan_schema i.
Proof. intros [[Hw Hp] (Hn & Hpl & He)]. apply sort_ok in Hp as [_ [= ->]]. by split_and!. Qed.

Lemma good_limit i n s : good (LLimit i n s) → good i ∧ s = plan_schema i.
Proof. intros [[Hw Hp] (Hn & Hpl)]. unfold limit in Hp. injection Hp as ->. done. Qed.

Lemma good_join l r t lo ro s :
  good (LJoin l r t lo ro s) →
  good l ∧ good r ∧ s = join_schema t (plan_schema l) (plan_schema r) ∧ native_schema s ∧
  Forall (λ e, plain e = true) lo ∧ Forall (λ e, plain e = true) ro.
Proof.
  intros [(Hwl & Hwr & Hj) (Hn & Hpl & Hpr & Hlo & Hro)]. apply join_ok in Hj as (_ & _ & [= ->]).
  by split_and!.
Qed.

(** The inputs of a node. *)
Definition is_input (i p : LogicalPlan) : Prop :=
  match p with
  | LScan _ _ _ _ => False
  | LProjection j _ _ | LFilter j _ _ | LAggregate j _ _ _ | LSort j _ _ | LLimit j _ _ => i = j
  | LJoin l r _ _ _ _ => i = l ∨ i = r
  end.

Lemma optimize_children_keeps rec p p' :
  (∀ i i', is_input i p → good i → rec i = Ok i' → keeps_schema i i') →
  good p → optimize_children rec p = Ok p' → keeps_schema p p'.
Proof.
  intros Hrec Hg Hp. destruct p as [| | | | | |l r t lo ro s]; cbn [optimize_children] in Hp.
  - injection Hp as <-. by apply keeps_schema_refl.
  - apply good_projection in Hg as (Hi & Hn & Hes & Hc). apply bind_ok in Hp as (i' & Hi' & Hp).
    destruct (Hrec _ _ eq_refl Hi Hi') as [Hg' Hsig]. by eapply project_keeps.
  - apply good_filter in Hg as (Hi & He & Hs & _). apply bind_ok in Hp as (i' & Hi' & Hp).
    destruct (Hrec _ _ eq_refl Hi Hi') as [Hg' Hsig]. by eapply filter_keeps.
  - apply good_aggregate in Hg as (Hi & Hn & Hgr & Ha & Hc). apply bind_ok in Hp as (i' & Hi' & Hp).
    destruct (Hrec _ _ eq_refl Hi Hi') as [Hg' Hsig]. by eapply aggregate_keeps.
  - apply good_sort in Hg as (Hi & He & Hs). apply bind_ok in Hp as (i' & Hi' & Hp).
    destruct (Hrec _ _ eq_refl Hi Hi') as [Hg' Hsig]. by eapply sort_keeps.
  - apply good_limit in Hg as (Hi & Hs). apply bind_ok in Hp as (i' & Hi' & [= <-]).
    destruct (Hrec _ _ eq_refl Hi Hi') as [Hg' Hsig]. by apply limit_keeps.
  - apply good_join in Hg as (Hl & Hr & Hs & Hn & Hlo & Hro).
    apply bind_ok in Hp as (l' & Hl' & Hp). apply bind_ok in Hp as (r' & Hr' & Hp).
    destruct (Hrec _ _ (or_introl eq_refl) Hl Hl') as [Hgl Hsl],
      (Hrec _ _ (or_intror eq_refl) Hr Hr') as [Hgr Hsr].
    by apply (join_keeps l r l' r' t lo ro lo ro s p').
Qed.

Lemma collect_plain es s es' :
  Forall (λ e, plain e = true) es → collect (λ e, simplify e s) es = Ok es' →
  Forall (λ e, plain e = true) es'.
Proof.
  intros Hes Hc%collect_ok. induction Hc as [|e e' es es' He _ IH]; [done|].
  apply list.Forall_cons in Hes as [Hpe Hes]. constructor; [by eapply (simplify_plain e)|auto].
Qed.

Lemma simplify_expressions_keeps p p' :
  good p → simplify_expressions p = Ok p' → keeps_schema p p'.
Proof.
  intros Hg Hp. pose proof (plain_plan_native _ (proj2 Hg)) as Hns.
  destruct p as [tbl proj fs s|i es s|i e s|i g a s|i es s|i n s|l r t lo ro s];
    cbn [simplify_expressions] in Hp.
  - apply bind_ok in Hp as (fs' & Hfs & [= <-]). destruct Hg as [Hw (Hn & Hu & Hf)].
    split; [|done]. split; [|split; [done|split; [done|by eapply collect_plain]]].
    cbn [wf_plan] in *. apply collect_ok in Hfs. clear -Hfs Hw Hn Hf KernelLaws0.
    induction Hfs as [|e e' fs fs' He _ IH]; [done|]. apply list.Forall_cons in Hw as [Hwe Hw].
    apply list.Forall_cons in Hf as [Hfe Hf]. constructor; [by eapply (simplify_type e)|auto].
  - apply good_projection in Hg as (Hi & Hn & Hes & Hc). apply bind_ok in Hp as (es' & Hes' & Hp).
    destruct (collect_simplify select_expr es (plan_schema i) s es') as [Hc' Hsel]; try done.
    { intros e f e' ? ? ?. eapply select_simplify; try done. by apply plain_plan_native, Hi. }
    by eapply project_keeps.
  - apply good_filter in Hg as (Hi & He & Hs & _). apply bind_ok in Hp as (e' & He' & Hp).
    apply (filter_keeps i i e e' s p'); try done. by eapply (simplify_plain e).
  - apply good_aggregate in Hg as (Hi & Hn & Hgr & Ha & Hc).
    apply bind_ok in Hp as (g' & Hg' & Hp). apply bind_ok in Hp as (a' & Ha' & Hp).
    apply collect_app in Hc as (s1 & s2 & Hc1 & Hc2 & ->).
    pose proof (plain_plan_native _ (proj2 Hi)) as Hni.
    destruct (collect_simplify select_expr g (plan_schema i) s1 g') as [Hd1 Hs1];
      [by intros; eapply select_simplify|done..|].
    destruct (collect_simplify aggregate_expr a (plan_schema i) s2 a')
      as [Hd2 Hs2]; [by intros; eapply aggregate_simplify|done..|].
    apply (aggregate_keeps i i g a g' a' (s1 ++ s2) p'); try done. apply collect_app. by exists s1, s2.
  - apply good_sort in Hg as (Hi & He & Hs). apply bind_ok in Hp as (es' & Hes' & Hp).
    apply (sort_keeps i i es es' s p'); try done. apply collect_ok in Hes'. clear -Hes' He KernelLaws0.
    induction Hes' as [|x x' es es' Hx _ IH]; [done|]. apply list.Forall_cons in He as [Hpx He].
    unfold simplify_sort in Hx. apply bind_ok in Hx as (e' & He' & [= <-]).
    constructor; [by eapply (simplify_plain (s_expr x))|auto].
  - apply good_limit in Hg as (Hi & Hs). injection Hp as <-. by apply limit_keeps.
  - apply good_join in Hg as (Hl & Hr & Hs & Hn & Hlo & Hro).
    apply bind_ok in Hp as (lo' & Hlo' & Hp). apply bind_ok in Hp as (ro' & Hro' & Hp).
    apply (join_keeps l r l r t lo ro lo' ro' s p'); try done;
      [by eapply (collect_plain lo)|by eapply (collect_plain ro)].
Qed.

Lemma push_filter_into_scan_keeps p p' :
  good p → push_filter_into_scan p = Ok p' → keeps_schema p p'.
Proof.
  intros Hg Hp. destruct p as [|i|i e s| | | |];
    try (injection Hp as <-; by apply keeps_schema_refl).
  pose proof Hg as (Hi & He & -> & Ht)%good_filter.
  destruct i as [tbl proj fs s| | | | | |]; cbn [push_filter_into_scan] in Hp;
    try by eapply filter_keeps.
  injection Hp as <-. split; [|done]. destruct Hi as [Hw (Hn & Hu & Hf)].
  split; [|split; [done|split; [done|]]]; cbn [wf_plan]; apply list.Forall_app; by split; [|constructor].
Qed.

(** ** Projection pushdown *)

Lemma elem_of_required es n : n ∈ required_columns es ↔ ∃ e, e ∈ es ∧ n ∈ columns e.
Proof.
  unfold required_columns.
  assert (∀ acc, n ∈ foldl (λ required e, columns e ∪ required) acc es ↔
                 n ∈ acc ∨ ∃ e, e ∈ es ∧ n ∈ columns e) as Hg; [|rewrite Hg; set_solver].
  induction es as [|e es IH]; intros acc; simpl; [set_solver|]. rewrite IH. set_solver.
Qed.

Lemma columns_unqualified e n : n ∈ columns e → unqualified n = n.
Proof.
  assert (∀ s, (∀ m, m ∈ s → unqualified m = m) → ∀ m, m ∈ collect_columns e s → unqualified m = m)
    as Hg; [|by apply Hg].
  induction e; intros s Hs m Hm; simpl in Hm; eauto.
  apply elem_of_union in Hm as [->%elem_of_singleton|Hm]; [|by apply Hs].
  apply after_last_idemp.
Qed.

Lemma sorted_names_elem s n : n ∈ sorted_names s ↔ n ∈ s.
Proof. unfold sorted_names. by rewrite merge_sort_Permutation, elem_of_elements. Qed.

Lemma sorted_names_NoDup s : NoDup (sorted_names s).
Proof. unfold sorted_names. rewrite merge_sort_Permutation. apply NoDup_elements. Qed.

Lemma projected_fields_narrows s required indices t :
  (∀ n, n ∈ required → unqualified n = n) →
  projection_indices s required = Ok indices → fields_at s indices = Ok t →
  narrows (sorted_names required) s t.
Proof.
  intros Hun Hi Ht. split; [|split; [|apply sorted_names_NoDup]].
  - assert (∀ n, n ∈ sorted_names required → unqualified n = n) as Hn
      by (intros n; rewrite sorted_names_elem; apply Hun).
    unfold projection_indices in Hi. unfold fields_at in Ht. apply collect_ok in Hi.
    apply collect_ok in Ht. revert t Ht Hn.
    induction Hi as [|n i ns ixs Hn _ IH]; intros t Ht Hun'; inversion Ht as [|? f ? t' Hf Ht']; subst; [done|].
    rewrite fmap_cons. f_equal; [|apply IH; [done|by intros; apply Hun'; right]].
    apply resolve_field_refers in Hn as (g & Hg & [Hr _]). rewrite Hg in Hf. injection Hf as ->.
    rewrite Hr. apply Hun'. by left.
  - unfold fields_at in Ht. apply collect_ok in Ht. clear Hi.
    induction Ht as [|i f ixs t Hf _ IH]; constructor; [|done].
    destruct (s !! i) eqn:E; [|done]. injection Hf as ->. by eapply list_elem_of_lookup_2.
Qed.

Lemma collect_narrows names s t es fs :
  uniform_schema s → narrows names s t →
  (∀ e, e ∈ es → columns e ⊆ list_to_set names) →
  collect (λ e, field e s) es = Ok fs → collect (λ e, field e t) es = Ok fs.
Proof.
  intros Hu Ht Hc Hf. apply collect_ok in Hf. apply collect_ok.
  induction Hf as [|e f es fs He _ IH]; constructor.
  - unfold field in *. apply bind_ok in He as (ty & Hty & He).
    by rewrite (narrows_data_type names s t e ty) by (try done; apply Hc; by left).
  - apply IH. intros; apply Hc. by right.
Qed.

(** The narrowed scan. *)
Lemma narrowed_scan_good tbl pr pr' fs s t names :
  good (LScan tbl pr fs s) → narrows names s t →
  (∀ e, e ∈ fs → columns e ⊆ list_to_set names) → good (LScan tbl pr' fs t).
Proof.
  intros [Hw (Hn & Hu & Hf)] Ht Hc. split; [|split; [|split; [|done]]]; cbn [wf_plan plan_schema] in *.
  - rewrite list.Forall_forall in *. intros e He. eapply narrows_data_type; try done; auto.
  - destruct Ht as (_ & Hin & _). unfold native_schema in *. rewrite list.Forall_forall in *. auto.
  - by eapply narrows_uniform.
Qed.

Lemma push_projection_into_scan_keeps p p' :
  good p → push_projection_into_scan p = Ok p' → keeps_schema p p'.
Proof.
  intros Hg Hp. destruct p as [|i es s0| | | | |]; try (injection Hp as <-; by apply keeps_schema_refl).
  pose proof Hg as (Hi & Hn & Hes & Hc)%good_projection.
  destruct i as [tbl pr fs s| | | | | |]; cbn [push_projection_into_scan] in Hp;
    try by eapply project_keeps.
  destruct (decide _); [by eapply project_keeps|].
  apply bind_ok in Hp as (indices & Hi1 & Hp). apply bind_ok in Hp as (t & Ht & Hp).
  set (required := required_columns (es ++ fs)) in *.
  assert (∀ n, n ∈ required → unqualified n = n) as Hun.
  { intros m (e & _ & Hm)%elem_of_required. by eapply columns_unqualified. }
  assert (∀ e, e ∈ es ++ fs → columns e ⊆ list_to_set (sorted_names required)) as Hcov.
  { intros e He m Hm. apply elem_of_list_to_set, sorted_names_elem, elem_of_required. eauto. }
  pose proof (projected_fields_narrows _ _ _ _ Hun Hi1 Ht) as Hnar.
  assert (uniform_schema s) as Hu by apply Hi.
  apply project_select in Hp as (fs' & Hfs' & ->); [|done]. cbn [plan_schema] in *.
  pose proof (collect_narrows _ s t es s0 Hu Hnar) as Hcn.
  assert (collect (λ e, field e t) es = Ok s0) as Hct
    by (apply Hcn; [intros; apply Hcov, elem_of_app; by left|done]).
  rewrite Hct in Hfs'. injection Hfs' as <-.
  assert (good (LScan tbl (Some (f_name <$> t)) fs t)) as [Hw Hpl].
  { eapply narrowed_scan_good; [done..|]. intros; apply Hcov, elem_of_app. by right. }
  split; [|done]. split; [|by split]. split; [done|]. apply project_select; [done|]. by exists s0.
Qed.

(** ** Identity projections *)

(** Over undotted columns a name resolves only to the column of that name. *)
Lemma identity_index s n i j f :
  Forall (λ f, dotted f = false) s → s !! i = Some f → unqualified n = f_name f →
  resolve_field_index s n = Ok j → j = i.
Proof.
  intros Hd Hf Hn Hr.
  assert (∀ k x, s !! k = Some x → short_name x = f_name x) as Hsh.
  { intros k x Hx. apply after_last_id. rewrite list.Forall_forall in Hd.
    eapply Hd, list_elem_of_lookup_2; done. }
  unfold resolve_field_index in Hr.
  assert (∀ p k, field_indices p s = [k] → p f = true → k = i) as Hone.
  { intros p k Hk Hpf. assert (i ∈ [k]) as Hin by (rewrite <-Hk; apply elem_of_field_indices; eauto).
    by apply list_elem_of_singleton in Hin. }
  destruct (field_indices (λ f, bool_decide (f_name f = n)) s) as [|k [|]] eqn:E; [|..|done].
  - destruct (_ && _); [done|].
    destruct (field_indices (λ f, bool_decide (unqualified (f_name f) = unqualified n)) s)
      as [|k [|]] eqn:E2; [done| |done]. injection Hr as ->. apply (Hone _ _ E2).
    apply bool_decide_eq_true_2. change (short_name f = unqualified n). rewrite (Hsh i); [congruence|done].
  - injection Hr as ->. apply (Hone _ _ E). apply bool_decide_eq_true_2.
    assert (j ∈ [j]) as Hj by by left. rewrite <-E in Hj.
    apply elem_of_field_indices in Hj as (x & Hx & Hxn%bool_decide_eq_true_1).
    pose proof (Hsh _ _ Hx) as Hsx. unfold short_name in Hsx. congruence.
Qed.

Lemma is_identity_inv e f :
  is_identity e f = true → ∃ n, unalias e = Column n ∧ name e = f_name f ∧ unqualified n = f_name f.
Proof. unfold is_identity. destruct (unalias e) as [n| | | | | | |]; try done. intros Hid. bool_to_prop. by exists n. Qed.

Lemma is_identity_field e s i f g :
  s !! i = Some f → is_identity e f = true → no_alias (unalias e) = true →
  field e s = Ok g → Forall (λ f, dotted f = false) s →
  f_name g = f_name f ∧ f_type g = f_type f.
Proof.
  intros Hf Hid Hna Hg Hd. apply is_identity_inv in Hid as (n & Hu & Hname & Hn). unfold field in Hg.
  apply bind_ok in Hg as (t & Ht & [= <-]). rewrite data_type_unalias in Ht by done. rewrite Hu in Ht.
  simpl. split; [done|]. cbn [data_type] in Ht. unfold find_field in Ht.
  destruct (resolve_field_index s n) as [j| |] eqn:Hr; try done. cbn in Ht.
  assert (j = i) as -> by by eapply identity_index. rewrite Hf in Ht. by injection Ht as <-.
Qed.

(** The columns a projection would repeat. *)
Definition identity_projection (es : list Expr) (s : Schema) : Prop :=
  length es = length s ∧ (∀ k e f, es !! k = Some e → s !! k = Some f → is_identity e f = true) ∧
  Forall (λ f, dotted f = false) s.

Lemma identity_projection_spec es s :
  bool_decide (length es = length s) && forallb (λ x : Expr * Field, is_identity x.1 x.2) (zip es s) = true →
  identity_projection es s.
Proof.
  intros [Hl%bool_decide_eq_true_1 Hid]%andb_true_iff. rewrite forallb_forall in Hid.
  assert (∀ k e f, es !! k = Some e → s !! k = Some f → is_identity e f = true) as Hid'.
  { intros k e f He Hf. apply (Hid (e, f)), list_elem_of_In, list_elem_of_lookup. exists k.
    rewrite lookup_zip_with, He, Hf. done. }
  split; [done|]. split; [done|]. apply Forall_lookup. intros k f Hf.
  destruct (lookup_lt_is_Some_2 es k) as [e He]; [rewrite Hl; by eapply lookup_lt_Some|].
  destruct (is_identity_inv _ _ (Hid' _ _ _ He Hf)) as (n & _ & _ & Hn).
  unfold dotted. rewrite <-Hn. apply after_last_no_sep.
Qed.

Lemma eliminate_identity_projection_keeps p p' :
  good p → eliminate_identity_projection p = Ok p' → keeps_schema p p'.
Proof.
  intros Hg Hp. destruct p as [|i es s0| | | | |]; try (injection Hp as <-; by apply keeps_schema_refl).
  pose proof Hg as (Hi & Hn & Hes & Hc)%good_projection.
  cbn [eliminate_identity_projection] in Hp. destruct (_ && _) eqn:E; [|by eapply project_keeps].
  injection Hp as <-. split; [done|]. apply identity_projection_spec in E as (Hl & Hid' & Hd).
  apply collect_ok in Hc. symmetry.
  apply list_eq_same_length with (length es); unfold signature; rewrite ?length_fmap.
  - done.
  - symmetry. by eapply Forall2_length.
  - intros k x y Hk Hx Hy. rewrite list_lookup_fmap in Hx, Hy.
    apply fmap_Some in Hx as (g & Hg' & ->). apply fmap_Some in Hy as (f & Hf & ->).
    destruct (Forall2_lookup_r _ _ _ _ _ Hc Hg') as (e & He & Hfe). rewrite Forall_lookup in Hes.
    specialize (Hes _ _ He). apply andb_true_iff in Hes as [_ (_ & _ & Hna & _)%plain_inv].
    destruct (is_identity_field e _ k f g Hf (Hid' _ _ _ He Hf) Hna Hfe Hd) as [-> ->]. done.
Qed.

Lemma optimize_node_keeps p p' : good p → optimize_node p = Ok p' → keeps_schema p p'.
Proof.
  intros Hg Hp. unfold optimize_node in Hp.
  apply bind_ok in Hp as (p1 & H1 & Hp). apply bind_ok in Hp as (p2 & H2 & Hp).
  apply bind_ok in Hp as (p3 & H3 & Hp).
  pose proof (simplify_expressions_keeps _ _ Hg H1) as K1.
  pose proof (push_filter_into_scan_keeps _ _ (proj1 K1) H2) as K2.
  pose proof (push_projection_into_scan_keeps _ _ (proj1 K2) H3) as K3.
  pose proof (eliminate_identity_projection_keeps _ _ (proj1 K3) Hp) as K4.
  eauto using keeps_schema_trans.
Qed.

Lemma optimize_keeps p p' : good p → optimize p = Ok p' → keeps_schema p p'.
Proof.
  revert p'. induction p as [tbl pr fs s|i IH es s|i IH e s|i IH g a s|i IH es s|i IH n s|
    l IHl r IHr t lo ro s]; intros p' Hg Hp;
    match type of Hp with optimize ?q = _ =>
      change (optimize_children optimize q ≫= optimize_node = Ok p') in Hp end;
    apply bind_ok in Hp as (p1 & H1 & Hp);
    (apply optimize_children_keeps in H1;
       [eapply keeps_schema_trans; [done|]; apply optimize_node_keeps; [apply H1|done]
       |simpl; naive_solver|done]).
Qed.
End optimizer_schema.

(** ** The property *)

(** Whenever [optimize] returns a plan, that plan is well formed (every node
    is what its checked constructor returns for its inputs) and its output columns
    have the same names and types, in the same order, as the plan it was given,
    through filter and projection pushdown, expression simplification and the
    removal of identity projections. *)
Theorem optimize_preserves_schema `{FloatDisplay, K : Kernels, !KernelLaws K} p p' :
  wf_plan p → plain_plan p → optimize p = Ok p' →
  wf_plan p' ∧ signature (plan_schema p') = signature (plan_schema p).
Proof. intros Hw Hp Ho. by destruct (optimize_keeps p p' (conj Hw Hp) Ho) as [[? _] ?]. Qed.

(** ** A worked plan *)

(** Floating-point literals do not occur in the examples. *)
#[local] Instance no_floats : FloatDisplay := λ _, "0.0".

(** [SELECT t.a, t.b AND TRUE AS ok FROM t WHERE t.a > 1 + 2] *)
Definition demo_table_schema : Schema :=
  [MkField "t.a" DtInt64 true; MkField "t.b" DtBoolean true; MkField "t.c" DtUtf8 true].
Definition demo_plan : result LogicalPlan :=
  p ← filter (scan "t" demo_table_schema)
        (Binary (Column "t.a") OpGt (Binary (Literal (Int64 1)) OpAdd (Literal (Int64 2))));
  project p
    [Column "t.a"; Alias (Binary (Column "t.b") OpAnd (Literal (Boolean true))) "ok"].
Definition demo_optimized : LogicalPlan :=
  let s := [MkField "t.a" DtInt64 true; MkField "t.b" DtBoolean true] in
  LProjection
    (LScan "t" (Some ["t.a"; "t.b"]) [Binary (Column "t.a") OpGt (Literal (Int64 3))] s)
    [Column "t.a"; Alias (Column "t.b") "ok"]
    [MkField "a" DtInt64 true; MkField "ok" DtBoolean true].

Lemma optimize_preserves_schema_witness :
  ∃ p, demo_plan = Ok p ∧ optimize p = Ok demo_optimized ∧ wf_plan demo_optimized ∧
    signature (plan_schema demo_optimized) = signature (plan_schema p).
Proof.
  eexists. split; [reflexivity|]. split; [vm_compute; reflexivity|].
  apply (optimize_preserves_schema _ demo_optimized).
  - split; [split; [constructor|reflexivity]|reflexivity].
  - repeat split; try (by repeat constructor);
      [by apply (bool_decide_unpack _)|exists true; by repeat constructor].
  - vm_compute. reflexivity.
Defined.

(** ** Names that simplification changes *)

(** [SELECT SUM(t.a * (1 + 1)) FROM t]: simplification renames the aggregate's
    output column, and the projection above it, which refers to the column by its
    old name, no longer resolves: a valid query is rejected. *)
Definition renamed_plan : result LogicalPlan :=
  let sum := Aggregate Sum (Binary (Column "t.a") OpMultiply
               (Binary (Literal (Int64 1)) OpAdd (Literal (Int64 1)))) false in
  p ← aggregate (scan "t" demo_table_schema) [] [sum];
  project p [Column (name sum)].
Example optimize_rejects_valid_query :
  is_ok renamed_plan = true ∧
  (p ← renamed_plan; optimize p) = Err (missing_column "SUM((#t.a * (1 + 1)))").
Proof. split; reflexivity. Qed.

(** [SELECT SUM(t.a) FROM t]: the output column is what follows the last dot of
    the aggregate's name. *)
Example aggregate_column_name_garbled :
  (p ← aggregate (scan "t" demo_table_schema) [] [Aggregate Sum (Column "t.a") false];
   p ← project p [Column (name (Aggregate Sum (Column "t.a") false))];
   Ok (f_name <$> plan_schema p)) = Ok ["a)"].
Proof. reflexivity. Qed.
