(* ===== verification/Catalog.v ===== *)
(** * Tables and the catalog ([src/storage/catalog.rs])

    [TableProvider] is the source's trait as a record of its methods; the catalog
    maps lower-case names to providers.  [MemoryTable] is the in-memory provider.
    The CSV and Parquet providers are in [FileTables]. *)
From S2P Require Import Prelude Text Float Expr.

(** The methods of the trait.  [scan_partition] is for the batch size of the
    session. *)
Record TableProvider := MkTableProvider {
  tp_schema : Schema;
  tp_partition_count : nat;
  tp_estimated_bytes : N;
  tp_partition_may_match : nat → list Expr → result bool;
  tp_scan_partition : nat → option (list nat) → result (list RecordBatch);
}.

(** [arrow]'s record batches: [RecordBatch::try_new], [project], [slice], the
    filter kernel, and the memory a batch occupies. *)
Class BatchOps := {
  try_new : Schema → list array → result RecordBatch;
  batch_project : RecordBatch → list nat → result RecordBatch;
  batch_slice : RecordBatch → nat → nat → RecordBatch;
  filter_record_batch : RecordBatch → list (option cell) → result RecordBatch;
  concat_batches : Schema → list RecordBatch → result RecordBatch;
  take_record_batch : RecordBatch → list nat → result RecordBatch;
  batch_bytes : RecordBatch → N;
}.

(** ** The catalog *)

Record Catalog := MkCatalog { tables : gmap string TableProvider }.

Definition Catalog_default : Catalog := MkCatalog ∅.

Definition register (c : Catalog) (name : string) (provider : TableProvider) : Catalog :=
  MkCatalog (<[to_ascii_lowercase name := provider]> (tables c)).

Definition table (c : Catalog) (name : string) : result TableProvider :=
  ok_or (tables c !! to_ascii_lowercase name) (NotFound ("table '" +:+ name +:+ "'")).

Definition table_names (c : Catalog) : list string := btree_keys (tables c).

Definition snapshot (c : Catalog) : Catalog := MkCatalog (tables c).

(** [schema.field(index)] for every index of a projection *)
Definition projected_schema (schema : Schema) (projection : option (list nat)) : result Schema :=
  match projection with
  | None => Ok schema
  | Some indices => collect (λ i, expect (schema !! i) "index out of bounds") indices
  end.

(** ** In-memory tables *)

Section memory_table.
Context `{BatchOps}.

Record MemoryTable := MkMemoryTable {
  mt_schema : Schema;
  mt_partitions : list (list RecordBatch);
  mt_estimated_bytes : N;
}.

(** The sum of [u64]s: overflow panics. *)
Definition sum_bytes_u64 (l : list N) : result N :=
  let total := foldl N.add 0%N l in
  if (total <=? U64_MAX)%N then Ok total else Panic "attempt to add with overflow".

Definition MemoryTable_new (schema : Schema) (partitions : list (list RecordBatch))
    : result MemoryTable :=
  if existsb (λ b, negb (bool_decide (b_schema b = schema))) (mjoin partitions)
  then Err (Planning "all in-memory batches must use the table schema")
  else
    bytes ← sum_bytes_u64 (batch_bytes <$> mjoin partitions);
    Ok (MkMemoryTable schema (if decide (partitions = []) then [[]] else partitions) bytes).

(** Batch [index] goes to partition [index % partitions]. *)
Definition round_robin (n : nat) (batches : list RecordBatch) : list (list RecordBatch) :=
  foldl (λ out x, list_alter (λ l, l ++ [x.2]) (x.1 mod n) out)
    (replicate n []) (enumerate batches).

Definition from_batches (batches : list RecordBatch) (partitions : nat) : result MemoryTable :=
  first ← ok_or (head batches) (Planning "at least one batch is required");
  MemoryTable_new (b_schema first) (round_robin (Nat.max partitions 1) batches).

Definition MemoryTable_scan_partition (t : MemoryTable) (partition : nat)
    (projection : option (list nat)) : result (list RecordBatch) :=
  batches ← ok_or (mt_partitions t !! partition)
    (Execution ("invalid partition " +:+ pretty (N.of_nat partition)));
  collect (λ b, match projection with Some indices => batch_project b indices | None => Ok b end)
    batches.

(** The trait implementation; pruning is the trait's default. *)
Definition memory_provider (t : MemoryTable) : TableProvider := {|
  tp_schema := mt_schema t;
  tp_partition_count := length (mt_partitions t);
  tp_estimated_bytes := mt_estimated_bytes t;
  tp_partition_may_match _ _ := Ok true;
  tp_scan_partition := MemoryTable_scan_partition t;
|}.
End memory_table.

(** ** Facts *)

(** Registration is by case-insensitive name, and a later one wins. *)
Lemma table_register c n m p :
  table (register c n p) m =
  if decide (to_ascii_lowercase n = to_ascii_lowercase m) then Ok p else table c m.
Proof.
  unfold table, register. simpl. destruct (decide _) as [->|Hne].
  - by rewrite lookup_insert_eq.
  - by rewrite lookup_insert_ne.
Qed.
