(* ===== verification/Physical.v ===== *)
(** * Physical plans and the planner ([src/runtime/execution.rs],
    [src/query/planner.rs]) *)
From S2P Require Import Prelude Text Float Expr Logical Catalog.

(** [OperatorId] is a [u32]. *)
Inductive PhysicalPlan :=
| PScan (id : N) (table_name : string) (provider : TableProvider) (projection : option (list nat))
    (filters : list Expr) (schema : Schema)
| PProjection (id : N) (input : PhysicalPlan) (exprs : list Expr) (schema : Schema)
| PFilter (id : N) (input : PhysicalPlan) (predicate : Expr) (schema : Schema)
| PHashAggregate (id : N) (input : PhysicalPlan) (group_exprs aggregate_exprs : list Expr)
    (schema : Schema)
| PSort (id : N) (input : PhysicalPlan) (exprs : list SortExpr) (schema : Schema)
| PTopK (id : N) (input : PhysicalPlan) (exprs : list SortExpr) (limit : N) (schema : Schema)
| PLimit (id : N) (input : PhysicalPlan) (limit : N) (schema : Schema)
| PHashJoin (id : N) (left right : PhysicalPlan) (join_type : JoinType)
    (left_on right_on : list Expr) (schema : Schema).

Definition plan_id (p : PhysicalPlan) : N :=
  match p with
  | PScan id _ _ _ _ _ | PProjection id _ _ _ | PFilter id _ _ _ | PHashAggregate id _ _ _ _
  | PSort id _ _ _ | PTopK id _ _ _ _ | PLimit id _ _ _ | PHashJoin id _ _ _ _ _ _ => id
  end.

Definition plan_name (p : PhysicalPlan) : string :=
  match p with
  | PScan _ _ _ _ _ _ => "Scan" | PProjection _ _ _ _ => "Projection" | PFilter _ _ _ _ => "Filter"
  | PHashAggregate _ _ _ _ _ => "HashAggregate" | PSort _ _ _ _ => "Sort"
  | PTopK _ _ _ _ _ => "TopK" | PLimit _ _ _ _ => "Limit" | PHashJoin _ _ _ _ _ _ _ => "HashJoin"
  end.

Definition physical_schema (p : PhysicalPlan) : Schema :=
  match p with
  | PScan _ _ _ _ _ s | PProjection _ _ _ s | PFilter _ _ _ s | PHashAggregate _ _ _ _ s
  | PSort _ _ _ s | PTopK _ _ _ _ s | PLimit _ _ _ s | PHashJoin _ _ _ _ _ _ s => s
  end.

(** ** The planner *)

(** [*next_id += 1] on a [u32]. *)
Definition next_operator_id (next_id : N) : result N :=
  if (next_id <? U32_MAX)%N then Ok (N.succ next_id) else Panic "attempt to add with overflow".

(** [build] threads [next_id]: a node takes its identifier before its inputs. *)
Fixpoint build (logical : LogicalPlan) (catalog : Catalog) (next_id : N)
    : result (PhysicalPlan * N) :=
  let id := next_id in
  next_id ← next_operator_id next_id;
  match logical with
  | LScan name projection filters schema =>
      provider ← table catalog name;
      projection ← match projection with
                   | None => Ok None
                   | Some columns =>
                       indices ← collect (find_column (tp_schema provider)) columns;
                       Ok (Some indices)
                   end;
      Ok (PScan id name provider projection filters schema, next_id)
  | LProjection input exprs schema =>
      '(input, next_id) ← build input catalog next_id;
      Ok (PProjection id input exprs schema, next_id)
  | LFilter input predicate schema =>
      '(input, next_id) ← build input catalog next_id;
      Ok (PFilter id input predicate schema, next_id)
  | LAggregate input group_exprs aggregate_exprs schema =>
      '(input, next_id) ← build input catalog next_id;
      Ok (PHashAggregate id input group_exprs aggregate_exprs schema, next_id)
  | LSort input exprs schema =>
      '(input, next_id) ← build input catalog next_id;
      Ok (PSort id input exprs schema, next_id)
  | LLimit (LSort sort_input exprs _) limit schema =>
      '(input, next_id) ← build sort_input catalog next_id;
      Ok (PTopK id input exprs limit schema, next_id)
  | LLimit input limit schema =>
      '(input, next_id) ← build input catalog next_id;
      Ok (PLimit id input limit schema, next_id)
  | LJoin l r join_type left_on right_on schema =>
      '(l, next_id) ← build l catalog next_id;
      '(r, next_id) ← build r catalog next_id;
      Ok (PHashJoin id l r join_type left_on right_on schema, next_id)
  end.

Definition create_physical_plan (logical : LogicalPlan) (catalog : Catalog) : result PhysicalPlan :=
  '(p, _) ← build logical catalog 0%N; Ok p.

(** ** Plans as text ([src/query/logical.rs], [src/runtime/execution.rs])

    [explain] of logical and physical plans: a line per operator, the inputs of an
    operator below it and indented by two spaces. *)

(** [{:?}] of a string: its characters in quotes, with escapes. *)
Class StrDebug := debug_str : string → string.

Definition newline : string := String (Ascii.ascii_of_nat 10) EmptyString.

(** [indent] times two spaces *)
Definition indentation (indent : nat) : string := String.concat EmptyString (replicate indent "  ").

(** [iter.collect::<Vec<_>>().join(", ")] *)
Definition comma_separated (l : list string) : string := String.concat ", " l.

Definition display_join_type (t : JoinType) : string := match t with Inner => "Inner" | JoinLeft => "Left" end.

Section explain.
Context `{FloatDisplay, StrDebug}.

Definition display_exprs (exprs : list Expr) : string := comma_separated (display_expr <$> exprs).

Definition format_exprs (label : string) (exprs : list Expr) : string :=
  label +:+ ": [" +:+ display_exprs exprs +:+ "]" +:+ newline.

Definition display_sort (s : SortExpr) : string :=
  display_expr (s_expr s) +:+ " " +:+ (if s_ascending s then "ASC" else "DESC").

Definition display_filters (filters : list Expr) : string :=
  if decide (filters = []) then EmptyString else " filters=[" +:+ display_exprs filters +:+ "]".

(** *** Logical plans *)

Fixpoint format_logical (indent : nat) (p : LogicalPlan) : string :=
  indentation indent +:+
  match p with
  | LScan table projection filters _ =>
      "Scan: " +:+ table +:+
      match projection with
      | Some columns => " projection=[" +:+ comma_separated (debug_str <$> columns) +:+ "]"
      | None => EmptyString
      end +:+ display_filters filters +:+ newline
  | LProjection input exprs _ => format_exprs "Project" exprs +:+ format_logical (S indent) input
  | LFilter input predicate _ => "Filter: " +:+ display_expr predicate +:+ newline +:+ format_logical (S indent) input
  | LAggregate input group_exprs aggregate_exprs _ =>
      "Aggregate: group=[" +:+ display_exprs group_exprs +:+ "] aggr=[" +:+ display_exprs aggregate_exprs +:+ "]" +:+ newline +:+
      format_logical (S indent) input
  | LSort input exprs _ =>
      "Sort: [" +:+ comma_separated (display_sort <$> exprs) +:+ "]" +:+ newline +:+ format_logical (S indent) input
  | LLimit input limit _ => "Limit: " +:+ pretty limit +:+ newline +:+ format_logical (S indent) input
  | LJoin left_input right_input join_type left_on right_on _ =>
      "HashJoin: " +:+ display_join_type join_type +:+ " on [" +:+ display_exprs left_on +:+ " = " +:+
      display_exprs right_on +:+ "]" +:+ newline +:+
      format_logical (S indent) left_input +:+ format_logical (S indent) right_input
  end.

Definition explain_logical (p : LogicalPlan) : string := format_logical 0 p.

(** *** Physical plans *)

(** [{projection:?}] of an [Option<Vec<usize>>] *)
Definition debug_projection (projection : option (list nat)) : string :=
  match projection with
  | None => "None"
  | Some indices => "Some([" +:+ comma_separated ((λ i, pretty (N.of_nat i)) <$> indices) +:+ "])"
  end.

Fixpoint format_physical (indent : nat) (p : PhysicalPlan) : string :=
  indentation indent +:+
  match p with
  | PScan id table_name provider projection filters _ =>
      "Parquet/Csv/MemoryScanExec#" +:+ pretty id +:+ ": " +:+ table_name +:+ " partitions=" +:+
      pretty (N.of_nat (tp_partition_count provider)) +:+ " projection=" +:+ debug_projection projection +:+
      display_filters filters +:+ newline
  | PProjection id input exprs _ =>
      "ProjectionExec#" +:+ pretty id +:+ ": [" +:+ display_exprs exprs +:+ "]" +:+ newline +:+ format_physical (S indent) input
  | PFilter id input predicate _ =>
      "FilterExec#" +:+ pretty id +:+ ": " +:+ display_expr predicate +:+ newline +:+ format_physical (S indent) input
  | PHashAggregate id input group_exprs aggregate_exprs _ =>
      "HashAggregateExec#" +:+ pretty id +:+ ": group=[" +:+ display_exprs group_exprs +:+ "] aggr=[" +:+
      display_exprs aggregate_exprs +:+ "]" +:+ newline +:+ format_physical (S indent) input
  | PSort id input exprs _ =>
      "SortExec#" +:+ pretty id +:+ ": [" +:+ comma_separated (display_sort <$> exprs) +:+ "]" +:+ newline +:+
      format_physical (S indent) input
  | PTopK id input exprs limit _ =>
      "TopKExec#" +:+ pretty id +:+ ": limit=" +:+ pretty limit +:+ " sort=[" +:+
      comma_separated (display_sort <$> exprs) +:+ "]" +:+ newline +:+ format_physical (S indent) input
  | PLimit id input limit _ =>
      "LimitExec#" +:+ pretty id +:+ ": " +:+ pretty limit +:+ newline +:+ format_physical (S indent) input
  | PHashJoin id left_input right_input join_type left_on right_on _ =>
      "HashJoinExec#" +:+ pretty id +:+ ": " +:+ display_join_type join_type +:+ " [" +:+ display_exprs left_on +:+
      " = " +:+ display_exprs right_on +:+ "]" +:+ newline +:+
      format_physical (S indent) left_input +:+ format_physical (S indent) right_input
  end.

Definition explain_physical (p : PhysicalPlan) : string := format_physical 0 p.
End explain.
