(* ===== verification/PhysicalProps.v ===== *)
(** * The planner numbers operators and keeps schemas *)
From S2P Require Import Prelude Text Float Expr Logical Catalog Physical.

(** The identifiers of a plan, a node before its inputs. *)
Fixpoint plan_ids (p : PhysicalPlan) : list N :=
  plan_id p ::
  match p with
  | PScan _ _ _ _ _ _ => []
  | PProjection _ i _ _ | PFilter _ i _ _ | PHashAggregate _ i _ _ _ | PSort _ i _ _
  | PTopK _ i _ _ _ | PLimit _ i _ _ => plan_ids i
  | PHashJoin _ l r _ _ _ _ => plan_ids l ++ plan_ids r
  end.

(** [n, n + 1, ..., m - 1] *)
Definition id_range (n m : N) : list N := (λ k, n + N.of_nat k)%N <$> seq 0 (N.to_nat (m - n)).

Lemma id_range_cons n m : (n < m)%N → id_range n m = n :: id_range (N.succ n) m.
Proof.
  intros Hlt. unfold id_range. replace (N.to_nat (m - n)) with (S (N.to_nat (m - N.succ n))) by lia.
  cbn [seq]. rewrite fmap_cons. f_equal; [lia|]. rewrite <-fmap_S_seq, <-list_fmap_compose.
  apply list_fmap_ext. intros i x _. simpl. lia.
Qed.

Lemma id_range_app n k m : (n ≤ k)%N → (k ≤ m)%N → id_range n k ++ id_range k m = id_range n m.
Proof.
  intros H1 H2. unfold id_range.
  replace (N.to_nat (m - n)) with (N.to_nat (k - n) + N.to_nat (m - k)) by lia.
  rewrite seq_app, fmap_app. f_equal. rewrite Nat.add_0_l.
  pose proof (fmap_add_seq (N.to_nat (k - n)) 0 (N.to_nat (m - k))) as E.
  rewrite Nat.add_0_r in E. rewrite <-E, <-list_fmap_compose.
  apply list_fmap_ext. intros i x _. simpl. lia.
Qed.

Lemma id_range_NoDup n m : NoDup (id_range n m).
Proof. unfold id_range. apply NoDup_fmap_2; [intros x y; lia|]. apply NoDup_seq. Qed.

Lemma next_operator_id_ok n m : next_operator_id n = Ok m → m = N.succ n.
Proof. unfold next_operator_id. case_match; [congruence|done]. Qed.

(** What [build] returns from the counter [n]. *)
Definition numbered (l : LogicalPlan) (n : N) (out : PhysicalPlan * N) : Prop :=
  (n < out.2)%N ∧ plan_ids out.1 = id_range n out.2 ∧ physical_schema out.1 = plan_schema l.

Lemma numbered_unary l i n p q m :
  numbered i (N.succ n) (q, m) → plan_ids p = n :: plan_ids q → physical_schema p = plan_schema l →
  numbered l n (p, m).
Proof.
  intros (Hm & Hq & _) Hp Hs. simpl in Hm, Hq. split; [simpl; lia|]. split; [|done]. simpl.
  by rewrite Hp, Hq, <-id_range_cons by lia.
Qed.

Lemma build_numbered l c n out : build l c n = Ok out → numbered l n out.
Proof.
  revert n out.
  enough ((∀ n out, build l c n = Ok out → numbered l n out) ∧
          (∀ i es s, l = LSort i es s → ∀ n out, build i c n = Ok out → numbered i n out))
    as [Hl _] by done.
  induction l as [tbl pr fs s|i IH es s|i IH e s|i IH g a s|i IH es s|i IH k s|
    l IHl r IHr t lo ro s]; (split; [|by intros; simplify_eq; eapply (proj1 IH)]); intros n out Hb;
    cbn [build] in Hb; apply bind_ok in Hb as (n1 & ->%next_operator_id_ok & Hb).
  - apply bind_ok in Hb as (pv & _ & Hb). apply bind_ok in Hb as (ix & _ & [= <-]).
    split; [simpl; lia|]. split; [|done]. simpl. rewrite id_range_cons by lia. f_equal.
    unfold id_range. by rewrite N.sub_diag.
  - apply bind_ok in Hb as ([q m] & Hq & [= <-]). by eapply numbered_unary; [apply (proj1 IH)|..].
  - apply bind_ok in Hb as ([q m] & Hq & [= <-]). by eapply numbered_unary; [apply (proj1 IH)|..].
  - apply bind_ok in Hb as ([q m] & Hq & [= <-]). by eapply numbered_unary; [apply (proj1 IH)|..].
  - apply bind_ok in Hb as ([q m] & Hq & [= <-]). by eapply numbered_unary; [apply (proj1 IH)|..].
  - destruct i as [| | | |j es s'| |]; apply bind_ok in Hb as ([q m] & Hq & [= <-]);
      (eapply numbered_unary; [|done..]);
      first [exact (proj1 IH _ _ Hq)|exact (proj2 IH _ _ _ eq_refl _ _ Hq)].
  - apply bind_ok in Hb as ([p1 m1] & H1 & Hb). apply bind_ok in Hb as ([p2 m2] & H2 & [= <-]).
    destruct (proj1 IHl _ _ H1) as (L1 & I1 & _), (proj1 IHr _ _ H2) as (L2 & I2 & _).
    simpl in *. split; [simpl; lia|]. split; [|done]. simpl.
    rewrite I1, I2, id_range_app, <-id_range_cons by lia. done.
Qed.

(** The physical planner numbers the operators of a plan [0, 1, 2, ...], each
    node before its inputs, so that no two operators share an identifier (metrics
    are kept per identifier), and every plan keeps the output schema of the
    logical plan it was built from. *)
Theorem planner_ids_unique l c p :
  create_physical_plan l c = Ok p →
  plan_ids p = id_range 0 (N.of_nat (length (plan_ids p))) ∧ NoDup (plan_ids p) ∧
  physical_schema p = plan_schema l.
Proof.
  unfold create_physical_plan. intros Hb. apply bind_ok in Hb as ([q m] & Hq & [= <-]).
  apply build_numbered in Hq as (Hm & Hi & Hs). simpl in *.
  assert (N.of_nat (length (plan_ids q)) = m) as ->.
  { rewrite Hi. unfold id_range. rewrite length_fmap, length_seq. lia. }
  split; [done|]. split; [|done]. rewrite Hi. apply id_range_NoDup.
Qed.

(** A limit over a sort of a join of a table with itself. *)
Definition demo_provider : TableProvider :=
  MkTableProvider [MkField "a" DtInt64 true] 1 8 (λ _ _, Ok true) (λ _ _, Ok []).
Definition demo_catalog : Catalog := register Catalog_default "T" demo_provider.
Definition demo_logical : result LogicalPlan :=
  let l := scan "t" [MkField "x.a" DtInt64 true] in
  let r := scan "t" [MkField "y.a" DtInt64 true] in
  p ← join l r Inner [Column "x.a"] [Column "y.a"];
  p ← sort p [MkSortExpr (Column "x.a") true false];
  Ok (limit p 10).

Lemma planner_ids_unique_witness :
  ∃ l p, demo_logical = Ok l ∧ create_physical_plan l demo_catalog = Ok p ∧
    plan_ids p = [0; 1; 2; 3]%N ∧ NoDup (plan_ids p) ∧ physical_schema p = plan_schema l.
Proof.
  eexists _, _. split; [reflexivity|]. split; [reflexivity|]. split; [reflexivity|].
  apply (planner_ids_unique _ demo_catalog). reflexivity.
Defined.
