(* ===== verification/Execution.v ===== *)
(** * The single-node executor ([src/runtime/execution.rs], [src/runtime/row_key.rs])

    A [BatchReceiver] is the list of what its channel delivers: batches and
    errors, in order.  Every operator is a task that owns its sender: when it
    panics the channel closes, so its stream just ends.  The model is for a task
    bound to one partition of its source ([TaskContext.partition] is set) that is
    not cancelled. *)
From S2P Require Import Prelude Text Float Expr Logical Catalog Physical Memory.

Abbreviation stream := (list (result RecordBatch)).

(** The item an operator sends and what follows; a panic ends the stream. *)
Definition emit (r : result RecordBatch) (rest : stream) : stream :=
  match r with Panic _ => [] | _ => r :: rest end.

(** [BatchReceiver::collect] *)
Definition receive_all (input : stream) : result (list RecordBatch) := collect id input.

(** ** Memory *)

(** What the host platform and the allocator decide: [size_of], the capacity of a
    string and the size of encoded rows. *)
Class Sizes := {
  sizeof_scalar : N;
  sizeof_vec : N;
  sizeof_state : N;
  sizeof_key : N;
  string_capacity : string → N;
  rows_size : list string → N;
}.

(** The budget an operator reserves from: the limit, and what the other
    operators of the query hold meanwhile. *)
Record TaskMemory := MkTaskMemory { tm_limit : N; tm_others : N }.

(** [reservation.try_grow(bytes)]; [own] is the reservation and [aside] what the
    operator's other reservations hold. *)
Definition try_grow (memory : TaskMemory) (aside own bytes : N) : result N :=
  next ← grow_check own bytes;
  _ ← reserve_check (tm_limit memory) (tm_others memory + aside + own) bytes;
  Ok next.

(** [memory.try_reserve(bytes)] *)
Definition try_reserve (memory : TaskMemory) (aside bytes : N) : result N :=
  _ ← reserve_check (tm_limit memory) (tm_others memory + aside) bytes;
  Ok bytes.

(** A loop that threads a state and stops at the first error. *)
Fixpoint fold_result {A S} (f : S → A → result S) (s : S) (l : list A) : result S :=
  match l with [] => Ok s | x :: l => s ← f s x; fold_result f s l end.

Definition HASH_ENTRY_OVERHEAD_BYTES : N := 32.

Section sizes.
Context `{Sizes}.

Definition scalar_memory_bytes (v : ScalarValue) : N :=
  match v with
  | Utf8 s => saturating_add_u64 sizeof_scalar (string_capacity s)
  | _ => sizeof_scalar
  end.

Definition scalar_vec_memory_bytes (values : list ScalarValue) : N :=
  saturating_add_u64 sizeof_vec
    (foldl saturating_add_u64 0%N (scalar_memory_bytes <$> values)).

Definition encoded_key_memory_bytes (key : string) : N :=
  saturating_add_u64 sizeof_key (byte_len key).

Definition aggregate_group_memory_bytes (key : string) (state_count : nat) : N :=
  saturating_add_u64
    (saturating_add_u64
       (saturating_add_u64 HASH_ENTRY_OVERHEAD_BYTES (encoded_key_memory_bytes key))
       sizeof_vec)
    (saturating_mul_u64 (N.of_nat state_count) sizeof_state).
End sizes.

(** ** Row keys *)

(** [arrow::row::RowConverter] for a list of column types. *)
Class RowConverter := {
  converter_supported : list DataType → bool;
  convert_columns : list DataType → list array → result (list string);
  convert_rows : list DataType → list string → result (list array);
}.

(** [RowKeyEncoder]: no converter when there is no key column. *)
Record RowKeyEncoder := MkRowKeyEncoder { key_types : list DataType }.

Section row_key.
Context `{RowConverter, Sizes}.

Definition RowKeyEncoder_new (types : list DataType) : result RowKeyEncoder :=
  if decide (types = []) then Ok (MkRowKeyEncoder [])
  else if converter_supported types then Ok (MkRowKeyEncoder types)
  else Err (Arrow "row format does not support these types").

Definition from_columns (columns : list array) : result RowKeyEncoder :=
  RowKeyEncoder_new (a_type <$> columns).

(** The encoded rows; [EncodedRows::Global] is a row count, whose keys are all
    empty. *)
Definition encode (k : RowKeyEncoder) (columns : list array) (row_count : nat)
    : result (list string) :=
  if decide (key_types k = []) then
    if decide (columns = []) then Ok (replicate row_count EmptyString)
    else Err (Execution "global row-key encoder received key columns")
  else
    rows ← convert_columns (key_types k) columns;
    if decide (length rows = row_count) then Ok rows
    else Err (Execution ("encoded key row count " +:+ pretty (N.of_nat (length rows)) +:+
                " does not match input row count " +:+ pretty (N.of_nat row_count))).

Definition decode (k : RowKeyEncoder) (keys : list string) : result (list array) :=
  if decide (key_types k = []) then
    if existsb (λ key, negb (bool_decide (key = EmptyString))) keys
    then Err (Execution "global row-key encoder received non-empty keys")
    else Ok []
  else convert_rows (key_types k) keys.

Definition memory_size (k : RowKeyEncoder) (rows : list string) : N :=
  if decide (key_types k = []) then 0%N else rows_size rows.

(** [array.is_null(row)]: an array of the null type has no validity bitmap. *)
Definition is_null_at (a : array) (row : nat) : bool :=
  negb (bool_decide (a_type a = DtNull)) &&
  match a_cells a !! row with Some None => true | _ => false end.

Definition key_has_null (columns : list array) (row : nat) : bool :=
  existsb (λ a, is_null_at a row) columns.
End row_key.

(** ** Projection and filter *)

Section batches.
Context `{Kernels, BatchOps}.

Definition project_batch (b : RecordBatch) (exprs : list Expr) (schema : Schema)
    : result RecordBatch :=
  arrays ← collect (λ e, evaluate e b) exprs;
  try_new schema arrays.

Definition filter_batch (b : RecordBatch) (predicate : Expr) : result RecordBatch :=
  mask ← evaluate predicate b;
  if decide (a_type mask = DtBoolean) then filter_record_batch b (a_cells mask)
  else Err (Execution "filter predicate did not produce Boolean values").

Fixpoint execute_projection (input : stream) (exprs : list Expr) (schema : Schema) : stream :=
  match input with
  | [] => []
  | item :: input =>
      emit (b ← item; project_batch b exprs schema) (execute_projection input exprs schema)
  end.

Fixpoint execute_filter (input : stream) (predicate : Expr) : stream :=
  match input with
  | [] => []
  | item :: input => emit (b ← item; filter_batch b predicate) (execute_filter input predicate)
  end.

Fixpoint execute_limit (input : stream) (remaining : N) : stream :=
  if (remaining =? 0)%N then []
  else match input with
  | [] => []
  | Ok b :: input =>
      let take := N.min remaining (N.of_nat (b_rows b)) in
      let rest := execute_limit input (remaining - take)%N in
      if (take =? 0)%N then rest else Ok (batch_slice b 0 (N.to_nat take)) :: rest
  | Err e :: _ => [Err e]
  | Panic _ :: _ => []
  end.

(** The batches of one partition: the filters run one after the other, and an
    error ends the scan. *)
Fixpoint scan_batches (filters : list Expr) (batches : list RecordBatch) : stream :=
  match batches with
  | [] => []
  | b :: batches =>
      match fold_result filter_batch b filters with
      | Ok b => Ok b :: scan_batches filters batches
      | Err e => [Err e]
      | Panic _ => []
      end
  end.

(** A panic of a scan is the error of its blocking task; the pruning test runs
    before any task starts and its implementations return.  The error of a pruning test is
    sent with [try_send], which loses it when the channel is [full]. *)
Definition execute_scan (full : bool) (provider : TableProvider) (projection : option (list nat))
    (filters : list Expr) (partition : nat) : stream :=
  match tp_partition_may_match provider partition filters with
  | Ok false => []
  | Err e => if full then [] else [Err e]
  | Panic _ => []
  | Ok true =>
      match tp_scan_partition provider partition projection with
      | Ok batches => scan_batches filters batches
      | Err e => [Err e]
      | Panic why => [Err (Execution ("scan task failed: " +:+ why))]
      end
  end.

(** [collect_with_memory]: the batches and the bytes reserved for them. *)
Definition collect_with_memory (memory : TaskMemory) (aside : N) (input : stream)
    : result (list RecordBatch * N) :=
  own ← try_reserve memory aside 0;
  fold_result (λ s item,
    b ← item;
    own ← try_grow memory aside s.2 (batch_bytes b);
    Ok (s.1 ++ [b], own)) ([], own) input.
End batches.

(** ** Hash join *)

Section join.
Context `{Kernels, BatchOps, RowConverter, Sizes} (memory : TaskMemory).

(** The build side: rows by encoded key, and the bytes reserved for them. *)
Record JoinState := MkJoinState { build_side : gmap string (list (list ScalarValue)); js_own : N }.

Definition row_values (b : RecordBatch) (row : nat) : result (list ScalarValue) :=
  collect (λ a, value_at a row) (b_columns b).

Definition build_row (b : RecordBatch) (keys : list array) (encoded : list string) (aside : N)
    (s : JoinState) (row : nat) : result JoinState :=
  if key_has_null keys row then Ok s
  else
    key ← expect (encoded !! row) "encoded row index out of bounds";
    values ← row_values b row;
    let row_bytes := scalar_vec_memory_bytes values in
    match build_side s !! key with
    | Some rows =>
        own ← try_grow memory aside (js_own s) row_bytes;
        Ok (MkJoinState (<[key := rows ++ [values]]> (build_side s)) own)
    | None =>
        let entry_bytes :=
          saturating_add_u64
            (saturating_add_u64
               (saturating_add_u64 HASH_ENTRY_OVERHEAD_BYTES (encoded_key_memory_bytes key))
               sizeof_vec)
            row_bytes in
        own ← try_grow memory aside (js_own s) entry_bytes;
        Ok (MkJoinState (<[key := [values]]> (build_side s)) own)
    end.

(** The key columns of a batch, the encoder (made from the first batch seen) and
    the encoded keys. *)
Definition batch_keys (on : list Expr) (encoder : option RowKeyEncoder) (b : RecordBatch)
    : result (list array * RowKeyEncoder * list string) :=
  keys ← collect (λ e, evaluate e b) on;
  k ← match encoder with Some k => Ok k | None => from_columns keys end;
  encoded ← encode k keys (b_rows b);
  Ok (keys, k, encoded).

Definition build_batch (right_on : list Expr) (s : option RowKeyEncoder * JoinState)
    (b : RecordBatch) : result (option RowKeyEncoder * JoinState) :=
  '(keys, k, encoded) ← batch_keys right_on s.1 b;
  aside ← try_reserve memory (js_own s.2) (memory_size k encoded);
  js ← fold_result (build_row b keys encoded aside) s.2 (seq 0 (b_rows b));
  Ok (Some k, js).

(** One row of the probe side; the output rows so far and the bytes reserved. *)
Definition probe_row (join_type : JoinType) (right_width : nat)
    (side : gmap string (list (list ScalarValue))) (b : RecordBatch) (keys : list array)
    (encoded : list string) (aside : N) (s : list (list ScalarValue) * N) (row : nat)
    : result (list (list ScalarValue) * N) :=
  key ← expect (encoded !! row) "encoded row index out of bounds";
  left_values ← row_values b row;
  match (if key_has_null keys row then None else side !! key) with
  | Some matches =>
      fold_result (λ s right_values,
        let output := left_values ++ right_values in
        own ← try_grow memory aside s.2 (scalar_vec_memory_bytes output);
        Ok (s.1 ++ [output], own)) s matches
  | None =>
      match join_type with
      | JoinLeft =>
          let output := left_values ++ replicate right_width Null in
          own ← try_grow memory aside s.2 (scalar_vec_memory_bytes output);
          Ok (s.1 ++ [output], own)
      | Inner => Ok s
      end
  end.

Definition probe_batch (join_type : JoinType) (right_width : nat) (left_on : list Expr)
    (side : gmap string (list (list ScalarValue)))
    (s : option RowKeyEncoder * (list (list ScalarValue) * N)) (b : RecordBatch)
    : result (option RowKeyEncoder * (list (list ScalarValue) * N)) :=
  '(keys, k, encoded) ← batch_keys left_on s.1 b;
  aside ← try_reserve memory s.2.2 (memory_size k encoded);
  out ← fold_result (probe_row join_type right_width side b keys encoded aside) s.2
          (seq 0 (b_rows b));
  Ok (Some k, out).

(** [columns[index].push(value)] for the values of every row, starting from one
    empty vector per field of the schema. *)
Definition push_row (columns : list (list ScalarValue)) (row : list ScalarValue)
    : result (list (list ScalarValue)) :=
  if decide (length row ≤ length columns)
  then Ok (zip_with (λ c v, c ++ [v]) (take (length row) columns) row ++ drop (length row) columns)
  else Panic "index out of bounds".

Definition rows_to_batch (rows : list (list ScalarValue)) (schema : Schema) : result RecordBatch :=
  columns ← fold_result push_row (replicate (length schema) []) rows;
  arrays ← collect (λ x : list ScalarValue * Field, scalars_to_array x.1 (f_type x.2))
             (zip columns schema);
  try_new schema arrays.

Definition join_right_width (left_batches right_batches : list RecordBatch) (schema : Schema) : nat :=
  match right_batches with
  | b :: _ => length (b_columns b)
  | [] => length schema - match left_batches with b :: _ => length (b_columns b) | [] => 0 end
  end.

(** The rows [hash_join] puts out. *)
Definition join_rows (left_batches right_batches : list RecordBatch) (join_type : JoinType)
    (left_on right_on : list Expr) (schema : Schema) : result (list (list ScalarValue)) :=
  let right_width := join_right_width left_batches right_batches schema in
  own ← try_reserve memory 0 0;
  '(k, js) ← fold_result (build_batch right_on) (None, MkJoinState ∅ own) right_batches;
  '(_, (rows, _)) ← fold_result (probe_batch join_type right_width left_on (build_side js))
                      (k, ([], js_own js)) left_batches;
  Ok rows.

Definition hash_join (left_batches right_batches : list RecordBatch) (join_type : JoinType)
    (left_on right_on : list Expr) (schema : Schema) : result RecordBatch :=
  rows ← join_rows left_batches right_batches join_type left_on right_on schema;
  rows_to_batch rows schema.
End join.

(** ** Loops *)

Lemma fold_result_app {A T} (f : T → A → result T) st l l' :
  fold_result f st (l ++ l') = (st ← fold_result f st l; fold_result f st l').
Proof. revert st. induction l as [|x l IH]; intros st; cbn; [done|]. destruct (f st x); cbn; [apply IH|done|done]. Qed.

Lemma fold_result_ext {A T} (f f' : T → A → result T) st l :
  (∀ st x, f' st x = f st x) → fold_result f' st l = fold_result f st l.
Proof.
  intros Hf. revert st. induction l as [|x l IH]; intros st; [done|]. cbn. rewrite Hf.
  destruct (f st x); cbn; [apply IH|done|done].
Qed.
