(* ===== verification/ExecutionDemo.v ===== *)
(** * Concrete instances of what the executor is parametric in

    Batch operations, a row format and sizes, for the worked examples. *)
From Stdlib Require Import Ascii.
From S2P Require Import Prelude Text Float Expr Logical Catalog Physical Memory Execution.

#[export] Instance cell_eq_dec : EqDecision cell.
Proof. solve_decision. Defined.

#[export] Instance cell_countable : Countable cell.
Proof.
  refine (inj_countable'
    (λ c, match c with
          | BoolCell b => inl (inl b) | IntCell z => inl (inr z)
          | FloatCell n => inr (inl n) | StrCell s => inr (inr (inl s))
          | OpaqueCell s => inr (inr (inr s))
          end)
    (λ x, match x with
          | inl (inl b) => BoolCell b | inl (inr z) => IntCell z
          | inr (inl n) => FloatCell n | inr (inr (inl s)) => StrCell s
          | inr (inr (inr s)) => OpaqueCell s
          end) _).
  by intros [].
Defined.

(** The elements of a row. *)
Definition cells_at (columns : list array) (row : nat) : list (option cell) :=
  (λ a, default None (a_cells a !! row)) <$> columns.

Definition all_rows (n : nat) (columns : list array) : bool :=
  forallb (λ a, bool_decide (length (a_cells a) = n)) columns.

(** The rows whose mask is true. *)
Definition select_cells {A} (mask : list (option cell)) (l : list A) : list A :=
  omap (λ x : A * option cell, match x.2 with Some (BoolCell true) => Some x.1 | _ => None end)
    (zip l mask).

Definition map_columns (f : list (option cell) → list (option cell)) (b : RecordBatch) : list array :=
  (λ a, MkArray (a_type a) (f (a_cells a))) <$> b_columns b.

#[export] Instance demo_batch_ops : BatchOps := {
  try_new schema columns :=
    match columns with
    | [] => Err (Arrow "must either specify a row count or at least one column")
    | a :: _ =>
        let n := length (a_cells a) in
        if bool_decide (a_type <$> columns = f_type <$> schema) && all_rows n columns
        then Ok (MkRecordBatch schema columns n) else Err (Arrow "schema mismatch")
    end;
  batch_project b indices :=
    fields ← collect (λ i, ok_or (b_schema b !! i) (Arrow "project index out of bounds")) indices;
    columns ← collect (λ i, ok_or (b_columns b !! i) (Arrow "project index out of bounds")) indices;
    Ok (MkRecordBatch fields columns (b_rows b));
  batch_slice b offset n :=
    MkRecordBatch (b_schema b) (map_columns (λ l, take n (drop offset l)) b) n;
  filter_record_batch b mask :=
    if bool_decide (length mask = b_rows b)
    then Ok (MkRecordBatch (b_schema b) (map_columns (select_cells mask) b)
               (length (select_cells mask mask)))
    else Err (Arrow "filter predicate of another length");
  concat_batches schema batches :=
    Ok (MkRecordBatch schema
          ((λ i, MkArray (default DtNull (f_type <$> schema !! i))
                   (concat ((λ b, default [] (a_cells <$> b_columns b !! i)) <$> batches)))
           <$> seq 0 (length schema))
          (sum_list (b_rows <$> batches)));
  take_record_batch b indices :=
    Ok (MkRecordBatch (b_schema b) (map_columns (λ l, (λ i, default None (l !! i)) <$> indices) b)
          (length indices));
  batch_bytes b := N.of_nat (b_rows b * length (b_columns b) * 8);
}.

(** A row is written as the bits of the number that encodes its elements. *)
Fixpoint bits_of (p : positive) : string :=
  match p with
  | xH => EmptyString
  | xO p => String "0" (bits_of p)
  | xI p => String "1" (bits_of p)
  end.
Fixpoint of_bits (s : string) : positive :=
  match s with
  | EmptyString => xH
  | String c s => if bool_decide (c = "1"%char) then xI (of_bits s) else xO (of_bits s)
  end.

Lemma of_bits_of p : of_bits (bits_of p) = p.
Proof. induction p as [p IH|p IH|]; cbn; by rewrite ?IH. Qed.

Definition demo_row_bytes (row : list (option cell)) : string := bits_of (countable.encode row).

Lemma demo_row_bytes_inj r r' : demo_row_bytes r = demo_row_bytes r' → r = r'.
Proof.
  unfold demo_row_bytes. intros E. apply (f_equal of_bits) in E. rewrite !of_bits_of in E.
  by apply (inj countable.encode).
Qed.

#[export] Instance demo_converter : RowConverter := {
  converter_supported _ := true;
  convert_columns types columns :=
    match columns with
    | [] => if decide (types = []) then Ok [] else Err (Arrow "incorrect number of arrays")
    | a :: _ =>
        let n := length (a_cells a) in
        if bool_decide (a_type <$> columns = types) && all_rows n columns
        then Ok ((λ i, demo_row_bytes (cells_at columns i)) <$> seq 0 n)
        else Err (Arrow "row converter schema mismatch")
    end;
  convert_rows types keys :=
    let rows : list (list (option cell)) :=
      (λ k, default [] (countable.decode (of_bits k))) <$> keys in
    Ok (imap (λ i t, MkArray t ((λ r, default None (r !! i)) <$> rows)) types);
}.

#[export] Instance demo_sizes : Sizes := {
  sizeof_scalar := 32;
  sizeof_vec := 24;
  sizeof_state := 112;
  sizeof_key := 16;
  string_capacity := byte_len;
  rows_size rows := foldr (λ k acc, byte_len k + acc)%N 0%N rows;
}.
