(* ===== verification/HashJoin.v ===== *)
(** * The hash join is a nested-loop join

    [join_rows] builds a table of the right rows by encoded key and probes it with
    the left rows.  Here it is compared with the join that tests every pair of
    rows, whatever the memory budget: the budget only decides whether the join
    fails. *)
From S2P Require Import Prelude Text Float Expr ExprProps Logical Catalog Physical Memory Execution ExecutionDemo.

(** ** The row format *)

Definition row_typed (types : list DataType) (row : list (option cell)) : Prop :=
  Forall2 (λ t (c : option cell), ∀ x, c = Some x → cell_typed t x = true) types row.

(** Arrow's row format: a column list of the converter's types is encoded row by
    row, and rows of those types with different elements get different bytes. *)
Class RowLaws (C : RowConverter) := {
  row_bytes : list DataType → list (option cell) → string;
  law_convert types columns keys :
    convert_columns types columns = Ok keys →
    Forall2 (λ t a, a_type a = t ∧ length (a_cells a) = length keys) types columns ∧
    ∀ i, i < length keys → keys !! i = Some (row_bytes types (cells_at columns i));
  law_row_bytes_inj types r r' :
    row_typed types r → row_typed types r' → row_bytes types r = row_bytes types r' → r = r';
}.

(** ** The reference join *)

(** A row with the elements of its key. *)
Abbreviation keyed_row := (list (option cell) * list ScalarValue)%type.

Section reference.
Context `{Kernels}.

Definition keyed_batch (on : list Expr) (b : RecordBatch) : result (list keyed_row) :=
  keys ← collect (λ e, evaluate e b) on;
  collect (λ i, values ← row_values b i; Ok (cells_at keys i, values)) (seq 0 (b_rows b)).

Definition keyed_rows (on : list Expr) (batches : list RecordBatch) : result (list keyed_row) :=
  rows ← collect (keyed_batch on) batches; Ok (concat rows).
End reference.

Definition no_null (key : list (option cell)) : bool :=
  forallb (λ c : option cell, match c with Some _ => true | None => false end) key.

(** The right rows a left row joins with: SQL equality, so a null matches
    nothing. *)
Definition join_matches (right : list keyed_row) (key : list (option cell)) : list (list ScalarValue) :=
  omap (λ r : keyed_row,
          if no_null key && bool_decide (r.1 = key) then Some r.2 else None) right.

Definition nested_loop (join_type : JoinType) (right_width : nat) (left right : list keyed_row)
    : list (list ScalarValue) :=
  left ≫= λ l : keyed_row,
    match join_matches right l.1, join_type with
    | [], JoinLeft => [l.2 ++ replicate right_width Null]
    | ms, _ => (λ v, l.2 ++ v) <$> ms
    end.

(** ** Folds *)

Lemma fold_result_invariant {A S} (f : S → A → result S) (I : list A → S → Prop) l s s' :
  (∀ pre x post s s', l = pre ++ x :: post → I pre s → f s x = Ok s' → I (pre ++ [x]) s') →
  I [] s → fold_result f s l = Ok s' → I l s'.
Proof.
  intros Hstep Hinit Hf.
  assert (∀ todo pre s, l = pre ++ todo → I pre s → fold_result f s todo = Ok s' → I l s') as Hg;
    [|by apply (Hg l [] s)].
  clear s Hinit Hf. induction todo as [|x todo IH]; intros pre s Hl Hi Hf; cbn [fold_result] in Hf.
  { injection Hf as <-. by rewrite Hl, app_nil_r. }
  apply bind_ok in Hf as (s1 & H1 & Hf). apply (IH (pre ++ [x]) s1); [|by eapply Hstep|done].
  by rewrite <-app_assoc.
Qed.

Lemma collect_snoc {A B} (f : A → result B) l x ys y :
  collect f l = Ok ys → f x = Ok y → collect f (l ++ [x]) = Ok (ys ++ [y]).
Proof.
  intros Hl Hx. apply collect_ok. apply Forall2_app; [by apply collect_ok|]. by repeat constructor.
Qed.

(** ** Keys *)

Lemma value_at_total n a i :
  array_ok n a → native (a_type a) = true ∨ a_type a = DtNull → i < n → ∃ v, value_at a i = Ok v.
Proof.
  intros [Hl Hty] Hn Hi. unfold value_at.
  destruct (lookup_lt_is_Some_2 (a_cells a) i) as [c Hc]; [lia|]. rewrite Hc. simpl.
  rewrite Forall_lookup in Hty. specialize (Hty _ _ Hc). destruct c as [c|]; [|by eexists].
  specialize (Hty c eq_refl). destruct (a_type a); try (by destruct Hn); destruct c; try done; by eexists.
Qed.

Section join_keys.
Context `{C : RowConverter, !RowLaws C}.

(** The key of a row under an encoder. *)
Definition key_of (k : RowKeyEncoder) (row : list (option cell)) : string :=
  if decide (key_types k = []) then EmptyString else row_bytes (key_types k) row.

Lemma key_of_inj k r r' :
  row_typed (key_types k) r → row_typed (key_types k) r' → key_of k r = key_of k r' → r = r'.
Proof.
  unfold key_of. intros Hr Hr'. destruct (decide _) as [E|]; [|by apply law_row_bytes_inj].
  rewrite E in *. inversion Hr. by inversion Hr'.
Qed.

Lemma encode_spec k columns n encoded :
  Forall (array_ok n) columns → encode k columns n = Ok encoded →
  length encoded = n ∧
  ∀ i, i < n → encoded !! i = Some (key_of k (cells_at columns i)) ∧
               row_typed (key_types k) (cells_at columns i).
Proof.
  intros Hc He. unfold encode, key_of in *. destruct (decide (key_types k = [])) as [Et|Et].
  - destruct (decide (columns = [])) as [->|]; [|done]. injection He as <-. rewrite Et.
    split; [apply length_replicate|]. intros i Hi. split; [|constructor].
    by apply lookup_replicate_2.
  - apply bind_ok in He as (keys & Hk & He). destruct (decide (length keys = n)) as [El|]; [|done].
    injection He as <-. split; [done|]. apply law_convert in Hk as [Hty Hkeys].
    intros i Hi. split; [apply Hkeys; lia|]. unfold row_typed, cells_at.
    clear -Hty Hc. induction Hty as [|t a ts cs [Ha _] _ IH]; [constructor|].
    apply list.Forall_cons in Hc as [[_ Hca] Hc]. constructor; [|by apply IH].
    intros x Hx. subst t. destruct (a_cells a !! i) as [c|] eqn:E; [|done]. simpl in Hx.
    rewrite Forall_lookup in Hca. by apply (Hca i c).
Qed.
End join_keys.

(** Whether a row's key has a null, seen from the arrays. *)
Lemma key_has_null_spec n keys i :
  Forall (array_ok n) keys → Forall (λ a, a_type a ≠ DtNull) keys → i < n →
  key_has_null keys i = negb (no_null (cells_at keys i)).
Proof.
  intros Hok Ht Hi. unfold key_has_null, no_null, cells_at.
  induction keys as [|a keys IH]; [done|]. apply list.Forall_cons in Hok as [[Hl _] Hok].
  apply list.Forall_cons in Ht as [Hta Ht]. rewrite fmap_cons. cbn [existsb forallb].
  rewrite negb_andb, IH by done. f_equal. unfold is_null_at.
  rewrite bool_decide_eq_false_2 by done. simpl.
  destruct (lookup_lt_is_Some_2 (a_cells a) i) as [c ->]; [lia|]. by destruct c.
Qed.

(** ** The build side *)

(** A key expression: it reads a column, so its type is not [Null]. *)
Definition join_key (e : Expr) : bool := native_casts e && typed_literals e && has_column e.

Section join_proof.
Context `{K : Kernels, !KernelLaws K, B : BatchOps, C : RowConverter, !RowLaws C, Z : Sizes}.
Context (memory : TaskMemory).

Lemma key_arrays on b keys :
  batch_ok b → Forall (λ e, join_key e = true) on → collect (λ e, evaluate e b) on = Ok keys →
  Forall (array_ok (b_rows b)) keys ∧ Forall (λ a, a_type a ≠ DtNull) keys.
Proof.
  intros Hb Hon Hk. apply collect_ok in Hk. induction Hk as [|e a on keys He _ IH]; [by split|].
  apply list.Forall_cons in Hon as [Hj Hon]. destruct (IH Hon) as [I1 I2].
  unfold join_key in Hj. apply andb_true_iff in Hj as [Hj Hcol]. apply andb_true_iff in Hj as [Hc Hv].
  destruct (evaluate_ok _ _ _ Hb Hc Hv He) as (Ho & _). split; constructor; try done.
  intros Ht. destruct (evaluate_null_type _ _ _ (proj2 Hb) (batch_ok_no_null _ Hb) (native_castable _ Hc) He Ht). congruence.
Qed.

Lemma row_values_total b i : batch_ok b → i < b_rows b → ∃ v, row_values b i = Ok v.
Proof.
  intros [Hn Hb] Hi. unfold row_values. unfold native_schema in Hn.
  induction Hb as [|f a fs as' [Ht Ho] _ IH]; [by exists []|].
  apply list.Forall_cons in Hn as [Hf Hn]. destruct (IH Hn) as [vs Hvs].
  destruct (value_at_total _ a i Ho) as [v Hv]; [left; by rewrite Ht|done|].
  exists (v :: vs). cbn [collect]. by rewrite Hv, Hvs.
Qed.

(** The rows stored under a key, in order. *)
Definition stored (k : RowKeyEncoder) (rows : list keyed_row) (key : string)
    : list (list ScalarValue) :=
  omap (λ r : keyed_row,
          if no_null r.1 && bool_decide (key_of k r.1 = key) then Some r.2 else None) rows.

Definition built (k : RowKeyEncoder) (rows : list keyed_row)
    (side : gmap string (list (list ScalarValue))) : Prop :=
  (∀ key, default [] (side !! key) = stored k rows key) ∧ (∀ key, side !! key ≠ Some []) ∧
  Forall (λ r : keyed_row, row_typed (key_types k) r.1) rows.

Lemma built_empty k : built k [] ∅.
Proof. split_and!; [intros key; by rewrite lookup_empty|intros key; by rewrite lookup_empty|done]. Qed.

Lemma built_snoc_null k rows side r :
  built k rows side → no_null r.1 = false → row_typed (key_types k) r.1 → built k (rows ++ [r]) side.
Proof.
  intros (Hs & Hne & Ht) Hn Hr. split_and!; [|done|apply list.Forall_app; by repeat constructor].
  intros key. unfold stored. rewrite omap_app. cbn. rewrite Hn, app_nil_r. apply Hs.
Qed.

Lemma built_snoc k rows side r :
  built k rows side → no_null r.1 = true → row_typed (key_types k) r.1 →
  built k (rows ++ [r])
    (<[key_of k r.1 := default [] (side !! key_of k r.1) ++ [r.2]]> side).
Proof.
  intros (Hs & Hne & Ht) Hn Hr. split_and!; [| |apply list.Forall_app; by repeat constructor].
  - intros key. unfold stored. rewrite omap_app. cbn. rewrite Hn.
    destruct (decide (key_of k r.1 = key)) as [<-|Hk].
    + rewrite lookup_insert_eq, bool_decide_eq_true_2 by done. simpl. by rewrite Hs.
    + rewrite lookup_insert_ne, bool_decide_eq_false_2 by done. simpl. rewrite app_nil_r. apply Hs.
  - intros key. destruct (decide (key_of k r.1 = key)) as [<-|Hk].
    + rewrite lookup_insert_eq. intros [= E]. by apply app_eq_nil in E as [_ ?].
    + by rewrite lookup_insert_ne.
Qed.

Lemma build_row_built b keys encoded aside k rows s i s' values :
  key_has_null keys i = negb (no_null (cells_at keys i)) →
  encoded !! i = Some (key_of k (cells_at keys i)) →
  row_typed (key_types k) (cells_at keys i) → row_values b i = Ok values →
  built k rows (build_side s) → build_row memory b keys encoded aside s i = Ok s' →
  built k (rows ++ [(cells_at keys i, values)]) (build_side s').
Proof.
  intros Hnull Henc Hty Hv Hb Hs. unfold build_row in Hs. rewrite Hnull in Hs.
  destruct (no_null (cells_at keys i)) eqn:En; simpl in Hs.
  2:{ injection Hs as <-. by apply built_snoc_null. }
  rewrite Henc in Hs. cbn in Hs. rewrite Hv in Hs. cbn in Hs.
  pose proof (built_snoc k rows _ (cells_at keys i, values) Hb En Hty) as Hb'. simpl in Hb'.
  destruct (build_side s !! key_of k (cells_at keys i)) as [old|];
    by apply bind_ok in Hs as (own & _ & [= <-]).
Qed.

(** What the encoder and the build side say about the right rows so far; there is
    no encoder before the first batch. *)
Definition side_ok (ko : option RowKeyEncoder) (rows : list keyed_row)
    (side : gmap string (list (list ScalarValue))) : Prop :=
  match ko with None => rows = [] ∧ side = ∅ | Some k => built k rows side end.

(** The keys a batch is joined on. *)
Lemma batch_keys_spec on ko b keys k encoded :
  batch_ok b → Forall (λ e, join_key e = true) on → batch_keys on ko b = Ok (keys, k, encoded) →
  (ko = Some k ∨ ko = None) ∧ collect (λ e, evaluate e b) on = Ok keys ∧
  ∀ i, i < b_rows b →
    key_has_null keys i = negb (no_null (cells_at keys i)) ∧
    encoded !! i = Some (key_of k (cells_at keys i)) ∧ row_typed (key_types k) (cells_at keys i).
Proof.
  intros Hb Hon Hk. unfold batch_keys in Hk. apply bind_ok in Hk as (keys' & Hkeys & Hk).
  apply bind_ok in Hk as (k' & Hk' & Hk). apply bind_ok in Hk as (enc & Henc & [= <- <- <-]).
  destruct (key_arrays _ _ _ Hb Hon Hkeys) as [Hok Hnn].
  apply encode_spec in Henc as [_ Henc]; [|done].
  split; [destruct ko; naive_solver|]. split; [done|]. intros i Hi.
  split; [by eapply key_has_null_spec|by apply Henc].
Qed.

Lemma side_ok_encoder ko k rows side : side_ok ko rows side → ko = Some k ∨ ko = None → built k rows side.
Proof. intros Hs [->| ->]; [done|]. destruct Hs as [-> ->]. apply built_empty. Qed.

(** The row of a batch at an index, as the reference sees it. *)
Lemma keyed_batch_rows on b keys rows :
  collect (λ e, evaluate e b) on = Ok keys →
  collect (λ i, values ← row_values b i; Ok (cells_at keys i, values)) (seq 0 (b_rows b)) = Ok rows →
  keyed_batch on b = Ok rows.
Proof. intros Hk Hr. unfold keyed_batch. by rewrite Hk. Qed.

Lemma seq_split n pre i post : seq 0 n = pre ++ i :: post → i < n.
Proof.
  intros E. assert (i ∈ seq 0 n) as Hi by (rewrite E; set_solver). apply elem_of_seq in Hi. lia.
Qed.

Lemma build_batch_built right_on s b s' R :
  batch_ok b → Forall (λ e, join_key e = true) right_on → side_ok s.1 R (build_side s.2) →
  build_batch memory right_on s b = Ok s' →
  ∃ rows, keyed_batch right_on b = Ok rows ∧ side_ok s'.1 (R ++ rows) (build_side s'.2).
Proof.
  intros Hb Hon Hs Hbb. unfold build_batch in Hbb.
  apply bind_ok in Hbb as ([[keys k] encoded] & Hk & Hbb). cbn in Hbb.
  apply bind_ok in Hbb as (aside & _ & Hbb). apply bind_ok in Hbb as (js & Hjs & [= <-]).
  destruct (batch_keys_spec _ _ _ _ _ _ Hb Hon Hk) as (Hko & Hkeys & Hrow).
  pose proof (side_ok_encoder _ _ _ _ Hs Hko) as Hbuilt.
  eapply (fold_result_invariant _ (λ pre js, ∃ rows,
    collect (λ i, values ← row_values b i; Ok (cells_at keys i, values)) pre = Ok rows ∧
    built k (R ++ rows) (build_side js))) in Hjs as (rows & Hrows & Hbr).
  - exists rows. split; [by eapply keyed_batch_rows|done].
  - intros pre i post s1 s2 Hsp (rows & Hrows & Hbr) Hstep. apply seq_split in Hsp as Hi.
    destruct (row_values_total b i Hb Hi) as [values Hv]. destruct (Hrow i Hi) as (H1 & H2 & H3).
    exists (rows ++ [(cells_at keys i, values)]). split.
    + apply collect_snoc; [done|]. by rewrite Hv.
    + rewrite app_assoc. by eapply build_row_built.
  - exists []. by rewrite app_nil_r.
Qed.

Lemma keyed_rows_snoc on pre b R rows :
  keyed_rows on pre = Ok R → keyed_batch on b = Ok rows → keyed_rows on (pre ++ [b]) = Ok (R ++ rows).
Proof.
  unfold keyed_rows. intros Hp Hb. apply bind_ok in Hp as (rs & Hrs & [= <-]).
  rewrite (collect_snoc _ _ _ _ _ Hrs Hb). cbn. f_equal. rewrite concat_app. simpl. by rewrite app_nil_r.
Qed.

Lemma build_all right_on own right ko js :
  Forall batch_ok right → Forall (λ e, join_key e = true) right_on →
  fold_result (build_batch memory right_on) (None, MkJoinState ∅ own) right = Ok (ko, js) →
  ∃ R, keyed_rows right_on right = Ok R ∧ side_ok ko R (build_side js).
Proof.
  intros Hok Hon Hf.
  apply (fold_result_invariant _ (λ pre s, ∃ R, keyed_rows right_on pre = Ok R ∧
    side_ok s.1 R (build_side s.2))) in Hf; [done| |by exists []].
  intros pre b post s s' Hsp (R & HR & Hs) Hstep. rewrite Hsp in Hok.
  apply list.Forall_app in Hok as [_ Hok]. apply list.Forall_cons in Hok as [Hb _].
  destruct (build_batch_built _ _ _ _ _ Hb Hon Hs Hstep) as (rows & Hrows & Hs').
  exists (R ++ rows). split; [by apply keyed_rows_snoc|done].
Qed.

(** ** The probe side *)

Lemma stored_matches k R key :
  Forall (λ r : keyed_row, row_typed (key_types k) r.1) R → row_typed (key_types k) key →
  no_null key = true → stored k R (key_of k key) = join_matches R key.
Proof.
  intros HR Hkey Hn. unfold stored, join_matches. rewrite Hn.
  induction HR as [|r R Hr _ IH]; [done|]. cbn. destruct (decide (r.1 = key)) as [E|E].
  - rewrite E, Hn, !bool_decide_eq_true_2 by done. cbn. by rewrite IH.
  - rewrite (bool_decide_eq_false_2 (r.1 = key)) by done.
    rewrite (bool_decide_eq_false_2 (key_of k r.1 = key_of k key))
      by (intros Hk; by apply E, (key_of_inj k)).
    rewrite andb_false_r. apply IH.
Qed.

Lemma probe_matches aside values matches out own s' :
  fold_result (λ (s : list (list ScalarValue) * N) right_values,
    own ← try_grow memory aside s.2 (scalar_vec_memory_bytes (values ++ right_values));
    Ok (s.1 ++ [values ++ right_values], own)) (out, own) matches = Ok s' →
  s'.1 = out ++ ((λ v, values ++ v) <$> matches).
Proof.
  revert out own. induction matches as [|v ms IH]; intros out own Hf; cbn [fold_result] in Hf.
  { injection Hf as <-. by rewrite app_nil_r. }
  apply bind_ok in Hf as (s1 & H1 & Hf). apply bind_ok in H1 as (own1 & _ & [= <-]).
  apply IH in Hf. rewrite Hf, fmap_cons. by rewrite <-app_assoc.
Qed.

Lemma probe_row_spec jt w k R side b keys encoded aside s i s' :
  built k R side →
  key_has_null keys i = negb (no_null (cells_at keys i)) →
  encoded !! i = Some (key_of k (cells_at keys i)) →
  row_typed (key_types k) (cells_at keys i) →
  probe_row memory jt w side b keys encoded aside s i = Ok s' →
  ∃ values, row_values b i = Ok values ∧
    s'.1 = s.1 ++ nested_loop jt w [(cells_at keys i, values)] R.
Proof.
  intros (Hs & Hne & HR) Hnull Henc Hty Hp. unfold probe_row in Hp. rewrite Henc in Hp. cbn in Hp.
  apply bind_ok in Hp as (values & Hv & Hp). exists values. split; [done|].
  unfold nested_loop. cbn. rewrite app_nil_r. rewrite Hnull in Hp.
  destruct (no_null (cells_at keys i)) eqn:En; simpl in Hp.
  - specialize (Hs (key_of k (cells_at keys i))) as Hst.
    rewrite (stored_matches k R _ HR Hty En) in Hst. rewrite <-Hst.
    specialize (Hne (key_of k (cells_at keys i))).
    destruct (side !! key_of k (cells_at keys i)) as [ms|]; simpl.
    + destruct s as [out own]. apply probe_matches in Hp. rewrite Hp. destruct ms, jt; done.
    + destruct jt; [injection Hp as <-; by rewrite app_nil_r|].
      by apply bind_ok in Hp as (own & _ & [= <-]).
  - assert (join_matches R (cells_at keys i) = []) as ->.
    { unfold join_matches. rewrite En. clear. induction R; [done|]. done. }
    destruct jt; [injection Hp as <-; by rewrite app_nil_r|].
    by apply bind_ok in Hp as (own & _ & [= <-]).
Qed.

Lemma nested_loop_app jt w L L' R :
  nested_loop jt w (L ++ L') R = nested_loop jt w L R ++ nested_loop jt w L' R.
Proof. unfold nested_loop. apply bind_app. Qed.

Lemma probe_batch_spec jt w left_on side R s b s' :
  batch_ok b → Forall (λ e, join_key e = true) left_on → side_ok s.1 R side →
  probe_batch memory jt w left_on side s b = Ok s' →
  side_ok s'.1 R side ∧
  ∃ rows, keyed_batch left_on b = Ok rows ∧ s'.2.1 = s.2.1 ++ nested_loop jt w rows R.
Proof.
  intros Hb Hon Hs Hp. unfold probe_batch in Hp.
  apply bind_ok in Hp as ([[keys k] encoded] & Hk & Hp). cbn in Hp.
  apply bind_ok in Hp as (aside & _ & Hp). apply bind_ok in Hp as (out & Hout & [= <-]).
  destruct (batch_keys_spec _ _ _ _ _ _ Hb Hon Hk) as (Hko & Hkeys & Hrow).
  pose proof (side_ok_encoder _ _ _ _ Hs Hko) as Hbuilt. split; [done|].
  eapply (fold_result_invariant _ (λ pre out, ∃ rows,
    collect (λ i, values ← row_values b i; Ok (cells_at keys i, values)) pre = Ok rows ∧
    out.1 = s.2.1 ++ nested_loop jt w rows R)) in Hout as (rows & Hrows & Ho).
  - exists rows. split; [by eapply keyed_batch_rows|done].
  - intros pre i post s1 s2 Hsp (rows & Hrows & Ho) Hstep. apply seq_split in Hsp as Hi.
    destruct (Hrow i Hi) as (H1 & H2 & H3).
    destruct (probe_row_spec _ _ _ _ _ _ _ _ _ _ _ _ Hbuilt H1 H2 H3 Hstep) as (values & Hv & Hs2).
    exists (rows ++ [(cells_at keys i, values)]). split.
    + apply collect_snoc; [done|]. by rewrite Hv.
    + rewrite Hs2, Ho, nested_loop_app. by rewrite app_assoc.
  - exists []. by rewrite app_nil_r.
Qed.

Lemma probe_all jt w left_on side R ko own left s' :
  Forall batch_ok left → Forall (λ e, join_key e = true) left_on → side_ok ko R side →
  fold_result (probe_batch memory jt w left_on side) (ko, ([], own)) left = Ok s' →
  ∃ L, keyed_rows left_on left = Ok L ∧ s'.2.1 = nested_loop jt w L R.
Proof.
  intros Hok Hon Hs Hf.
  apply (fold_result_invariant _ (λ pre s, side_ok s.1 R side ∧ ∃ L,
    keyed_rows left_on pre = Ok L ∧ s.2.1 = nested_loop jt w L R)) in Hf as [_ HL]; [done| |].
  - intros pre b post s s1 Hsp (Hs1 & L & HL & Ho) Hstep. rewrite Hsp in Hok.
    apply list.Forall_app in Hok as [_ Hok]. apply list.Forall_cons in Hok as [Hb _].
    destruct (probe_batch_spec _ _ _ _ _ _ _ _ Hb Hon Hs1 Hstep) as (Hs2 & rows & Hrows & Ho2).
    split; [done|]. exists (L ++ rows). split; [by apply keyed_rows_snoc|].
    by rewrite Ho2, Ho, nested_loop_app.
  - split; [done|]. by exists [].
Qed.
End join_proof.

(** ** The property *)

(** C26: the hash join is correct: whenever it returns, its rows are exactly those
    of the nested-loop join of the two inputs, in order: every left row, in input
    order, with each right row, in input order, whose key is equal and has no null,
    and for a left join every left row without a match once, extended by nulls.
    This holds for any split of the inputs into batches (of native column types), any row
    format with injective keys and any memory budget. *)
Theorem hash_join_nested_loop
    `{K : Kernels, !KernelLaws K, C : RowConverter, !RowLaws C, Z : Sizes}
    memory left right jt left_on right_on schema rows :
  Forall batch_ok left → Forall batch_ok right →
  Forall (λ e, join_key e = true) left_on → Forall (λ e, join_key e = true) right_on →
  join_rows memory left right jt left_on right_on schema = Ok rows →
  ∃ L R, keyed_rows left_on left = Ok L ∧ keyed_rows right_on right = Ok R ∧
    rows = nested_loop jt (join_right_width left right schema) L R.
Proof.
  intros Hl Hr Hlo Hro Hj. unfold join_rows in Hj. apply bind_ok in Hj as (own & _ & Hj).
  apply bind_ok in Hj as ([k js] & Hb & Hj). cbn in Hj.
  apply bind_ok in Hj as ([k' [out o]] & Hp & [= <-]).
  destruct (build_all memory _ _ _ _ _ Hr Hro Hb) as (R & HR & Hs).
  destruct (probe_all memory _ _ _ _ _ _ _ _ _ Hl Hlo Hs Hp) as (L & HL & Ho).
  exists L, R. by split_and!.
Qed.

(** ** A worked join *)

#[export] Instance demo_row_laws : RowLaws demo_converter.
Proof.
  refine {| row_bytes _ row := demo_row_bytes row |}.
  - intros types columns keys Hc. cbn in Hc. destruct columns as [|a cs].
    { destruct (decide (types = [])) as [->|]; [|done]. injection Hc as <-. split; [constructor|].
      simpl. lia. }
    destruct (bool_decide _ && _) eqn:E; [|done]. apply andb_true_iff in E as [<-%bool_decide_eq_true_1 E].
    injection Hc as <-. rewrite length_fmap, length_seq. split.
    + unfold all_rows in E. generalize (a :: cs) as columns, (length (a_cells a)) as n, E. clear.
      intros columns n E. induction columns as [|x columns IH]; [constructor|]. cbn in E.
      apply andb_true_iff in E as [E1%bool_decide_eq_true_1 E]. constructor; [done|by apply IH].
    + intros i Hi. rewrite list_lookup_fmap, lookup_seq_lt by done. done.
  - intros types r r' _ _. apply demo_row_bytes_inj.
Defined.

(** Three orders and two customers; one order has no customer. *)
Definition demo_orders : RecordBatch :=
  MkRecordBatch [MkField "o.id" DtInt64 true; MkField "o.customer" DtInt64 true]
    [MkArray DtInt64 [Some (IntCell 1); Some (IntCell 2); Some (IntCell 3)];
     MkArray DtInt64 [Some (IntCell 7); None; Some (IntCell 9)]] 3.
Definition demo_customers : RecordBatch :=
  MkRecordBatch [MkField "c.id" DtInt64 true; MkField "c.name" DtUtf8 true]
    [MkArray DtInt64 [Some (IntCell 7); None]; MkArray DtUtf8 [Some (StrCell "ann"); Some (StrCell "bob")]]
    2.
Definition demo_task_memory : TaskMemory := MkTaskMemory 1000000 0.

Lemma demo_orders_ok : batch_ok demo_orders ∧ batch_ok demo_customers.
Proof.
  split; (split; [by repeat constructor|]);
    repeat constructor; simpl; repeat constructor; intros x Hx; by simplify_eq.
Qed.

Lemma hash_join_nested_loop_witness :
  ∃ rows L R,
    join_rows demo_task_memory [demo_orders] [demo_customers] JoinLeft [Column "customer"] [Column "c.id"]
      (b_schema demo_orders ++ b_schema demo_customers) = Ok rows ∧
    rows = [[Int64 1; Int64 7; Int64 7; Utf8 "ann"]; [Int64 2; Null; Null; Null];
            [Int64 3; Int64 9; Null; Null]] ∧
    keyed_rows [Column "customer"] [demo_orders] = Ok L ∧
    keyed_rows [Column "c.id"] [demo_customers] = Ok R ∧ rows = nested_loop JoinLeft 2 L R.
Proof.
  destruct (hash_join_nested_loop demo_task_memory [demo_orders] [demo_customers] JoinLeft
    [Column "customer"] [Column "c.id"] (b_schema demo_orders ++ b_schema demo_customers)
    [[Int64 1; Int64 7; Int64 7; Utf8 "ann"]; [Int64 2; Null; Null; Null];
     [Int64 3; Int64 9; Null; Null]]) as (L & R & HL & HR & Hn);
    [constructor; [apply demo_orders_ok|constructor]|constructor; [apply demo_orders_ok|constructor]
    |by repeat constructor|by repeat constructor|vm_compute; reflexivity|].
  eexists _, L, R. split; [vm_compute; reflexivity|]. split; [reflexivity|].
  split; [exact HL|]. split; [exact HR|exact Hn].
Defined.
