(* ===== verification/Aggregate.v ===== *)
(** * Hash aggregation ([src/runtime/execution.rs]) *)
From S2P Require Import Prelude Text Float Expr Logical Catalog Physical Memory Execution.

#[export] Instance ScalarValue_countable : Countable ScalarValue.
Proof.
  refine (inj_countable'
    (λ v, match v with
          | Null => inl (inl tt) | Boolean b => inl (inr b) | Int64 z => inr (inl (inl z))
          | UInt64 n => inr (inl (inr n)) | Float64 n => inr (inr (inl n)) | Utf8 s => inr (inr (inr s))
          end)
    (λ x, match x with
          | inl (inl _) => Null | inl (inr b) => Boolean b | inr (inl (inl z)) => Int64 z
          | inr (inl (inr n)) => UInt64 n | inr (inr (inl n)) => Float64 n | inr (inr (inr s)) => Utf8 s
          end) _).
  by intros [].
Defined.

(** The derived [Debug] text of a value, which error messages quote. *)
Class ScalarDebug := debug_scalar : ScalarValue → string.

(** ** States *)

(** [int_sum] is an [i128], the counts are [u64]s, floats are bit patterns. *)
Inductive AggregateState :=
| CountState (value : N) (distinct : option (gset ScalarValue))
| SumState (int_sum : Z) (float_sum : N) (seen : bool) (distinct : option (gset ScalarValue))
| SumUInt64State (value : N) (seen : bool)
| MinState (value : option ScalarValue)
| MaxState (value : option ScalarValue)
| AvgState (sum count : N) (distinct : option (gset ScalarValue)).

Definition AggregateState_new (function : AggregateFunction) (distinct : bool) : AggregateState :=
  let set : option (gset ScalarValue) := if distinct then Some ∅ else None in
  match function with
  | Count => CountState 0 set
  | Sum => SumState 0 0 false set
  | SumUInt64 => SumUInt64State 0 false
  | Min => MinState None
  | Max => MaxState None
  | Avg => AvgState 0 0 set
  end.

(** Unchecked [+=] on a [u64] and an [i128]. *)
Definition add_u64 (a b : N) : result N :=
  if (a + b <=? U64_MAX)%N then Ok (a + b)%N else Panic "attempt to add with overflow".
Definition add_i128 (a b : Z) : result Z :=
  if ((- 2 ^ 127 <=? a + b) && (a + b <? 2 ^ 127))%Z then Ok (a + b)%Z
  else Panic "attempt to add with overflow".

Inductive OrderingChoice := ChooseMin | ChooseMax.

Definition should_replace_extreme (current : option ScalarValue) (candidate : ScalarValue)
    (choice : OrderingChoice) : result bool :=
  if decide (candidate = Null) then Ok false
  else match current with
  | None => Ok true
  | Some value =>
      match partial_compare candidate value with
      | Some Lt => Ok (match choice with ChooseMin => true | ChooseMax => false end)
      | Some Gt => Ok (match choice with ChooseMin => false | ChooseMax => true end)
      | Some Eq => Ok false
      | None => Err (Execution "cannot compare values with different types")
      end
  end.

Definition update_extreme (current : option ScalarValue) (candidate : ScalarValue)
    (choice : OrderingChoice) : result (option ScalarValue) :=
  replace ← should_replace_extreme current candidate choice;
  Ok (if replace : bool then Some candidate else current).

(** [values.insert(value)]: whether the value is new, and the set after. *)
Definition insert_distinct (distinct : option (gset ScalarValue)) (value : ScalarValue)
    : bool * option (gset ScalarValue) :=
  match distinct with
  | None => (true, None)
  | Some values => (negb (bool_decide (value ∈ values)), Some ({[ value ]} ∪ values))
  end.

Section update.
Context `{ScalarDebug}.

Definition numeric_value (value : ScalarValue) : result N :=
  match value with
  | Int64 z => Ok (int_to_f64 z)
  | UInt64 n => Ok (int_to_f64 (Z.of_N n))
  | Float64 bits => Ok bits
  | other => Err (Execution ("numeric aggregate does not support " +:+ debug_scalar other))
  end.

Definition update (s : AggregateState) (value : ScalarValue) : result AggregateState :=
  match s with
  | CountState count distinct =>
      if decide (value = Null) then Ok s
      else
        let '(fresh, distinct) := insert_distinct distinct value in
        count ← if fresh : bool then add_u64 count 1 else Ok count;
        Ok (CountState count distinct)
  | SumState int_sum float_sum seen distinct =>
      if decide (value = Null) then Ok s
      else
        let '(fresh, distinct) := insert_distinct distinct value in
        if negb fresh then Ok (SumState int_sum float_sum seen distinct)
        else match value with
        | Int64 z => int_sum ← add_i128 int_sum z; Ok (SumState int_sum float_sum true distinct)
        | UInt64 n =>
            int_sum ← add_i128 int_sum (Z.of_N n); Ok (SumState int_sum float_sum true distinct)
        | Float64 bits => Ok (SumState int_sum (f64_add float_sum bits) true distinct)
        | other => Err (Execution ("SUM does not support " +:+ debug_scalar other))
        end
  | SumUInt64State sum seen =>
      match value with
      | UInt64 n =>
          sum ← ok_or (checked_add_u64 sum n)
            (Execution "internal unsigned sum overflowed UInt64");
          Ok (SumUInt64State sum true)
      | Null => Ok s
      | other =>
          Err (Execution ("internal unsigned sum requires UInt64, got " +:+ debug_scalar other))
      end
  | MinState current => current ← update_extreme current value ChooseMin; Ok (MinState current)
  | MaxState current => current ← update_extreme current value ChooseMax; Ok (MaxState current)
  | AvgState sum count distinct =>
      if decide (value = Null) then Ok s
      else
        let '(fresh, distinct) := insert_distinct distinct value in
        if negb fresh then Ok (AvgState sum count distinct)
        else
          x ← numeric_value value;
          count ← add_u64 count 1;
          Ok (AvgState (f64_add sum x) count distinct)
  end.

Definition finish (s : AggregateState) : ScalarValue :=
  match s with
  | CountState value _ => UInt64 value
  | SumState int_sum float_sum seen _ =>
      if seen then Float64 (f64_add float_sum (int_to_f64 int_sum)) else Null
  | SumUInt64State value seen => if seen then UInt64 value else Null
  | MinState value | MaxState value => default Null value
  | AvgState sum count _ =>
      if (count =? 0)%N then Null else Float64 (f64_div sum (int_to_f64 (Z.of_N count)))
  end.
End update.

Definition additional_memory `{Sizes} (s : AggregateState) (value : ScalarValue) : result N :=
  if decide (value = Null) then Ok 0%N
  else
    let extreme current choice :=
      replace ← should_replace_extreme current value choice;
      Ok (if replace : bool
          then saturating_sub (scalar_memory_bytes value)
                 (default 0%N (scalar_memory_bytes <$> current))
          else 0%N) in
    match s with
    | CountState _ (Some values) | SumState _ _ _ (Some values) | AvgState _ _ (Some values) =>
        Ok (if decide (value ∈ values) then 0%N
            else saturating_add_u64 HASH_ENTRY_OVERHEAD_BYTES (scalar_memory_bytes value))
    | MinState current => extreme current ChooseMin
    | MaxState current => extreme current ChooseMax
    | _ => Ok 0%N
    end.

(** ** Groups *)

Abbreviation spec := (AggregateFunction * Expr * bool)%type.

Section aggregate.
Context `{FloatDisplay, ScalarDebug, Kernels, BatchOps, RowConverter, Sizes} (memory : TaskMemory).

Definition aggregate_spec (e : Expr) : result spec :=
  match unalias e with
  | Aggregate function e distinct => Ok (function, e, distinct)
  | other => Err (Planning ("expected aggregate expression, got " +:+ display_expr other))
  end.

Definition new_states (specs : list spec) : list AggregateState :=
  (λ s : spec, AggregateState_new s.1.1 s.2) <$> specs.

(** The groups so far, by encoded key, and the bytes reserved for them. *)
Record AggState := MkAggState { groups : gmap string (list AggregateState); as_own : N }.

(** The value a row feeds to an aggregate; [COUNT( * )] counts every row. *)
Definition input_value (input : option array) (row : nat) : result ScalarValue :=
  match input with None => Ok (Boolean true) | Some a => value_at a row end.

(** The states of a group after a row, with the memory they need. *)
Fixpoint update_states (aside : N) (inputs : list (option array)) (row : nat)
    (states : list AggregateState) (own : N) : result (list AggregateState * N) :=
  match states with
  | [] => Ok ([], own)
  | s :: states =>
      match inputs with
      | [] => Panic "index out of bounds"
      | input :: inputs =>
          value ← input_value input row;
          bytes ← additional_memory s value;
          own ← try_grow memory aside own bytes;
          s ← update s value;
          '(states, own) ← update_states aside inputs row states own;
          Ok (s :: states, own)
      end
  end.

Definition aggregate_row (specs : list spec) (inputs : list (option array))
    (encoded : list string) (aside : N) (st : AggState) (row : nat) : result AggState :=
  key ← expect (encoded !! row) "encoded row index out of bounds";
  st ← match groups st !! key with
       | Some _ => Ok st
       | None =>
           own ← try_grow memory aside (as_own st)
                   (aggregate_group_memory_bytes key (length specs));
           Ok (MkAggState (<[key := new_states specs]> (groups st)) own)
       end;
  states ← expect (groups st !! key) "encoded aggregate key was inserted";
  '(states, own) ← update_states aside inputs row states (as_own st);
  Ok (MkAggState (<[key := states]> (groups st)) own).

Definition aggregate_inputs (specs : list spec) (b : RecordBatch) : result (list (option array)) :=
  collect (λ s : spec, match s.1.2 with Wildcard => Ok None | e => a ← evaluate e b; Ok (Some a) end)
    specs.

Definition aggregate_batch (k : RowKeyEncoder) (group_exprs : list Expr) (specs : list spec)
    (st : AggState) (b : RecordBatch) : result AggState :=
  group_arrays ← collect (λ e, evaluate e b) group_exprs;
  inputs ← aggregate_inputs specs b;
  encoded ← encode k group_arrays (b_rows b);
  aside ← try_reserve memory (as_own st) (memory_size k encoded);
  fold_result (aggregate_row specs inputs encoded aside) st (seq 0 (b_rows b)).

(** The groups of all batches; without grouping there is one group from the
    start. *)
Definition aggregate_groups (k : RowKeyEncoder) (group_exprs : list Expr) (specs : list spec)
    (own : N) (batches : list RecordBatch) : result AggState :=
  st ← if decide (group_exprs = []) then
         own ← try_grow memory 0 own (aggregate_group_memory_bytes EmptyString (length specs));
         Ok (MkAggState {[ EmptyString := new_states specs ]} own)
       else Ok (MkAggState ∅ own);
  fold_result (aggregate_batch k group_exprs specs) st batches.

(** One column per aggregate, from the states of the groups in key order. *)
Definition finish_columns (n : nat) (state_rows : list (list AggregateState))
    : result (list (list ScalarValue)) :=
  fold_result push_row (replicate n []) (fmap (M:=list) finish <$> state_rows).

Definition hash_aggregate_with_memory (batches : list RecordBatch)
    (group_exprs aggregate_exprs : list Expr) (schema : Schema) : result RecordBatch :=
  specs ← collect aggregate_spec aggregate_exprs;
  own ← try_reserve memory 0 0;
  k ← RowKeyEncoder_new (f_type <$> take (length group_exprs) schema);
  st ← aggregate_groups k group_exprs specs own batches;
  let entries := btree_iter (groups st) in
  arrays ← decode k (entries.*1);
  columns ← finish_columns (length aggregate_exprs) (entries.*2);
  outputs ← collect (λ x : list ScalarValue * Field, scalars_to_array x.1 (f_type x.2))
              (zip columns (drop (length group_exprs) schema));
  try_new schema (arrays ++ outputs).
End aggregate.
