(* ===== verification/AggregateProps.v ===== *)
(** * Hash aggregation groups rows by key

    The groups [aggregate_groups] builds are the rows of the input partitioned by
    the elements of their key, each folded in input order; and what the folds
    compute. *)
From S2P Require Import Prelude Text Memory Float Expr ExprProps Logical Catalog Physical Execution ExecutionDemo HashJoin Aggregate.

(** ** The reference *)

Section reference.
Context `{ScalarDebug, Kernels}.

(** The rows of the input: the elements of the key and the aggregates' inputs. *)
Definition agg_batch (group_exprs : list Expr) (specs : list spec) (b : RecordBatch)
    : result (list keyed_row) :=
  keys ← collect (λ e, evaluate e b) group_exprs;
  inputs ← aggregate_inputs specs b;
  collect (λ i, values ← collect (λ x, input_value x i) inputs; Ok (cells_at keys i, values))
    (seq 0 (b_rows b)).

Definition agg_rows (group_exprs : list Expr) (specs : list spec) (batches : list RecordBatch)
    : result (list keyed_row) :=
  rows ← collect (agg_batch group_exprs specs) batches; Ok (concat rows).

(** The inputs of the rows with a given key, in order. *)
Definition group_inputs (rows : list keyed_row) (key : list (option cell)) : list (list ScalarValue) :=
  omap (λ r : keyed_row, if bool_decide (r.1 = key) then Some r.2 else None) rows.

Definition update_all (states : list AggregateState) (values : list ScalarValue)
    : result (list AggregateState) :=
  collect (λ x : AggregateState * ScalarValue, update x.1 x.2) (zip states values).

Definition group_states (specs : list spec) (inputs : list (list ScalarValue))
    : result (list AggregateState) :=
  fold_result update_all (new_states specs) inputs.

Lemma update_all_length states values out :
  length values = length states → update_all states values = Ok out → length out = length states.
Proof.
  unfold update_all. intros Hl Hu. rewrite (collect_length _ _ _ Hu), length_zip_with. lia.
Qed.

Lemma fold_result_snoc {A S} (f : S → A → result S) s l x s1 s2 :
  fold_result f s l = Ok s1 → f s1 x = Ok s2 → fold_result f s (l ++ [x]) = Ok s2.
Proof.
  revert s. induction l as [|y l IH]; intros s Hl Hx; cbn in *.
  - injection Hl as ->. by rewrite Hx.
  - apply bind_ok in Hl as (s' & Hy & Hl). rewrite Hy. cbn. by apply IH.
Qed.
End reference.

Section aggregate_proof.
Context `{FloatDisplay, D : ScalarDebug, K : Kernels, !KernelLaws K, B : BatchOps}.
Context `{C : RowConverter, !RowLaws C, Z : Sizes} (memory : TaskMemory).
Context (k : RowKeyEncoder) (group_exprs : list Expr) (specs : list spec).

(** A row expression over native types. *)
Definition group_key (e : Expr) : bool := native_casts e && typed_literals e.

Lemma update_states_spec aside inputs row states own states' own' :
  length inputs = length states →
  update_states memory aside inputs row states own = Ok (states', own') →
  ∃ values, collect (λ x, input_value x row) inputs = Ok values ∧ update_all states values = Ok states'.
Proof.
  revert inputs own states' own'.
  induction states as [|s states IH]; intros [|x inputs] own states' own' Hl Hu; cbn in Hu; try done.
  { injection Hu as <- <-. by exists []. }
  apply bind_ok in Hu as (v & Hv & Hu). apply bind_ok in Hu as (bytes & _ & Hu).
  apply bind_ok in Hu as (o1 & _ & Hu). apply bind_ok in Hu as (s' & Hs & Hu).
  apply bind_ok in Hu as ([ss o2] & Hss & [= <- <-]).
  destruct (IH inputs o1 ss o2) as (vs & Hvs & Hup); [simpl in Hl; lia|done|].
  exists (v :: vs). cbn [collect]. rewrite Hv, Hvs. split; [done|].
  unfold update_all in *. cbn. by rewrite Hs, Hup.
Qed.

(** The inputs of the rows stored under an encoded key. *)
Definition encoded_inputs (rows : list keyed_row) (key : string) : list (list ScalarValue) :=
  omap (λ r : keyed_row, if bool_decide (key_of k r.1 = key) then Some r.2 else None) rows.

Definition global_key (key : string) : Prop := group_exprs = [] ∧ key = EmptyString.

Record grouped (rows : list keyed_row) (m : gmap string (list AggregateState)) : Prop := {
  gr_some key states : m !! key = Some states →
    group_states specs (encoded_inputs rows key) = Ok states ∧ length states = length specs ∧
    (encoded_inputs rows key ≠ [] ∨ global_key key);
  gr_none key : m !! key = None → encoded_inputs rows key = [] ∧ ~ global_key key;
  gr_typed : Forall (λ r : keyed_row, row_typed (key_types k) r.1) rows;
}.

Lemma encoded_inputs_snoc rows r key :
  encoded_inputs (rows ++ [r]) key =
  encoded_inputs rows key ++ (if bool_decide (key_of k r.1 = key) then [r.2] else []).
Proof. unfold encoded_inputs. rewrite omap_app. cbn. by destruct (bool_decide _). Qed.

(** One more row of a group whose states before it are known. *)
Lemma grouped_snoc rows m r states states' :
  grouped rows m → row_typed (key_types k) r.1 → length r.2 = length specs →
  group_states specs (encoded_inputs rows (key_of k r.1)) = Ok states → length states = length specs →
  update_all states r.2 = Ok states' → grouped (rows ++ [r]) (<[key_of k r.1 := states']> m).
Proof.
  intros [Gs Gn Gt] Hty Hlen Hst Hls Hup. split; [| |apply list.Forall_app; by repeat constructor].
  - intros key out. rewrite encoded_inputs_snoc. destruct (decide (key_of k r.1 = key)) as [<-|Hne].
    + rewrite lookup_insert_eq, bool_decide_eq_true_2 by done. intros [= <-]. split_and!.
      * unfold group_states. by eapply fold_result_snoc.
      * rewrite (update_all_length states r.2); [done|lia|done].
      * left. by destruct (encoded_inputs rows _).
    + rewrite lookup_insert_ne, bool_decide_eq_false_2 by done. rewrite app_nil_r. apply Gs.
  - intros key. rewrite encoded_inputs_snoc. destruct (decide (key_of k r.1 = key)) as [<-|Hne].
    + by rewrite lookup_insert_eq.
    + rewrite lookup_insert_ne, bool_decide_eq_false_2 by done. rewrite app_nil_r. apply Gn.
Qed.

Lemma new_states_length : length (new_states specs) = length specs.
Proof. unfold new_states. by rewrite length_fmap. Qed.

Lemma aggregate_row_grouped keys inputs encoded aside st i st' rows :
  length inputs = length specs →
  encoded !! i = Some (key_of k (cells_at keys i)) → row_typed (key_types k) (cells_at keys i) →
  grouped rows (groups st) →
  aggregate_row memory specs inputs encoded aside st i = Ok st' →
  ∃ values, collect (λ x, input_value x i) inputs = Ok values ∧
    grouped (rows ++ [(cells_at keys i, values)]) (groups st').
Proof.
  intros Hli Henc Hty Hg Ha. unfold aggregate_row in Ha. rewrite Henc in Ha. cbn in Ha.
  set (key := key_of k (cells_at keys i)) in *.
  apply bind_ok in Ha as (st1 & H1 & Ha). apply bind_ok in Ha as (states & Hst & Ha).
  apply bind_ok in Ha as ([states' own'] & Hu & [= <-]). simpl.
  assert (groups st1 !! key = Some states) as Hk by (by destruct (groups st1 !! key); simplify_eq/=).
  assert (group_states specs (encoded_inputs rows key) = Ok states ∧ length states = length specs ∧
          <[key := states']> (groups st1) = <[key := states']> (groups st)) as (Hgs & Hls & ->).
  { destruct (groups st !! key) as [old|] eqn:E.
    - injection H1 as <-. destruct (gr_some _ _ Hg key states Hk) as (? & ? & _). done.
    - apply bind_ok in H1 as (own1 & _ & [= <-]). simpl in Hk. rewrite lookup_insert_eq in Hk.
      injection Hk as <-. destruct (gr_none _ _ Hg key E) as [-> _]. split; [done|].
      split; [apply new_states_length|]. simpl. by rewrite insert_insert_eq. }
  destruct (update_states_spec _ _ _ _ _ _ _ (eq_trans Hli (eq_sym Hls)) Hu) as (values & Hv & Hup).
  exists values. split; [done|].
  eapply (grouped_snoc rows _ (cells_at keys i, values)); try done.
  simpl. by rewrite (collect_length _ _ _ Hv).
Qed.

Lemma aggregate_batch_grouped st b st' rows :
  batch_ok b → Forall (λ e, group_key e = true) group_exprs → grouped rows (groups st) →
  aggregate_batch memory k group_exprs specs st b = Ok st' →
  ∃ more, agg_batch group_exprs specs b = Ok more ∧ grouped (rows ++ more) (groups st').
Proof.
  intros Hb Hge Hg Ha. unfold aggregate_batch in Ha. apply bind_ok in Ha as (keys & Hkeys & Ha).
  apply bind_ok in Ha as (inputs & Hin & Ha). apply bind_ok in Ha as (encoded & Henc & Ha).
  apply bind_ok in Ha as (aside & _ & Ha).
  assert (Forall (array_ok (b_rows b)) keys) as Hok.
  { apply collect_ok in Hkeys. clear -Hkeys Hge Hb KernelLaws0.
    induction Hkeys as [|e a es keys He _ IH]; [done|]. apply list.Forall_cons in Hge as [Hk Hge].
    apply andb_true_iff in Hk as [Hc Hv]. constructor; [|by apply IH].
    by destruct (evaluate_ok _ _ _ Hb Hc Hv He). }
  apply encode_spec in Henc as [_ Henc]; [|done].
  eapply (fold_result_invariant _ (λ pre st, ∃ more,
    collect (λ i, values ← collect (λ x, input_value x i) inputs; Ok (cells_at keys i, values)) pre
      = Ok more ∧ grouped (rows ++ more) (groups st))) in Ha as (more & Hmore & Hgm).
  - exists more. split; [|done]. unfold agg_batch. by rewrite Hkeys, Hin.
  - intros pre i post s1 s2 Hsp (more & Hmore & Hgm) Hstep. apply seq_split in Hsp as Hi.
    destruct (Henc i Hi) as [He Hty].
    destruct (aggregate_row_grouped keys inputs encoded aside s1 i s2 _ (collect_length _ _ _ Hin)
      He Hty Hgm Hstep) as (values & Hv & Hg2).
    exists (more ++ [(cells_at keys i, values)]). split; [|by rewrite app_assoc].
    apply collect_snoc; [done|]. by rewrite Hv.
  - exists []. by rewrite app_nil_r.
Qed.

Lemma grouped_init own st :
  (if decide (group_exprs = []) then
     own ← try_grow memory 0 own (aggregate_group_memory_bytes EmptyString (length specs));
     Ok (MkAggState {[ EmptyString := new_states specs ]} own)
   else Ok (MkAggState ∅ own)) = Ok st → grouped [] (groups st).
Proof.
  destruct (decide (group_exprs = [])) as [E|E].
  - intros Hs. apply bind_ok in Hs as (own' & _ & [= <-]). simpl. split; [| |constructor].
    + intros key states [<- <-]%lookup_singleton_Some. split_and!; [done|apply new_states_length|].
      right. by split.
    + intros key Hk%lookup_singleton_None. split; [done|]. by intros [_ ->].
  - intros [= <-]. simpl. split; [| |constructor].
    + intros key states Hk. by rewrite lookup_empty in Hk.
    + intros key _. split; [done|]. by intros [? _].
Qed.

Lemma aggregate_groups_grouped own batches st :
  Forall batch_ok batches → Forall (λ e, group_key e = true) group_exprs →
  aggregate_groups memory k group_exprs specs own batches = Ok st →
  ∃ rows, agg_rows group_exprs specs batches = Ok rows ∧ grouped rows (groups st).
Proof.
  intros Hok Hge Ha. unfold aggregate_groups in Ha. apply bind_ok in Ha as (st0 & H0 & Ha).
  apply grouped_init in H0.
  apply (fold_result_invariant _ (λ pre st, ∃ rows, agg_rows group_exprs specs pre = Ok rows ∧
    grouped rows (groups st))) in Ha; [done| |by exists []].
  intros pre b post s s' Hsp (rows & Hrows & Hg) Hstep. rewrite Hsp in Hok.
  apply list.Forall_app in Hok as [_ Hok]. apply list.Forall_cons in Hok as [Hb _].
  destruct (aggregate_batch_grouped _ _ _ _ Hb Hge Hg Hstep) as (more & Hmore & Hg').
  exists (rows ++ more). split; [|done]. unfold agg_rows in *.
  apply bind_ok in Hrows as (rs & Hrs & [= <-]). rewrite (collect_snoc _ _ _ _ _ Hrs Hmore). cbn.
  f_equal. rewrite concat_app. simpl. by rewrite app_nil_r.
Qed.

Lemma encoded_inputs_group rows key :
  Forall (λ r : keyed_row, row_typed (key_types k) r.1) rows → row_typed (key_types k) key →
  encoded_inputs rows (key_of k key) = group_inputs rows key.
Proof.
  intros Hr Hk. unfold encoded_inputs, group_inputs. induction Hr as [|r rows Hr _ IH]; [done|]. cbn.
  destruct (decide (r.1 = key)) as [E|E].
  - rewrite E, !bool_decide_eq_true_2 by done. by rewrite IH.
  - rewrite !bool_decide_eq_false_2; [done|done|]. intros Hkk. by apply E, (key_of_inj k).
Qed.
End aggregate_proof.

(** ** What the folds compute *)

(** [a] is the one that MIN, or MAX, keeps of [a] and [b]. *)
Definition better (choice : OrderingChoice) (a b : ScalarValue) : Prop :=
  match choice with ChooseMin => scalar_le a b | ChooseMax => scalar_le b a end.

Lemma better_trans choice a b c : better choice a b → better choice b c → better choice a c.
Proof. destruct choice; simpl; eauto using scalar_le_trans. Qed.

(** The extreme of the non-null values, if there is one. *)
Definition is_extreme (choice : OrderingChoice) (vs : list ScalarValue) (m : option ScalarValue) : Prop :=
  match m with
  | None => ∀ v, v ∈ vs → v = Null
  | Some m => m ∈ vs ∧ m ≠ Null ∧ ∀ v, v ∈ vs → v ≠ Null → v = m ∨ better choice m v
  end.

Lemma update_extreme_spec choice vs m v m' :
  is_extreme choice vs m → update_extreme m v choice = Ok m' → is_extreme choice (vs ++ [v]) m'.
Proof.
  unfold update_extreme, should_replace_extreme. intros Hm Hu.
  destruct (decide (v = Null)) as [->|Hv].
  { injection Hu as <-. destruct m as [m|]; simpl in *; set_solver. }
  destruct m as [m|].
  2:{ injection Hu as <-. simpl in *. split_and!; [set_solver|done|].
      intros w Hw Hwn. left. apply elem_of_app in Hw as [Hw|Hw]; [by apply Hm in Hw|set_solver]. }
  destruct Hm as (Hin & Hnn & Hall). pose proof (partial_compare_flip v m) as Hflip.
  destruct (partial_compare v m) as [o|] eqn:E; [|done].
  assert ((m' = Some v ∧ better choice v m) ∨ (m' = Some m ∧ better choice m v)) as [[-> Hb]|[-> Hb]].
  { destruct o, choice; injection Hu as <-; simpl; unfold scalar_le; rewrite ?E, ?Hflip; simpl; auto. }
  - split_and!; [set_solver|done|]. intros w Hw Hwn. apply elem_of_app in Hw as [Hw|Hw]; [|set_solver].
    right. destruct (Hall w Hw Hwn) as [->|Hbw]; [done|]. by eapply better_trans.
  - split_and!; [set_solver|done|]. intros w Hw Hwn. apply elem_of_app in Hw as [Hw|Hw]; [auto|].
    right. apply list_elem_of_singleton in Hw as ->. done.
Qed.

(** The state of MIN or MAX. *)
Definition extreme_state (choice : OrderingChoice) (m : option ScalarValue) : AggregateState :=
  match choice with ChooseMin => MinState m | ChooseMax => MaxState m end.

Lemma fold_extreme `{ScalarDebug} choice vs s :
  fold_result update (extreme_state choice None) vs = Ok s →
  ∃ m, s = extreme_state choice m ∧ is_extreme choice vs m.
Proof.
  intros Hf. apply (fold_result_invariant _ (λ pre s, ∃ m, s = extreme_state choice m ∧
    is_extreme choice pre m)) in Hf; [done| |].
  - intros pre v post s1 s2 _ (m & -> & Hm) Hu.
    assert (∃ m', update_extreme m v choice = Ok m' ∧ s2 = extreme_state choice m') as (m' & Hm' & ->).
    { destruct choice; simpl in Hu; apply bind_ok in Hu as (m' & ? & [= <-]); eauto. }
    exists m'. split; [done|]. by eapply update_extreme_spec.
  - exists None. split; [done|]. by intros v Hv%not_elem_of_nil.
Qed.

(** The values that aggregates other than [COUNT( * )] see. *)
Definition non_null (vs : list ScalarValue) : list ScalarValue :=
  omap (λ v, if decide (v = Null) then None else Some v) vs.

Lemma non_null_snoc vs v :
  non_null (vs ++ [v]) = non_null vs ++ (if decide (v = Null) then [] else [v]).
Proof.
  unfold non_null. rewrite omap_app. f_equal. simpl. by destruct (decide (v = Null)).
Qed.

Definition int_value (v : ScalarValue) : Z :=
  match v with Int64 z => z | UInt64 n => Z.of_N n | _ => 0 end.
Definition sum_ints (vs : list ScalarValue) : Z := foldr (λ v acc, int_value v + acc)%Z 0%Z vs.

Lemma sum_ints_snoc vs v : sum_ints (vs ++ [v]) = (sum_ints vs + int_value v)%Z.
Proof. unfold sum_ints. induction vs; simpl; lia. Qed.

(** The values in order, each where it first appears. *)
Definition distinct_values (vs : list ScalarValue) : list ScalarValue :=
  foldl (λ acc v, if decide (v ∈ acc) then acc else acc ++ [v]) [] vs.

Lemma distinct_values_snoc vs v :
  distinct_values (vs ++ [v]) = let acc := distinct_values vs in if decide (v ∈ acc) then acc else acc ++ [v].
Proof. unfold distinct_values. by rewrite foldl_app. Qed.

Lemma distinct_values_spec vs : NoDup (distinct_values vs) ∧ ∀ v, v ∈ distinct_values vs ↔ v ∈ vs.
Proof.
  induction vs as [|v vs [Hn Hi]] using rev_ind; [by split; [apply NoDup_nil_2|]|]. rewrite distinct_values_snoc. cbn.
  destruct (decide (v ∈ distinct_values vs)) as [Hv|Hv].
  - split; [done|]. intros w. rewrite elem_of_app, Hi, list_elem_of_singleton. rewrite Hi in Hv. naive_solver.
  - split; [apply list.NoDup_app; split_and!; [done|set_solver|apply NoDup_singleton]|].
    intros w. by rewrite !elem_of_app, Hi.
Qed.

(** What an aggregate sees: the non-null values, and of equal ones the first only when it
    is [DISTINCT]. *)
Definition inputs_of (distinct : bool) (vs : list ScalarValue) : list ScalarValue :=
  if distinct then distinct_values (non_null vs) else non_null vs.

Lemma inputs_of_null d vs : inputs_of d (vs ++ [Null]) = inputs_of d vs.
Proof. unfold inputs_of. by rewrite non_null_snoc, decide_True, app_nil_r. Qed.

(** The set a [DISTINCT] aggregate keeps. *)
Definition values_seen (distinct : bool) (vs : list ScalarValue) : option (gset ScalarValue) :=
  if distinct then Some (list_to_set (non_null vs)) else None.

Lemma insert_distinct_spec d vs v :
  v ≠ Null →
  ∃ fresh : bool, insert_distinct (values_seen d vs) v = (fresh, values_seen d (vs ++ [v])) ∧
    inputs_of d (vs ++ [v]) = inputs_of d vs ++ (if fresh then [v] else []).
Proof.
  intros Hv. unfold insert_distinct, values_seen, inputs_of. rewrite non_null_snoc, decide_False by done.
  destruct d; [|by exists true]. rewrite distinct_values_snoc, list_to_set_app_L. cbn.
  rewrite union_empty_r_L, (union_comm_L _ {[v]}). eexists. split; [done|].
  assert (v ∈ distinct_values (non_null vs) ↔ v ∈ (list_to_set (non_null vs) : gset ScalarValue)) as E
    by (rewrite (proj2 (distinct_values_spec _)), elem_of_list_to_set; done).
  destruct (decide (v ∈ distinct_values (non_null vs))) as [Hin|Hin].
  - rewrite bool_decide_eq_true_2 by by apply E. by rewrite app_nil_r.
  - by rewrite bool_decide_eq_false_2 by by rewrite <-E.
Qed.

(** The sum of the doubles, in order, and the value of a number as a double. *)
Definition float_value (v : ScalarValue) : option N := match v with Float64 bits => Some bits | _ => None end.
Definition sum_floats (vs : list ScalarValue) : N := foldl f64_add 0%N (omap float_value vs).
Definition as_f64 (v : ScalarValue) : N :=
  match v with Int64 z => int_to_f64 z | UInt64 n => int_to_f64 (Z.of_N n) | Float64 bits => bits | _ => 0 end.
Definition sum_as_f64 (vs : list ScalarValue) : N := foldl (λ acc v, f64_add acc (as_f64 v)) 0%N vs.

Section folds.
Context `{ScalarDebug}.

Lemma fold_count vs s :
  fold_result update (AggregateState_new Count false) vs = Ok s →
  s = CountState (N.of_nat (length (non_null vs))) None.
Proof.
  intros Hf. apply (fold_result_invariant _ (λ pre s,
    s = CountState (N.of_nat (length (non_null pre))) None)) in Hf; [done| |done].
  intros pre v post s1 s2 _ -> Hu. rewrite non_null_snoc. cbn in Hu.
  destruct (decide (v = Null)); [injection Hu as <-; by rewrite app_nil_r|].
  unfold add_u64 in Hu. destruct (_ <=? _)%N; [|done]. injection Hu as <-. f_equal.
  rewrite length_app. simpl. lia.
Qed.

Lemma fold_count_inputs d vs s :
  fold_result update (AggregateState_new Count d) vs = Ok s →
  s = CountState (N.of_nat (length (inputs_of d vs))) (values_seen d vs).
Proof.
  intros Hf. apply (fold_result_invariant _ (λ pre s,
    s = CountState (N.of_nat (length (inputs_of d pre))) (values_seen d pre))) in Hf; [done| |by destruct d].
  intros pre v post s1 s2 _ -> Hu. cbn [update] in Hu. destruct (decide (v = Null)) as [->|Hv].
  { injection Hu as <-. rewrite inputs_of_null. unfold values_seen. by rewrite non_null_snoc, decide_True, app_nil_r. }
  destruct (insert_distinct_spec d pre v Hv) as (fresh & E & Hin). rewrite E in Hu. rewrite Hin, length_app.
  apply bind_ok in Hu as (count & Hc & [= <-]). f_equal.
  destruct fresh; cbn; [unfold add_u64 in Hc; destruct (_ <=? _)%N; [injection Hc as <-|done]|injection Hc as <-]; lia.
Qed.

Lemma snoc_not_nil {A} (l : list A) x : bool_decide (l ++ [x] = []) = false.
Proof. apply bool_decide_eq_false_2. by destruct l. Qed.

(** The running sum of the integers is an [i128], that of the doubles a double. *)
Lemma fold_sum_inputs d vs s :
  fold_result update (AggregateState_new Sum d) vs = Ok s →
  let xs := inputs_of d vs in
  s = SumState (sum_ints xs) (sum_floats xs) (negb (bool_decide (xs = []))) (values_seen d vs).
Proof.
  intros Hf. cbn. apply (fold_result_invariant _ (λ pre s,
    s = SumState (sum_ints (inputs_of d pre)) (sum_floats (inputs_of d pre)) (negb (bool_decide (inputs_of d pre = [])))
          (values_seen d pre))) in Hf; [done| |by destruct d].
  intros pre v post s1 s2 _ -> Hu. cbn [update] in Hu. destruct (decide (v = Null)) as [->|Hv].
  { injection Hu as <-. rewrite inputs_of_null. unfold values_seen. by rewrite non_null_snoc, decide_True, app_nil_r. }
  destruct (insert_distinct_spec d pre v Hv) as (fresh & E & Hin). rewrite E in Hu. rewrite Hin.
  destruct fresh; cbn [negb] in Hu; [|injection Hu as <-; by rewrite app_nil_r].
  rewrite sum_ints_snoc, snoc_not_nil. unfold sum_floats. rewrite omap_app, foldl_app.
  destruct v as [| |z|n|bits|]; try done; cbn [omap list_omap float_value foldl int_value].
  - apply bind_ok in Hu as (t & Ht & [= <-]). unfold add_i128 in Ht. destruct (_ && _); [|done]. by injection Ht as <-.
  - apply bind_ok in Hu as (t & Ht & [= <-]). unfold add_i128 in Ht. destruct (_ && _); [|done]. by injection Ht as <-.
  - injection Hu as <-. by rewrite Z.add_0_r.
Qed.

Lemma fold_avg_inputs d vs s :
  fold_result update (AggregateState_new Avg d) vs = Ok s →
  let xs := inputs_of d vs in s = AvgState (sum_as_f64 xs) (N.of_nat (length xs)) (values_seen d vs).
Proof.
  intros Hf. cbn. apply (fold_result_invariant _ (λ pre s,
    s = AvgState (sum_as_f64 (inputs_of d pre)) (N.of_nat (length (inputs_of d pre))) (values_seen d pre))) in Hf;
    [done| |by destruct d].
  intros pre v post s1 s2 _ -> Hu. cbn [update] in Hu. destruct (decide (v = Null)) as [->|Hv].
  { injection Hu as <-. rewrite inputs_of_null. unfold values_seen. by rewrite non_null_snoc, decide_True, app_nil_r. }
  destruct (insert_distinct_spec d pre v Hv) as (fresh & E & Hin). rewrite E in Hu. rewrite Hin.
  destruct fresh; cbn [negb] in Hu; [|injection Hu as <-; by rewrite app_nil_r].
  apply bind_ok in Hu as (x & Hx & Hu). apply bind_ok in Hu as (count & Hc & [= <-]).
  assert (x = as_f64 v) as -> by (by destruct v; try done; injection Hx).
  unfold sum_as_f64. rewrite foldl_app, length_app. cbn. f_equal.
  unfold add_u64 in Hc. destruct (_ <=? _)%N; [|done]. injection Hc as <-. lia.
Qed.

Lemma fold_sum_u64 d vs s :
  fold_result update (AggregateState_new SumUInt64 d) vs = Ok s →
  Forall (λ v, ∃ n, v = UInt64 n) (non_null vs) ∧ (0 ≤ sum_ints (non_null vs) ≤ Z.of_N U64_MAX)%Z ∧
  s = SumUInt64State (Z.to_N (sum_ints (non_null vs))) (negb (bool_decide (non_null vs = []))).
Proof.
  intros Hf. apply (fold_result_invariant _ (λ pre s,
    Forall (λ v, ∃ n, v = UInt64 n) (non_null pre) ∧ (0 ≤ sum_ints (non_null pre) ≤ Z.of_N U64_MAX)%Z ∧
    s = SumUInt64State (Z.to_N (sum_ints (non_null pre))) (negb (bool_decide (non_null pre = [])))))
    in Hf; [done| |].
  2:{ split_and!; [constructor|done|done|done]. }
  intros pre v post s1 s2 _ (Hall & Hb & ->) Hu. rewrite non_null_snoc. cbn in Hu.
  destruct v as [| | |n| |]; try done.
  { injection Hu as <-. by rewrite decide_True, app_nil_r. }
  rewrite decide_False, sum_ints_snoc by done.
  rewrite (bool_decide_eq_false_2 (non_null pre ++ [_] = [])) by (by destruct (non_null pre)).
  apply bind_ok in Hu as (t & Ht & [= <-]). unfold checked_add_u64 in Ht.
  destruct (_ <=? _)%N eqn:E; [|done]. injection Ht as <-. apply N.leb_le in E. cbn [int_value].
  split_and!; [apply list.Forall_app; split; [done|repeat constructor; eauto]|lia|lia|f_equal; lia].
Qed.
End folds.

(** ** The properties *)

(** C27: hash aggregation groups correctly: when [aggregate_groups] returns, it has
    one group for every distinct key of the input (for any split into batches, of native
    column types, and any memory budget), and the states of a group are the fold of [update] over the
    rows with that key, in input order; it has no other group, except the one group
    of an aggregation without [GROUP BY] over no rows. *)
Theorem aggregation_groups_by_key
    `{D : ScalarDebug, K : Kernels, !KernelLaws K, C : RowConverter, !RowLaws C, Z : Sizes}
    memory k group_exprs specs own batches st :
  Forall batch_ok batches → Forall (λ e, group_key e = true) group_exprs →
  aggregate_groups memory k group_exprs specs own batches = Ok st →
  ∃ rows, agg_rows group_exprs specs batches = Ok rows ∧
    (∀ r, r ∈ rows → ∃ states, groups st !! key_of k r.1 = Some states ∧
       group_states specs (group_inputs rows r.1) = Ok states) ∧
    (∀ key states, groups st !! key = Some states →
       (∃ r, r ∈ rows ∧ key = key_of k r.1) ∨
       (group_exprs = [] ∧ key = EmptyString ∧ states = new_states specs)).
Proof.
  intros Hb Hge Ha. destruct (aggregate_groups_grouped memory _ _ _ _ _ _ Hb Hge Ha)
    as (rows & Hrows & [Gs Gn Gt]). exists rows. split; [done|]. split.
  - intros r Hr. rewrite list.Forall_forall in Gt. pose proof (Gt r Hr) as Hty.
    assert (encoded_inputs k rows (key_of k r.1) = group_inputs rows r.1) as Hin
      by (apply encoded_inputs_group; [by apply list.Forall_forall|done]).
    destruct (groups st !! key_of k r.1) as [states|] eqn:E.
    + exists states. rewrite <-Hin. split; [done|]. by apply Gs in E as [? _].
    + apply Gn in E as [E _]. rewrite Hin in E. exfalso.
      assert (r.2 ∈ group_inputs rows r.1) as Hx; [|rewrite E in Hx; by apply not_elem_of_nil in Hx].
      apply list_elem_of_omap. exists r. by rewrite bool_decide_eq_true_2.
  - intros key states Hk. destruct (Gs _ _ Hk) as (Hst & _ & Hne).
    destruct (encoded_inputs k rows key) as [|v vs] eqn:E.
    + destruct Hne as [?|[? ->]]; [done|]. right. by injection Hst.
    + left. assert (v ∈ encoded_inputs k rows key) as Hv by (rewrite E; by left).
      apply list_elem_of_omap in Hv as (r & Hr & Hv). exists r. split; [done|].
      destruct (bool_decide (key_of k r.1 = key)) eqn:Eb; [|done]. by apply bool_decide_eq_true_1 in Eb.
Qed.

(** C28: counts, sums and averages are what they name, for values of any type.
    [COUNT(x)] is the number of non-null values, whatever they are ([COUNT( * )] is fed
    TRUE for every row); [SUM] is NULL without a non-null value and otherwise the exact sum
    of the integers, converted once to a double, added to the sum of the doubles in order;
    [AVG] is the sum of the values as doubles, in order, divided by their number.  With
    [DISTINCT] they see of equal values only the first.  The internal unsigned sum is the
    exact sum, which fits a [u64]. *)
Theorem counts_and_sums_exact `{ScalarDebug} f d vs s :
  fold_result update (AggregateState_new f d) vs = Ok s →
  let xs := inputs_of d vs in
  match f with
  | Count => finish s = UInt64 (N.of_nat (length xs))
  | Sum => finish s = if decide (xs = []) then Null else Float64 (f64_add (sum_floats xs) (int_to_f64 (sum_ints xs)))
  | Avg => finish s = if decide (xs = []) then Null
                      else Float64 (f64_div (sum_as_f64 xs) (int_to_f64 (Z.of_nat (length xs))))
  | SumUInt64 =>
      let total := sum_ints (non_null vs) in
      (0 ≤ total ≤ Z.of_N U64_MAX)%Z ∧ finish s = if decide (non_null vs = []) then Null else UInt64 (Z.to_N total)
  | Min | Max => True
  end.
Proof.
  intros Hf xs. destruct f; try done.
  - by apply fold_count_inputs in Hf as ->.
  - apply fold_sum_inputs in Hf as ->. fold xs. cbn. by destruct xs.
  - apply fold_sum_u64 in Hf as (_ & Hb & ->). split; [done|]. cbn. by destruct (non_null vs).
  - apply fold_avg_inputs in Hf as ->. fold xs. cbn [finish]. destruct xs as [|x xs']; [done|]. cbn [length].
    destruct (N.eqb_spec (N.of_nat (S (length xs'))) 0); [lia|]. do 3 f_equal; lia.
Qed.

(** C29: [MIN] and [MAX] return an extreme: the result is NULL exactly when every
    value is NULL, and otherwise one of the non-null values, no other non-null
    value being smaller (for [MAX], larger) in the order of [partial_compare]. *)
Theorem extremes_correct `{ScalarDebug} choice vs s :
  fold_result update (extreme_state choice None) vs = Ok s →
  (finish s = Null ∧ ∀ v, v ∈ vs → v = Null) ∨
  (finish s ∈ vs ∧ finish s ≠ Null ∧
   ∀ v, v ∈ vs → v ≠ Null → v = finish s ∨ better choice (finish s) v).
Proof.
  intros (m & -> & Hm)%fold_extreme. destruct m as [m|], choice; simpl in *; auto.
Qed.

(** ** Worked aggregations *)

#[local] Instance demo_debug : ScalarDebug := λ _, "value".

Definition demo_specs : list spec := [(Count, Wildcard, false); (Max, Column "id", false)].

Definition demo_groups : result AggState :=
  aggregate_groups demo_task_memory (MkRowKeyEncoder [DtInt64]) [Column "customer"] demo_specs 0
    [demo_orders].
Definition demo_agg_state : AggState :=
  match demo_groups with Ok st => st | _ => MkAggState ∅ 0 end.

Lemma aggregation_groups_by_key_witness :
  size (groups demo_agg_state) = 3 ∧
  ∃ rows, agg_rows [Column "customer"] demo_specs [demo_orders] = Ok rows ∧
    (∀ r, r ∈ rows → ∃ states,
       groups demo_agg_state !! key_of (MkRowKeyEncoder [DtInt64]) r.1 = Some states ∧
       group_states demo_specs (group_inputs rows r.1) = Ok states).
Proof.
  split; [vm_compute; reflexivity|].
  destruct (aggregation_groups_by_key demo_task_memory (MkRowKeyEncoder [DtInt64]) [Column "customer"]
    demo_specs 0 [demo_orders] demo_agg_state) as (rows & Hrows & Hg & _).
  - constructor; [apply demo_orders_ok|constructor].
  - by repeat constructor.
  - vm_compute. reflexivity.
  - exists rows. split; [exact Hrows|exact Hg].
Defined.

Lemma counts_and_sums_exact_witness :
  ∃ s, fold_result update (AggregateState_new Sum true) [Int64 3; Null; Float64 0; UInt64 4; Int64 3] = Ok s ∧
    finish s = Float64 (f64_add (f64_add 0 0) (int_to_f64 7)).
Proof.
  eexists. split; [reflexivity|].
  apply (counts_and_sums_exact Sum true [Int64 3; Null; Float64 0; UInt64 4; Int64 3]). reflexivity.
Defined.

Lemma extremes_correct_witness :
  ∃ s, fold_result update (extreme_state ChooseMax None) [Int64 3; Null; Int64 4] = Ok s ∧
    finish s = Int64 4 ∧
    ((finish s = Null ∧ ∀ v, v ∈ [Int64 3; Null; Int64 4] → v = Null) ∨
     (finish s ∈ [Int64 3; Null; Int64 4] ∧ finish s ≠ Null ∧
      ∀ v, v ∈ [Int64 3; Null; Int64 4] → v ≠ Null → v = finish s ∨ better ChooseMax (finish s) v)).
Proof.
  eexists. split; [reflexivity|]. split; [reflexivity|].
  apply (extremes_correct ChooseMax [Int64 3; Null; Int64 4]). reflexivity.
Defined.
