(* ===== verification/Executor.v ===== *)
(** * Running physical plans ([src/runtime/execution.rs])

    [execute] composes the operators of [Execution] and [Aggregate] with sort and
    top-k into the stream of a whole plan.  What the runtime decides is an argument:
    every scan and every blocking operator, numbered in preorder, has a [Site] with
    the order in which the tasks of its partitions deliver, whether its channel is full
    when the pruning test of a partition fails, and the memory the rest of the query holds
    while it runs.  The query is not cancelled ([ExecutorCancel]). *)
From S2P Require Import Prelude Text Float Expr Logical Catalog Physical Memory Execution Aggregate.

(** ** Sorting *)

Record SortColumn := MkSortColumn { sc_values : array; sc_descending : bool; sc_nulls_first : bool }.

(** [arrow]'s [lexsort_to_indices] and [RecordBatch::new_empty] *)
Class SortOps := {
  lexsort_to_indices : list SortColumn → option nat → result (list nat);
  new_empty : Schema → RecordBatch;
}.

Section blocking.
Context `{Kernels, BatchOps, SortOps}.

Definition sort_columns (exprs : list SortExpr) (b : RecordBatch) : result (list SortColumn) :=
  collect (λ s, a ← evaluate (s_expr s) b; Ok (MkSortColumn a (negb (s_ascending s)) (s_nulls_first s))) exprs.

(** The bytes reserved for sorting a batch. *)
Definition index_bytes (b : RecordBatch) : N := saturating_mul_u64 (N.of_nat (b_rows b)) 8.

Definition sorted_batch (memory : TaskMemory) (own : N) (batches : list RecordBatch) (exprs : list SortExpr)
    (limit : option N) (schema : Schema) : result RecordBatch :=
  b ← concat_batches schema batches;
  aside ← try_reserve memory own (batch_bytes b);
  _ ← try_reserve memory (own + aside) (index_bytes b);
  columns ← sort_columns exprs b;
  indices ← lexsort_to_indices columns ((λ n, Nat.min (N.to_nat n) (b_rows b)) <$> limit);
  take_record_batch b indices.

(** The single item a blocking operator sends; a panic sends none. *)
Definition send (r : result RecordBatch) : stream := emit r [].

Definition execute_sort (memory : TaskMemory) (input : stream) (exprs : list SortExpr) (schema : Schema)
    : stream :=
  send ('(batches, own) ← collect_with_memory memory 0 input;
        if decide (batches = []) then Ok (new_empty schema)
        else sorted_batch memory own batches exprs None schema).

Definition execute_topk (memory : TaskMemory) (input : stream) (exprs : list SortExpr) (limit : N)
    (schema : Schema) : stream :=
  send ('(batches, own) ← collect_with_memory memory 0 input;
        if decide (batches = [] ∨ limit = 0%N) then Ok (new_empty schema)
        else sorted_batch memory own batches exprs (Some limit) schema).

Context `{FloatDisplay, ScalarDebug, RowConverter, Sizes}.

(** What is left of the budget while an operator holds its input. *)
Definition holding (memory : TaskMemory) (own : N) : TaskMemory :=
  MkTaskMemory (tm_limit memory) (tm_others memory + own).

Definition execute_aggregate (memory : TaskMemory) (input : stream) (group_exprs aggregate_exprs : list Expr)
    (schema : Schema) : stream :=
  send ('(batches, own) ← collect_with_memory memory 0 input;
        hash_aggregate_with_memory (holding memory own) batches group_exprs aggregate_exprs schema).

(** Both inputs are collected concurrently; here the left one first. *)
Definition execute_hash_join (memory : TaskMemory) (left_input right_input : stream) (join_type : JoinType)
    (left_on right_on : list Expr) (schema : Schema) : stream :=
  send ('(left_batches, left_own) ← collect_with_memory memory 0 left_input;
        '(right_batches, right_own) ← collect_with_memory memory left_own right_input;
        hash_join (holding memory (left_own + right_own)) left_batches right_batches join_type left_on right_on
          schema).

(** ** Plans *)

Record Site := MkSite { site_schedule : list nat; site_full : nat → bool; site_memory : TaskMemory }.

(** The next item of the named task, while the schedule lasts. *)
Fixpoint interleave {A} (schedule : list nat) (streams : list (list A)) : list A :=
  match schedule with
  | [] => concat streams
  | k :: schedule =>
      match streams !! k with
      | Some (x :: rest) => x :: interleave schedule (<[k := rest]> streams)
      | _ => interleave schedule streams
      end
  end.

(** The tasks of a scan: one per partition of the table, or the partition the task
    is bound to. *)
Definition scan_tasks (provider : TableProvider) (partition : option nat) : list nat :=
  match partition with Some p => [p] | None => seq 0 (tp_partition_count provider) end.

Definition execute_scans (site : Site) (provider : TableProvider) (projection : option (list nat))
    (filters : list Expr) (partition : option nat) : stream :=
  interleave (site_schedule site)
    ((λ k, execute_scan (site_full site k) provider projection filters k) <$> scan_tasks provider partition).

(** The scans and blocking operators of a plan. *)
Fixpoint sites (p : PhysicalPlan) : nat :=
  match p with
  | PScan _ _ _ _ _ _ => 1
  | PProjection _ input _ _ | PFilter _ input _ _ | PLimit _ input _ _ => sites input
  | PHashAggregate _ input _ _ _ | PSort _ input _ _ | PTopK _ input _ _ _ => S (sites input)
  | PHashJoin _ l r _ _ _ _ => S (sites l + sites r)
  end.

Fixpoint execute (env : nat → Site) (partition : option nat) (n : nat) (p : PhysicalPlan) : stream :=
  match p with
  | PScan _ _ provider projection filters _ => execute_scans (env n) provider projection filters partition
  | PProjection _ input exprs schema => execute_projection (execute env partition n input) exprs schema
  | PFilter _ input predicate _ => execute_filter (execute env partition n input) predicate
  | PHashAggregate _ input group_exprs aggregate_exprs schema =>
      execute_aggregate (site_memory (env n)) (execute env partition (S n) input) group_exprs aggregate_exprs schema
  | PSort _ input exprs schema =>
      execute_sort (site_memory (env n)) (execute env partition (S n) input) exprs schema
  | PTopK _ input exprs limit schema =>
      execute_topk (site_memory (env n)) (execute env partition (S n) input) exprs limit schema
  | PLimit _ input limit _ => execute_limit (execute env partition n input) limit
  | PHashJoin _ l r join_type left_on right_on schema =>
      execute_hash_join (site_memory (env n)) (execute env partition (S n) l)
        (execute env partition (S n + sites l) r) join_type left_on right_on schema
  end.

(** [execute(plan, context).collect()] *)
Definition execute_plan (env : nat → Site) (partition : option nat) (p : PhysicalPlan)
    : result (list RecordBatch) :=
  receive_all (execute env partition 0 p).
End blocking.

(** Tasks only decide the order in which their items arrive. *)
Lemma interleave_Permutation {A} schedule (streams : list (list A)) :
  interleave schedule streams ≡ₚ concat streams.
Proof.
  revert streams. induction schedule as [|k schedule IH]; intros streams; cbn; [done|].
  destruct (streams !! k) as [[|x rest]|] eqn:E; try apply IH. rewrite IH.
  apply lookup_lt_Some in E as Hlt. rewrite insert_take_drop by done.
  rewrite <-(take_drop_middle _ _ _ E) at 3.
  rewrite !concat_app. cbn. by rewrite Permutation_middle.
Qed.
