(* ===== verification/ExecutorCancel.v ===== *)
(** * Cancelled executions ([src/runtime/execution.rs])

    Every operator's output goes through [track_operator_output], which counts it and
    cuts it off with an error when the query is cancelled.  Where each operator notices a
    cancellation is an argument. *)
From S2P Require Import Prelude Text Memory Metrics Float Expr Logical Catalog Physical Execution Aggregate Executor.

(** ** Tracking *)

(** What goes through: everything, or so many items and then the error.  An operator that
    is started after the cancellation is cut at 0. *)
Definition tracked (cut : option nat) (output : stream) : stream :=
  match cut with None => output | Some k => take k output ++ [Err Cancelled] end.

Definition record_item (operator_id : N) (operator_name : string) (m : QueryMetrics) (item : result RecordBatch)
    : result QueryMetrics :=
  match item with Ok b => record_operator_output m operator_id operator_name (N.of_nat (b_rows b)) | _ => Ok m end.

(** The output and the metrics; [elapsed] in nanoseconds. *)
Definition track_operator_output (operator_id : N) (operator_name : string) (elapsed : N) (cut : option nat) (output : stream)
    (m : QueryMetrics) : stream * result QueryMetrics :=
  let output := tracked cut output in
  (output, m ← fold_result (record_item operator_id operator_name) m output;
           add_operator_elapsed m operator_id operator_name elapsed).

(** ** Plans *)

Section cancelled.
Context `{Kernels, BatchOps, SortOps, FloatDisplay, ScalarDebug, RowConverter, Sizes}.

(** [execute] with the cut of every operator, by its path from the root. *)
Fixpoint execute_cancelled (cuts : list nat → option nat) (path : list nat) (env : nat → Site) (partition : option nat)
    (n : nat) (p : PhysicalPlan) : stream :=
  tracked (cuts path)
    match p with
    | PScan _ _ provider projection filters _ => execute_scans (env n) provider projection filters partition
    | PProjection _ input exprs schema =>
        execute_projection (execute_cancelled cuts (0 :: path) env partition n input) exprs schema
    | PFilter _ input predicate _ => execute_filter (execute_cancelled cuts (0 :: path) env partition n input) predicate
    | PHashAggregate _ input group_exprs aggregate_exprs schema =>
        execute_aggregate (site_memory (env n)) (execute_cancelled cuts (0 :: path) env partition (S n) input)
          group_exprs aggregate_exprs schema
    | PSort _ input exprs schema =>
        execute_sort (site_memory (env n)) (execute_cancelled cuts (0 :: path) env partition (S n) input) exprs schema
    | PTopK _ input exprs limit schema =>
        execute_topk (site_memory (env n)) (execute_cancelled cuts (0 :: path) env partition (S n) input) exprs limit schema
    | PLimit _ input limit _ => execute_limit (execute_cancelled cuts (0 :: path) env partition n input) limit
    | PHashJoin _ l r join_type left_on right_on schema =>
        execute_hash_join (site_memory (env n)) (execute_cancelled cuts (0 :: path) env partition (S n) l)
          (execute_cancelled cuts (1 :: path) env partition (S n + sites l) r) join_type left_on right_on schema
    end.

Definition execute_plan_cancelled (cuts : list nat → option nat) (env : nat → Site) (partition : option nat)
    (p : PhysicalPlan) : result (list RecordBatch) :=
  receive_all (execute_cancelled cuts [] env partition 0 p).

(** Nobody cancels. *)
Lemma execute_uncancelled path env partition n p :
  execute_cancelled (λ _, None) path env partition n p = execute env partition n p.
Proof.
  revert path n. induction p as [| | | | | | |id l IHl r IHr t lo ro s]; intros path n; cbn [execute_cancelled tracked execute]; rewrite ?IHp; try done.
  by rewrite IHl, IHr.
Qed.

Lemma execute_plan_uncancelled env partition p :
  execute_plan_cancelled (λ _, None) env partition p = execute_plan env partition p.
Proof. unfold execute_plan_cancelled, execute_plan. by rewrite execute_uncancelled. Qed.

(** ** Streams that were cut off *)

(** The items of a stream up to the error of a cancellation, or all of them. *)
Inductive cut_off : stream → stream → Prop :=
| cut_end : cut_off [] []
| cut_here s rest : cut_off s (Err Cancelled :: rest)
| cut_next item s s' : cut_off s s' → cut_off (item :: s) (item :: s').
#[local] Hint Constructors cut_off : core.

Lemma cut_off_refl s : cut_off s s.
Proof. induction s; auto. Qed.

Lemma cut_off_tracked cut s s' : cut_off s s' → cut_off s (tracked cut s').
Proof.
  intros Hs. destruct cut as [k|]; [cbn|done]. revert k. induction Hs as [|s rest|item s s' _ IH]; intros [|k]; cbn; auto.
Qed.

Lemma cut_off_emit r s s' : cut_off s s' → cut_off (emit r s) (emit r s').
Proof. destruct r; cbn; auto. Qed.

Lemma cut_off_projection s s' exprs schema :
  cut_off s s' → cut_off (execute_projection s exprs schema) (execute_projection s' exprs schema).
Proof. induction 1; cbn; auto using cut_off_emit. Qed.

Lemma cut_off_filter s s' predicate : cut_off s s' → cut_off (execute_filter s predicate) (execute_filter s' predicate).
Proof. induction 1; cbn; auto using cut_off_emit. Qed.

Lemma cut_off_limit s s' limit : cut_off s s' → cut_off (execute_limit s limit) (execute_limit s' limit).
Proof.
  intros Hs. revert limit. induction Hs as [|s rest|item s s' _ IH]; intros limit; [apply cut_off_refl|..].
  - destruct s; cbn; by destruct (limit =? 0)%N.
  - cbn. destruct (limit =? 0)%N; [done|]. destruct item as [b|e|why]; [|apply cut_off_refl..].
    destruct (_ =? 0)%N; auto.
Qed.

(** A loop over a cut stream does the same or ends in the cancellation. *)
Definition same_or_cancelled {A} (r r' : result A) : Prop := r' = r ∨ r' = Err Cancelled.

Lemma cut_off_fold {A} (f : A → result RecordBatch → result A) s s' a :
  (∀ a e, f a (Err e) = Err e) → cut_off s s' → same_or_cancelled (fold_result f a s) (fold_result f a s').
Proof.
  intros Hf Hs. revert a. induction Hs as [|s rest|item s s' _ IH]; intros a; cbn; [by left|rewrite Hf; by right|].
  destruct (f a item); [apply IH|by left..].
Qed.

Lemma cut_off_receive s s' : cut_off s s' → same_or_cancelled (receive_all s) (receive_all s').
Proof.
  unfold receive_all. induction 1 as [|s rest|item s s' _ IH]; [by left|by right|]. cbn.
  destruct item; cbn; [|by left..]. destruct IH as [->| ->]; [by left|by right].
Qed.

Lemma same_or_cancelled_bind {A B} (r r' : result A) (f f' : A → result B) :
  same_or_cancelled r r' → (∀ a, same_or_cancelled (f a) (f' a)) → same_or_cancelled (r ≫= f) (r' ≫= f').
Proof. intros [->| ->] Hf; [|by right]. destruct r; [apply Hf|by left..]. Qed.

Lemma same_or_cancelled_refl {A} (r : result A) : same_or_cancelled r r.
Proof. by left. Qed.

Lemma cut_off_collect memory aside s s' :
  cut_off s s' → same_or_cancelled (collect_with_memory memory aside s) (collect_with_memory memory aside s').
Proof.
  intros Hs. apply same_or_cancelled_bind; [by left|]. intros own. by apply cut_off_fold.
Qed.

Lemma cut_off_send r r' : same_or_cancelled r r' → cut_off (send r) (send r').
Proof. intros [->| ->]; [apply cut_off_refl|apply cut_here]. Qed.

Lemma cut_off_execute cuts path env partition n p :
  cut_off (execute env partition n p) (execute_cancelled cuts path env partition n p).
Proof.
  revert path n. induction p as [| | | | | | |id l IHl r IHr t lo ro s]; intros path n; cbn [execute_cancelled execute]; apply cut_off_tracked;
    auto using cut_off_refl, cut_off_projection, cut_off_filter, cut_off_limit.
  all: apply cut_off_send; (apply same_or_cancelled_bind; [by apply cut_off_collect|]); intros [bs own]; try apply same_or_cancelled_refl.
  apply same_or_cancelled_bind; [by apply cut_off_collect|]. intros [bs' own']. apply same_or_cancelled_refl.
Qed.

Lemma execute_plan_same_or_cancelled cuts env partition p :
  same_or_cancelled (execute_plan env partition p) (execute_plan_cancelled cuts env partition p).
Proof. apply cut_off_receive, cut_off_execute. Qed.

Lemma receive_cut s batches : receive_all (s ++ [Err Cancelled]) ≠ Ok batches.
Proof.
  unfold receive_all. revert batches. induction s as [|[b|e|why] s IH]; intros batches; cbn; try done.
  destruct (collect _ _); cbn; try done. intros _. by eapply (IH _ eq_refl).
Qed.

(** C31: cancellation is all or nothing.  Wherever the operators of a query notice that it
    is cancelled, each at a point of its own, or do not notice in time, the query returns
    exactly what it returns when nobody cancels, or the error [Cancelled]: never a part of
    its result, and no error the query would not have had.  Once the root operator has
    noticed, it returns no result at all. *)
Theorem cancelled_query_whole cuts env partition p :
  let r := execute_plan_cancelled cuts env partition p in
  (r = execute_plan env partition p ∨ r = Err Cancelled) ∧ (is_Some (cuts []) → ∀ batches, r ≠ Ok batches).
Proof.
  cbn. split; [apply execute_plan_same_or_cancelled|].
  intros [k Hk] batches. unfold execute_plan_cancelled. destruct p; cbn [execute_cancelled]; rewrite Hk; apply receive_cut.
Qed.

(** ** Panics

    An operator is a task of its own: when it panics its channel closes, and the query
    ends well, without the rows it has not sent. *)
Example panicking_operator_answers_nothing memory input batches own groups aggregates schema why :
  collect_with_memory memory 0 input = Ok (batches, own) →
  hash_aggregate_with_memory (holding memory own) batches groups aggregates schema = Panic why →
  receive_all (execute_aggregate memory input groups aggregates schema) = Ok [].
Proof. intros Hc Hp. unfold execute_aggregate. rewrite Hc. cbn. by rewrite Hp. Qed.
End cancelled.
