(* ===== verification/ExecutorProps.v ===== *)
(** * Executions that agree

    A tool for comparing two executions: [sim] relates two streams that deliver the
    same batches until the first one reports an error.  Every operator preserves it
    when its expressions evaluate alike. *)
From S2P Require Import Prelude Text Float Expr ExprProps SchemaProps Logical Catalog Physical Memory Execution ExecutionDemo Aggregate Executor.

(** ** Outcomes that agree *)

(** [r'] does what [r] does, unless [r] is an error. *)
Definition refines {A} (R : A → A → Prop) (r r' : result A) : Prop :=
  match r with
  | Ok a => ∃ a', r' = Ok a' ∧ R a a'
  | Err _ => True
  | Panic _ => ∃ why, r' = Panic why
  end.

Lemma refines_refl {A} (r : result A) : refines eq r r.
Proof. destruct r; cbn; eauto. Qed.

Lemma refines_eq {A} (r r' : result A) : r' = r → refines eq r r'.
Proof. intros ->. apply refines_refl. Qed.

Lemma refines_mono {A} (R S : A → A → Prop) r r' :
  refines R r r' → (∀ a a', r = Ok a → R a a' → S a a') → refines S r r'.
Proof. destruct r; cbn; [|done|done]. intros (a' & -> & Ha) HS. eauto. Qed.

Lemma refines_bind {A B} (R : A → A → Prop) (S : B → B → Prop) r r' (f f' : A → result B) :
  refines R r r' → (∀ a a', R a a' → refines S (f a) (f' a')) → refines S (r ≫= f) (r' ≫= f').
Proof.
  destruct r as [a| |why]; cbn; [|done|].
  - intros (a' & -> & Ha) Hf. by apply Hf.
  - intros (w & ->) _. cbn. eauto.
Qed.

Lemma refines_bind_eq {A B} (S : B → B → Prop) r (f f' : A → result B) :
  (∀ a, r = Ok a → refines S (f a) (f' a)) → refines S (r ≫= f) (r ≫= f').
Proof. destruct r; cbn; eauto. Qed.

Lemma collect_refines {A B} (R : B → B → Prop) (f f' : A → result B) l l' :
  Forall2 (λ x x', refines R (f x) (f' x')) l l' → refines (Forall2 R) (collect f l) (collect f' l').
Proof.
  induction 1 as [|x x' l l' Hx _ IH]; cbn; [eexists; by split; [|constructor]|].
  eapply refines_bind; [exact Hx|]. intros y y' Hy. eapply refines_bind; [exact IH|]. intros ys ys' Hys.
  eexists. split; [done|by constructor].
Qed.

Lemma fold_result_refines {A S} (P : A → A → Prop) (R : S → S → Prop) (f f' : S → A → result S) l l' s s' :
  (∀ s s' x x', R s s' → P x x' → refines R (f s x) (f' s' x')) → Forall2 P l l' → R s s' →
  refines R (fold_result f s l) (fold_result f' s' l').
Proof.
  intros Hf Hl. revert s s'. induction Hl as [|x x' l l' Hx _ IH]; intros s s' Hs; cbn; [eauto|].
  eapply refines_bind; [by apply Hf|]. intros t t' Ht. by apply IH.
Qed.

Lemma Forall2_eq {A} (l l' : list A) : Forall2 eq l l' ↔ l = l'.
Proof. split; [by intros ?%list_eq_Forall2|intros ->; by apply list_eq_Forall2]. Qed.

(** ** Streams that agree *)

Inductive sim (R : RecordBatch → RecordBatch → Prop) : stream → stream → Prop :=
| sim_nil : sim R [] []
| sim_ok b b' s s' : R b b' → sim R s s' → sim R (Ok b :: s) (Ok b' :: s')
| sim_err e s s' : sim R (Err e :: s) s'.

Lemma sim_trans (R S T : RecordBatch → RecordBatch → Prop) s1 s2 s3 :
  (∀ a b c, R a b → S b c → T a c) → sim R s1 s2 → sim S s2 s3 → sim T s1 s3.
Proof.
  intros Ht H12. revert s3. induction H12 as [|b b' s s' Hb _ IH|]; intros s3 H23; [| |constructor].
  - inversion H23. constructor.
  - inversion H23 as [|? b'' ? s'' Hb' Hs|]; subst. constructor; [by eapply Ht|by apply IH].
Qed.

Lemma sim_mono (R S : RecordBatch → RecordBatch → Prop) s s' :
  (∀ b b', R b b' → S b b') → sim R s s' → sim S s s'.
Proof. intros HR. induction 1; constructor; eauto. Qed.

Lemma sim_app R s t s' t' : sim R s s' → sim R t t' → sim R (s ++ t) (s' ++ t').
Proof. induction 1; cbn; [done|intros; constructor; eauto|constructor]. Qed.

Lemma sim_interleave R schedule ss ss' :
  Forall2 (sim R) ss ss' → sim R (interleave schedule ss) (interleave schedule ss').
Proof.
  revert ss ss'. induction schedule as [|k schedule IH]; intros ss ss' Hs; cbn.
  - induction Hs as [|s s' ss ss' Hs _ IHs]; cbn; [constructor|by apply sim_app].
  - destruct (ss !! k) as [s|] eqn:E.
    + destruct (Forall2_lookup_l _ _ _ _ _ Hs E) as (s' & E' & Hk). rewrite E'.
      inversion Hk as [|b b' t t' Hb Ht|e t t']; subst; [by apply IH| |constructor].
      constructor; [done|]. apply IH. by apply Forall2_insert.
    + apply lookup_ge_None in E. rewrite (Forall2_length Hs) in E.
      rewrite (lookup_ge_None_2 _ _ E). by apply IH.
Qed.

Lemma sim_receive R s s' : sim R s s' → refines (Forall2 R) (receive_all s) (receive_all s').
Proof.
  unfold receive_all. induction 1 as [|b b' s s' Hb _ IH|e s s']; [by eexists| |done].
  cbn [collect id]. change (Ok b ≫= ?f) with (f b). change (Ok b' ≫= ?f) with (f b').
  eapply refines_bind; [exact IH|]. intros bs bs' Hbs. eexists. split; [done|by constructor].
Qed.

(** An operator that maps every item. *)
Lemma sim_emit R r r' s s' : refines R r r' → sim R s s' → sim R (emit r s) (emit r' s').
Proof. destruct r; cbn; [intros (x & -> & Ha); by constructor|by constructor|intros (w & ->) _; constructor]. Qed.

Lemma sim_send R r r' : refines R r r' → sim R (send r) (send r').
Proof. intros Hr. apply sim_emit; [done|constructor]. Qed.

Section operators.
Context `{K : Kernels, B : BatchOps} (Q R : RecordBatch → RecordBatch → Prop).

Lemma sim_projection s s' es es' schema schema' :
  sim Q s s' → (∀ b b', Q b b' → refines R (project_batch b es schema) (project_batch b' es' schema')) →
  sim R (execute_projection s es schema) (execute_projection s' es' schema').
Proof.
  intros Hs Hp. induction Hs as [|b b' s s' Hb _ IH|e s s']; cbn; [constructor| |constructor].
  apply sim_emit; [by apply Hp|done].
Qed.

Lemma sim_filter s s' e e' :
  sim Q s s' → (∀ b b', Q b b' → refines R (filter_batch b e) (filter_batch b' e')) →
  sim R (execute_filter s e) (execute_filter s' e').
Proof.
  intros Hs Hp. induction Hs as [|b b' s s' Hb _ IH|x s s']; cbn; [constructor| |constructor].
  apply sim_emit; [by apply Hp|done].
Qed.

Lemma sim_limit s s' n :
  (∀ b b', Q b b' → b_rows b = b_rows b' ∧ ∀ k, k <= b_rows b → R (batch_slice b 0 k) (batch_slice b' 0 k)) →
  sim Q s s' → sim R (execute_limit s n) (execute_limit s' n).
Proof.
  intros HQ Hs. revert n. induction Hs as [|b b' s s' Hb _ IH|x s s']; intros n.
  - cbn. destruct (n =? 0)%N; constructor.
  - cbn. destruct (n =? 0)%N; [constructor|]. destruct (HQ _ _ Hb) as [Hr Hslice]. rewrite <-Hr. destruct (_ =? 0)%N; [apply IH|].
    constructor; [|apply IH]. apply Hslice. lia.
  - destruct s' as [|y s']; cbn; destruct (n =? 0)%N; constructor.
Qed.

Lemma sim_collect memory aside s s' :
  (∀ b b', Q b b' → batch_bytes b = batch_bytes b') → sim Q s s' →
  refines (λ x x', Forall2 Q x.1 x'.1 ∧ x.2 = x'.2)
    (collect_with_memory memory aside s) (collect_with_memory memory aside s').
Proof.
  intros Hb Hs. unfold collect_with_memory. apply refines_bind_eq. intros own _.
  set (step := λ (st : list RecordBatch * N) (item : result RecordBatch), b ← item; _).
  enough (∀ acc acc' o, Forall2 Q acc acc' → refines (λ x x', Forall2 Q x.1 x'.1 ∧ x.2 = x'.2)
    (fold_result step (acc, o) s) (fold_result step (acc', o) s')) as Hgo by (apply Hgo; constructor).
  clear own. induction Hs as [|b b' s s' Hq _ IH|e s s']; intros acc acc' o Hacc; [by eexists| |done].
  cbn [fold_result]. subst step. cbn. rewrite <-(Hb _ _ Hq).
  destruct (try_grow memory aside o (batch_bytes b)) as [own| |]; cbn; [|done|eauto].
  apply IH. apply Forall2_app; [done|by constructor].
Qed.
End operators.

(** ** Batches that fit the schema of a plan

    A scan puts out batches with the column names of its table, while its plan has
    qualified ones: a batch fits a schema when it conforms to it under other names,
    and every name of the schema finds the same column. *)

Definition relabel (s : Schema) (b : RecordBatch) : RecordBatch := MkRecordBatch s (b_columns b) (b_rows b).

Record fits (s : Schema) (b : RecordBatch) : Prop := {
  fit_ok : batch_ok (relabel s b);
  fit_names n i : find_column s n = Ok i → find_column (b_schema b) n = Ok i;
}.

(** Two batches with the same content. *)
Record same (s : Schema) (b b' : RecordBatch) : Prop := {
  same_columns : b_columns b = b_columns b';
  same_rows : b_rows b = b_rows b';
  same_left : fits s b;
  same_right : fits s b';
}.

Lemma same_refl s b : fits s b → same s b b.
Proof. by split. Qed.

Lemma same_trans s a b c : same s a b → same s b c → same s a c.
Proof. intros [] []. split; congruence || done. Qed.

Lemma same_relabel s b b' : same s b b' → relabel s b' = relabel s b.
Proof. intros [Hc Hr _ _]. unfold relabel. by rewrite Hc, Hr. Qed.

(** Every column of an expression is a column of the schema. *)
Fixpoint resolved (s : Schema) (e : Expr) : bool :=
  match e with
  | Column n => match find_column s n with Ok _ => true | _ => false end
  | Binary l _ r => resolved s l && resolved s r
  | IsNull e _ | Cast e _ | Alias e _ | Aggregate _ e _ => resolved s e
  | Literal _ | Wildcard => true
  end.

(** Kernels report what they cannot compute. *)
Class KernelsReturn (K : Kernels) :=
  law_arith_no_panic op t x y : no_panic (arith_cell op t x y).

Section evaluation.
Context `{K : Kernels}.

Lemma evaluate_relabel s b e : fits s b → resolved s e = true → evaluate e b = evaluate e (relabel s b).
Proof.
  intros [_ Hn]. induction e as [n|v|l IHl op r IHr|e IH negated|e IH t|e IH alias|f e IH d|]; cbn [resolved evaluate]; try done.
  - intros Hr. cbn. destruct (find_column s n) as [i| |] eqn:E; try done. by rewrite (Hn _ _ E).
  - intros [Hl Hr]%andb_true_iff. cbn. by rewrite IHl, IHr.
  - intros Hr. by rewrite IH.
  - intros Hr. by rewrite IH.
  - intros Hr. specialize (IH Hr). by destruct e.
Qed.

Lemma zip_cells_no_panic f l r : (∀ x y, no_panic (f x y)) → no_panic (zip_cells f l r).
Proof.
  intros Hf. revert r. induction l as [|x l IH]; intros [|y r]; cbn; try done.
  destruct x as [x|], y as [y|]; cbn; try (specialize (IH r); by destruct (zip_cells f l r)).
  specialize (Hf x y). destruct (f x y); cbn; try done. specialize (IH r). by destruct (zip_cells f l r).
Qed.

Lemma zip_bools_no_panic f l r : no_panic (zip_bools f l r).
Proof.
  revert r. induction l as [|x l IH]; intros [|y r]; cbn; try done. specialize (IH r). by destruct (zip_bools f l r).
Qed.

Context `{!KernelsReturn K}.

Lemma apply_kernel_no_panic op l r : no_panic (apply_kernel op l r).
Proof.
  unfold apply_kernel, as_boolean. destruct (is_logical op).
  - destruct (decide (a_type l = DtBoolean)); [|exact I]. destruct (decide (a_type r = DtBoolean)); [|exact I]. cbn.
    match goal with |- context [zip_bools ?f ?x ?y] => pose proof (zip_bools_no_panic f x y); by destruct (zip_bools f x y) end.
  - destruct (is_comparison op); (destruct (negb _); [done|]);
      match goal with |- context [zip_cells ?f ?x ?y] =>
        assert (no_panic (zip_cells f x y)) as Hz by (apply zip_cells_no_panic; intros; done || apply law_arith_no_panic);
        by destruct (zip_cells f x y)
      end.
Qed.

Lemma evaluate_binary_no_panic op n l r : no_panic (evaluate_binary op n l r).
Proof.
  unfold evaluate_binary, cast_array. destruct (decide _); [by destruct (is_arithmetic op)|].
  destruct (decide _); [apply apply_kernel_no_panic|].
  destruct (coercion_target _ _ _) as [t|]; [|exact I]. cbn. destruct (cast_supported (a_type l) t); [|exact I]. cbn.
  destruct (cast_supported (a_type r) t); [|exact I]. apply apply_kernel_no_panic.
Qed.

Lemma find_column_no_panic s n : no_panic (find_column s n).
Proof. unfold find_column, resolve_field_index. by repeat case_match. Qed.

Lemma evaluate_no_panic b e : batch_ok b → no_alias (unalias e) = true → no_panic (evaluate e b).
Proof.
  intros [_ Hb].
  assert (∀ e, no_alias e = true → no_panic (evaluate e b)) as Hna.
  { clear e. induction e as [n|v|l IHl op r IHr|e IH negated|e IH t|e IH alias|f e IH d|]; cbn [evaluate no_alias]; try done.
    - intros _. pose proof (find_column_no_panic (b_schema b) n) as Hn.
      destruct (find_column (b_schema b) n) as [i| |] eqn:E; try done. cbn.
      apply resolve_field_refers in E as (f & Hf & _).
      by destruct (Forall2_lookup_l _ _ _ _ _ Hb Hf) as (a & -> & _).
    - intros [Hl Hr]%andb_true_iff. specialize (IHl Hl). specialize (IHr Hr).
      destruct (evaluate l b); try done. cbn. destruct (evaluate r b); try done. cbn. apply evaluate_binary_no_panic.
    - intros He. specialize (IH He). by destruct (evaluate e b).
    - intros He. specialize (IH He). destruct (evaluate e b); try done. cbn. unfold cast_array. by destruct (cast_supported _ _). }
  destruct e as [| | | | |e a| |]; try apply Hna. cbn. intros He. destruct e; cbn in He; try done; by apply Hna.
Qed.
End evaluation.
