(* ===== verification/OperatorProps.v ===== *)
(** * Operators on batches with the same content

    Over Arrow's batch operations with their documented behaviour, every operator
    treats two batches with the same content alike, also when the expressions of one
    side have been simplified, and puts out batches that fit the schema of its plan. *)
From S2P Require Import Prelude Text Float Expr ExprProps SchemaProps Logical Catalog Physical Memory Execution ExecutionDemo HashJoin Aggregate AggregateProps Executor ExecutorProps.

(** ** Arrow's operations on batches *)

Definition filtered (b : RecordBatch) (mask : list (option cell)) : RecordBatch :=
  MkRecordBatch (b_schema b) (map_columns (select_cells mask) b) (length (select_cells mask mask)).

Definition concatenated (s : Schema) (bs : list RecordBatch) : RecordBatch :=
  MkRecordBatch s
    ((λ i, MkArray (default DtNull (f_type <$> s !! i))
             (concat ((λ b, default [] (a_cells <$> b_columns b !! i)) <$> bs))) <$> seq 0 (length s))
    (sum_list (b_rows <$> bs)).

Definition taken (b : RecordBatch) (indices : list nat) : RecordBatch :=
  MkRecordBatch (b_schema b) (map_columns (λ l, (λ i, default None (l !! i)) <$> indices) b) (length indices).

Definition projected (b : RecordBatch) (indices : list nat) : RecordBatch :=
  MkRecordBatch (omap (λ i, b_schema b !! i) indices) (omap (λ i, b_columns b !! i) indices) (b_rows b).

Definition nullable_schema (s : Schema) : Prop := Forall (λ f, f_nullable f = true) s.

(** A record batch conforms to its schema; the kernels are total on conforming
    batches and work column by column. *)
Class BatchLaws (B : BatchOps) := {
  law_new schema columns b :
    try_new schema columns = Ok b →
    b_schema b = schema ∧ b_columns b = columns ∧ columns ≠ [] ∧
    Forall2 (λ f a, a_type a = f_type f ∧ array_ok (b_rows b) a) schema columns;
  law_new_returns schema columns : no_panic (try_new schema columns);
  law_project b indices :
    length (b_schema b) = length (b_columns b) → Forall (λ i, i < length (b_columns b)) indices →
    batch_project b indices = Ok (projected b indices);
  law_filter b mask : length mask = b_rows b → filter_record_batch b mask = Ok (filtered b mask);
  law_slice b n : n <= b_rows b → batch_slice b 0 n = MkRecordBatch (b_schema b) (map_columns (take n) b) n;
  law_concat s bs :
    nullable_schema s → Forall (λ b, batch_ok (relabel s b)) bs → concat_batches s bs = Ok (concatenated s bs);
  law_take_batch b indices : Forall (λ i, i < b_rows b) indices → take_record_batch b indices = Ok (taken b indices);
  law_bytes b b' : b_columns b = b_columns b' → b_rows b = b_rows b' → batch_bytes b = batch_bytes b';
}.

Class SortLaws (S : SortOps) := {
  law_lexsort columns limit indices n :
    Forall (λ c, length (a_cells (sc_values c)) = n) columns →
    lexsort_to_indices columns limit = Ok indices → Forall (λ i, i < n) indices;
  law_empty s : new_empty s = MkRecordBatch s ((λ f, MkArray (f_type f) []) <$> s) 0;
}.

(** ** Columns *)

Lemma select_cells_length {A} mask (l : list A) :
  length l = length mask → length (select_cells mask l) = length (select_cells mask mask).
Proof.
  unfold select_cells. revert mask. induction l as [|x l IH]; intros [|c mask] Hl; try done.
  specialize (IH mask ltac:(cbn in Hl; lia)). cbn. destruct c as [[[]| | | |]|]; cbn; by rewrite ?IH.
Qed.

Lemma select_cells_elem {A} mask (l : list A) x : x ∈ select_cells mask l → x ∈ l.
Proof.
  unfold select_cells. intros ([y c] & Hy & Hc)%list_elem_of_omap.
  apply list_elem_of_lookup in Hy as [i Hi]. apply lookup_zip_Some in Hi as [Hi _].
  cbn in Hc. destruct c as [[[]| | | |]|]; try done. injection Hc as ->. by eapply list_elem_of_lookup_2.
Qed.

(** A transformation of all columns to a new length, which keeps their elements. *)
Lemma map_columns_ok s b m (f : list (option cell) → list (option cell)) s' :
  batch_ok (relabel s b) →
  (∀ l : list (option cell), length l = b_rows b → length (f l) = m ∧ ∀ c x, c ∈ f l → c = Some x → c ∈ l) →
  batch_ok (relabel s (MkRecordBatch s' (map_columns f b) m)).
Proof.
  intros [Hn Hb] Hf. split; [done|]. cbn in *. unfold map_columns. apply Forall2_fmap_r.
  eapply Forall2_impl; [|exact Hb]. intros fl a (Ht & Hlen & Hty). cbn. split; [done|].
  destruct (Hf _ Hlen) as [Hm Hin]. split; [done|]. apply list.Forall_forall. intros c Hc x ->.
  rewrite list.Forall_forall in Hty. eapply (Hty (Some x)); [by eapply Hin|done].
Qed.

Lemma fits_map s b b' m f :
  fits s b → b' = MkRecordBatch (b_schema b) (map_columns f b) m →
  (∀ l : list (option cell), length l = b_rows b → length (f l) = m ∧ ∀ c x, c ∈ f l → c = Some x → c ∈ l) →
  fits s b'.
Proof. intros [Hok Hn] -> Hf. split; [by apply map_columns_ok|done]. Qed.

Lemma fits_own s b : b_schema b = s → batch_ok b → fits s b.
Proof. intros <- Hb. split; [by destruct b|done]. Qed.

Lemma concatenated_ok s bs :
  native_schema s → Forall (λ b, batch_ok (relabel s b)) bs → batch_ok (concatenated s bs).
Proof.
  intros Hn Hbs. split; [done|]. unfold conforming. cbn. apply Forall2_same_length_lookup. rewrite length_fmap, length_seq.
  split; [done|]. intros i f a Hf Ha. apply list_lookup_fmap_Some in Ha as (j & -> & Hj).
  apply lookup_seq in Hj as [-> Hi]. cbn in Hi |- *. rewrite Hf. cbn. split; [done|].
  assert (∀ b, b ∈ bs → ∃ a, b_columns b !! i = Some a ∧ a_type a = f_type f ∧ array_ok (b_rows b) a) as Hcol.
  { intros b Hb. rewrite list.Forall_forall in Hbs. destruct (Hbs _ Hb) as [_ H2].
    destruct (Forall2_lookup_l _ _ _ _ _ H2 Hf) as (a & Ha & ? & ?). by exists a. }
  clear -Hcol. induction bs as [|b bs IH]; [by split|].
  destruct (Hcol b) as (a & Ha & Ht & Hl & Hty); [by left|].
  destruct IH as [IHl IHt]; [intros b' Hb'; apply Hcol; by right|].
  cbn [fmap list_fmap concat]. rewrite Ha. cbn [fmap option_fmap option_map default sum_list].
  split; [|by apply list.Forall_app; split; [rewrite <-Ht|]].
  cbn in *. rewrite length_app. lia.
Qed.

(** ** Expressions *)

Definition evaluable (e : Expr) : Prop :=
  native_casts e = true ∧ typed_literals e = true ∧ no_alias (unalias e) = true.

(** [e'] is [e], or what the optimizer makes of it. *)
Definition simp `{Kernels} (s : Schema) (e e' : Expr) : Prop := e' = e ∨ simplify e s = Ok e'.

Lemma resolved_simplify `{Kernels} s e e' : resolved s e = true → simplify e s = Ok e' → resolved s e' = true.
Proof.
  assert (∀ e e', resolved s e = true → simplify_node e s = Ok e' → resolved s e' = true) as Hnode.
  { clear e e'. intros e e' He Hs. unfold simplify_node in Hs. apply bind_ok in Hs as (t & _ & Hs).
    assert (∀ v t, resolved s (typed_literal v t) = true) as Hlit.
    { intros v u. unfold typed_literal. by destruct (decide _). }
    destruct (_ && _).
    - apply bind_ok in Hs as (a & _ & Hs). apply bind_ok in Hs as (v & _ & [= <-]). apply Hlit.
    - destruct e as [| |l op r| | | | |]; try by injection Hs as <-. injection Hs as <-.
      cbn in He. apply andb_true_iff in He as [Hl Hr]. unfold simplify_binary.
      repeat case_match; try done; try apply Hlit; cbn; by rewrite Hl, Hr. }
  revert e'. induction e as [n|v|l IHl op r IHr|e IH negated|e IH t|e IH alias|f e IH d|];
    intros e' He Hs; cbn [simplify] in Hs; try (by eapply Hnode); cbn in He.
  - apply andb_true_iff in He as [Hl Hr]. apply bind_ok in Hs as (l' & Hl' & Hs). apply bind_ok in Hs as (r' & Hr' & Hs).
    eapply Hnode; [|exact Hs]. cbn. by rewrite (IHl _ Hl Hl'), (IHr _ Hr Hr').
  - apply bind_ok in Hs as (x & Hx & Hs). eapply Hnode; [|exact Hs]. cbn. by eapply IH.
  - apply bind_ok in Hs as (x & Hx & Hs). eapply Hnode; [|exact Hs]. cbn. by eapply IH.
  - apply bind_ok in Hs as (x & Hx & [= <-]). cbn. by eapply IH.
  - apply bind_ok in Hs as (x & Hx & [= <-]). cbn. by eapply IH.
  - by injection Hs as <-.
Qed.

Section operators.
Context `{K : Kernels, !KernelLaws K, !KernelsReturn K, B : BatchOps, !BatchLaws B}.

(** What the two sides need of a pair of expressions over a schema. *)
Record expr_ok (s : Schema) (e e' : Expr) : Prop := {
  eo_evaluable : evaluable e;
  eo_resolved : resolved s e = true;
  eo_simp : simp s e e';
}.

Lemma evaluate_refines s b b' e e' :
  same s b b' → expr_ok s e e' → refines eq (evaluate e b) (evaluate e' b').
Proof.
  intros Hs [(Hc & Ht & Ha) Hr Hsimp]. pose proof (fit_ok _ _ (same_left _ _ _ Hs)) as Hok.
  assert (resolved s e' = true) as Hr' by (destruct Hsimp as [->|?]; [done|by eapply resolved_simplify]).
  rewrite (evaluate_relabel s b e), (evaluate_relabel s b' e') by (done || apply Hs).
  rewrite (same_relabel _ _ _ Hs). destruct Hsimp as [->|Hsimp]; [apply refines_refl|].
  pose proof (evaluate_no_panic _ _ Hok Ha) as Hnp. destruct (evaluate e (relabel s b)) as [a| |] eqn:E; [|done|done].
  exists a. split; [|done]. by eapply (simplify_alias_evaluate e (relabel s b)).
Qed.

Lemma evaluate_refines_all s b b' es es' :
  same s b b' → Forall2 (expr_ok s) es es' →
  refines eq (collect (λ e, evaluate e b) es) (collect (λ e, evaluate e b') es').
Proof.
  intros Hs Hes. eapply refines_mono.
  - apply collect_refines. eapply Forall2_impl; [|exact Hes]. intros e e' He. by apply (evaluate_refines s).
  - intros a a' _ Ha. by apply Forall2_eq.
Qed.

Lemma try_new_refines s columns : native_schema s → refines (same s) (try_new s columns) (try_new s columns).
Proof.
  intros Hn. eapply refines_mono; [apply refines_refl|]. intros b b' Hb <-.
  apply law_new in Hb as (Hs & Hc & _ & Hok). apply same_refl, fits_own; [done|].
  split; [by rewrite Hs|]. unfold conforming. by rewrite Hs, Hc.
Qed.

Lemma project_refines s t b b' es es' :
  same s b b' → Forall2 (expr_ok s) es es' → native_schema t →
  refines (same t) (project_batch b es t) (project_batch b' es' t).
Proof.
  intros Hs Hes Ht. unfold project_batch. eapply refines_bind; [by apply (evaluate_refines_all s)|].
  intros a ? <-. by apply try_new_refines.
Qed.

Lemma same_map s b b' m f g :
  same s b b' → (∀ b, fits s b → b_rows b = b_rows b' → g b = MkRecordBatch (b_schema b) (map_columns f b) m) →
  (∀ l : list (option cell), length l = b_rows b → length (f l) = m ∧ ∀ c x, c ∈ f l → c = Some x → c ∈ l) →
  same s (g b) (g b').
Proof.
  intros [Hc Hr Hl Hrt] Hg Hf. pose proof (Hg b Hl Hr) as E1. pose proof (Hg b' Hrt eq_refl) as E2.
  split.
  - rewrite E1, E2. cbn. unfold map_columns. by rewrite Hc.
  - by rewrite E1, E2.
  - eapply fits_map; [exact Hl|exact E1|exact Hf].
  - eapply fits_map; [exact Hrt|exact E2|]. by rewrite <-Hr.
Qed.

Lemma evaluated_rows s b e a : fits s b → evaluable e → resolved s e = true → evaluate e b = Ok a → length (a_cells a) = b_rows b.
Proof.
  intros Hf (Hc & Ht & _) Hr He. rewrite (evaluate_relabel s) in He by done.
  by destruct (evaluate_ok _ _ _ (fit_ok _ _ Hf) Hc Ht He) as ((Hl & _) & _).
Qed.

Lemma filter_refines s b b' e e' :
  same s b b' → expr_ok s e e' → refines (same s) (filter_batch b e) (filter_batch b' e').
Proof.
  intros Hs He. unfold filter_batch. pose proof (evaluate_refines s b b' e e' Hs He) as Hev.
  destruct (evaluate e b) as [a| |] eqn:E; cbn in Hev; [|done|destruct Hev as [w ->]; cbn; eauto].
  destruct Hev as (? & -> & <-). cbn. destruct (decide _); [|done].
  pose proof (evaluated_rows s b e a (same_left _ _ _ Hs) (eo_evaluable _ _ _ He) (eo_resolved _ _ _ He) E) as Hlen.
  rewrite !law_filter by (rewrite Hlen; done || apply Hs). exists (filtered b' (a_cells a)). split; [done|].
  apply (same_map s b b' (length (select_cells (a_cells a) (a_cells a))) (select_cells (a_cells a))
    (λ b, filtered b (a_cells a))); [done|done|].
  intros l Hl. split; [apply select_cells_length; congruence|]. intros c x Hc _. by eapply select_cells_elem.
Qed.

Lemma slice_same s b b' n : same s b b' → n <= b_rows b → same s (batch_slice b 0 n) (batch_slice b' 0 n).
Proof.
  intros Hs Hn. apply (same_map s b b' n (take n) (λ b, batch_slice b 0 n)); [done| |].
  - intros b0 _ E. apply law_slice. by rewrite E, <-(same_rows _ _ _ Hs).
  - intros l Hl. split; [rewrite length_take; lia|]. intros c x Hc _. apply list_elem_of_In in Hc.
    apply list_elem_of_In. rewrite <-(take_drop n l). apply in_or_app. by left.
Qed.

Lemma same_bytes s b b' : same s b b' → batch_bytes b = batch_bytes b'.
Proof. intros [Hc Hr _ _]. by apply law_bytes. Qed.

(** ** Sort and top-k *)

Context `{S : SortOps, !SortLaws S}.

Lemma concatenated_same s bs bs' : Forall2 (same s) bs bs' → concatenated s bs' = concatenated s bs.
Proof.
  intros Hbs. unfold concatenated. f_equal.
  - apply list_fmap_ext. intros _ i _. do 2 f_equal.
    induction Hbs as [|b b' bs bs' Hb _ IH]; [done|]. rewrite !fmap_cons. by rewrite IH, (same_columns _ _ _ Hb).
  - induction Hbs as [|b b' bs bs' Hb _ IH]; [done|]. cbn. by rewrite IH, (same_rows _ _ _ Hb).
Qed.

Definition sort_ok_pair (s : Schema) (x x' : SortExpr) : Prop :=
  expr_ok s (s_expr x) (s_expr x') ∧ s_ascending x' = s_ascending x ∧ s_nulls_first x' = s_nulls_first x.

Lemma sort_columns_refines s b es es' :
  fits s b → Forall2 (sort_ok_pair s) es es' → refines eq (sort_columns es b) (sort_columns es' b).
Proof.
  intros Hb Hes. eapply refines_mono; [|intros a a' _; apply Forall2_eq].
  apply collect_refines. eapply Forall2_impl; [|exact Hes]. intros x x' (He & Ha & Hn).
  eapply refines_bind; [by apply (evaluate_refines s b b), He; apply same_refl|].
  intros a ? <-. rewrite Ha, Hn. apply refines_refl.
Qed.

Lemma sort_columns_rows s b es es' columns :
  fits s b → Forall2 (sort_ok_pair s) es es' → sort_columns es b = Ok columns →
  Forall (λ c, length (a_cells (sc_values c)) = b_rows b) columns.
Proof.
  intros Hb Hes Hc. apply collect_ok in Hc. revert es' Hes.
  induction Hc as [|x c es columns Hx _ IH]; intros es' Hes; [constructor|].
  inversion Hes as [|? x' ? es1 (He & _) Hes1]; subst. constructor; [|by eapply IH].
  apply bind_ok in Hx as (a & Ha & [= <-]). by eapply (evaluated_rows s), Ha; try apply He.
Qed.

Lemma fits_taken s b indices : fits s b → Forall (λ i, i < b_rows b) indices → fits s (taken b indices).
Proof.
  intros Hb Hi. eapply fits_map; [done|done|]. intros l Hl. split; [by rewrite length_fmap|].
  intros c x (i & -> & Hin)%list_elem_of_fmap Hc. rewrite list.Forall_forall in Hi.
  destruct (lookup_lt_is_Some_2 l i) as [y Hy]; [rewrite Hl; by apply Hi|]. rewrite Hy in *. by eapply list_elem_of_lookup_2.
Qed.

Lemma sorted_batch_refines memory own s bs bs' es es' limit :
  native_schema s → nullable_schema s → Forall2 (same s) bs bs' → Forall2 (sort_ok_pair s) es es' →
  refines (same s) (sorted_batch memory own bs es limit s) (sorted_batch memory own bs' es' limit s).
Proof.
  intros Hn Hnull Hbs Hes. unfold sorted_batch.
  assert (Forall (λ b, batch_ok (relabel s b)) bs) as Hl.
  { clear -Hbs. induction Hbs as [|b b' bs bs' Hb _ IH]; constructor; [apply Hb|done]. }
  assert (Forall (λ b, batch_ok (relabel s b)) bs') as Hr.
  { clear -Hbs. induction Hbs as [|b b' bs bs' Hb _ IH]; constructor; [apply Hb|done]. }
  rewrite !law_concat by done. rewrite (concatenated_same s bs bs' Hbs).
  set (c := concatenated s bs). assert (fits s c) as Hc by by apply fits_own, concatenated_ok.
  cbn [mbind result_bind]. apply refines_bind_eq. intros aside _. apply refines_bind_eq. intros _ _.
  pose proof (sort_columns_rows s c es es') as Hrows. pose proof (sort_columns_refines s c es es' Hc Hes) as Hcols.
  destruct (sort_columns es c) as [columns| |]; cbn in Hcols; [|done|destruct Hcols as [w ->]; cbn; eauto].
  destruct Hcols as (? & -> & <-). cbn. apply refines_bind_eq. intros indices Hi.
  eapply law_lexsort in Hi; [|by apply Hrows]. rewrite law_take_batch by done.
  eexists. split; [done|]. by apply same_refl, fits_taken.
Qed.

Lemma empty_refines s : native_schema s → refines (same s) (Ok (new_empty s)) (Ok (new_empty s)).
Proof.
  intros Hn. eexists. split; [done|]. apply same_refl. rewrite law_empty. apply fits_own; [done|].
  split; [done|]. unfold conforming. cbn. apply Forall2_fmap_r. apply Forall2_same_length_lookup. split; [done|].
  intros i f g Hf Hg. rewrite Hf in Hg. injection Hg as <-. cbn. split; [done|]. by split.
Qed.

Lemma collected_refines memory aside s st st' (f f' : list RecordBatch * N → result RecordBatch) (t : Schema) :
  sim (same s) st st' →
  (∀ bs bs' own, Forall2 (same s) bs bs' → refines (same t) (f (bs, own)) (f' (bs', own))) →
  refines (same t) (collect_with_memory memory aside st ≫= f) (collect_with_memory memory aside st' ≫= f').
Proof.
  intros Hs Hf. eapply refines_bind; [apply (sim_collect (same s)); [apply same_bytes|done]|].
  intros [bs own] [bs' own'] [Hbs Hown]. cbn in Hbs, Hown. subst own'. by apply Hf.
Qed.

Lemma sort_sim memory s st st' es es' :
  native_schema s → nullable_schema s → sim (same s) st st' → Forall2 (sort_ok_pair s) es es' →
  sim (same s) (execute_sort memory st es s) (execute_sort memory st' es' s).
Proof.
  intros Hn Hnull Hs Hes. apply sim_send. eapply collected_refines; [done|].
  intros bs bs' own Hbs. destruct Hbs as [|b b' bs bs' Hb Hbs]; [by apply empty_refines|].
  rewrite !decide_False by done. apply sorted_batch_refines; try done. by constructor.
Qed.

Lemma topk_sim memory s st st' es es' limit :
  native_schema s → nullable_schema s → sim (same s) st st' → Forall2 (sort_ok_pair s) es es' →
  sim (same s) (execute_topk memory st es limit s) (execute_topk memory st' es' limit s).
Proof.
  intros Hn Hnull Hs Hes. apply sim_send. eapply collected_refines; [done|].
  intros bs bs' own Hbs. destruct Hbs as [|b b' bs bs' Hb Hbs].
  { rewrite !decide_True by by left. by apply empty_refines. }
  destruct (decide (limit = 0%N)) as [->|Hlim].
  - rewrite !decide_True by by right. by apply empty_refines.
  - rewrite !decide_False by by intros [|]. apply sorted_batch_refines; try done. by constructor.
Qed.

(** ** Aggregation *)

Context `{FD : FloatDisplay, SD : ScalarDebug, RC : RowConverter, SZ : Sizes}.

(** An aggregate and what the optimizer makes of it: only the argument changes. *)
Definition spec_ok (s : Schema) (x x' : spec) : Prop :=
  x'.1.1 = x.1.1 ∧ x'.2 = x.2 ∧ (x.1.2 = Wildcard ∧ x'.1.2 = Wildcard ∨ x.1.2 ≠ Wildcard ∧ expr_ok s x.1.2 x'.1.2).

Lemma new_states_same s specs specs' : Forall2 (spec_ok s) specs specs' → new_states specs' = new_states specs.
Proof.
  unfold new_states. induction 1 as [|x x' specs specs' (Hf & Hd & _) _ IH]; [done|].
  by rewrite !fmap_cons, IH, Hf, Hd.
Qed.

Lemma aggregate_inputs_refines s b b' specs specs' :
  same s b b' → Forall2 (spec_ok s) specs specs' →
  refines eq (aggregate_inputs specs b) (aggregate_inputs specs' b').
Proof.
  intros Hs Hspecs. eapply refines_mono; [|intros a a' _; apply Forall2_eq].
  apply collect_refines. eapply Forall2_impl; [|exact Hspecs]. intros [[f e] d] [[f' e'] d'] (_ & _ & He).
  cbn [fst snd] in *. destruct He as [[-> ->]|[Hw He]]; [apply refines_refl|].
  pose proof (evaluate_refines s b b' e e' Hs He) as Hev.
  assert (refines eq (a ← evaluate e b; Ok (Some a))
            match e' with Wildcard => Ok None | e => a ← evaluate e b'; Ok (Some a) end) as Hgoal; [|destruct e, e'; try exact Hgoal; done].
  destruct (evaluate e b) as [a| |]; cbn in Hev; [|done|].
  - destruct Hev as (? & Hev & <-). exists (Some a). split; [|done]. destruct e'; try by rewrite Hev. done.
  - destruct Hev as [w Hev]. exists w. destruct e'; try by rewrite Hev. done.
Qed.

Lemma aggregate_row_same memory s specs specs' inputs encoded aside st row :
  Forall2 (spec_ok s) specs specs' →
  aggregate_row memory specs' inputs encoded aside st row = aggregate_row memory specs inputs encoded aside st row.
Proof. intros Hs. unfold aggregate_row. by rewrite (new_states_same s specs specs' Hs), (Forall2_length Hs). Qed.

Lemma aggregate_batch_refines memory s k g g' specs specs' st b b' :
  same s b b' → Forall2 (expr_ok s) g g' → Forall2 (spec_ok s) specs specs' →
  refines eq (aggregate_batch memory k g specs st b) (aggregate_batch memory k g' specs' st b').
Proof.
  intros Hs Hg Hspecs. unfold aggregate_batch.
  eapply refines_bind; [by apply (evaluate_refines_all s)|]. intros keys ? <-.
  eapply refines_bind; [by apply (aggregate_inputs_refines s)|]. intros inputs ? <-.
  rewrite <-(same_rows _ _ _ Hs). apply refines_bind_eq. intros encoded _. apply refines_bind_eq. intros aside _.
  apply refines_eq, fold_result_ext. intros. by eapply aggregate_row_same.
Qed.

Lemma aggregate_groups_refines memory s k g g' specs specs' own bs bs' :
  Forall2 (same s) bs bs' → Forall2 (expr_ok s) g g' → Forall2 (spec_ok s) specs specs' →
  refines eq (aggregate_groups memory k g specs own bs) (aggregate_groups memory k g' specs' own bs').
Proof.
  intros Hbs Hg Hspecs. unfold aggregate_groups.
  assert (g' = [] ↔ g = []) as Hnil by (by destruct Hg).
  rewrite (decide_ext (g' = []) (g = [])) by done.
  rewrite (new_states_same s specs specs' Hspecs), <-(Forall2_length Hspecs).
  apply refines_bind_eq. intros st _. eapply (fold_result_refines (same s)); [|done|done].
  intros st0 ? b b' <- Hb. by apply (aggregate_batch_refines _ s).
Qed.

Definition aggregate_ok (s : Schema) (e e' : Expr) : Prop :=
  ∃ x x', aggregate_spec e = Ok x ∧ aggregate_spec e' = Ok x' ∧ spec_ok s x x'.

Lemma aggregate_specs_ok s es es' :
  Forall2 (aggregate_ok s) es es' →
  ∃ specs specs', collect aggregate_spec es = Ok specs ∧ collect aggregate_spec es' = Ok specs' ∧
    Forall2 (spec_ok s) specs specs'.
Proof.
  induction 1 as [|e e' es es' (x & x' & Hx & Hx' & Ho) _ (xs & xs' & Hxs & Hxs' & Hos)]; [by exists [], []|].
  exists (x :: xs), (x' :: xs'). cbn [collect]. rewrite Hx, Hx', Hxs, Hxs'. split; [done|]. split; [done|by constructor].
Qed.

(** Aggregation sees the content of its batches only. *)
Lemma hash_aggregate_same memory s bs bs' g a specs t x :
  Forall2 (same s) bs bs' → Forall (λ e, expr_ok s e e) g → collect aggregate_spec a = Ok specs →
  Forall (λ x, spec_ok s x x) specs →
  hash_aggregate_with_memory memory bs g a t = Ok x → hash_aggregate_with_memory memory bs' g a t = Ok x.
Proof.
  intros Hbs Hg Ha Hspecs. unfold hash_aggregate_with_memory. rewrite Ha. cbn [mbind result_bind].
  intros (own & -> & Hx)%bind_ok. apply bind_ok in Hx as (k & -> & Hx). cbn [mbind result_bind].
  pose proof (aggregate_groups_refines memory s k g g specs specs own bs bs' Hbs (Forall_Forall2_diag _ _ Hg)
    (Forall_Forall2_diag _ _ Hspecs)) as Hr.
  destruct (aggregate_groups memory k g specs own bs) as [st| |]; [|done..]. by destruct Hr as (? & -> & <-).
Qed.

Lemma aggregate_sim memory s t st st' g g' a a' :
  native_schema t → sim (same s) st st' → Forall2 (expr_ok s) g g' → Forall2 (aggregate_ok s) a a' →
  sim (same t) (execute_aggregate memory st g a t) (execute_aggregate memory st' g' a' t).
Proof.
  intros Hn Hs Hg Ha. apply sim_send. eapply collected_refines; [done|].
  intros bs bs' own Hbs. unfold hash_aggregate_with_memory.
  destruct (aggregate_specs_ok s a a' Ha) as (specs & specs' & -> & -> & Hspecs).
  cbn [mbind result_bind]. apply refines_bind_eq. intros own' _.
  rewrite <-(Forall2_length Hg), <-(Forall2_length Ha). apply refines_bind_eq. intros k _.
  eapply refines_bind; [by apply (aggregate_groups_refines _ s)|]. intros groups ? <-.
  apply refines_bind_eq. intros arrays _. apply refines_bind_eq. intros columns _.
  apply refines_bind_eq. intros outputs _. by apply try_new_refines.
Qed.

(** ** Hash join *)

Lemma batch_keys_refines s on on' encoder b b' :
  same s b b' → Forall2 (expr_ok s) on on' →
  refines eq (batch_keys on encoder b) (batch_keys on' encoder b').
Proof.
  intros Hs Hon. unfold batch_keys. eapply refines_bind; [by apply (evaluate_refines_all s)|].
  intros keys ? <-. rewrite <-(same_rows _ _ _ Hs). apply refines_refl.
Qed.

Lemma row_values_same s b b' row : same s b b' → row_values b' row = row_values b row.
Proof. intros Hs. unfold row_values. by rewrite (same_columns _ _ _ Hs). Qed.

Lemma build_batch_refines memory s on on' st b b' :
  same s b b' → Forall2 (expr_ok s) on on' →
  refines eq (build_batch memory on st b) (build_batch memory on' st b').
Proof.
  intros Hs Hon. unfold build_batch. eapply refines_bind; [by apply (batch_keys_refines s)|].
  intros [[keys k] encoded] ? <-. rewrite <-(same_rows _ _ _ Hs). apply refines_bind_eq. intros aside _.
  apply refines_eq. rewrite (fold_result_ext (build_row memory b keys encoded aside)); [done|].
  intros js row. unfold build_row. by rewrite (row_values_same s b b').
Qed.

Lemma probe_batch_refines memory t w s on on' side st b b' :
  same s b b' → Forall2 (expr_ok s) on on' →
  refines eq (probe_batch memory t w on side st b) (probe_batch memory t w on' side st b').
Proof.
  intros Hs Hon. unfold probe_batch. eapply refines_bind; [by apply (batch_keys_refines s)|].
  intros [[keys k] encoded] ? <-. rewrite <-(same_rows _ _ _ Hs). apply refines_bind_eq. intros aside _.
  apply refines_eq. rewrite (fold_result_ext (probe_row memory t w side b keys encoded aside)); [done|].
  intros js row. unfold probe_row. by rewrite (row_values_same s b b').
Qed.

Lemma join_right_width_same sl sr ls ls' rs rs' t :
  Forall2 (same sl) ls ls' → Forall2 (same sr) rs rs' → join_right_width ls' rs' t = join_right_width ls rs t.
Proof.
  intros Hl Hr. unfold join_right_width. destruct Hr as [|r r' rs rs' Hr _]; [|by rewrite (same_columns _ _ _ Hr)].
  destruct Hl as [|l l' ls ls' Hl _]; [done|by rewrite (same_columns _ _ _ Hl)].
Qed.

Lemma hash_join_refines memory sl sr t ls ls' rs rs' jt lo lo' ro ro' :
  native_schema t → Forall2 (same sl) ls ls' → Forall2 (same sr) rs rs' →
  Forall2 (expr_ok sl) lo lo' → Forall2 (expr_ok sr) ro ro' →
  refines (same t) (hash_join memory ls rs jt lo ro t) (hash_join memory ls' rs' jt lo' ro' t).
Proof.
  intros Hn Hl Hr Hlo Hro. unfold hash_join. apply (refines_bind eq).
  - unfold join_rows. rewrite (join_right_width_same sl sr ls ls' rs rs') by done.
    apply refines_bind_eq. intros own _. eapply refines_bind.
    { apply (fold_result_refines (same sr) eq); [|done|done]. intros st ? b b' <- Hb. by apply (build_batch_refines _ sr). }
    intros [k js] ? <-. eapply refines_bind.
    { apply (fold_result_refines (same sl) eq); [|done|done]. intros st ? b b' <- Hb. by apply (probe_batch_refines _ _ _ sl). }
    intros [k' [rows own']] ? <-. apply refines_refl.
  - intros rows ? <-. unfold rows_to_batch. apply refines_bind_eq. intros columns _. apply refines_bind_eq.
    intros arrays _. by apply try_new_refines.
Qed.

Lemma join_sim memory sl sr t l l' r r' jt lo lo' ro ro' :
  native_schema t → sim (same sl) l l' → sim (same sr) r r' →
  Forall2 (expr_ok sl) lo lo' → Forall2 (expr_ok sr) ro ro' →
  sim (same t) (execute_hash_join memory l r jt lo ro t) (execute_hash_join memory l' r' jt lo' ro' t).
Proof.
  intros Hn Hl Hr Hlo Hro. apply sim_send. eapply (collected_refines _ _ sl); [done|]. intros ls ls' lown Hls.
  eapply (collected_refines _ _ sr); [done|]. intros rs rs' rown Hrs. by apply (hash_join_refines _ sl sr).
Qed.
End operators.
