(* ===== verification/ScanProps.v ===== *)
(** * What scans deliver

    A scan of a table delivers batches that fit the schema of its plan; filtering
    inside the scan delivers what a filter above it does; and a scan that reads fewer
    columns delivers the same values for every expression over the columns it kept. *)
From S2P Require Import Prelude Text Float Expr ExprProps SchemaProps Logical Catalog Physical Memory Execution ExecutionDemo HashJoin Aggregate AggregateProps Executor ExecutorProps OperatorProps.

(** ** Tables *)

(** What a scan relies on: a clean table of nullable columns, whose batches conform
    to its schema, without pruning statistics. *)
Record honest `{BatchOps} (p : TableProvider) : Prop := {
  honest_native : native_schema (tp_schema p);
  honest_nullable : nullable_schema (tp_schema p);
  honest_undotted : Forall (λ f, dotted f = false) (tp_schema p);
  honest_names : NoDup (f_name <$> tp_schema p);
  honest_unpruned k fs : tp_partition_may_match p k fs = Ok true;
  honest_batches k bs :
    tp_scan_partition p k None = Ok bs → Forall (λ b, b_schema b = tp_schema p ∧ batch_ok b) bs;
  honest_projection k ix :
    tp_scan_partition p k (Some ix) = (bs ← tp_scan_partition p k None; collect (λ b, batch_project b ix) bs);
}.

(** The source columns of a scan and the fields of its schema. *)
Definition source_field (p : TableProvider) (f : Field) (i : nat) : Prop :=
  ∃ g, tp_schema p !! i = Some g ∧ short_name f = f_name g ∧ f_type f = f_type g ∧ f_nullable f = true.

Record scan_ok (p : TableProvider) (projection : option (list string)) (s : Schema) (ix : list nat) : Prop := {
  scan_indices :
    match projection with
    | None => ix = seq 0 (length (tp_schema p))
    | Some names => collect (find_column (tp_schema p)) names = Ok ix
    end;
  scan_fields : Forall2 (source_field p) s ix;
}.

(** ** Selecting columns *)

Lemma omap_lookup_Forall2 {A} (l : list A) ix :
  Forall (λ i, i < length l) ix → Forall2 (λ i x, l !! i = Some x) ix (omap (λ i, l !! i) ix).
Proof.
  induction 1 as [|i ix Hi _ IH]; cbn; [constructor|].
  destruct (lookup_lt_is_Some_2 l i Hi) as [x Hx]. rewrite Hx. by constructor.
Qed.

Lemma omap_lookup_seq {A} (l : list A) : omap (λ i, l !! i) (seq 0 (length l)) = l.
Proof.
  apply list_eq_Forall2. apply Forall2_same_length_lookup.
  assert (Forall (λ i, i < length l) (seq 0 (length l))) as Hi
    by (apply list.Forall_forall; intros i ?%elem_of_seq; lia).
  apply omap_lookup_Forall2 in Hi. split; [by rewrite <-(Forall2_length Hi), length_seq|].
  intros k x y Hx Hy. destruct (Forall2_lookup_r _ _ _ _ _ Hi Hx) as (i & Hk & Hix).
  apply lookup_seq in Hk as [-> _]. cbn in Hix. congruence.
Qed.

Lemma projected_all b : length (b_schema b) = length (b_columns b) → projected b (seq 0 (length (b_schema b))) = b.
Proof. intros Hl. unfold projected. rewrite omap_lookup_seq, Hl, omap_lookup_seq. by destruct b. Qed.

Lemma undotted_short f : dotted f = false → short_name f = f_name f.
Proof. apply after_last_id. Qed.

Section scans.
Context `{K : Kernels, !KernelLaws K, !KernelsReturn K, B : BatchOps, !BatchLaws B}.

Lemma batch_ok_lengths b : batch_ok b → length (b_schema b) = length (b_columns b).
Proof. intros [_ Hb]. by eapply Forall2_length. Qed.

Lemma source_bound p s ix : Forall2 (source_field p) s ix → Forall (λ i, i < length (tp_schema p)) ix.
Proof. induction 1 as [|f i s ix (g & Hg & _) _ IH]; constructor; [by eapply lookup_lt_Some|done]. Qed.

(** The batches of a scan before its filters. *)
Lemma scan_selects p pr s ix k :
  honest p → Forall2 (source_field p) s ix → ix = default (seq 0 (length (tp_schema p))) pr →
  tp_scan_partition p k pr = (bs ← tp_scan_partition p k None; Ok (fmap (M:=list) (λ b, projected b ix) bs)).
Proof.
  intros Hp Hs Hix. pose proof (source_bound _ _ _ Hs) as Hb.
  destruct pr as [jx|]; cbn in Hix; [subst jx|].
  - rewrite (honest_projection p Hp). pose proof (honest_batches p Hp k) as Hbs.
    destruct (tp_scan_partition p k None) as [bs| |]; [|done|done]. cbn. specialize (Hbs bs eq_refl).
    induction Hbs as [|b bs [Hsch Hok] _ IH]; [done|]. cbn [collect]. rewrite fmap_cons.
    pose proof (batch_ok_lengths _ Hok) as Hlen. rewrite Hsch in Hlen.
    rewrite law_project by (rewrite ?Hsch; done || by rewrite <-Hlen). cbn. by rewrite IH.
  - pose proof (honest_batches p Hp k) as Hbs.
    destruct (tp_scan_partition p k None) as [bs| |]; [|done|done]. cbn. specialize (Hbs bs eq_refl).
    f_equal. subst ix. induction Hbs as [|b bs [Hsch Hok] _ IH]; [done|]. rewrite fmap_cons.
    rewrite <-IH. f_equal. rewrite <-Hsch. by rewrite projected_all by by apply batch_ok_lengths.
Qed.

Lemma scan_delivers p pr s ix k :
  honest p → scan_ok p pr s ix →
  tp_scan_partition p k (match pr with None => None | Some _ => Some ix end)
  = (bs ← tp_scan_partition p k None; Ok (fmap (M:=list) (λ b, projected b ix) bs)).
Proof. intros Hp [Hix Hs]. eapply scan_selects; [done..|]. by destruct pr. Qed.

(** They fit the schema of the scan. *)
Lemma source_fits p s ix b :
  honest p → Forall2 (source_field p) s ix → native_schema s → uniform_schema s →
  b_schema b = tp_schema p → batch_ok b → fits s (projected b ix).
Proof.
  intros Hp Hs Hn [Hnd _] Hsch Hok. pose proof (source_bound _ _ _ Hs) as Hb.
  pose proof (batch_ok_lengths _ Hok) as Hlen. rewrite Hsch in Hlen.
  pose proof (omap_lookup_Forall2 _ _ Hb) as Hfields.
  assert (Forall (λ i, i < length (b_columns b)) ix) as Hb' by (by rewrite <-Hlen).
  pose proof (omap_lookup_Forall2 _ _ Hb') as Hcols.
  assert (∀ k f, s !! k = Some f → ∃ i g, ix !! k = Some i ∧ tp_schema p !! i = Some g ∧
    short_name f = f_name g ∧ f_type f = f_type g ∧ omap (λ i, tp_schema p !! i) ix !! k = Some g) as Hat.
  { intros k f Hf. destruct (Forall2_lookup_l _ _ _ _ _ Hs Hf) as (i & Hi & g & Hg & Hname & Ht & _).
    destruct (Forall2_lookup_l _ _ _ _ _ Hfields Hi) as (g' & Hg' & Hig). exists i, g. split_and!; congruence. }
  assert (∀ i g, tp_schema p !! i = Some g → dotted g = false) as Hdot.
  { intros i g Hg. by apply (Forall_lookup_1 _ _ _ _ (honest_undotted p Hp) Hg). }
  split.
  - split; [done|]. unfold conforming. cbn. apply Forall2_same_length_lookup. split.
    { rewrite (Forall2_length Hs). by rewrite (Forall2_length Hcols). }
    intros k f a Hf Ha. destruct (Hat _ _ Hf) as (i & g & Hi & Hg & _ & Ht & _).
    pose proof (Forall2_lookup_lr _ _ _ _ _ _ Hcols Hi Ha) as Hia. cbn in Hia. destruct Hok as [_ Hok]. unfold conforming in Hok. rewrite Hsch in Hok.
    destruct (Forall2_lookup_lr _ _ _ _ _ _ Hok Hg Hia) as [Hta Haok]. split; [congruence|done].
  - intros n k Hk. apply resolve_field_refers in Hk as (f & Hf & Hshort & _).
    destruct (Hat _ _ Hf) as (i & g & Hi & Hg & Hname & _ & Hkg). cbn. rewrite Hsch.
    apply (uniform_resolve _ _ _ g); [|done|].
    + split.
      * assert (short_name <$> omap (λ i, tp_schema p !! i) ix = short_name <$> s) as ->; [|done].
        apply list_eq_Forall2, Forall2_fmap, Forall2_same_length_lookup.
        split; [by rewrite <-(Forall2_length Hfields), (Forall2_length Hs)|].
        intros j g' f' Hg' Hf'. destruct (Hat _ _ Hf') as (i' & h & _ & Hh & Hname' & _ & Hj).
        rewrite Hj in Hg'. injection Hg' as <-. rewrite undotted_short by by eapply Hdot. done.
      * exists false. apply Forall_lookup. intros j g' Hg'.
        destruct (Forall2_lookup_r _ _ _ _ _ Hfields Hg') as (i' & _ & Hi'). by eapply Hdot.
    + split; [|right; right; by eapply Hdot]. rewrite undotted_short by by eapply Hdot. congruence.
Qed.

(** ** Streams of scans *)

Definition indices_of (pr : option (list string)) (ix : list nat) : option (list nat) :=
  match pr with None => None | Some _ => Some ix end.

Lemma scan_batches_sim (Q : RecordBatch → RecordBatch → Prop) fs fs' bs bs' :
  (∀ b b', Q b b' → refines Q (fold_result filter_batch b fs) (fold_result filter_batch b' fs')) →
  Forall2 Q bs bs' → sim Q (scan_batches fs bs) (scan_batches fs' bs').
Proof.
  intros Hf. induction 1 as [|b b' bs bs' Hb _ IH]; cbn; [constructor|]. specialize (Hf _ _ Hb).
  destruct (fold_result filter_batch b fs) as [c|e|w]; cbn in Hf; [|constructor|].
  - destruct Hf as (c' & -> & Hc). by constructor.
  - destruct Hf as (w' & ->). constructor.
Qed.

(** Two scans of a table. *)
Lemma execute_scans_sim (Q : RecordBatch → RecordBatch → Prop) site p pr pr' s s' ix ix' fs fs' part :
  honest p → scan_ok p pr s ix → scan_ok p pr' s' ix' →
  (∀ b, b_schema b = tp_schema p → batch_ok b → Q (projected b ix) (projected b ix')) →
  (∀ b b', Q b b' → refines Q (fold_result filter_batch b fs) (fold_result filter_batch b' fs')) →
  sim Q (execute_scans site p (indices_of pr ix) fs part) (execute_scans site p (indices_of pr' ix') fs' part).
Proof.
  intros Hp Hs Hs' HQ Hf. apply sim_interleave, Forall2_fmap, Forall2_same_length_lookup. split; [done|].
  intros i k k' Hk Hk'. rewrite Hk in Hk'. injection Hk' as <-. unfold execute_scan, indices_of.
  rewrite !(honest_unpruned p Hp), (scan_delivers p pr s ix k Hp Hs), (scan_delivers p pr' s' ix' k Hp Hs').
  pose proof (honest_batches p Hp k) as Hbs. destruct (tp_scan_partition p k None) as [bs| |]; cbn; try constructor.
  apply scan_batches_sim; [done|]. apply Forall2_fmap. specialize (Hbs bs eq_refl).
  clear -Hbs HQ. induction Hbs as [|b bs [] _ IH]; constructor; auto.
Qed.

(** Simplified filters. *)
Lemma scan_sim site p pr s ix fs fs' part :
  honest p → scan_ok p pr s ix → native_schema s → uniform_schema s → Forall2 (expr_ok s) fs fs' →
  sim (same s) (execute_scans site p (indices_of pr ix) fs part) (execute_scans site p (indices_of pr ix) fs' part).
Proof.
  intros Hp Hs Hn Hu Hfs. eapply execute_scans_sim; [done..| |].
  - intros b Hsch Hok. apply same_refl. by eapply source_fits; try apply Hs.
  - intros b b' Hb. apply (fold_result_refines (expr_ok s)); [|done|done]. intros. by apply (filter_refines s).
Qed.

(** *** Filters pushed into a scan *)

Definition item_fits (s : Schema) (item : result RecordBatch) : Prop :=
  match item with Ok b => fits s b | Err _ => True | Panic _ => False end.

Lemma filter_returns s b e : fits s b → expr_ok s e e → no_panic (filter_batch b e).
Proof.
  intros Hb [He Hr _]. unfold filter_batch. rewrite (evaluate_relabel s) by done.
  pose proof (evaluate_no_panic _ e (fit_ok _ _ Hb) (proj2 (proj2 He))) as Hnp.
  destruct (evaluate e (relabel s b)) as [a| |] eqn:E; [|done|done]. cbn. destruct (decide _); [|exact I].
  rewrite <-(evaluate_relabel s) in E by done. by rewrite law_filter by by eapply evaluated_rows.
Qed.

Lemma filter_fits s b e c : fits s b → expr_ok s e e → filter_batch b e = Ok c → fits s c.
Proof.
  intros Hb He Hc. pose proof (filter_refines s b b e e (same_refl _ _ Hb) He) as Hr.
  rewrite Hc in Hr. destruct Hr as (? & _ & Hs). apply Hs.
Qed.

Lemma filters_fit s b fs c :
  fits s b → Forall (λ e, expr_ok s e e) fs → fold_result filter_batch b fs = Ok c → fits s c.
Proof.
  intros Hb Hfs. revert b Hb. induction Hfs as [|e fs He _ IH]; intros b Hb Hc; cbn in Hc; [by injection Hc as <-|].
  apply bind_ok in Hc as (b1 & H1 & Hc). by eapply IH, Hc; eapply filter_fits.
Qed.

Lemma scan_batches_fit s fs bs :
  Forall (λ e, expr_ok s e e) fs → Forall (fits s) bs → Forall (item_fits s) (scan_batches fs bs).
Proof.
  intros Hfs. induction 1 as [|b bs Hb _ IH]; cbn; [constructor|].
  destruct (fold_result filter_batch b fs) eqn:E; [|by repeat constructor|constructor].
  constructor; [by eapply filters_fit|done].
Qed.

(** A filter over items that fit works item by item. *)
Lemma execute_filter_items s e st :
  expr_ok s e e → Forall (item_fits s) st →
  execute_filter st e = (λ item, b ← item; filter_batch b e) <$> st.
Proof.
  intros He. induction 1 as [|item st Hi _ IH]; [done|]. cbn [execute_filter]. rewrite fmap_cons, IH.
  destruct item as [b| |]; [|done|done]. cbn. pose proof (filter_returns s b e Hi He) as Hnp.
  by destruct (filter_batch b e).
Qed.

Lemma interleave_fmap {X Y} (f : X → Y) schedule (ss : list (list X)) :
  interleave schedule (fmap (M:=list) f <$> ss) = f <$> interleave schedule ss.
Proof.
  revert ss. induction schedule as [|k schedule IH]; intros ss; cbn; [by rewrite concat_map|].
  rewrite list_lookup_fmap. destruct (ss !! k) as [[|x rest]|] eqn:E; cbn; try apply IH.
  f_equal. rewrite <-IH. f_equal. by rewrite list_fmap_insert.
Qed.

Lemma scan_batches_filter s fs e bs :
  Forall (λ e, expr_ok s e e) fs → expr_ok s e e → Forall (fits s) bs →
  sim (same s) ((λ item, b ← item; filter_batch b e) <$> scan_batches fs bs) (scan_batches (fs ++ [e]) bs).
Proof.
  intros Hfs He. induction 1 as [|b bs Hb _ IH]; cbn; [constructor|]. rewrite fold_result_app.
  destruct (fold_result filter_batch b fs) as [c| |] eqn:E; cbn; try constructor.
  destruct (filter_batch c e) as [d| |] eqn:Ed; cbn; [|constructor|].
  - constructor; [|done]. apply same_refl. eapply filter_fits; [by eapply filters_fit|done|done].
  - pose proof (filter_returns s c e ltac:(by eapply filters_fit) He) as Hnp. by rewrite Ed in Hnp.
Qed.

Lemma scan_filter_sim site p pr s ix fs e part :
  honest p → scan_ok p pr s ix → native_schema s → uniform_schema s →
  Forall (λ e, expr_ok s e e) fs → expr_ok s e e →
  sim (same s) (execute_filter (execute_scans site p (indices_of pr ix) fs part) e)
    (execute_scans site p (indices_of pr ix) (fs ++ [e]) part).
Proof.
  intros Hp Hs Hn Hu Hfs He. unfold execute_scans.
  assert (∀ k, Forall (item_fits s) (execute_scan (site_full site k) p (indices_of pr ix) fs k) ∧
    sim (same s) ((λ item, b ← item; filter_batch b e) <$> execute_scan (site_full site k) p (indices_of pr ix) fs k)
      (execute_scan (site_full site k) p (indices_of pr ix) (fs ++ [e]) k)) as Htask.
  { intros k. unfold execute_scan, indices_of.
    rewrite !(honest_unpruned p Hp), (scan_delivers p pr s ix k Hp Hs).
    pose proof (honest_batches p Hp k) as Hbs.
    destruct (tp_scan_partition p k None) as [bs| |]; cbn; [|by repeat constructor..].
    assert (Forall (fits s) ((λ b, projected b ix) <$> bs)) as Hfit.
    { apply Forall_fmap. eapply list.Forall_impl; [by apply Hbs|]. intros b [Hsch Hok]. cbn.
      by eapply source_fits; try apply Hs. }
    split; [by apply scan_batches_fit|by apply scan_batches_filter]. }
  rewrite (execute_filter_items s); [|done|].
  - rewrite <-interleave_fmap. apply sim_interleave. rewrite <-list_fmap_compose. apply Forall2_fmap, Forall2_same_length_lookup.
    split; [done|]. intros i k k' Hk Hk'. rewrite Hk in Hk'. injection Hk' as <-. apply Htask.
  - rewrite interleave_Permutation. apply Forall_concat, Forall_fmap, list.Forall_forall. intros k _. apply Htask.
Qed.

(** *** Narrowed scans *)

(** [b'] has the columns of [b] at the indices [jx]. *)
Record narrowed (s t : Schema) (jx : list nat) (b b' : RecordBatch) : Prop := {
  narrowed_left : fits s b;
  narrowed_right : fits t b';
  narrowed_rows : b_rows b' = b_rows b;
  narrowed_columns : Forall2 (λ j a, b_columns b !! j = Some a) jx (b_columns b');
}.

Definition kept (t : Schema) (e : Expr) : Prop := columns e ⊆ list_to_set (short_name <$> t).

Lemma find_narrowed s t jx n j :
  uniform_schema s → uniform_schema t → Forall2 (λ j f, s !! j = Some f) jx t →
  find_column s n = Ok j → unqualified n ∈ short_name <$> t → ∃ k, find_column t n = Ok k ∧ jx !! k = Some j.
Proof.
  intros Hs Ht Hjx Hj Hn. apply resolve_field_refers in Hj as (f & Hf & Href).
  apply list_elem_of_fmap in Hn as (g & Hn & Hg). apply list_elem_of_lookup in Hg as [k Hk].
  destruct (Forall2_lookup_r _ _ _ _ _ Hjx Hk) as (i & Hi & Hig).
  assert (i = j) as -> by (eapply (uniform_unique s i j g f); [done..|]; destruct Href; congruence).
  exists k. split; [|done]. apply (uniform_resolve t n k g); [done|done|]. by simplify_eq.
Qed.

Lemma columns_column n : columns (Column n) = {[ unqualified n ]}.
Proof. unfold columns. cbn. set_solver. Qed.

Lemma resolved_narrowed s t jx e :
  uniform_schema s → uniform_schema t → Forall2 (λ j f, s !! j = Some f) jx t →
  resolved s e = true → kept t e → resolved t e = true.
Proof.
  intros Hs Ht Hjx. unfold kept.
  induction e as [n|v|l IHl op r IHr|e IH negated|e IH ty|e IH alias|f e IH d|]; cbn [resolved]; intros Hr Hk;
    try done; try (by apply IH).
  - destruct (find_column s n) as [j| |] eqn:Ej; try done. rewrite columns_column in Hk.
    destruct (find_narrowed s t jx n j Hs Ht Hjx Ej) as (k & -> & _); [set_solver|done].
  - apply andb_true_iff in Hr as [Hl Hr]. rewrite columns_binary in Hk.
    apply andb_true_iff. split; [apply IHl|apply IHr]; (done || set_solver).
Qed.

Lemma evaluate_narrowed s t jx b b' e :
  uniform_schema s → uniform_schema t → Forall2 (λ j f, s !! j = Some f) jx t →
  narrowed s t jx b b' → resolved s e = true → kept t e → evaluate e b' = evaluate e b.
Proof.
  intros Hs Ht Hjx Hb Hr Hk. pose proof (resolved_narrowed s t jx e Hs Ht Hjx Hr Hk) as Hr'.
  rewrite (evaluate_relabel t b'), (evaluate_relabel s b) by (done || apply Hb).
  pose proof (narrowed_rows _ _ _ _ _ Hb) as Hrows. clear Hr'. unfold kept in Hk.
  induction e as [n|v|l IHl op r IHr|e IH negated|e IH ty|e IH alias|f e IH d|]; cbn [resolved] in Hr; try done.
  - destruct (find_column s n) as [j| |] eqn:Ej; try done. rewrite columns_column in Hk.
    destruct (find_narrowed s t jx n j Hs Ht Hjx Ej) as (k & Ek & Hkj); [set_solver|].
    cbn. rewrite Ej, Ek. cbn.
    destruct (Forall2_lookup_l _ _ _ _ _ (narrowed_columns _ _ _ _ _ Hb) Hkj) as (a & -> & ->). done.
  - cbn. by rewrite Hrows.
  - apply andb_true_iff in Hr as [Hl Hr]. rewrite columns_binary in Hk.
    cbn [evaluate]. rewrite IHl, IHr by (done || set_solver). cbn. by rewrite Hrows.
  - cbn [evaluate]. by rewrite IH.
  - cbn [evaluate]. by rewrite IH.
  - cbn [evaluate]. specialize (IH Hr Hk). by destruct e.
Qed.

Section narrowing.
Context (s t : Schema) (jx : list nat) (Hs : uniform_schema s) (Ht : uniform_schema t)
  (Hjx : Forall2 (λ j f, s !! j = Some f) jx t).

Lemma filter_narrowed b b' e :
  narrowed s t jx b b' → expr_ok s e e → kept t e →
  refines (narrowed s t jx) (filter_batch b e) (filter_batch b' e).
Proof.
  intros Hb He Hk. pose proof (evaluate_narrowed s t jx b b' e Hs Ht Hjx Hb (eo_resolved _ _ _ He) Hk) as Ev.
  pose proof (resolved_narrowed s t jx e Hs Ht Hjx (eo_resolved _ _ _ He) Hk) as Hr.
  assert (expr_ok t e e) as He' by (split; [apply He|done|by left]).
  pose proof (filter_fits s b e) as Hfl. pose proof (filter_fits t b' e) as Hfr.
  destruct Hb as [Hl Hrt Hrows Hcols].
  unfold filter_batch in *. rewrite Ev in *. pose proof (evaluate_no_panic _ e (fit_ok _ _ Hl) (proj2 (proj2 (eo_evaluable _ _ _ He)))) as Hnp.
  rewrite <-(evaluate_relabel s) in Hnp by (done || apply He).
  destruct (evaluate e b) as [a| |] eqn:E; [|done|done]. cbn in *. destruct (decide _); [|done].
  pose proof (evaluated_rows s b e a Hl (eo_evaluable _ _ _ He) (eo_resolved _ _ _ He) E) as Hlen.
  rewrite law_filter in * by done. rewrite law_filter in * by congruence.
  eexists. split; [done|]. split; [by eapply Hfl|by eapply Hfr|done|].
  cbn. unfold map_columns. apply Forall2_fmap_r. eapply Forall2_impl; [|exact Hcols].
  intros j c Hj. cbn. by rewrite list_lookup_fmap, Hj.
Qed.

Lemma project_narrowed b b' es u :
  native_schema u → narrowed s t jx b b' → Forall (λ e, resolved s e = true ∧ kept t e) es →
  refines (same u) (project_batch b es u) (project_batch b' es u).
Proof.
  intros Hu Hb Hes. unfold project_batch.
  assert (collect (λ e, evaluate e b') es = collect (λ e, evaluate e b) es) as ->.
  { induction Hes as [|e es [Hr Hk] _ IH]; [done|]. cbn [collect].
    rewrite (evaluate_narrowed s t jx b b' e) by done. by rewrite IH. }
  apply refines_bind_eq. intros arrays _. by apply try_new_refines.
Qed.

Lemma projected_narrowed p ix ix' b :
  honest p → Forall2 (source_field p) s ix → Forall2 (source_field p) t ix' →
  native_schema s → native_schema t → b_schema b = tp_schema p → batch_ok b →
  narrowed s t jx (projected b ix) (projected b ix').
Proof.
  intros Hp Hix Hix' Hns Hnt Hsch Hok. split; [by eapply source_fits|by eapply source_fits|done|].
  pose proof (batch_ok_lengths _ Hok) as Hlen. rewrite Hsch in Hlen.
  pose proof (source_bound _ _ _ Hix) as Hb. pose proof (source_bound _ _ _ Hix') as Hb'. rewrite Hlen in Hb, Hb'.
  apply omap_lookup_Forall2 in Hb, Hb'. cbn.
  apply Forall2_same_length_lookup. split.
  { by rewrite (Forall2_length Hjx), (Forall2_length Hix'), (Forall2_length Hb'). }
  intros k j a Hj Ha. destruct (Forall2_lookup_l _ _ _ _ _ Hjx Hj) as (f & Hkf & Hjf).
  destruct (Forall2_lookup_r _ _ _ _ _ Hb' Ha) as (i' & Hi' & Hia).
  destruct (Forall2_lookup_lr _ _ _ _ _ _ Hix' Hkf Hi') as (g & Hg & Hname & _).
  destruct (Forall2_lookup_l _ _ _ _ _ Hix Hjf) as (i & Hi & g' & Hg' & Hname' & _).
  assert (i = i') as ->.
  { eapply NoDup_lookup; [exact (honest_names p Hp)|rewrite list_lookup_fmap, Hg'; done|].
    rewrite list_lookup_fmap, Hg. cbn. congruence. }
  destruct (Forall2_lookup_l _ _ _ _ _ Hb Hi) as (a' & Ha' & Hia'). rewrite Ha'. congruence.
Qed.
End narrowing.

(** A projection over a scan that reads only the columns it needs. *)
Lemma narrowed_scan_sim site p pr pr' s t jx ix ix' fs es u part :
  honest p → scan_ok p pr s ix → scan_ok p pr' t ix' → native_schema s → native_schema t → native_schema u →
  uniform_schema s → uniform_schema t → Forall2 (λ j f, s !! j = Some f) jx t →
  Forall (λ e, expr_ok s e e ∧ kept t e) fs → Forall (λ e, resolved s e = true ∧ kept t e) es →
  sim (same u) (execute_projection (execute_scans site p (indices_of pr ix) fs part) es u)
    (execute_projection (execute_scans site p (indices_of pr' ix') fs part) es u).
Proof.
  intros Hp Hs Ht Hns Hnt Hnu Hus Hut Hjx Hfs Hes.
  apply (sim_projection (narrowed s t jx)); [|intros b b' Hb; by apply (project_narrowed s t jx)].
  eapply execute_scans_sim; [done..| |].
  - intros b Hsch Hok. eapply projected_narrowed; try done; [apply Hs|apply Ht].
  - intros b b' Hb. apply (fold_result_refines (λ e e', e' = e ∧ expr_ok s e e ∧ kept t e)); [| |done].
    + intros c c' e ? Hc (-> & He & Hk). by eapply filter_narrowed.
    + clear -Hfs. induction Hfs as [|e fs He _ IH]; constructor; [by split|done].
Qed.
End scans.
