(* ===== verification/OperatorDemo.v ===== *)
(** * Batch operations and a sort with the laws of the operators

    Concrete instances for the worked examples, with batches that are checked cell by
    cell, and the in-memory table as an honest one. *)
From S2P Require Import Prelude Text Float Expr ExprProps SchemaProps Logical Catalog Physical Memory Execution ExecutionDemo HashJoin Aggregate AggregateProps Executor ExecutorProps OperatorProps ScanProps.

(** ** Batches *)

Definition typed_cells (a : array) : bool :=
  forallb (λ c : option cell, match c with Some x => cell_typed (a_type a) x | None => true end) (a_cells a).

#[export] Instance checked_batch_ops : BatchOps := {
  try_new schema columns :=
    if forallb typed_cells columns then @try_new demo_batch_ops schema columns
    else Err (Arrow "value of another type");
  batch_project := @batch_project demo_batch_ops;
  batch_slice := @batch_slice demo_batch_ops;
  filter_record_batch := @filter_record_batch demo_batch_ops;
  concat_batches := @concat_batches demo_batch_ops;
  take_record_batch := @take_record_batch demo_batch_ops;
  batch_bytes := @batch_bytes demo_batch_ops;
}.

Lemma typed_cells_spec a n : typed_cells a = true → length (a_cells a) = n → array_ok n a.
Proof.
  intros Ht Hn. split; [done|]. unfold typed_cells in Ht. rewrite forallb_forall in Ht.
  apply list.Forall_forall. intros c Hc x ->. by apply (Ht (Some x)), list_elem_of_In.
Qed.

Lemma checked_columns schema columns n :
  a_type <$> columns = f_type <$> schema → all_rows n columns = true → forallb typed_cells columns = true →
  Forall2 (λ f a, a_type a = f_type f ∧ array_ok n a) schema columns.
Proof.
  revert schema. induction columns as [|a columns IH]; intros [|f schema] Ht Hr Hc; try done.
  rewrite !fmap_cons in Ht. injection Ht as Ht1 Ht2. cbn in Hr, Hc.
  apply andb_true_iff in Hr as [Hr1%bool_decide_eq_true_1 Hr2], Hc as [Hc1 Hc2].
  constructor; [split; [done|by apply typed_cells_spec]|by apply IH].
Qed.

Lemma collect_lookup {A} (l : list A) (e : SparkXError) ix :
  Forall (λ i, i < length l) ix → collect (λ i, ok_or (l !! i) e) ix = Ok (omap (λ i, l !! i) ix).
Proof.
  induction 1 as [|i ix Hi _ IH]; [done|]. cbn [collect omap list_omap].
  destruct (lookup_lt_is_Some_2 l i Hi) as [x ->]. cbn. by rewrite IH.
Qed.

#[export] Instance checked_batch_laws : BatchLaws checked_batch_ops.
Proof.
  constructor.
  - intros schema columns b. cbn. destruct (forallb typed_cells columns) eqn:Ec; [|done].
    destruct columns as [|a columns]; [done|]. destruct (_ && _) eqn:E; [|done]. intros [= <-].
    apply andb_true_iff in E as [Et%bool_decide_eq_true_1 Er]. cbn [b_schema b_columns b_rows].
    split_and!; [done|done|done|by apply checked_columns].
  - intros schema columns. cbn. destruct (forallb typed_cells columns); [|done].
    destruct columns; [done|]. by destruct (_ && _).
  - intros b ix Hl Hix. cbn. rewrite !collect_lookup by (done || by rewrite Hl). done.
  - intros b mask Hm. cbn. by rewrite bool_decide_eq_true_2.
  - intros b n Hn. cbn. unfold map_columns. f_equal. 
  - done.
  - done.
  - intros b b' Hc Hr. cbn. by rewrite Hc, Hr.
Qed.

#[export] Instance demo_kernels_return : KernelsReturn demo_kernels.
Proof. intros op t x y. cbn. unfold demo_arith. destruct x, y; try exact I. destruct op; cbn -[cell_typed]; try destruct (decide _); cbn -[cell_typed]; try exact I; by destruct (cell_typed _ _). Qed.

(** ** Sorting *)

Definition compare_cells (descending nulls_first : bool) (x y : option cell) : comparison :=
  match x, y with
  | None, None => Eq
  | None, Some _ => if nulls_first then Lt else Gt
  | Some _, None => if nulls_first then Gt else Lt
  | Some x, Some y => let c := default Eq (demo_order x y) in if descending then CompOpp c else c
  end.

Fixpoint compare_rows (columns : list SortColumn) (i j : nat) : comparison :=
  match columns with
  | [] => Eq
  | c :: columns =>
      let at_row k := default None (a_cells (sc_values c) !! k) in
      match compare_cells (sc_descending c) (sc_nulls_first c) (at_row i) (at_row j) with
      | Eq => compare_rows columns i j
      | o => o
      end
  end.

Fixpoint insert_row (columns : list SortColumn) (i : nat) (rows : list nat) : list nat :=
  match rows with
  | [] => [i]
  | j :: rest => match compare_rows columns i j with Gt => j :: insert_row columns i rest | _ => i :: rows end
  end.

#[export] Instance demo_sort_ops : SortOps := {
  lexsort_to_indices columns limit :=
    match columns with
    | [] => Err (Arrow "sort requires at least one column")
    | c :: _ =>
        let n := length (a_cells (sc_values c)) in
        Ok (take (default n limit) (foldr (insert_row columns) [] (seq 0 n)))
    end;
  new_empty schema := MkRecordBatch schema ((λ f, MkArray (f_type f) []) <$> schema) 0;
}.

Lemma insert_row_Permutation columns i rows : insert_row columns i rows ≡ₚ i :: rows.
Proof.
  induction rows as [|j rows IH]; [done|]. cbn. destruct (compare_rows columns i j); [done|done|].
  rewrite IH. apply Permutation_swap.
Qed.

Lemma sort_rows_Permutation columns l : foldr (insert_row columns) [] l ≡ₚ l.
Proof. induction l as [|i l IH]; [done|]. cbn. by rewrite insert_row_Permutation, IH. Qed.

#[export] Instance demo_sort_laws : SortLaws demo_sort_ops.
Proof.
  constructor; [|done]. intros [|c columns] limit indices n; [done|]. intros Hn. cbn. intros [= <-].
  apply list.Forall_cons in Hn as [-> _]. apply Forall_take.
  rewrite (sort_rows_Permutation (c :: columns)). apply list.Forall_forall. intros i Hi%elem_of_seq. lia.
Qed.

(** ** In-memory tables *)

(** A memory table with a clean schema of nullable columns is an honest table. *)
Lemma memory_provider_honest `{B : BatchOps, !BatchLaws B} t :
  native_schema (mt_schema t) → nullable_schema (mt_schema t) → Forall (λ f, dotted f = false) (mt_schema t) →
  NoDup (f_name <$> mt_schema t) → Forall (Forall (λ b, b_schema b = mt_schema t ∧ batch_ok b)) (mt_partitions t) →
  honest (memory_provider t).
Proof.
  intros Hn Hnull Hd Hnd Hbs.
  assert (∀ bs : list RecordBatch, collect (λ b, Ok b) bs = Ok bs) as Hid.
  { intros bs. induction bs as [|b bs IH]; [done|]. cbn. by rewrite IH. }
  split; try done.
  - intros k bs Hk. cbn in *. unfold MemoryTable_scan_partition in Hk. destruct (mt_partitions t !! k) as [l|] eqn:E; [|done].
    cbn in Hk. rewrite Hid in Hk. injection Hk as <-. by apply (Forall_lookup_1 _ _ _ _ Hbs E).
  - intros k ix. cbn. unfold MemoryTable_scan_partition. destruct (mt_partitions t !! k) as [l|]; [|done].
    cbn. by rewrite Hid.
Qed.
