(* ===== verification/PlanRun.v ===== *)
(** * Running logical plans

    [run] is the stream of the physical plan the planner builds for a logical plan,
    by recursion on the logical plan; two plans are equivalent when their streams
    agree at every site, also under a limit, which the planner fuses with a sort. *)
From S2P Require Import Prelude Text Float Expr ExprProps SchemaProps Logical Optimizer OptimizerProps Catalog Physical PhysicalProps Memory Execution ExecutionDemo HashJoin Aggregate AggregateProps Executor ExecutorProps OperatorProps ScanProps.

Definition is_sort (p : LogicalPlan) : bool := match p with LSort _ _ _ => true | _ => false end.

Fixpoint logical_sites (p : LogicalPlan) : nat :=
  match p with
  | LScan _ _ _ _ => 1
  | LProjection i _ _ | LFilter i _ _ | LLimit i _ _ => logical_sites i
  | LAggregate i _ _ _ | LSort i _ _ => S (logical_sites i)
  | LJoin l r _ _ _ _ => S (logical_sites l + logical_sites r)
  end.

(** The operators the planner makes: a limit over a sort is one. *)
Fixpoint planned_nodes (p : LogicalPlan) : N :=
  match p with
  | LScan _ _ _ _ => 1
  | LProjection i _ _ | LFilter i _ _ | LAggregate i _ _ _ | LSort i _ _ => N.succ (planned_nodes i)
  | LLimit i _ _ => if is_sort i then planned_nodes i else N.succ (planned_nodes i)
  | LJoin l r _ _ _ _ => N.succ (planned_nodes l + planned_nodes r)
  end.

Lemma next_operator_id_spec n m : next_operator_id n = Ok m ↔ m = N.succ n ∧ (n < U32_MAX)%N.
Proof. unfold next_operator_id. destruct (n <? U32_MAX)%N eqn:E; [apply N.ltb_lt in E|apply N.ltb_ge in E]; naive_solver lia. Qed.

Section run.
Context `{K : Kernels, B : BatchOps, SO : SortOps, FD : FloatDisplay, SD : ScalarDebug, RC : RowConverter, SZ : Sizes}.
Context (catalog : Catalog) (env : nat → Site) (part : option nat).

Definition run_scan (n : nat) (name : string) (pr : option (list string)) (fs : list Expr) : stream :=
  match (provider ← table catalog name;
         pr ← match pr with
              | None => Ok None
              | Some columns => indices ← collect (find_column (tp_schema provider)) columns; Ok (Some indices)
              end;
         Ok (execute_scans (env n) provider pr fs part)) with
  | Ok st => st
  | _ => []
  end.

Fixpoint run (n : nat) (p : LogicalPlan) : stream :=
  match p with
  | LScan name pr fs _ => run_scan n name pr fs
  | LProjection i es s => execute_projection (run n i) es s
  | LFilter i e _ => execute_filter (run n i) e
  | LAggregate i g a s => execute_aggregate (site_memory (env n)) (run (S n) i) g a s
  | LSort i es s => execute_sort (site_memory (env n)) (run (S n) i) es s
  | LLimit (LSort i es _) k s => execute_topk (site_memory (env n)) (run (S n) i) es k s
  | LLimit i k _ => execute_limit (run n i) k
  | LJoin l r t lo ro s =>
      execute_hash_join (site_memory (env n)) (run (S n) l)
        (run (S n + logical_sites l) r) t lo ro s
  end.

Lemma run_limit n i k s : is_sort i = false → run n (LLimit i k s) = execute_limit (run n i) k.
Proof. by destruct i. Qed.

(** [run] is what the plan of the planner does. *)
Definition built (l : LogicalPlan) : Prop :=
  ∀ id p id', build l catalog id = Ok (p, id') →
    sites p = logical_sites l ∧ ∀ n, execute env part n p = run n l.

Lemma built_scan name pr fs s : built (LScan name pr fs s).
Proof.
  intros id p id' Hb. cbn [build] in Hb. apply bind_ok in Hb as (id1 & _ & Hb).
  apply bind_ok in Hb as (provider & Hp & Hb). apply bind_ok in Hb as (ix & Hix & [= <- <-]).
  split; [done|]. intros n. cbn [run execute]. unfold run_scan. rewrite Hp. cbn. by rewrite Hix.
Qed.

Lemma built_plan l : built l.
Proof.
  enough (built l ∧ (∀ i es s, l = LSort i es s → built i)) as [Hl _] by done.
  induction l as [tbl pr fs s|i IH es s|i IH e s|i IH g a s|i IH es s|i IH k s|l IHl r IHr t lo ro s];
    (split; [|by intros; simplify_eq; eapply (proj1 IH)]); [apply built_scan|..];
    intros id p id' Hb; cbn [build] in Hb; apply bind_ok in Hb as (id1 & _ & Hb).
  1-4: apply bind_ok in Hb as ([q id2] & Hq & [= <- <-]); destruct (proj1 IH _ _ _ Hq) as [Hs Hr]; cbn;
       rewrite Hs; split; [done|]; intros n; by rewrite Hr.
  - destruct IH as [IH IHs].
    destruct (is_sort i) eqn:Ei.
    + destruct i as [| | | |j es u| |]; try done. apply bind_ok in Hb as ([q id2] & Hq & [= <- <-]).
      destruct (IHs j es u eq_refl _ _ _ Hq) as [Hs Hr]. cbn. rewrite Hs. split; [done|]. intros n. by rewrite Hr.
    + assert (∃ q, build i catalog id1 = Ok (q, id') ∧ p = PLimit id q k s) as (q & Hq & ->).
      { destruct i; try done; by apply bind_ok in Hb as ([q id2] & Hq & [= <- <-]); exists q. }
      destruct (IH _ _ _ Hq) as [Hs Hr]. cbn [sites logical_sites]. rewrite Hs. split; [done|].
      intros n. rewrite run_limit by done. cbn. by rewrite Hr.
  - apply bind_ok in Hb as ([pl id2] & Hpl & Hb). apply bind_ok in Hb as ([pr id3] & Hpr & [= <- <-]).
    destruct (proj1 IHl _ _ _ Hpl) as [Hsl Hrl]. destruct (proj1 IHr _ _ _ Hpr) as [Hsr Hrr].
    cbn. rewrite Hsl, Hsr. split; [done|]. intros n. by rewrite Hrl, Hrr.
Qed.

(** ** Plans that can run *)

(** Beyond being well formed: tables are honest, columns exist also where typing does
    not look, and no projection is directly over a sort (the planner puts the sort
    above). *)
Fixpoint ready (p : LogicalPlan) : Prop :=
  nullable_schema (plan_schema p) ∧
  match p with
  | LScan name pr fs s =>
      (∃ provider ix, table catalog name = Ok provider ∧ honest provider ∧ scan_ok provider pr s ix) ∧
      Forall (λ e, resolved s e = true) fs
  | LProjection i es _ => ready i ∧ is_sort i = false ∧ Forall (λ e, resolved (plan_schema i) e = true) es
  | LFilter i e _ => ready i ∧ resolved (plan_schema i) e = true
  | LAggregate i g a _ =>
      ready i ∧ Forall (λ e, resolved (plan_schema i) e = true) g ∧ Forall (λ e, resolved (plan_schema i) e = true) a
  | LSort i es _ => ready i ∧ Forall (λ x, resolved (plan_schema i) (s_expr x) = true) es
  | LLimit i _ _ => ready i
  | LJoin l r _ lo ro _ =>
      ready l ∧ ready r ∧ Forall (λ e, resolved (plan_schema l) e = true) lo ∧
      Forall (λ e, resolved (plan_schema r) e = true) ro
  end.

Lemma ready_nullable p : ready p → nullable_schema (plan_schema p).
Proof. by destruct p; intros [? _]. Qed.

Definition sound (p : LogicalPlan) : Prop := good p ∧ ready p.

(** *** They are planned as long as operators can be numbered *)

Definition plannable_at (l : LogicalPlan) : Prop :=
  ready l → ∀ id, (id + planned_nodes l <= U32_MAX)%N →
  ∃ p, build l catalog id = Ok (p, (id + planned_nodes l)%N).

Definition numbered_to (l : LogicalPlan) : Prop :=
  ∀ id p id', build l catalog id = Ok (p, id') → id' = (id + planned_nodes l)%N ∧ (id' <= U32_MAX)%N.

Lemma planned_positive l : (0 < planned_nodes l)%N.
Proof. induction l; cbn; try lia. destruct (is_sort _); lia. Qed.

Lemma build_plannable l : plannable_at l.
Proof.
  enough (plannable_at l ∧ (∀ i es s, l = LSort i es s → plannable_at i)) as [Hl _] by done.
  assert (∀ id, (id < U32_MAX)%N → next_operator_id id = Ok (N.succ id)) as Hnext
    by (intros; by apply next_operator_id_spec).
  induction l as [tbl pr fs s|i IH es s|i IH e s|i IH g a s|i IH es s|i IH k s|l IHl r IHr t lo ro s];
    (split; [|by intros; simplify_eq; eapply (proj1 IH)]); intros (Hnull & Hr) id Hid; cbn [planned_nodes] in *;
    cbn [build].
  1:{ rewrite Hnext by lia. cbn [mbind result_bind]. destruct Hr as [(provider & ix & -> & _ & [Hix _]) _].
      cbn [mbind result_bind]. rewrite N.add_1_r. destruct pr as [names|]; [rewrite Hix|]; eexists; reflexivity. }
  1-4: rewrite Hnext by (pose proof (planned_positive i); lia); cbn [mbind result_bind];
       (destruct (proj1 IH ltac:(apply Hr) (N.succ id) ltac:(lia)) as (q & Hq)); rewrite Hq; eexists; cbn; do 2 f_equal; lia.
  - destruct IH as [IH IHs]. destruct (is_sort i) eqn:Ei.
    + destruct i as [| | | |j es u| |]; try done. cbn [planned_nodes] in *. destruct Hr as (_ & Hj & _).
      rewrite Hnext by lia. cbn [mbind result_bind].
      destruct (IHs j es u eq_refl Hj (N.succ id) ltac:(lia)) as (q & Hq). rewrite Hq. eexists. cbn. do 2 f_equal. lia.
    + rewrite Hnext by lia. cbn [mbind result_bind].
      destruct (IH Hr (N.succ id) ltac:(lia)) as (q & Hq).
      exists (PLimit id q k s). destruct i; try done; rewrite Hq; cbn; do 2 f_equal; lia.
  - rewrite Hnext by lia. cbn [mbind result_bind]. destruct Hr as (Hl & Hrr & _).
    destruct (proj1 IHl Hl (N.succ id) ltac:(lia)) as (q & Hq). rewrite Hq. cbn [mbind result_bind].
    destruct (proj1 IHr Hrr (N.succ id + planned_nodes l)%N ltac:(lia)) as (q' & Hq'). rewrite Hq'.
    eexists. cbn. do 2 f_equal. lia.
Qed.

Lemma build_numbered_to l : numbered_to l.
Proof.
  enough (numbered_to l ∧ (∀ i es s, l = LSort i es s → numbered_to i)) as [Hl _] by done.
  induction l as [tbl pr fs s|i IH es s|i IH e s|i IH g a s|i IH es s|i IH k s|l IHl r IHr t lo ro s];
    (split; [|by intros; simplify_eq; eapply (proj1 IH)]); intros id p id' Hb; cbn [build] in Hb;
    apply bind_ok in Hb as (id1 & [-> Hid]%next_operator_id_spec & Hb); cbn [planned_nodes].
  - apply bind_ok in Hb as (provider & _ & Hb). apply bind_ok in Hb as (ix & _ & [= <- <-]). lia.
  - apply bind_ok in Hb as ([q id2] & Hq & [= <- <-]). destruct (proj1 IH _ _ _ Hq). lia.
  - apply bind_ok in Hb as ([q id2] & Hq & [= <- <-]). destruct (proj1 IH _ _ _ Hq). lia.
  - apply bind_ok in Hb as ([q id2] & Hq & [= <- <-]). destruct (proj1 IH _ _ _ Hq). lia.
  - apply bind_ok in Hb as ([q id2] & Hq & [= <- <-]). destruct (proj1 IH _ _ _ Hq). lia.
  - destruct IH as [IH IHs]. destruct (is_sort i) eqn:Ei.
    + destruct i as [| | | |j es u| |]; try done. apply bind_ok in Hb as ([q id2] & Hq & [= <- <-]).
      destruct (IHs j es u eq_refl _ _ _ Hq). cbn [planned_nodes]. lia.
    + assert (∃ q, build i catalog (N.succ id) = Ok (q, id')) as (q & Hq).
      { destruct i; try done; by apply bind_ok in Hb as ([q id2] & Hq & [= <- <-]); exists q. }
      destruct (IH _ _ _ Hq). lia.
  - apply bind_ok in Hb as ([pl id2] & Hpl & Hb). apply bind_ok in Hb as ([pr id3] & Hpr & [= <- <-]).
    destruct (proj1 IHl _ _ _ Hpl). destruct (proj1 IHr _ _ _ Hpr). lia.
Qed.

(** ** Equivalent plans *)

Record equivalent (p p' : LogicalPlan) : Prop := {
  eqv_sound : sound p';
  eqv_schema : plan_schema p' = plan_schema p;
  eqv_sites : logical_sites p' = logical_sites p;
  eqv_sort : is_sort p' = is_sort p;
  eqv_nodes : (planned_nodes p' <= planned_nodes p)%N;
  eqv_run n : sim (same (plan_schema p)) (run n p) (run n p');
  eqv_limit n k :
    sim (same (plan_schema p)) (run n (LLimit p k (plan_schema p))) (run n (LLimit p' k (plan_schema p)));
}.

Lemma equivalent_trans p q r : equivalent p q → equivalent q r → equivalent p r.
Proof.
  intros [_ E1 S1 T1 N1 R1 L1] [Hs E2 S2 T2 N2 R2 L2]. rewrite E1 in *. split; try congruence; [lia|..].
  - intros n. eapply sim_trans; [apply same_trans|done|done].
  - intros n k. eapply sim_trans; [apply same_trans|done|done].
Qed.

Context `{!BatchLaws B}.

Lemma limit_sim s st st' k : sim (same s) st st' → sim (same s) (execute_limit st k) (execute_limit st' k).
Proof.
  intros Hs. eapply sim_limit; [|exact Hs]. intros b b' Hb. split; [apply Hb|]. intros. by apply slice_same.
Qed.

(** Away from sorts, a limit sees only the stream. *)
Lemma equivalent_plain p p' :
  sound p' → plan_schema p' = plan_schema p → logical_sites p' = logical_sites p →
  is_sort p = false → is_sort p' = false → (planned_nodes p' <= planned_nodes p)%N → (∀ n, sim (same (plan_schema p)) (run n p) (run n p')) →
  equivalent p p'.
Proof.
  intros Hs He Hn Hp Hp' Hc Hr. split; try done; [congruence|]. intros n k.
  rewrite !run_limit by done. by apply limit_sim.
Qed.
End run.
