(* ===== verification/OptimizerSound.v ===== *)
(** * Optimized plans return the same batches

    Every pass of the optimizer takes a plan to an equivalent one, so the physical
    plan of the optimized query returns, batch by batch, what the physical plan of
    the query as written returns. *)
From S2P Require Import Prelude Text Float Expr ExprProps SchemaProps Logical Optimizer OptimizerProps Catalog Physical PhysicalProps Memory Execution ExecutionDemo HashJoin Aggregate AggregateProps Executor ExecutorProps OperatorProps ScanProps OperatorDemo PlanRun.

Section nodes.
Context `{K : Kernels, !KernelLaws K, !KernelsReturn K, B : BatchOps, !BatchLaws B, SO : SortOps, !SortLaws SO}.
Context `{FD : FloatDisplay, SD : ScalarDebug, RC : RowConverter, SZ : Sizes}.
Context (catalog : Catalog) (env : nat → Site) (part : option nat).

Abbreviation equivalent := (equivalent catalog env part).
Abbreviation sound := (sound catalog).
Abbreviation run := (run catalog env part).
Abbreviation ready := (ready catalog).

(** ** Expressions *)

Lemma plain_ok s e e' : plain e = true → resolved s e = true → simp s e e' → expr_ok s e e'.
Proof.
  intros (Hc & Ht & Hna & _)%plain_inv Hr Hs. split; [|done|done]. split; [done|]. split; [done|]. by destruct e.
Qed.

Lemma select_ok s e e' : select_expr e = true → resolved s e = true → simp s e e' → expr_ok s e e'.
Proof.
  intros [_ (Hc & Ht & Hna & _)%plain_inv]%andb_true_iff Hr Hs. split; [|done|done]. split_and!; [..|done]; by destruct e.
Qed.

Lemma expr_ok_resolved s e e' : expr_ok s e e' → resolved s e' = true.
Proof. intros [_ Hr [->|Hs]]; [done|]. by eapply resolved_simplify. Qed.

Lemma resolved_unalias s e : resolved s e = true → resolved s (unalias e) = true.
Proof. by destruct e. Qed.

Lemma aggregate_argument s e e' f x d :
  no_alias (unalias e) = true → unalias e = Aggregate f x d → simp s e e' →
  ∃ x', unalias e' = Aggregate f x' d ∧ simp s x x'.
Proof.
  intros Hna Hu [->|Hs]; [exists x; split; [done|by left]|].
  apply simplify_unalias in Hs as [Hs _]; [|done]. rewrite Hu in Hs. cbn [simplify] in Hs.
  apply bind_ok in Hs as (x' & Hx' & [= <-]). exists x'. split; [done|by right].
Qed.

Lemma aggregate_pair_ok s e e' : aggregate_expr e = true → resolved s e = true → simp s e e' → aggregate_ok s e e'.
Proof.
  intros Ha Hr Hs. destruct (aggregate_expr_inv _ Ha) as (Hna & f & x & d & Hu & Hx).
  destruct (aggregate_argument s e e' f x d Hna Hu Hs) as (x' & Hu' & Hx').
  apply resolved_unalias in Hr. rewrite Hu in Hr. cbn in Hr.
  exists (f, x, d), (f, x', d). unfold aggregate_spec. rewrite Hu, Hu'. split; [done|]. split; [done|].
  split; [done|]. split; [done|]. cbn. destruct (decide (x = Wildcard)) as [->|Hw].
  - left. split; [done|]. destruct Hx' as [->|Hx']; [done|]. by injection Hx' as <-.
  - right. split; [done|]. destruct Hx as [|Hx]; [done|]. by apply plain_ok.
Qed.

Lemma aggregate_ok_resolved s e e' :
  aggregate_expr e = true → resolved s e = true → simp s e e' → resolved s e' = true.
Proof. intros Ha Hr [->|Hs]; [done|]. by eapply resolved_simplify. Qed.

(** The expressions of a node and what becomes of them. *)
Lemma pairs_ok (good : Expr → bool) (ok : Expr → Expr → Prop) s es es' :
  (∀ e e', good e = true → resolved s e = true → simp s e e' → ok e e') →
  Forall (λ e, good e = true) es → Forall (λ e, resolved s e = true) es → Forall2 (simp s) es es' →
  Forall2 ok es es'.
Proof.
  intros Hok Hg Hr. induction 1 as [|e e' es es' He _ IH]; constructor; inversion Hg; inversion Hr; subst; auto.
Qed.

Lemma pairs_resolved s es es' : Forall2 (expr_ok s) es es' → Forall (λ e, resolved s e = true) es'.
Proof. induction 1; constructor; [by eapply expr_ok_resolved|done]. Qed.

Lemma simp_same s es : Forall2 (simp s) es es.
Proof. induction es; constructor; [by left|done]. Qed.

Lemma simp_collect s es es' : collect (λ e, simplify e s) es = Ok es' → Forall2 (simp s) es es'.
Proof. intros Hc%collect_ok. induction Hc; constructor; [by right|done]. Qed.

(** ** One node over equivalent inputs *)

Lemma projection_equivalent i i' es es' s :
  sound (LProjection i es s) → equivalent i i' → Forall2 (simp (plan_schema i)) es es' →
  good (LProjection i' es' s) → equivalent (LProjection i es s) (LProjection i' es' s).
Proof.
  intros [Hg (Hnull & Hi & Hsort & Hr)] E Hes Hg'. apply good_projection in Hg as (_ & Hn & Hsel & _).
  assert (Forall2 (expr_ok (plan_schema i)) es es') as Hok by (eapply (pairs_ok select_expr); [apply select_ok|done..]).
  apply equivalent_plain; try done; [|by apply E|pose proof (eqv_nodes _ _ _ _ _ E); cbn; lia|].
  - split; [done|]. split; [done|]. split; [apply E|]. rewrite (eqv_sort _ _ _ _ _ E), (eqv_schema _ _ _ _ _ E).
    split; [done|by eapply pairs_resolved].
  - intros n. eapply sim_projection; [apply E|]. intros. by apply (project_refines (plan_schema i)).
Qed.

Lemma filter_equivalent i i' e e' s :
  sound (LFilter i e s) → equivalent i i' → simp (plan_schema i) e e' →
  good (LFilter i' e' s) → equivalent (LFilter i e s) (LFilter i' e' s).
Proof.
  intros [Hg (Hnull & Hi & Hr)] E He Hg'. apply good_filter in Hg as (_ & Hp & -> & _).
  assert (expr_ok (plan_schema i) e e') as Hok by by apply plain_ok.
  apply equivalent_plain; try done; [|by apply E|pose proof (eqv_nodes _ _ _ _ _ E); cbn; lia|].
  - split; [done|]. split; [done|]. split; [apply E|]. rewrite (eqv_schema _ _ _ _ _ E). by eapply expr_ok_resolved.
  - intros n. eapply sim_filter; [apply E|]. intros. by apply (filter_refines (plan_schema i)).
Qed.

Lemma aggregate_equivalent i i' g g' a a' s :
  sound (LAggregate i g a s) → equivalent i i' →
  Forall2 (simp (plan_schema i)) g g' → Forall2 (simp (plan_schema i)) a a' →
  good (LAggregate i' g' a' s) → equivalent (LAggregate i g a s) (LAggregate i' g' a' s).
Proof.
  intros [Hg (Hnull & Hi & Hrg & Hra)] E Hgs Has Hg'. apply good_aggregate in Hg as (_ & Hn & Hsg & Hsa & _).
  assert (Forall2 (expr_ok (plan_schema i)) g g') as Hok by (eapply (pairs_ok select_expr); [apply select_ok|done..]).
  assert (Forall2 (aggregate_ok (plan_schema i)) a a') as Hoka
    by (eapply (pairs_ok aggregate_expr); [apply aggregate_pair_ok|done..]).
  apply equivalent_plain; try done; [|cbn; by rewrite (eqv_sites _ _ _ _ _ E)|pose proof (eqv_nodes _ _ _ _ _ E); cbn; lia|].
  - split; [done|]. split; [done|]. split; [apply E|]. rewrite (eqv_schema _ _ _ _ _ E). split; [by eapply pairs_resolved|].
    assert (Forall2 (λ _ e', resolved (plan_schema i) e' = true) a a') as Hra'
      by (eapply (pairs_ok aggregate_expr); [apply aggregate_ok_resolved|done..]).
    clear -Hra'. by induction Hra'; constructor.
  - intros n. eapply aggregate_sim; [done|apply E|done|done].
Qed.

Definition sort_simp (s : Schema) (x x' : SortExpr) : Prop :=
  simp s (s_expr x) (s_expr x') ∧ s_ascending x' = s_ascending x ∧ s_nulls_first x' = s_nulls_first x.

Lemma sort_pairs_ok s es es' :
  Forall (λ x, plain (s_expr x) = true) es → Forall (λ x, resolved s (s_expr x) = true) es →
  Forall2 (sort_simp s) es es' → Forall2 (sort_ok_pair s) es es'.
Proof.
  intros Hg Hr. induction 1 as [|x x' es es' (Hx & Ha & Hn) _ IH]; constructor; inversion Hg; inversion Hr; subst; auto.
  split; [by apply plain_ok|done].
Qed.

Lemma sort_equivalent i i' es es' s :
  sound (LSort i es s) → equivalent i i' → Forall2 (sort_simp (plan_schema i)) es es' →
  good (LSort i' es' s) → equivalent (LSort i es s) (LSort i' es' s).
Proof.
  intros [Hg (Hnull & Hi & Hr)] E Hes Hg'. pose proof (plain_plan_native _ (proj2 Hg)) as Hn.
  apply good_sort in Hg as (_ & Hp & ->). cbn in Hnull, Hn.
  pose proof (sort_pairs_ok _ _ _ Hp Hr Hes) as Hok. split; try done.
  - split; [done|]. split; [done|]. split; [apply E|]. rewrite (eqv_schema _ _ _ _ _ E).
    clear -Hok. induction Hok as [|x x' es es' (He & _) _ IH]; constructor; [by eapply expr_ok_resolved|done].
  - cbn. by rewrite (eqv_sites _ _ _ _ _ E).
  - pose proof (eqv_nodes _ _ _ _ _ E). cbn. lia.
  - intros n. apply sort_sim; try done. apply (eqv_run _ _ _ _ _ E).
  - intros n k. apply topk_sim; try done. apply (eqv_run _ _ _ _ _ E).
Qed.

Lemma limit_equivalent i i' k s :
  sound (LLimit i k s) → equivalent i i' → good (LLimit i' k s) → equivalent (LLimit i k s) (LLimit i' k s).
Proof.
  intros [Hg (Hnull & Hi)] E Hg'. apply good_limit in Hg as (_ & ->).
  apply equivalent_plain; try done; [|by apply E|pose proof (eqv_nodes _ _ _ _ _ E); cbn; rewrite (eqv_sort _ _ _ _ _ E); destruct (is_sort i); lia|intros n; apply (eqv_limit _ _ _ _ _ E)]. split; [done|]. split; [done|]. apply E.
Qed.

Lemma join_equivalent l l' r r' t lo lo' ro ro' s :
  sound (LJoin l r t lo ro s) → equivalent l l' → equivalent r r' →
  Forall2 (simp (plan_schema l)) lo lo' → Forall2 (simp (plan_schema r)) ro ro' →
  good (LJoin l' r' t lo' ro' s) → equivalent (LJoin l r t lo ro s) (LJoin l' r' t lo' ro' s).
Proof.
  intros [Hg (Hnull & Hl & Hr & Hrl & Hrr)] El Er Hlo Hro Hg'. apply good_join in Hg as (_ & _ & _ & Hn & Hpl & Hpr).
  assert (Forall2 (expr_ok (plan_schema l)) lo lo') as Hokl by (eapply (pairs_ok plain); [apply plain_ok|done..]).
  assert (Forall2 (expr_ok (plan_schema r)) ro ro') as Hokr by (eapply (pairs_ok plain); [apply plain_ok|done..]).
  apply equivalent_plain; try done; [| |pose proof (eqv_nodes _ _ _ _ _ El); pose proof (eqv_nodes _ _ _ _ _ Er); cbn; lia|].
  - split; [done|]. split; [done|]. split; [apply El|]. split; [apply Er|].
    rewrite (eqv_schema _ _ _ _ _ El), (eqv_schema _ _ _ _ _ Er). split; by eapply pairs_resolved.
  - cbn. by rewrite (eqv_sites _ _ _ _ _ El), (eqv_sites _ _ _ _ _ Er).
  - intros n. cbn [run]. rewrite (eqv_sites _ _ _ _ _ El). eapply join_sim; [done|apply El|apply Er|done|done].
Qed.

(** ** Scans *)

Lemma run_scan_ok n name provider pr s ix fs :
  table catalog name = Ok provider → scan_ok provider pr s ix →
  run n (LScan name pr fs s) = execute_scans (env n) provider (indices_of pr ix) fs part.
Proof.
  intros Ht [Hix _]. cbn [PlanRun.run]. unfold run_scan. rewrite Ht. cbn [mbind result_bind].
  destruct pr as [names|]; cbn; [|by subst ix]. by rewrite Hix.
Qed.

Lemma good_scan name pr fs s :
  good (LScan name pr fs s) → native_schema s ∧ uniform_schema s ∧ Forall (λ e, plain e = true) fs.
Proof. intros [_ (Hn & Hu & Hf)]. done. Qed.

Lemma scan_equivalent name pr s fs fs' :
  sound (LScan name pr fs s) → Forall2 (simp s) fs fs' → good (LScan name pr fs' s) →
  equivalent (LScan name pr fs s) (LScan name pr fs' s).
Proof.
  intros [Hg (Hnull & (provider & ix & Ht & Hp & Hs) & Hr)] Hfs Hg'.
  destruct (good_scan _ _ _ _ Hg) as (Hn & Hu & Hpl).
  assert (Forall2 (expr_ok s) fs fs') as Hok by (eapply (pairs_ok plain); [apply plain_ok|done..]).
  apply equivalent_plain; try done.
  - split; [done|]. split; [done|]. split; [by exists provider, ix|by eapply pairs_resolved].
  - intros n. rewrite !(run_scan_ok n name provider pr s ix) by done. by apply scan_sim.
Qed.

Lemma equivalent_refl p : sound p → equivalent p p.
Proof.
  induction p as [tbl pr fs s|i IH es s|i IH e s|i IH g a s|i IH es s|i IH k s|l IHl r IHr t lo ro s];
    intros [Hg Hr]; pose proof Hr as (Hnull & Hr').
  - apply scan_equivalent; [by split|apply simp_same|done].
  - apply projection_equivalent; [by split| |apply simp_same|done]. apply IH. split; [|apply Hr'].
    by apply good_projection in Hg as (? & _).
  - apply filter_equivalent; [by split| |by left|done]. apply IH. split; [|apply Hr'].
    by apply good_filter in Hg as (? & _).
  - apply aggregate_equivalent; [by split| |apply simp_same|apply simp_same|done]. apply IH. split; [|apply Hr'].
    by apply good_aggregate in Hg as (? & _).
  - apply sort_equivalent; [by split| | |done].
    + apply IH. split; [|apply Hr']. by apply good_sort in Hg as (? & _).
    + clear. induction es; constructor; [by repeat split; left|done].
  - apply limit_equivalent; [by split| |done]. apply IH. split; [|apply Hr']. by apply good_limit in Hg as (? & _).
  - pose proof Hg as (Hl & Hrr & _)%good_join.
    apply join_equivalent; [by split|apply IHl; split; [done|apply Hr']|apply IHr; split; [done|apply Hr']|
      apply simp_same|apply simp_same|done].
Qed.

(** ** Rebuilding a node *)

Lemma signature_nullable s s' :
  signature s = signature s' → nullable_schema s → nullable_schema s' → s = s'.
Proof.
  unfold signature, nullable_schema. revert s'. induction s as [|f s IH]; intros [|f' s'] E Hs Hs'; try done.
  rewrite !fmap_cons in E. injection E as E1 E2 E3. apply list.Forall_cons in Hs as [Hf Hs], Hs' as [Hf' Hs'].
  f_equal; [|by apply IH]. destruct f, f'; cbn in *; congruence.
Qed.

Lemma fields_nullable es s fs : collect (λ e, field e s) es = Ok fs → nullable_schema fs.
Proof.
  intros Hc%collect_ok. induction Hc as [|e f es fs Hf _ IH]; constructor; [|done].
  unfold field in Hf. by apply bind_ok in Hf as (t & _ & [= <-]).
Qed.

Lemma project_equivalent i i' es es' s p' :
  sound (LProjection i es s) → equivalent i i' → Forall2 (simp (plan_schema i)) es es' →
  Forall (λ e, select_expr e = true) es' → project i' es' = Ok p' → keeps_schema (LProjection i es s) p' →
  equivalent (LProjection i es s) p'.
Proof.
  intros Hs E Hes Hsel Hp [Hg Hsig]. apply project_select in Hp as (fs & Hfs & ->); [|done].
  assert (fs = s) as ->; [|by apply projection_equivalent].
  apply signature_nullable; [done|by eapply fields_nullable|]. apply (ready_nullable catalog (LProjection i es s)), Hs.
Qed.

Lemma refilter_equivalent i i' e e' s p' :
  sound (LFilter i e s) → equivalent i i' → simp (plan_schema i) e e' → filter i' e' = Ok p' →
  keeps_schema (LFilter i e s) p' → equivalent (LFilter i e s) p'.
Proof.
  intros Hs E He (_ & ->)%filter_ok [Hg _]. rewrite (eqv_schema _ _ _ _ _ E) in *.
  pose proof (proj1 Hs) as (_ & _ & -> & _)%good_filter. by apply filter_equivalent.
Qed.

Lemma reaggregate_equivalent i i' g g' a a' s p' :
  sound (LAggregate i g a s) → equivalent i i' →
  Forall2 (simp (plan_schema i)) g g' → Forall2 (simp (plan_schema i)) a a' →
  aggregate i' g' a' = Ok p' → keeps_schema (LAggregate i g a s) p' → equivalent (LAggregate i g a s) p'.
Proof.
  intros Hs E Hgs Has Hp [Hg Hsig]. unfold aggregate in Hp. apply bind_ok in Hp as (fs & Hfs & [= <-]).
  assert (fs = s) as ->; [|by apply aggregate_equivalent].
  apply signature_nullable; [done|by eapply fields_nullable|]. apply (ready_nullable catalog (LAggregate i g a s)), Hs.
Qed.

Lemma resort_equivalent i i' es es' s p' :
  sound (LSort i es s) → equivalent i i' → Forall2 (sort_simp (plan_schema i)) es es' →
  sort i' es' = Ok p' → keeps_schema (LSort i es s) p' → equivalent (LSort i es s) p'.
Proof.
  intros Hs E Hes (_ & ->)%sort_ok [Hg _]. rewrite (eqv_schema _ _ _ _ _ E) in *.
  pose proof (proj1 Hs) as (_ & _ & ->)%good_sort. by apply sort_equivalent.
Qed.

Lemma relimit_equivalent i i' k s :
  sound (LLimit i k s) → equivalent i i' → keeps_schema (LLimit i k s) (limit i' k) →
  equivalent (LLimit i k s) (limit i' k).
Proof.
  unfold limit. intros Hs E [Hg _]. rewrite (eqv_schema _ _ _ _ _ E) in *.
  pose proof (proj1 Hs) as (_ & ->)%good_limit. by apply limit_equivalent.
Qed.

Lemma rejoin_equivalent l l' r r' t lo lo' ro ro' s p' :
  sound (LJoin l r t lo ro s) → equivalent l l' → equivalent r r' →
  Forall2 (simp (plan_schema l)) lo lo' → Forall2 (simp (plan_schema r)) ro ro' →
  join l' r' t lo' ro' = Ok p' → keeps_schema (LJoin l r t lo ro s) p' → equivalent (LJoin l r t lo ro s) p'.
Proof.
  intros Hs El Er Hlo Hro (_ & _ & ->)%join_ok [Hg _].
  rewrite (eqv_schema _ _ _ _ _ El), (eqv_schema _ _ _ _ _ Er) in *.
  pose proof (proj1 Hs) as (_ & _ & -> & _)%good_join. by apply join_equivalent.
Qed.

Lemma sort_simp_same s es : Forall2 (sort_simp s) es es.
Proof. induction es; constructor; [by repeat split; left|done]. Qed.

Lemma sort_simp_collect s es es' : collect (simplify_sort s) es = Ok es' → Forall2 (sort_simp s) es es'.
Proof.
  intros Hc%collect_ok. induction Hc as [|x x' es es' Hx _ IH]; constructor; [|done].
  unfold simplify_sort in Hx. apply bind_ok in Hx as (e & He & [= <-]). by repeat split; right.
Qed.

(** ** The passes *)

Lemma sound_input p i : sound p → is_input i p → sound i.
Proof.
  intros [Hg Hr] Hi. destruct p as [|j es s|j e s|j g a s|j es s|j k s|l r t lo ro s]; cbn in Hi; try done; subst;
    destruct Hr as (_ & Hr).
  - apply good_projection in Hg as (Hg & _). by split; [|apply Hr].
  - apply good_filter in Hg as (Hg & _). by split; [|apply Hr].
  - apply good_aggregate in Hg as (Hg & _). by split; [|apply Hr].
  - apply good_sort in Hg as (Hg & _). by split; [|apply Hr].
  - apply good_limit in Hg as (Hg & _). by split.
  - apply good_join in Hg as (Hgl & Hgr & _). destruct Hi as [->| ->]; by split; [|apply Hr].
Qed.

Lemma optimize_children_equivalent rec p p' :
  (∀ i i', is_input i p → sound i → rec i = Ok i' → equivalent i i') →
  sound p → optimize_children rec p = Ok p' → keeps_schema p p' → equivalent p p'.
Proof.
  intros Hrec Hs Hp Hk.
  assert (∀ i i', is_input i p → rec i = Ok i' → equivalent i i') as Hin
    by (intros i i' Hi; apply Hrec; [done|by eapply sound_input]).
  destruct p as [|i es s|i e s|i g a s|i es s|i k s|l r t lo ro s]; cbn [optimize_children] in Hp.
  - injection Hp as <-. by apply equivalent_refl.
  - apply bind_ok in Hp as (i' & Hi' & Hp). eapply project_equivalent; [done|by apply Hin|apply simp_same| |done|done].
    by pose proof (proj1 Hs) as (_ & _ & ? & _)%good_projection.
  - apply bind_ok in Hp as (i' & Hi' & Hp). eapply refilter_equivalent; [done|by apply Hin|by left|done|done].
  - apply bind_ok in Hp as (i' & Hi' & Hp).
    eapply reaggregate_equivalent; [done|by apply Hin|apply simp_same|apply simp_same|done|done].
  - apply bind_ok in Hp as (i' & Hi' & Hp). eapply resort_equivalent; [done|by apply Hin|apply sort_simp_same|done|done].
  - apply bind_ok in Hp as (i' & Hi' & [= <-]). apply relimit_equivalent; [done|by apply Hin|done].
  - apply bind_ok in Hp as (l' & Hl' & Hp). apply bind_ok in Hp as (r' & Hr' & Hp).
    eapply rejoin_equivalent; [done|apply Hin; [by left|done]|apply Hin; [by right|done]|
      apply simp_same|apply simp_same|done|done].
Qed.

Lemma simplify_expressions_equivalent p p' : sound p → simplify_expressions p = Ok p' → equivalent p p'.
Proof.
  intros Hs Hp. pose proof (simplify_expressions_keeps _ _ (proj1 Hs) Hp) as Hk.
  assert (∀ i, is_input i p → equivalent i i) as Hin by (intros i Hi; by eapply equivalent_refl, sound_input).
  destruct p as [tbl pr fs s|i es s|i e s|i g a s|i es s|i k s|l r t lo ro s]; cbn [simplify_expressions] in Hp.
  - apply bind_ok in Hp as (fs' & Hfs & [= <-]). apply scan_equivalent; [done|by apply simp_collect|apply Hk].
  - apply bind_ok in Hp as (es' & Hes & Hp).
    eapply project_equivalent; [done|by apply Hin|by apply simp_collect| |done|done].
    pose proof (proj1 Hs) as (Hi & Hn & Hsel & Hc)%good_projection.
    eapply (collect_simplify select_expr es (plan_schema i)); [|done..].
    intros. eapply select_simplify; try done. by apply plain_plan_native, Hi.
  - apply bind_ok in Hp as (e' & He & Hp). eapply refilter_equivalent; [done|by apply Hin|by right|done|done].
  - apply bind_ok in Hp as (g' & Hg' & Hp). apply bind_ok in Hp as (a' & Ha' & Hp).
    eapply reaggregate_equivalent; [done|by apply Hin|by apply simp_collect|by apply simp_collect|done|done].
  - apply bind_ok in Hp as (es' & Hes & Hp). eapply resort_equivalent; [done|by apply Hin|by apply sort_simp_collect|done|done].
  - injection Hp as <-. apply relimit_equivalent; [done|by apply Hin|done].
  - apply bind_ok in Hp as (lo' & Hlo & Hp). apply bind_ok in Hp as (ro' & Hro & Hp).
    eapply rejoin_equivalent; [done|apply Hin; by left|apply Hin; by right|by apply simp_collect|by apply simp_collect|done|done].
Qed.

Lemma push_filter_equivalent p p' : sound p → push_filter_into_scan p = Ok p' → equivalent p p'.
Proof.
  intros Hs Hp. pose proof (push_filter_into_scan_keeps _ _ (proj1 Hs) Hp) as [Hg' _].
  destruct p as [|i|i e s| | | |]; try (injection Hp as <-; by apply equivalent_refl).
  assert (filter i e = Ok p' → equivalent (LFilter i e s) p') as Hsame.
  { intros Hf. assert (p' = LFilter i e s) as -> by (destruct Hs as [[[_ Hw] _] _]; congruence).
    by apply equivalent_refl. }
  destruct i as [name pr fs u| | | | | |]; cbn [push_filter_into_scan] in Hp; try by apply Hsame.
  injection Hp as <-. clear Hsame.
  pose proof (proj1 Hs) as (Hi & He & -> & _)%good_filter. apply good_scan in Hi as (Hn & Hu & Hpl).
  destruct Hs as [_ (Hnull & (_ & (provider & ix & Ht & Hp & Hsc) & Hr) & Hre)]. cbn [plan_schema] in *.
  apply equivalent_plain; try done.
  - split; [done|]. split; [done|]. split; [by exists provider, ix|]. apply list.Forall_app. by split; [|constructor].
  - intros n. change (run n (LFilter (LScan name pr fs u) e u)) with (execute_filter (run n (LScan name pr fs u)) e).
    rewrite !(run_scan_ok n name provider pr u ix) by done. apply scan_filter_sim; try done.
    + apply Forall_lookup. intros k x Hx. rewrite Forall_lookup in Hpl, Hr. apply plain_ok; eauto. by left.
    + apply plain_ok; [done|done|by left].
Qed.

(** *** Projection pushdown *)

Lemma source_resolves p f i :
  honest p → source_field p f i → find_column (tp_schema p) (f_name f) = Ok i.
Proof.
  intros Hp (g & Hg & Hname & _). pose proof (honest_undotted p Hp) as Hd.
  assert (dotted g = false) as Hdg by by apply (Forall_lookup_1 _ _ _ _ Hd Hg).
  apply (uniform_resolve _ _ _ g); [|done|].
  - split; [|by exists false].
    assert (short_name <$> tp_schema p = f_name <$> tp_schema p) as ->; [|apply Hp].
    apply list_fmap_ext. intros k x Hx. apply undotted_short. by apply (Forall_lookup_1 _ _ _ _ Hd Hx).
  - split; [|by right; right]. by rewrite undotted_short.
Qed.

(** The columns of a narrowed scan. *)
Lemma narrowed_scan_ok p pr s ix jx t :
  honest p → scan_ok p pr s ix → Forall2 (λ j f, s !! j = Some f) jx t →
  ∃ ix', scan_ok p (Some (f_name <$> t)) t ix'.
Proof.
  intros Hp [_ Hs] Hjx.
  assert (∃ ix', Forall2 (source_field p) t ix') as (ix' & Hix').
  { clear -Hs Hjx. induction Hjx as [|j f jx t Hj _ (ix' & IH)]; [by exists []|].
    destruct (Forall2_lookup_l _ _ _ _ _ Hs Hj) as (i & _ & Hi). exists (i :: ix'). by constructor. }
  exists ix'. split; [|done]. apply collect_ok, Forall2_fmap_l. eapply Forall2_impl; [|exact Hix'].
  intros f i Hi. by apply source_resolves.
Qed.

Lemma fields_at_lookup s jx t : fields_at s jx = Ok t → Forall2 (λ j f, s !! j = Some f) jx t.
Proof.
  intros Hc%collect_ok. induction Hc as [|j f jx t Hj _ IH]; constructor; [|done].
  destruct (s !! j); [|done]. by injection Hj as <-.
Qed.

Lemma required_kept es s jx t :
  projection_indices s (required_columns es) = Ok jx → fields_at s jx = Ok t →
  narrows (sorted_names (required_columns es)) s t ∧ ∀ e, e ∈ es → kept t e.
Proof.
  intros Hi Ht.
  assert (∀ n, n ∈ required_columns es → unqualified n = n) as Hun.
  { intros m (e & _ & Hm)%elem_of_required. by eapply columns_unqualified. }
  pose proof (projected_fields_narrows _ _ _ _ Hun Hi Ht) as Hnar. split; [done|].
  intros e He m Hm. destruct Hnar as (-> & _). apply elem_of_list_to_set, sorted_names_elem, elem_of_required. eauto.
Qed.

Lemma narrowed_nullable s jx t : Forall2 (λ j f, s !! j = Some f) jx t → nullable_schema s → nullable_schema t.
Proof.
  intros Hjx Hs. induction Hjx as [|j f jx t Hj _ IH]; constructor; [|done].
  by apply (Forall_lookup_1 _ _ _ _ Hs Hj).
Qed.

Lemma push_projection_equivalent p p' : sound p → push_projection_into_scan p = Ok p' → equivalent p p'.
Proof.
  intros Hs Hp. pose proof (push_projection_into_scan_keeps _ _ (proj1 Hs) Hp) as [Hg' Hsig].
  destruct p as [|i es s0| | | | |]; try (injection Hp as <-; by apply equivalent_refl).
  assert (project i es = Ok p' → equivalent (LProjection i es s0) p') as Hsame.
  { intros Hf. assert (p' = LProjection i es s0) as -> by (destruct Hs as [[[_ Hw] _] _]; congruence).
    by apply equivalent_refl. }
  destruct i as [name pr fs s| | | | | |]; cbn [push_projection_into_scan] in Hp; try by apply Hsame.
  destruct (decide _) as [_|_]; [by apply Hsame|]. clear Hsame.
  apply bind_ok in Hp as (jx & Hjx & Hp). apply bind_ok in Hp as (t & Ht & Hp).
  destruct (required_kept _ _ _ _ Hjx Ht) as [Hnar Hkept]. apply fields_at_lookup in Ht as Hat.
  pose proof (proj1 Hs) as (Hi & Hn0 & Hsel & _)%good_projection. pose proof Hi as (Hn & Hu & Hpl)%good_scan.
  pose proof Hs as [_ (Hnull0 & (Hnull & (provider & ix & Htab & Hhon & Hsc) & Hr) & _ & Hre)]. cbn [plan_schema] in *.
  destruct (narrowed_scan_ok provider pr s ix jx t Hhon Hsc Hat) as (ix' & Hsc').
  apply project_select in Hp as (u & Hfs & ->); [|done]. cbn [plan_schema] in *.
  assert (u = s0) as -> by (apply signature_nullable; [done|by eapply fields_nullable|done]).
  pose proof Hg' as (Hit & _)%good_projection. pose proof Hit as (Hnt & Hut & _)%good_scan.
  assert (∀ e, e ∈ es ++ fs → resolved s e = true → resolved t e = true) as Hres
    by (intros e He Hre'; eapply (resolved_narrowed s t jx); [done..|by apply Hkept]).
  rewrite list.Forall_forall in Hre, Hr, Hpl.
  apply equivalent_plain; try done.
  - split; [done|]. split; [done|]. split; [|split; [done|]].
    + split; [by eapply narrowed_nullable|]. split; [by exists provider, ix'|].
      apply list.Forall_forall. intros e He. apply Hres; [apply elem_of_app; by right|by apply Hr].
    + apply list.Forall_forall. intros e He. apply Hres; [apply elem_of_app; by left|by apply Hre].
  - intros n. change (run n (LProjection ?i es s0)) with (execute_projection (run n i) es s0).
    rewrite (run_scan_ok n name provider pr s ix), (run_scan_ok n name provider _ t ix') by done.
    eapply (narrowed_scan_sim (env n) provider pr _ s t jx ix ix'); try done; apply list.Forall_forall; intros e He.
    + split; [apply plain_ok; [by apply Hpl|by apply Hr|by left]|]. apply Hkept, elem_of_app. by right.
    + split; [by apply Hre|]. apply Hkept, elem_of_app. by left.
Qed.

(** *** Identity projections *)

Lemma sim_identity (Q R : RecordBatch → RecordBatch → Prop) st st' es s :
  sim Q st st' → (∀ b b', Q b b' → refines R (project_batch b es s) (Ok b')) →
  sim R (execute_projection st es s) st'.
Proof.
  intros Hst Hp. induction Hst as [|b b' st st' Hb _ IH|e st st']; cbn; [constructor| |constructor].
  apply (sim_emit R _ (Ok b')); [by apply Hp|done].
Qed.

Lemma evaluate_identity s b es :
  fits s b → identity_projection es s → Forall (λ e, resolved s e = true ∧ no_alias (unalias e) = true) es →
  collect (λ e, evaluate e b) es = Ok (b_columns b).
Proof.
  intros Hb (Hl & Hid & Hd) Hes. apply collect_ok, Forall2_same_length_lookup.
  destruct (fit_ok _ _ Hb) as [_ Hcols]. unfold conforming in Hcols. cbn in Hcols. split; [by rewrite Hl, (Forall2_length Hcols)|].
  intros k e a He Ha. destruct (Forall2_lookup_r _ _ _ _ _ Hcols Ha) as (f & Hf & _).
  destruct (is_identity_inv _ _ (Hid _ _ _ He Hf)) as (n & Hu & _ & Hn).
  rewrite Forall_lookup in Hes. destruct (Hes _ _ He) as [Hr _].
  apply resolved_unalias in Hr. rewrite Hu in Hr. cbn in Hr.
  assert (evaluate e b = evaluate (Column n) b) as -> by (by destruct e as [| | | | |x| |]; cbn in Hu; simplify_eq).
  cbn. destruct (find_column s n) as [j| |] eqn:Ej; try done.
  assert (j = k) as -> by by eapply identity_index.
  rewrite (fit_names _ _ Hb _ _ Ej). cbn. by rewrite Ha.
Qed.

Lemma project_identity s b b' es :
  native_schema s → same s b b' → identity_projection es s →
  Forall (λ e, resolved s e = true ∧ no_alias (unalias e) = true) es →
  refines (same s) (project_batch b es s) (Ok b').
Proof.
  intros Hn [Hc Hr Hl Hrt] Hid Hes. unfold project_batch. rewrite (evaluate_identity s b es) by done. cbn.
  pose proof (law_new_returns s (b_columns b)) as Hnp.
  destruct (try_new s (b_columns b)) as [c| |] eqn:E; [|done|done]. exists b'. split; [done|].
  apply law_new in E as (Hs & Hcols & Hne & Hok).
  assert (b_rows c = b_rows b) as Hrows.
  { destruct (fit_ok _ _ Hl) as [_ Hb]. unfold conforming in Hb. cbn in Hb. destruct (b_columns b) as [|a cols]; [done|].
    inversion Hok as [|? ? ? ? (_ & Hla & _)]; subst. inversion Hb as [|? ? ? ? (_ & Hlb & _)]; subst. congruence. }
  split; [congruence|congruence| |done]. apply fits_own; [done|]. split; [by rewrite Hs|]. unfold conforming. by rewrite Hs, Hcols.
Qed.

Lemma eliminate_identity_equivalent p p' : sound p → eliminate_identity_projection p = Ok p' → equivalent p p'.
Proof.
  intros Hs Hp. pose proof (eliminate_identity_projection_keeps _ _ (proj1 Hs) Hp) as [Hg' Hsig].
  destruct p as [|i es s0| | | | |]; try (injection Hp as <-; by apply equivalent_refl).
  cbn [eliminate_identity_projection] in Hp. destruct (_ && _) eqn:E.
  2:{ assert (p' = LProjection i es s0) as -> by (destruct Hs as [[[_ Hw] _] _]; congruence). by apply equivalent_refl. }
  injection Hp as <-. apply identity_projection_spec in E.
  assert (sound i) as Hi by by eapply sound_input.
  pose proof (proj1 Hs) as (_ & Hn & Hsel & _)%good_projection.
  destruct Hs as [_ (Hnull & _ & Hsort & Hr)]. cbn in Hsig, Hnull.
  assert (plan_schema i = s0) as Hsch
    by (apply signature_nullable; [done|apply (ready_nullable catalog), Hi|done]).
  apply equivalent_plain; try done; [cbn; lia|]. intros n. cbn [plan_schema].
  eapply (sim_identity (same s0)); [rewrite <-Hsch; apply (eqv_run _ _ _ _ _ (equivalent_refl i Hi))|].
  intros b b' Hb. apply project_identity; try done; [by rewrite <-Hsch|].
  rewrite Hsch in Hr. clear -Hr Hsel. induction Hr as [|e es He _ IH]; constructor; inversion Hsel; subst; auto.
  split; [done|]. by match goal with H : select_expr e = true |- _ => apply andb_true_iff in H as [_ (_ & _ & ? & _)%plain_inv] end.
Qed.

Lemma optimize_node_equivalent p p' : sound p → optimize_node p = Ok p' → equivalent p p'.
Proof.
  intros Hs Hp. unfold optimize_node in Hp.
  apply bind_ok in Hp as (p1 & H1 & Hp). apply bind_ok in Hp as (p2 & H2 & Hp). apply bind_ok in Hp as (p3 & H3 & Hp).
  pose proof (simplify_expressions_equivalent _ _ Hs H1) as E1.
  pose proof (push_filter_equivalent _ _ (eqv_sound _ _ _ _ _ E1) H2) as E2.
  pose proof (push_projection_equivalent _ _ (eqv_sound _ _ _ _ _ E2) H3) as E3.
  pose proof (eliminate_identity_equivalent _ _ (eqv_sound _ _ _ _ _ E3) Hp) as E4.
  eauto using equivalent_trans.
Qed.

Lemma optimize_equivalent p p' : sound p → optimize p = Ok p' → equivalent p p'.
Proof.
  revert p'. induction p as [tbl pr fs s|i IH es s|i IH e s|i IH g a s|i IH es s|i IH n s|
    l IHl r IHr t lo ro s]; intros p' Hs Hp;
    match type of Hp with optimize ?q = _ =>
      change (optimize_children optimize q ≫= optimize_node = Ok p') in Hp end;
    apply bind_ok in Hp as (p1 & H1 & Hp);
    (eapply optimize_children_equivalent in H1 as E1;
      [eapply equivalent_trans; [exact E1|apply optimize_node_equivalent; [apply E1|done]]
      |simpl; naive_solver|done
      |eapply optimize_children_keeps; [|apply Hs|exact H1]; intros; by apply optimize_keeps]).
Qed.
End nodes.

(** ** The property *)

(** The values of a batch, whatever its columns are called. *)
Definition same_values (b b' : RecordBatch) : Prop := b_columns b' = b_columns b ∧ b_rows b' = b_rows b.

(** An optimized plan runs like the plan as written. *)
Lemma optimized_same_values
    `{K : Kernels, !KernelLaws K, !KernelsReturn K, B : BatchOps, !BatchLaws B, SO : SortOps, !SortLaws SO,
      FD : FloatDisplay, SD : ScalarDebug, RC : RowConverter, SZ : Sizes} catalog env part l o pl bs :
  wf_plan l → plain_plan l → ready catalog l → optimize l = Ok o →
  create_physical_plan l catalog = Ok pl → execute_plan env part pl = Ok bs →
  ∃ po bs', create_physical_plan o catalog = Ok po ∧ execute_plan env part po = Ok bs' ∧
    Forall2 same_values bs bs'.
Proof.
  intros Hw Hp Hr Ho Hpl Hex. unfold create_physical_plan in *.
  destruct (optimize_equivalent catalog env part l o) as [[_ Hro] _ _ _ Hn Hrun _]; [done..|].
  apply bind_ok in Hpl as ([q id] & Hq & [= <-]). destruct (build_numbered_to catalog l _ _ _ Hq) as [-> Hid].
  destruct (build_plannable catalog o Hro 0%N ltac:(lia)) as (po & Hpo). rewrite Hpo. exists po. cbn.
  destruct (built_plan catalog env part l _ _ _ Hq) as [_ El].
  destruct (built_plan catalog env part o _ _ _ Hpo) as [_ Eo].
  unfold execute_plan in *. rewrite El in Hex. rewrite Eo.
  pose proof (sim_receive _ _ _ (Hrun 0)) as Hs. rewrite Hex in Hs. destruct Hs as (bs' & Hbs' & Hsame).
  exists bs'. split; [done|]. split; [done|]. eapply Forall2_impl; [|exact Hsame]. intros b b' [Hc Hrows _ _]. by split.
Qed.

(** C40: whenever a query as written is planned and returns batches, and [optimize]
    returns a plan for it, that plan is planned too and returns the same number of
    batches with the same values in the same order, under the same schedule of the
    scan tasks and the same memory at every operator: filters pushed into scans,
    scans narrowed to the columns that are used, folded constants and dropped
    projections change no value (names and nullability of the columns may differ).  The
    plan is plain ([plain_plan]: native column types, casts to native types, literals that
    fit, select lists of columns, literals and aliased expressions, aliases at the root of
    an expression only), its columns resolve, no projection is directly over a sort (the
    planner puts the sort above), and its tables are honest ([ready]: nullable columns, no pruning statistics, columns delivered in the
    order asked for; a Parquet table is not, see [FileTablesProps.parquet_column_order]). *)
Theorem optimize_preserves_results
    `{K : Kernels, !KernelLaws K, !KernelsReturn K, B : BatchOps, !BatchLaws B, SO : SortOps, !SortLaws SO,
      FD : FloatDisplay, SD : ScalarDebug, RC : RowConverter, SZ : Sizes} catalog env part l o pl bs :
  wf_plan l → plain_plan l → ready catalog l → optimize l = Ok o →
  create_physical_plan l catalog = Ok pl → execute_plan env part pl = Ok bs →
  ∃ po bs', create_physical_plan o catalog = Ok po ∧ execute_plan env part po = Ok bs' ∧
    Forall2 same_values bs bs'.
Proof. apply optimized_same_values. Qed.

(** ** A worked query *)

(** [SELECT t.a, t.b AND TRUE AS ok FROM t WHERE t.a > 1 + 2 ORDER BY ok, a DESC LIMIT 2]
    over a table of two partitions. *)
Definition people_schema : Schema :=
  [MkField "a" DtInt64 true; MkField "b" DtBoolean true; MkField "c" DtUtf8 true].
Definition people_batch (a : list (option cell)) (b : list (option cell)) (c : list (option cell)) : RecordBatch :=
  MkRecordBatch people_schema [MkArray DtInt64 a; MkArray DtBoolean b; MkArray DtUtf8 c] (length a).
Definition people : MemoryTable :=
  MkMemoryTable people_schema
    [[people_batch [Some (IntCell 5); None; Some (IntCell 40)]
        [Some (BoolCell true); Some (BoolCell false); None] [Some (StrCell "x"); None; Some (StrCell "y")]];
     [people_batch [Some (IntCell 7); Some (IntCell 2)] [Some (BoolCell true); Some (BoolCell true)] [None; None]]]
    0.
Definition people_catalog : Catalog := register Catalog_default "t" (memory_provider people).

#[local] Instance no_float_text : FloatDisplay := λ _, "0.0".
#[local] Instance no_debug_text : ScalarDebug := λ _, "value".

Definition sorted_query : result LogicalPlan :=
  p ← demo_plan;
  p ← sort p [MkSortExpr (Column "ok") true false; MkSortExpr (Column "a") false true];
  Ok (limit p 2).
Definition sorted_plan : LogicalPlan :=
  Eval cbv in match sorted_query with Ok l => l | _ => LScan "t" None [] [] end.
Definition sorted_optimized : LogicalPlan :=
  let s := plan_schema demo_optimized in
  LLimit (LSort demo_optimized [MkSortExpr (Column "ok") true false; MkSortExpr (Column "a") false true] s) 2 s.
Definition demo_env (_ : nat) : Site := MkSite [1; 0; 1] (λ _, false) (MkTaskMemory 1000 0).

Lemma people_honest : honest (memory_provider people).
Proof.
  apply memory_provider_honest.
  - by repeat constructor.
  - by repeat constructor.
  - by repeat constructor.
  - by apply (bool_decide_unpack _).
  - repeat constructor; cbn; repeat constructor; cbn; intros x Hx; by simplify_eq.
Qed.

Lemma optimize_preserves_results_witness :
  sorted_query = Ok sorted_plan ∧ optimize sorted_plan = Ok sorted_optimized ∧
    ∃ po bs', create_physical_plan sorted_optimized people_catalog = Ok po ∧
      execute_plan demo_env None po = Ok bs' ∧
      Forall2 same_values
        [MkRecordBatch (plan_schema demo_optimized)
           [MkArray DtInt64 [Some (IntCell 7); Some (IntCell 5)];
            MkArray DtBoolean [Some (BoolCell true); Some (BoolCell true)]] 2] bs'.
Proof.
  split; [reflexivity|]. split; [vm_compute; reflexivity|].
  eapply (optimize_preserves_results people_catalog demo_env None sorted_plan sorted_optimized).
  - split; [|reflexivity]. split; [|reflexivity]. split; [split; [constructor|reflexivity]|reflexivity].
  - repeat split; try (by repeat constructor);
      [by apply (bool_decide_unpack _)|exists true; by repeat constructor].
  - repeat split; try (by repeat constructor).
    exists (memory_provider people), [0; 1; 2]. split; [reflexivity|]. split; [apply people_honest|].
    split; [reflexivity|]. repeat constructor; eexists; by repeat split.
  - vm_compute. reflexivity.
  - reflexivity.
  - vm_compute. reflexivity.
Defined.
