(* ===== verification/Pruning.v ===== *)
(** * Row-group pruning ([src/storage/pruning.rs])

    Which row groups of a Parquet file a scan may skip, from the statistics the
    file keeps for them. *)
From S2P Require Import Prelude Text Float Expr.

(** ** Parquet statistics *)

(** The minimum and maximum by physical type; floats are bit patterns. *)
Inductive StatisticValues :=
| StBoolean (min max : option bool)
| StInt32 (min max : option Z)
| StInt64 (min max : option Z)
| StInt96
| StFloat (min max : option N)
| StDouble (min max : option N)
| StByteArray (min max : option string)
| StFixedLenByteArray.

Record Statistics := MkStatistics {
  st_values : StatisticValues;
  st_null_count : option N;
  st_min_max_deprecated : bool;
  st_min_max_backwards_compatible : bool;
  st_min_is_exact : bool;
  st_max_is_exact : bool;
}.

(** [num_rows] is an [i64]; one entry per leaf column. *)
Record RowGroupMetaData := MkRowGroup { num_rows : Z; group_columns : list (option Statistics) }.

(** [std::str::from_utf8] *)
Class Utf8Check := valid_utf8 : string → bool.

Section pruning.
Context `{Utf8Check}.

Definition as_utf8 (bytes : string) : option string := if valid_utf8 bytes then Some bytes else None.

Definition statistic_min (st : Statistics) (t : DataType) : option ScalarValue :=
  match st_values st, t with
  | StBoolean min _, DtBoolean => Boolean <$> min
  | StInt32 min _, DtInt32 => Int64 <$> min
  | StInt64 min _, DtInt64 => Int64 <$> min
  | StFloat min _, DtFloat32 => (λ b, Float64 (f32_to_f64 b)) <$> min
  | StDouble min _, DtFloat64 => Float64 <$> min
  | StByteArray min _, DtUtf8 => Utf8 <$> (min ≫= as_utf8)
  | _, _ => None
  end.

Definition statistic_max (st : Statistics) (t : DataType) : option ScalarValue :=
  match st_values st, t with
  | StBoolean _ max, DtBoolean => Boolean <$> max
  | StInt32 _ max, DtInt32 => Int64 <$> max
  | StInt64 _ max, DtInt64 => Int64 <$> max
  | StFloat _ max, DtFloat32 => (λ b, Float64 (f32_to_f64 b)) <$> max
  | StDouble _ max, DtFloat64 => Float64 <$> max
  | StByteArray _ max, DtUtf8 => Utf8 <$> (max ≫= as_utf8)
  | _, _ => None
  end.

Definition reverse_comparison (op : Operator) : Operator :=
  match op with
  | OpLt => OpGt | OpLtEq => OpGtEq | OpGt => OpLt | OpGtEq => OpLtEq | other => other
  end.

Section row_group.
Context (schema : Schema) (parquet_columns : list (option nat)) (row_group : RowGroupMetaData).

(** [a.eq_ignore_ascii_case(b)] *)
Definition eq_ignore_ascii_case (a b : string) : bool :=
  bool_decide (to_ascii_lowercase a = to_ascii_lowercase b).

(** [row_group.column(i)] is in range for the indices of the file's own columns. *)
Definition column_statistics (name : string) : option (nat * Field * Statistics) :=
  '(index, f) ← find_first (λ x : nat * Field, eq_ignore_ascii_case (f_name x.2) (unqualified name))
                  (enumerate schema);
  parquet_index ← mjoin (parquet_columns !! index);
  st ← mjoin (group_columns row_group !! parquet_index);
  Some (index, f, st).

(** The bounds that may be used: exact, and in the order of the column. *)
Definition usable_min (st : Statistics) (t : DataType) : option ScalarValue :=
  if (negb (st_min_max_deprecated st) || st_min_max_backwards_compatible st) && st_min_is_exact st
  then statistic_min st t else None.
Definition usable_max (st : Statistics) (t : DataType) : option ScalarValue :=
  if (negb (st_min_max_deprecated st) || st_min_max_backwards_compatible st) && st_max_is_exact st
  then statistic_max st t else None.

Definition is_float (t : DataType) : bool :=
  match t with DtFloat32 | DtFloat64 => true | _ => false end.

(** [option.is_none_or(p)] and [option.is_some_and(p)] *)
Definition is_none_or {A} (p : A → bool) (o : option A) : bool :=
  match o with None => true | Some x => p x end.
Definition is_some_and {A} (p : A → bool) (o : option A) : bool :=
  match o with None => false | Some x => p x end.

Definition compares (o : option comparison) (accepted : list comparison) : bool :=
  match o with
  | Some c => existsb (λ d, match c, d with Lt, Lt | Eq, Eq | Gt, Gt => true | _, _ => false end)
                accepted
  | None => false
  end.

(** The test against the bounds of a column. *)
Definition bounds_may_match (op : Operator) (literal : ScalarValue) (t : DataType)
    (min max : option ScalarValue) : bool :=
  match op with
  | OpEq =>
      is_none_or (λ min, negb (compares (partial_compare literal min) [Lt])) min
      && is_none_or (λ max, negb (compares (partial_compare literal max) [Gt])) max
  | OpNotEq =>
      if is_float t then true
      else negb (is_some_and (λ min, bool_decide (min = literal)) min
                 && is_some_and (λ max, bool_decide (max = literal)) max)
  | OpLt => negb (is_some_and (λ min, compares (partial_compare min literal) [Eq; Gt]) min)
  | OpLtEq => is_none_or (λ min, negb (compares (partial_compare min literal) [Gt])) min
  | OpGt => negb (is_some_and (λ max, compares (partial_compare max literal) [Eq; Lt]) max)
  | OpGtEq => is_none_or (λ max, negb (compares (partial_compare max literal) [Lt])) max
  | _ => true
  end.

Definition column_literal_may_match (name : string) (op : Operator) (literal : ScalarValue) : bool :=
  if decide (literal = Null) then false
  else match column_statistics name with
  | None => true
  | Some (_, f, st) =>
      bounds_may_match op literal (f_type f) (usable_min st (f_type f)) (usable_max st (f_type f))
  end.

Definition comparison_may_match (l : Expr) (op : Operator) (r : Expr) : bool :=
  match unalias l, unalias r with
  | Column name, Literal value => column_literal_may_match name op value
  | Literal value, Column name => column_literal_may_match name (reverse_comparison op) value
  | _, _ => true
  end.

Definition is_null_may_match (e : Expr) (negated : bool) : bool :=
  match unalias e with
  | Column name =>
      match column_statistics name with
      | None => true
      | Some (_, f, st) =>
          if negb (f_nullable f) then negated
          else match st_null_count st with
          | Some nulls =>
              if negated then (nulls <? Z.to_N (Z.max (num_rows row_group) 0))%N
              else (0 <? nulls)%N
          | None => true
          end
      end
  | _ => true
  end.

(** [expression.unalias()] at every level. *)
Fixpoint expression_may_match (e : Expr) : bool :=
  match e with
  | Alias (Literal (Boolean value)) _ | Literal (Boolean value) => value
  | Alias (Literal Null) _ | Literal Null => false
  | Alias (Binary l op r) _ | Binary l op r =>
      match op with
      | OpAnd => expression_may_match l && expression_may_match r
      | OpOr => expression_may_match l || expression_may_match r
      | OpEq | OpNotEq | OpLt | OpLtEq | OpGt | OpGtEq => comparison_may_match l op r
      | _ => true
      end
  | Alias (IsNull e negated) _ | IsNull e negated => is_null_may_match e negated
  | _ => true
  end.

Definition row_group_may_match (filters : list Expr) : bool := forallb expression_may_match filters.
End row_group.
End pruning.
