(* ===== verification/PruningProps.v ===== *)
(** * Pruning never skips a matching row

    If the statistics of a row group rule a filter out, then the filter is true on
    no row of the group: for columns of any type, for files whose column names differ by
    more than case, and for filters without floating-point literals. *)
From S2P Require Import Prelude Text Float Expr ExprProps SchemaProps OperatorProps ScanProps Pruning.

(** ** Elements as scalars *)

Definition scalar_of (t : DataType) (c : cell) : ScalarValue :=
  match t, c with
  | DtBoolean, BoolCell b => Boolean b
  | (DtInt32 | DtInt64), IntCell z => Int64 z
  | (DtUInt32 | DtUInt64), IntCell z => UInt64 (Z.to_N z)
  | DtFloat32, FloatCell bits => Float64 (f32_to_f64 bits)
  | DtFloat64, FloatCell bits => Float64 bits
  | DtUtf8, StrCell s => Utf8 s
  | _, _ => Null
  end.

(** The outcome of a comparison of two values. *)
Definition cmp_scalar (op : Operator) (a b : ScalarValue) : bool :=
  match op with
  | OpEq => compares (partial_compare a b) [Eq]
  | OpNotEq => compares (partial_compare a b) [Lt; Gt]
  | OpLt => compares (partial_compare a b) [Lt]
  | OpLtEq => compares (partial_compare a b) [Lt; Eq]
  | OpGt => compares (partial_compare a b) [Gt]
  | OpGtEq => compares (partial_compare a b) [Gt; Eq]
  | _ => false
  end.

(** Arrow's comparison kernels follow the order of the values, except on floats,
    which they compare by the total order; 32-bit integers are widened exactly; the
    connectives are true only when their operands make them so. *)
Class CompareLaws (K : Kernels) := {
  law_cmp op t x y :
    native t = true → is_float t = false → cell_typed t x = true → cell_typed t y = true →
    is_comparison op = true → cmp_cell op t x y = cmp_scalar op (scalar_of t x) (scalar_of t y);
  law_widen_i32 c : cell_typed DtInt32 c = true → cast_cell DtInt32 DtInt64 c = Some c;
  law_and_true x y : and_kleene x y = Some true → x = Some true ∧ y = Some true;
  law_or_true x y : or_kleene x y = Some true → x = Some true ∨ y = Some true;
}.

Lemma compares_In o l : compares o l = true ↔ ∃ c, o = Some c ∧ c ∈ l.
Proof.
  destruct o as [c|]; simpl; [|naive_solver]. rewrite existsb_exists. split.
  - intros (d & Hd%list_elem_of_In & E). exists d. split; [by destruct c, d|done].
  - intros (d & [= <-] & Hd%list_elem_of_In). exists c. split; [done|by destruct c].
Qed.

Lemma cmp_scalar_reverse op a b : is_comparison op = true → cmp_scalar op a b = cmp_scalar (reverse_comparison op) b a.
Proof.
  intros Hop. pose proof (partial_compare_flip a b) as E.
  destruct op; try done; simpl; rewrite E; destruct (partial_compare a b) as [[]|]; done.
Qed.

(** A value between the bounds fails a comparison that the bounds rule out. *)
Lemma bounds_sound op literal t min max x :
  is_comparison op = true → (∀ y, literal ≠ Float64 y) →
  (∀ m, min = Some m → scalar_le m x) → (∀ m, max = Some m → scalar_le x m) →
  bounds_may_match op literal t min max = false → cmp_scalar op x literal = false.
Proof.
  intros Hop Hnf Hmin Hmax Hb. apply not_true_is_false. intros Hc.
  assert (∀ m c, min = Some m → partial_compare m literal = Some c → c ≠ Lt → scalar_le literal x) as Lmin.
  { intros m c Hm Hml Hc'. apply (scalar_le_trans _ m); [|by apply Hmin].
    unfold scalar_le. rewrite (partial_compare_flip m literal), Hml. destruct c; naive_solver. }
  assert (∀ m c, max = Some m → partial_compare m literal = Some c → c ≠ Gt → scalar_le x literal) as Lmax.
  { intros m c Hm Hml Hc'. apply (scalar_le_trans _ m); [by apply Hmax|].
    unfold scalar_le. rewrite Hml. destruct c; naive_solver. }
  pose proof (partial_compare_flip x literal) as Hflip.
  destruct op; try done; simpl in Hb, Hc.
  - apply compares_In in Hc as (c & Hxl & ->%list_elem_of_singleton). apply andb_false_iff in Hb as [Hb|Hb].
    + destruct min as [m|]; [|done]. simpl in Hb. apply negb_false_iff, compares_In in Hb as (c & Hc & ->%list_elem_of_singleton).
      assert (scalar_le m literal) as Hml by (apply (scalar_le_trans _ x); [by apply Hmin|by right]).
      by apply (scalar_le_false m literal).
    + destruct max as [m|]; [|done]. simpl in Hb. apply negb_false_iff, compares_In in Hb as (c & Hc & ->%list_elem_of_singleton).
      assert (scalar_le literal m) as Hml
        by (apply (scalar_le_trans _ x); [right; by rewrite Hflip, Hxl|by apply Hmax]).
      rewrite (partial_compare_flip m literal) in Hc. apply (scalar_le_false literal m) in Hml.
      by destruct (partial_compare m literal) as [[]|].
  - destruct (is_float t); [done|]. apply negb_false_iff, andb_true_iff in Hb as [Hb1 Hb2].
    destruct min as [m|], max as [m'|]; try done. simpl in Hb1, Hb2. bool_to_prop. subst.
    specialize (Hmin _ eq_refl). specialize (Hmax _ eq_refl).
    apply compares_In in Hc as (c & Hxl & Hc). unfold scalar_le in *. rewrite Hflip, Hxl in Hmin.
    rewrite Hxl in Hmax. destruct c; simpl in *; set_solver.
  - apply negb_false_iff in Hb. destruct min as [m|]; [|done]. simpl in Hb.
    apply compares_In in Hb as (c & Hml & Hc1). apply compares_In in Hc as (d & Hxl & ->%list_elem_of_singleton).
    by apply (scalar_le_false literal x); [apply (Lmin m c); [done|done|set_solver]|].
  - destruct min as [m|]; [|done]. simpl in Hb. apply negb_false_iff, compares_In in Hb as (c & Hml & ->%list_elem_of_singleton).
    assert (scalar_le x literal) as Hle
      by (apply compares_In in Hc as (d & Hxl & Hd); unfold scalar_le; rewrite Hxl; set_solver).
    assert (scalar_le m literal) as [?|?] by (apply (scalar_le_trans _ x); [by apply Hmin|done]); congruence.
  - apply negb_false_iff in Hb. destruct max as [m|]; [|done]. simpl in Hb.
    apply compares_In in Hb as (c & Hml & Hc1). apply compares_In in Hc as (d & Hxl & ->%list_elem_of_singleton).
    assert (scalar_le x literal) as [?|?] by (apply (Lmax m c); [done|done|set_solver]); congruence.
  - destruct max as [m|]; [|done]. simpl in Hb. apply negb_false_iff, compares_In in Hb as (c & Hml & ->%list_elem_of_singleton).
    assert (scalar_le literal x) as Hle.
    { apply compares_In in Hc as (d & Hxl & Hd). unfold scalar_le. rewrite Hflip, Hxl. set_solver. }
    assert (scalar_le literal m) as Hlm by (apply (scalar_le_trans _ x); [done|by apply Hmax]).
    by apply (scalar_le_false literal m) in Hlm.
Qed.

(** ** Columns *)

(** The schema of a file: plain names that differ by more than case. *)
Definition file_schema (s : Schema) : Prop :=
  Forall (λ f, dotted f = false) s ∧ NoDup ((λ f, to_ascii_lowercase (f_name f)) <$> s).

Section soundness.
Context `{Utf8Check, K : Kernels, !KernelLaws K, !CompareLaws K}.
Context (schema : Schema) (parquet_columns : list (option nat)) (row_group : RowGroupMetaData).

Lemma column_statistics_field n i f st :
  column_statistics schema parquet_columns row_group n = Some (i, f, st) →
  schema !! i = Some f ∧ to_ascii_lowercase (f_name f) = to_ascii_lowercase (unqualified n).
Proof.
  unfold column_statistics. intros Hc. apply bind_Some in Hc as ([k g] & Hk & Hc). cbn in Hc.
  apply bind_Some in Hc as (j & _ & Hc). apply bind_Some in Hc as (st' & _ & [= <- <- <-]).
  unfold find_first in Hk. apply find_map_Some in Hk as ([k' g'] & Hin & Hx).
  destruct (eq_ignore_ascii_case _ _) eqn:E; [|done]. injection Hx as <- <-. simpl in E.
  split; [by apply elem_of_enumerate|]. unfold eq_ignore_ascii_case in E. by bool_to_prop.
Qed.

(** Statistics are read for the column the expression reads. *)
Lemma column_statistics_resolve n i f st j :
  file_schema schema → column_statistics schema parquet_columns row_group n = Some (i, f, st) →
  find_column schema n = Ok j → i = j.
Proof.
  intros [Hd Hnd] (Hi & Hl)%column_statistics_field Hj.
  apply resolve_field_refers in Hj as (g & Hg & Hs & _).
  assert (short_name g = f_name g) as Hsg.
  { apply after_last_id. rewrite Forall_lookup in Hd. by apply (Hd j g). }
  eapply NoDup_lookup; [exact Hnd|rewrite list_lookup_fmap, Hi; done|].
  rewrite list_lookup_fmap, Hg. simpl. f_equal. rewrite Hl. by rewrite <-Hs, Hsg.
Qed.

(** The bounds of a column, unless it is of floats (whose NaNs they leave out), and its
    null count hold of its elements. *)
Definition described_cells (f : Field) (st : Statistics) (a : array) : Prop :=
  (is_float (f_type f) = false → ∀ r c m, a_cells a !! r = Some (Some c) → usable_min st (f_type f) = Some m →
     scalar_le m (scalar_of (a_type a) c)) ∧
  (is_float (f_type f) = false → ∀ r c m, a_cells a !! r = Some (Some c) → usable_max st (f_type f) = Some m →
     scalar_le (scalar_of (a_type a) c) m) ∧
  (f_nullable f = false ∨ st_null_count st = Some 0%N → ∀ r, a_cells a !! r ≠ Some None) ∧
  (∀ nulls, st_null_count st = Some nulls → (Z.to_N (Z.max (num_rows row_group) 0) ≤ nulls)%N →
     ∀ r c, a_cells a !! r = Some c → c = None).

(** The statistics describe the rows of a batch of the row group. *)
Definition describes (b : RecordBatch) : Prop :=
  ∀ n i f st a, column_statistics schema parquet_columns row_group n = Some (i, f, st) →
    b_columns b !! i = Some a → described_cells f st a.

(** The type of the bounds of a column. *)
Definition bound_type (t : DataType) : DataType :=
  match t with DtInt32 => DtInt64 | DtFloat32 => DtFloat64 | t => t end.

Lemma usable_min_type st t m : usable_min st t = Some m → scalar_type m = bound_type t ∧ m ≠ Null.
Proof.
  unfold usable_min. destruct (_ && _); [|done]. unfold statistic_min.
  destruct (st_values st), t; try done; intros Hm; apply fmap_Some in Hm as (x & _ & ->); done.
Qed.

Lemma usable_max_type st t m : usable_max st t = Some m → scalar_type m = bound_type t ∧ m ≠ Null.
Proof.
  unfold usable_max. destruct (_ && _); [|done]. unfold statistic_max.
  destruct (st_values st), t; try done; intros Hm; apply fmap_Some in Hm as (x & _ & ->); done.
Qed.

Lemma partial_compare_types a b :
  a ≠ Null → b ≠ Null → scalar_type a ≠ scalar_type b → partial_compare a b = None.
Proof. by destruct a, b. Qed.

(** Bounds of another type than the literal rule nothing out. *)
Lemma bounds_type op literal t u min max :
  literal ≠ Null → (∀ m, min = Some m → scalar_type m = u ∧ m ≠ Null) →
  (∀ m, max = Some m → scalar_type m = u ∧ m ≠ Null) →
  bounds_may_match op literal t min max = false → scalar_type literal = u.
Proof.
  intros Hl Hmin Hmax Hb. destruct (decide (scalar_type literal = u)) as [|Hne]; [done|exfalso].
  assert (∀ o, (∀ m, o = Some m → scalar_type m = u ∧ m ≠ Null) → ∀ m, o = Some m →
    partial_compare m literal = None ∧ partial_compare literal m = None ∧ bool_decide (m = literal) = false) as Hno.
  { intros o Ho m Hm. destruct (Ho m Hm) as [Ht Hn].
    split_and!; [apply partial_compare_types; congruence..|apply bool_decide_eq_false_2; congruence]. }
  specialize (Hno min Hmin) as N1. specialize (Hno max Hmax) as N2.
  destruct op; try done; simpl in Hb; destruct min as [m1|]; destruct max as [m2|]; simpl in Hb;
    try destruct (N1 _ eq_refl) as (E1 & E2 & E3); try destruct (N2 _ eq_refl) as (E4 & E5 & E6);
    rewrite ?E1, ?E2, ?E3, ?E4, ?E5, ?E6 in Hb; simpl in Hb; try done; by destruct (is_float t).
Qed.

(** ** Masks *)

Definition selects (mask : array) (r : nat) : Prop := a_cells mask !! r = Some (Some (BoolCell true)).

Lemma comparison_mask op rows l r mask i :
  is_comparison op = true → array_ok rows l → array_ok rows r → a_type l = a_type r →
  native (a_type l) = true → is_float (a_type l) = false →
  evaluate_binary op rows l r = Ok mask → selects mask i →
  ∃ x y, a_cells l !! i = Some (Some x) ∧ a_cells r !! i = Some (Some y) ∧
    cmp_scalar op (scalar_of (a_type l) x) (scalar_of (a_type l) y) = true.
Proof.
  intros Hop [_ Tl] [_ Tr] Ht Hn Hf Hm Hs. unfold evaluate_binary in Hm.
  rewrite decide_False in Hm by (intros [E _]; by rewrite E in Hn). rewrite decide_True in Hm by done.
  unfold apply_kernel in Hm. assert (is_logical op = false) as E by by destruct op. rewrite E, Hop in Hm.
  destruct (negb _); [done|]. apply bind_ok in Hm as (cells & Hz & [= <-]). unfold selects in Hs. simpl in Hs.
  apply zip_cells_ok in Hz as (_ & _ & Hz). destruct (Hz _ _ Hs) as (x & y & Hx & Hy & Hxy).
  destruct x as [x|], y as [y|]; try done. destruct Hxy as (z & [= <-] & [= Hc]).
  exists x, y. split_and!; [done..|]. rewrite <-law_cmp; try done.
  - rewrite Forall_lookup in Tl. by apply (Tl i (Some x)).
  - rewrite Forall_lookup in Tr. rewrite Ht. by apply (Tr i (Some y)).
Qed.

Lemma scalar_of_literal v c : scalar_cell v = Some c → scalar_of (scalar_type v) c = v.
Proof. destruct v; simpl; intros [= <-]; try done. simpl. by rewrite N2Z.id. Qed.

(** A 32-bit operand is widened for a comparison with a 64-bit one. *)
Definition widened_array (a : array) : array := MkArray DtInt64 (a_cells a).

Lemma cast_widened rows a a' : array_ok rows a → a_type a = DtInt32 → cast_array K a DtInt64 = Ok a' → a' = widened_array a.
Proof.
  intros [_ Hty] Ht [Ha Hc]%cast_array_inv. apply array_eta; [done|]. rewrite Hc, Ht in *. clear Hc Ha.
  induction Hty as [|c cells Hc _ IH]; [done|]. rewrite fmap_cons, IH. f_equal. destruct c as [c|]; [|done]. by apply law_widen_i32, Hc.
Qed.

Lemma cast_unchanged rows a a' : array_ok rows a → a_type a = DtInt64 → cast_array K a DtInt64 = Ok a' → a' = a.
Proof.
  intros Ha Ht Hc. pose proof (cast_array_same rows a DtInt64 a' Ha eq_refl Ht Hc) as Hcells. apply cast_array_inv in Hc as [Ht' _].
  destruct a, a'. simpl in *. congruence.
Qed.

Lemma widened_ok rows a : array_ok rows a → a_type a = DtInt32 → array_ok rows (widened_array a).
Proof.
  intros [Hl Hty] Ht. split; [done|]. eapply list.Forall_impl; [exact Hty|]. intros c Hc x ->. specialize (Hc x eq_refl).
  rewrite Ht in Hc. destruct x; try done. simpl in *. lia.
Qed.

Lemma evaluate_binary_widened op rows l r mask (flipped : bool) :
  is_comparison op = true → array_ok rows l → array_ok rows r → a_type l = DtInt32 → a_type r = DtInt64 →
  (if flipped then evaluate_binary op rows r l else evaluate_binary op rows l r) = Ok mask →
  (if flipped then evaluate_binary op rows r (widened_array l) else evaluate_binary op rows (widened_array l) r) = Ok mask.
Proof.
  intros Hop Ol Or Tl Tr. assert (is_arithmetic op = false) as Ea by by destruct op.
  unfold evaluate_binary, coercion_target. cbn [a_type widened_array]. rewrite Tl, Tr, Ea.
  destruct flipped; simpl; intros Hm.
  - apply bind_ok in Hm as (x & Hx & Hm). apply bind_ok in Hm as (y & Hy & Hm).
    by rewrite (cast_unchanged _ _ _ Or Tr Hx), (cast_widened _ _ _ Ol Tl Hy) in Hm.
  - apply bind_ok in Hm as (x & Hx & Hm). apply bind_ok in Hm as (y & Hy & Hm).
    by rewrite (cast_widened _ _ _ Ol Tl Hx), (cast_unchanged _ _ _ Or Tr Hy) in Hm.
Qed.

(** The statistics describe what the names of the columns evaluate to. *)
Definition described_columns (b : RecordBatch) : Prop :=
  ∀ n i f st a, column_statistics schema parquet_columns row_group n = Some (i, f, st) → evaluate (Column n) b = Ok a →
    a_type a = f_type f ∧ described_cells f st a.

(** A batch of the file, or some of its columns. *)
Lemma projected_described b jx :
  file_schema schema → b_schema b = schema → conforming b → Forall (λ i, i < length schema) jx →
  describes b → described_columns (projected b jx).
Proof.
  intros Hfs Hs Hb Hjx Hd n i f st a Hst Ha. cbn [evaluate] in Ha. apply bind_ok in Ha as (k & Hk & Ha).
  cbn [projected b_schema b_columns] in Hk, Ha.
  destruct (omap (λ i, b_columns b !! i) jx !! k) as [a'|] eqn:Ea; [|done]. injection Ha as ->.
  unfold conforming in Hb. rewrite Hs in Hb, Hk. pose proof (Forall2_length Hb) as Hlen.
  pose proof (omap_lookup_Forall2 schema jx Hjx) as Hfields. rewrite Hlen in Hjx.
  pose proof (omap_lookup_Forall2 (b_columns b) jx Hjx) as Hcols.
  destruct (Forall2_lookup_r _ _ _ _ _ Hcols Ea) as (j & Hj & Haj).
  apply resolve_field_refers in Hk as (g & Hg & Hshort & _). pose proof (Forall2_lookup_lr _ _ _ _ _ _ Hfields Hj Hg) as Hjg.
  destruct Hfs as [Hdot Hnd]. apply column_statistics_field in Hst as Hfield. destruct Hfield as [Hi Hl].
  assert (short_name g = f_name g) as Hsg by (apply after_last_id; rewrite Forall_lookup in Hdot; by apply (Hdot j g)).
  assert (i = j) as ->.
  { eapply NoDup_lookup; [exact Hnd|rewrite list_lookup_fmap, Hi; done|]. rewrite list_lookup_fmap, Hjg. simpl. f_equal.
    rewrite Hl. by rewrite <-Hshort, Hsg. }
  split; [|by apply (Hd n j f st)]. cbn in Hjg. rewrite Hi in Hjg. injection Hjg as ->.
  destruct (Forall2_lookup_lr _ _ _ _ _ _ Hb Hi Haj) as [? _]. done.
Qed.

(** A comparison of a column with a literal, seen from the column. *)
Lemma column_literal_sound n op v b a :
  described_columns b → is_comparison op = true → (∀ bits, v ≠ Float64 bits) →
  evaluate (Column n) b = Ok a →
  column_literal_may_match schema parquet_columns row_group n op v = false → v ≠ Null →
  (a_type a = scalar_type v ∨ a_type a = DtInt32 ∧ scalar_type v = DtInt64) ∧
  ∀ i x, a_cells a !! i = Some (Some x) → cmp_scalar op (scalar_of (a_type a) x) v = false.
Proof.
  intros Hd Hop Hnf He Hm Hv. unfold column_literal_may_match in Hm.
  rewrite decide_False in Hm by done.
  destruct (column_statistics _ _ _ n) as [[[k f] st]|] eqn:Est; [|done].
  destruct (Hd _ _ _ _ _ Est He) as (Ht & Hmin & Hmax & _).
  assert (scalar_type v = bound_type (f_type f)) as Hb.
  { eapply bounds_type; [done| | |exact Hm]; intros m Hm'; [by eapply usable_min_type|by eapply usable_max_type]. }
  assert (is_float (f_type f) = false) as Hfl by (destruct (f_type f); try done; destruct v; try done; by destruct (Hnf bits)).
  specialize (Hmin Hfl). specialize (Hmax Hfl). split.
  - rewrite Ht. destruct (f_type f); try (by left); by right.
  - intros i x Hx. eapply bounds_sound; [done|done|..|exact Hm]; intros m Hm'; [by eapply Hmin|by eapply Hmax].
Qed.

Lemma selects_as_bool (cells : list (option cell)) i x : cells !! i = Some x → as_bool x = Some true → cells !! i = Some (Some (BoolCell true)).
Proof. intros ->. by destruct x as [[[]| | | |]|]. Qed.

Lemma connective_selects op rows l r mask i :
  array_ok rows l → array_ok rows r → is_logical op = true → evaluate_binary op rows l r = Ok mask → selects mask i →
  if decide (op = OpAnd) then selects l i ∧ selects r i else selects l i ∨ selects r i.
Proof.
  intros Ol Or Hop Hm Hs.
  assert (binary_type op (a_type l) (a_type r) = Ok (a_type mask)) as Hbt
    by (eapply evaluate_binary_type; [|exact Hm]; by destruct op).
  unfold binary_type in Hbt. rewrite Hop in Hbt.
  destruct (is_boolean_or_null (a_type l) && is_boolean_or_null (a_type r)) eqn:Ebn; [|done].
  apply andb_true_iff in Ebn as [El Er].
  destruct (decide (a_type l = DtNull ∧ a_type r = DtNull)) as [Hnn|Hnn].
  { unfold evaluate_binary in Hm. rewrite decide_True in Hm by done.
    assert (is_arithmetic op = false) as Ea by by destruct op. rewrite Ea in Hm. injection Hm as <-.
    by apply lookup_replicate_1 in Hs as [? _]. }
  destruct (evaluate_connective op rows l r mask Ol Or Hop) as (xs & ys & Hz & _ & Cx & Cy);
    [destruct (a_type l), (a_type r); naive_solver|done|].
  apply zip_bools_ok in Hz as (_ & _ & Hz). destruct (Hz _ _ Hs) as (x & y & Hx & Hy & Hxy).
  symmetry in Hxy. apply fmap_Some in Hxy as (v & Hk & [= <-]).
  assert (as_bool x = Some true → selects l i) as Sl.
  { intros Ex. destruct Cx as [[_ ->]|[_ Hn]]; [by eapply selects_as_bool|].
    specialize (Hn _ _ Hx) as ->. done. }
  assert (as_bool y = Some true → selects r i) as Sr.
  { intros Ey. destruct Cy as [[_ ->]|[_ Hn]]; [by eapply selects_as_bool|].
    specialize (Hn _ _ Hy) as ->. done. }
  destruct (decide (op = OpAnd)); [apply law_and_true in Hk|apply law_or_true in Hk]; naive_solver.
Qed.

Fixpoint no_float_literals (e : Expr) : bool :=
  match e with
  | Literal (Float64 _) => false
  | Binary l _ r => no_float_literals l && no_float_literals r
  | IsNull e _ | Cast e _ | Alias e _ | Aggregate _ e _ => no_float_literals e
  | _ => true
  end.

Section batch.
Context (b : RecordBatch).
Hypothesis Hb : conforming b.
Hypothesis Hd : described_columns b.

Lemma literal_array_ok v : typed_scalar v = true → array_ok (b_rows b) (MkArray (scalar_type v) (replicate (b_rows b) (scalar_cell v))).
Proof. intros Hv. by apply (evaluate_cells (Literal v)). Qed.

Lemma comparison_sound n op v a (flipped : bool) mask i :
  is_comparison op = true → typed_scalar v = true → (∀ bits, v ≠ Float64 bits) →
  evaluate (Column n) b = Ok a →
  (let lit := MkArray (scalar_type v) (replicate (b_rows b) (scalar_cell v)) in
   if flipped then evaluate_binary op (b_rows b) lit a else evaluate_binary op (b_rows b) a lit) = Ok mask →
  column_literal_may_match schema parquet_columns row_group n
    (if flipped then reverse_comparison op else op) v = false →
  ~ selects mask i.
Proof.
  intros Hop Hv Hnf He Hm Hc Hsel. pose proof (evaluate_cells (Column n) b a Hb eq_refl He) as Oa.
  pose proof (literal_array_ok v Hv) as Ol. destruct (decide (v = Null)) as [->|Hvn].
  { assert (a_cells mask = replicate (b_rows b) None) as E.
    { assert (is_logical op = false) as El by by destruct op.
      destruct flipped; eapply (evaluate_binary_null op (b_rows b)); [exact Ol|exact Oa|done|exact Hm| |
        exact Oa|exact Ol|done|exact Hm|]; [left|right];
        intros k c Hk; simpl in Hk; by apply lookup_replicate_1 in Hk as [-> _]. }
    unfold selects in Hsel. rewrite E in Hsel. by apply lookup_replicate_1 in Hsel as [? _]. }
  destruct (column_literal_sound n (if flipped then reverse_comparison op else op) v b a Hd)
    as (Ht & Hcmp); [by destruct flipped, op|done..|].
  set (lit := MkArray (scalar_type v) (replicate (b_rows b) (scalar_cell v))) in *.
  assert (∃ a', a_type a' = scalar_type v ∧ array_ok (b_rows b) a' ∧
    (∀ k x, a_cells a' !! k = Some (Some x) → cmp_scalar (if flipped then reverse_comparison op else op) (scalar_of (scalar_type v) x) v = false) ∧
    (if flipped then evaluate_binary op (b_rows b) lit a' else evaluate_binary op (b_rows b) a' lit) = Ok mask)
    as (a' & Ht' & Oa' & Hcmp' & Hm').
  { destruct Ht as [Ht|[Ht Htv]]; [exists a; split_and!; [done|done|by rewrite <-Ht|done]|].
    exists (widened_array a). split_and!; [done|by apply widened_ok| |].
    - rewrite Htv. intros k x Hx. rewrite Ht in Hcmp. exact (Hcmp k x Hx).
    - apply (evaluate_binary_widened op (b_rows b) a lit mask flipped); [done..|exact Hm]. }
  assert (is_float (scalar_type v) = false ∧ native (scalar_type v) = true) as [Hf Hn].
  { destruct v; try done. by destruct (Hnf bits). }
  destruct flipped.
  - destruct (comparison_mask op (b_rows b) lit a' mask i) as (x & y & Hx & Hy & Hxy); try done. simpl in Hx, Hxy.
    apply lookup_replicate_1 in Hx as [Hx _]. rewrite scalar_of_literal in Hxy by done.
    rewrite cmp_scalar_reverse in Hxy by done. by rewrite (Hcmp' _ _ Hy) in Hxy.
  - destruct (comparison_mask op (b_rows b) a' lit mask i) as (x & y & Hx & Hy & Hxy); try done; [by rewrite Ht'..|].
    simpl in Hy. apply lookup_replicate_1 in Hy as [Hy _]. rewrite Ht', (scalar_of_literal v y) in Hxy by done.
    by rewrite (Hcmp' _ _ Hx) in Hxy.
Qed.

Lemma is_null_sound n negated a i :
  evaluate (Column n) b = Ok a → is_null_may_match schema parquet_columns row_group (Column n) negated = false →
  ∀ c, a_cells a !! i = Some c → xorb negated (bool_decide (c = None)) = false.
Proof.
  intros He Hm c Hc. cbn [is_null_may_match unalias] in Hm.
  destruct (column_statistics _ _ _ n) as [[[k f] st]|] eqn:Est; [|done].
  destruct (Hd _ _ _ _ _ Est He) as (_ & _ & _ & Hnn & Hall).
  assert (f_nullable f = false ∨ st_null_count st = Some 0%N → c ≠ None) as Hsome
    by (intros Ho ->; by apply (Hnn Ho i)).
  destruct (f_nullable f) eqn:Ef; simpl in Hm.
  - destruct (st_null_count st) as [nulls|] eqn:En; [|done]. destruct negated; bool_to_prop.
    + by rewrite (Hall nulls eq_refl Hm i c Hc).
    + assert (nulls = 0%N) as -> by lia. simpl. by apply bool_decide_eq_false_2, Hsome; right.
  - subst negated. simpl. by apply bool_decide_eq_false_2, Hsome; left.
Qed.

(** A row expression that the statistics can be compared with. *)
Definition prunable (e : Expr) : bool := typed_literals e && no_float_literals e.

Lemma prunable_inv e : prunable e = true ↔ typed_literals e = true ∧ no_float_literals e = true.
Proof. apply andb_true_iff. Qed.

(** An alias changes nothing. *)
Lemma evaluate_unalias e a : evaluate e b = Ok a → evaluate (unalias e) b = Ok a.
Proof. destruct e; try done. apply evaluate_alias. Qed.
Lemma prunable_unalias e : prunable (unalias e) = prunable e.
Proof. by destruct e. Qed.

Lemma comparison_expression_sound l op r mask i :
  is_comparison op = true → prunable l = true → prunable r = true →
  evaluate (Binary l op r) b = Ok mask →
  comparison_may_match schema parquet_columns row_group l op r = false → ~ selects mask i.
Proof.
  intros Hop Hl Hr He Hm. rewrite <-prunable_unalias in Hl, Hr. apply prunable_inv in Hl as [Hvl Hfl]. apply prunable_inv in Hr as [Hvr Hfr].
  cbn [evaluate] in He. apply bind_ok in He as (x & Hx%evaluate_unalias & He). apply bind_ok in He as (y & Hy%evaluate_unalias & He).
  unfold comparison_may_match in Hm.
  destruct (unalias l) as [n|v| | | | | |], (unalias r) as [n'|v'| | | | | |]; try done.
  - injection Hy as <-. apply (comparison_sound n op v' x false); try done.
    intros bits ->. done.
  - injection Hx as <-. apply (comparison_sound n' op v y true); try done.
    intros bits ->. done.
Qed.

Lemma expression_sound e mask i :
  prunable e = true → evaluate e b = Ok mask →
  expression_may_match schema parquet_columns row_group e = false → ~ selects mask i.
Proof.
  revert mask. induction e as [n|v|l IHl op r IHr|e IH negated|e IH t|e IH alias|f e IH d|];
    intros mask Hp He Hm Hsel; try done.
  - unfold selects in Hsel. injection He as <-. simpl in Hsel. apply lookup_replicate_1 in Hsel as [Hsel _].
    destruct v as [|[]| | | |]; done.
  - pose proof Hp as (Hv & Hf)%prunable_inv. simpl in Hv, Hf.
    apply andb_true_iff in Hv as [Hvl Hvr]. apply andb_true_iff in Hf as [Hfl Hfr].
    assert (prunable l = true ∧ prunable r = true) as [Hpl Hpr] by (by rewrite !prunable_inv).
    destruct (is_comparison op) eqn:Hop.
    { eapply (comparison_expression_sound l op r mask i); try done. by destruct op. }
    destruct (is_logical op) eqn:Hlog; [|by destruct op].
    cbn [evaluate] in He. apply bind_ok in He as (x & Hx & He). apply bind_ok in He as (y & Hy & He).
    pose proof (connective_selects _ _ _ _ _ _ (evaluate_cells _ _ _ Hb Hvl Hx) (evaluate_cells _ _ _ Hb Hvr Hy) Hlog He Hsel) as Hc.
    destruct op; try done; cbn [expression_may_match] in Hm; simpl in Hc.
    + destruct Hc as [Hc1 Hc2]. apply andb_false_iff in Hm as [Hm|Hm]; [by eapply IHl|by eapply IHr].
    + apply orb_false_iff in Hm as [Hm1 Hm2]. destruct Hc; [by eapply IHl|by eapply IHr].
  - cbn [evaluate] in He. apply bind_ok in He as (a & Ha%evaluate_unalias & [= <-]). unfold selects in Hsel. simpl in Hsel.
    rewrite list_lookup_fmap in Hsel. apply fmap_Some in Hsel as (c & Hc & [= Hx]).
    cbn [expression_may_match] in Hm. unfold is_null_may_match in Hm. destruct (unalias e) as [n| | | | | | |] eqn:Eu; try done.
    by rewrite (is_null_sound n negated a i Ha Hm c Hc) in Hx.
  - apply evaluate_alias in He as He'. apply (IH mask); [done|done| |done]. destruct e as [|[| | | | |]| | | | | |]; done.
Qed.
End batch.
End soundness.

(** ** The property *)

(** Pruning is sound.  When the statistics of a row group rule a filter list
    out, one of the filters is true on no row of any batch of the group, so skipping
    the group loses nothing; for files whose column names differ by more than case,
    filters without floating-point literals, and statistics that bound the values and
    count the nulls of their column. *)
Theorem pruning_sound `{Utf8Check, K : Kernels, !KernelLaws K, !CompareLaws K}
    schema parquet_columns row_group b filters :
  conforming b → b_schema b = schema → file_schema schema →
  describes schema parquet_columns row_group b → Forall (λ e, prunable e = true) filters →
  row_group_may_match schema parquet_columns row_group filters = false →
  ∃ e, e ∈ filters ∧ ∀ mask i, evaluate e b = Ok mask → ~ selects mask i.
Proof.
  intros Hb Hs Hfs Hd Hp Hm. unfold row_group_may_match in Hm.
  assert (∃ e, e ∈ filters ∧ expression_may_match schema parquet_columns row_group e = false)
    as (e & He & Hem).
  { induction filters as [|e es IH]; [done|]. simpl in Hm. apply andb_false_iff in Hm as [Hm|Hm].
    - exists e. split; [by left|done].
    - apply list.Forall_cons in Hp as [_ Hp]. destruct (IH Hp Hm) as (e' & ? & ?).
      exists e'. split; [by right|done]. }
  exists e. split; [done|]. intros mask i Hmask. rewrite list.Forall_forall in Hp.
  assert (described_columns schema parquet_columns row_group b) as Hdc.
  { rewrite <-(projected_all b) by by eapply Forall2_length. rewrite Hs.
    apply projected_described; try done. apply list.Forall_forall. intros j ?%elem_of_seq. lia. }
  by eapply (expression_sound schema parquet_columns row_group b); eauto.
Qed.

(** ** Worked row groups *)

#[local] Instance demo_utf8 : Utf8Check := λ _, true.

#[export] Instance demo_compare_laws : CompareLaws demo_kernels.
Proof.
  constructor; simpl.
  - intros op t x y Hn Hf Hx Hy Hop.
    assert (demo_order x y = partial_compare (scalar_of t x) (scalar_of t y)) as E.
    { destruct t, x, y; try done. simpl in *. apply andb_true_iff in Hx as [Hx _].
      apply andb_true_iff in Hy as [Hy _]. f_equal. symmetry. apply Z2N.inj_compare; lia. }
    unfold demo_cmp. rewrite E. destruct (partial_compare _ _) as [[]|] eqn:Ec, op; try done; simpl;
      by rewrite Ec.
  - intros c Hc. destruct c; try done. unfold demo_cast. rewrite decide_False by done. simpl in *.
    assert ((- 2 ^ 63 <=? z)%Z && (z <? 2 ^ 63)%Z = true) as -> by lia. done.
  - intros [[]|] [[]|]; try done; auto.
  - intros [[]|] [[]|]; try done; auto.
Qed.

Definition exact_statistics (values : StatisticValues) : Statistics :=
  MkStatistics values (Some 0%N) false false true true.

(** A row group of one integer column with values from 10 to 20. *)
Definition demo_file_schema : Schema := [MkField "a" DtInt64 true].
Definition demo_row_group : RowGroupMetaData :=
  MkRowGroup 2 [Some (exact_statistics (StInt64 (Some 10%Z) (Some 20%Z)))].
Definition demo_file_batch : RecordBatch :=
  MkRecordBatch demo_file_schema [MkArray DtInt64 [Some (IntCell 10); Some (IntCell 20)]] 2.
Definition demo_filter : Expr := Binary (Column "t.a") OpGt (Literal (Int64 30)).

Lemma pruning_sound_witness :
  row_group_may_match demo_file_schema [Some 0] demo_row_group [demo_filter] = false ∧
  ∃ e, e ∈ [demo_filter] ∧ ∀ mask i, evaluate e demo_file_batch = Ok mask → ~ selects mask i.
Proof.
  split; [reflexivity|].
  apply (pruning_sound demo_file_schema [Some 0] demo_row_group demo_file_batch [demo_filter]).
  - repeat constructor; simpl; repeat constructor; intros x Hx; by simplify_eq.
  - reflexivity.
  - split; [by repeat constructor|]. by apply (bool_decide_unpack _).
  - intros n i f st a Hst Ha. unfold column_statistics, find_first in Hst. simpl in Hst.
    destruct (eq_ignore_ascii_case _ _); [|done]. simpl in Hst. simplify_eq. simpl in Ha.
    injection Ha as <-. split_and!.
    + intros _ [|[|r]] c m Hc Hm; vm_compute in Hc, Hm; simplify_eq; [by right|by left].
    + intros _ [|[|r]] c m Hc Hm; vm_compute in Hc, Hm; simplify_eq; [by left|by right].
    + intros _ [|[|r]] Hc; simpl in *; simplify_eq.
    + intros nulls Hn Hle. simpl in *. simplify_eq. lia.
  - by repeat constructor.
  - reflexivity.
Defined.

(** ** Where pruning loses rows *)

(** Columns [A] and [a] of one file: the statistics of the first are consulted for
    a filter on the second, and a row group with a matching row is skipped. *)
Definition case_schema : Schema := [MkField "A" DtInt64 true; MkField "a" DtInt64 true].
Definition case_row_group : RowGroupMetaData :=
  MkRowGroup 1 [Some (exact_statistics (StInt64 (Some 1%Z) (Some 1%Z)));
                Some (exact_statistics (StInt64 (Some 9%Z) (Some 9%Z)))].
Definition case_batch : RecordBatch :=
  MkRecordBatch case_schema [MkArray DtInt64 [Some (IntCell 1)]; MkArray DtInt64 [Some (IntCell 9)]] 1.
Example pruning_ignores_case :
  let e := Binary (Column "a") OpGt (Literal (Int64 5)) in
  row_group_may_match case_schema [Some 0; Some 1] case_row_group [e] = false ∧
  ∃ mask, evaluate e case_batch = Ok mask ∧ selects mask 0.
Proof. split; [reflexivity|]. eexists. split; [vm_compute; reflexivity|reflexivity]. Qed.

(** The kernels order floats totally, with NaN above every number and -0.0 below
    0.0; pruning compares with the partial order, and statistics leave NaN out.
    Row groups holding NaN, or -0.0, are skipped although a row matches. *)
Definition float_batch (values : list N) : RecordBatch :=
  MkRecordBatch [MkField "x" DtFloat64 true] [MkArray DtFloat64 ((λ v, Some (FloatCell v)) <$> values)]
    (length values).
Definition float_group (min max : N) : RowGroupMetaData :=
  MkRowGroup 2 [Some (exact_statistics (StDouble (Some min) (Some max)))].
Definition f64_one : N := 0x3ff0000000000000.
Definition f64_five : N := 0x4014000000000000.
Definition f64_nan : N := 0x7ff8000000000000.
Definition f64_minus_zero : N := 0x8000000000000000.
Example pruning_loses_nan_and_zero :
  let above := Binary (Column "x") OpGt (Literal (Float64 f64_five)) in
  let below := Binary (Column "x") OpLt (Literal (Float64 0)) in
  row_group_may_match [MkField "x" DtFloat64 true] [Some 0] (float_group f64_one f64_one) [above] = false ∧
  (∃ mask, evaluate above (float_batch [f64_one; f64_nan]) = Ok mask ∧ selects mask 1) ∧
  row_group_may_match [MkField "x" DtFloat64 true] [Some 0]
    (float_group f64_minus_zero f64_minus_zero) [below] = false ∧
  (∃ mask, evaluate below (float_batch [f64_minus_zero]) = Ok mask ∧ selects mask 0).
Proof.
  split; [vm_compute; reflexivity|]. split; [eexists; split; vm_compute; reflexivity|].
  split; [vm_compute; reflexivity|]. eexists; split; vm_compute; reflexivity.
Qed.
