(* ===== verification/FileTables.v ===== *)
(** * File-backed tables ([src/storage/catalog.rs])

    The CSV and Parquet providers.  Files and the readers of [arrow] and [parquet] are
    the class [FileReaders]; a file does not change while it is a table. *)
From S2P Require Import Prelude Text Float Expr Catalog Pruning.

(** What a Parquet reader knows of its file: the schema, the path of every leaf column
    and the row groups. *)
Record ParquetReader := MkParquetReader {
  pq_schema : Schema;
  pq_leaves : list (list string);
  pq_row_groups : list RowGroupMetaData;
}.

(** [File::open], [metadata().len()] and [seek]; [Format::infer_schema] over so many rows
    and a CSV reader for a schema, a projection and a batch size;
    [ParquetRecordBatchReaderBuilder::try_new], and the batches of some row groups for a
    batch size and the roots of a [ProjectionMask]. *)
Class FileReaders := {
  File : Type;
  open_file : string → result File;
  file_bytes : File → result N;
  rewind : File → result unit;
  csv_infer_schema : File → nat → result Schema;
  csv_read : File → Schema → nat → option (list nat) → result (list RecordBatch);
  parquet_reader : File → result ParquetReader;
  parquet_read : File → nat → list nat → option (list nat) → result (list RecordBatch);
}.

Section tables.
Context `{FileReaders}.

(** ** CSV *)

Record CsvTable := MkCsvTable {
  ct_path : string;
  ct_schema : Schema;
  ct_estimated_bytes : N;
}.

Definition CsvTable_try_new (path : string) : result CsvTable :=
  file ← open_file path;
  schema ← csv_infer_schema file 1000;
  _ ← rewind file;
  estimated_bytes ← file_bytes file;
  Ok (MkCsvTable path schema estimated_bytes).

Definition CsvTable_scan_partition (t : CsvTable) (batch_size partition : nat) (projection : option (list nat))
    : result (list RecordBatch) :=
  if decide (partition = 0) then
    file ← open_file (ct_path t);
    csv_read file (ct_schema t) batch_size projection
  else Err (Execution ("CSV source has no partition " +:+ pretty (N.of_nat partition))).

(** One partition; pruning is the trait's default. *)
Definition csv_provider (batch_size : nat) (t : CsvTable) : TableProvider := {|
  tp_schema := ct_schema t;
  tp_partition_count := 1;
  tp_estimated_bytes := ct_estimated_bytes t;
  tp_partition_may_match _ _ := Ok true;
  tp_scan_partition := CsvTable_scan_partition t batch_size;
|}.

(** ** Parquet *)

Record ParquetTable := MkParquetTable {
  pt_path : string;
  pt_schema : Schema;
  pt_metadata : list RowGroupMetaData;
  pt_parquet_columns : list (option nat);
  pt_estimated_bytes : N;
}.

(** The leaf of a field that has exactly one. *)
Definition leaf_column (leaves : list (list string)) (f : Field) : option nat :=
  match base.filter (λ x : nat * list string, head x.2 = Some (f_name f)) (enumerate leaves) with
  | [(index, _)] => Some index
  | _ => None
  end.

Definition ParquetTable_try_new (path : string) : result ParquetTable :=
  file ← open_file path;
  estimated_bytes ← file_bytes file;
  reader ← parquet_reader file;
  Ok (MkParquetTable path (pq_schema reader) (pq_row_groups reader)
        (leaf_column (pq_leaves reader) <$> pq_schema reader) estimated_bytes).

Definition no_row_group (partition : nat) : SparkXError :=
  Execution ("Parquet source has no row group " +:+ pretty (N.of_nat partition)).

Definition ParquetTable_partition_may_match `{Utf8Check} (t : ParquetTable) (partition : nat) (filters : list Expr)
    : result bool :=
  match pt_metadata t !! partition with
  | None => Err (no_row_group partition)
  | Some row_group => Ok (row_group_may_match (pt_schema t) (pt_parquet_columns t) row_group filters)
  end.

Definition ParquetTable_scan_partition (t : ParquetTable) (batch_size partition : nat) (projection : option (list nat))
    : result (list RecordBatch) :=
  if (length (pt_metadata t) <=? partition)%nat then Err (no_row_group partition)
  else
    file ← open_file (pt_path t);
    _ ← parquet_reader file;
    parquet_read file batch_size [partition] projection.

Definition parquet_provider `{Utf8Check} (batch_size : nat) (t : ParquetTable) : TableProvider := {|
  tp_schema := pt_schema t;
  tp_partition_count := length (pt_metadata t);
  tp_estimated_bytes := pt_estimated_bytes t;
  tp_partition_may_match := ParquetTable_partition_may_match t;
  tp_scan_partition := ParquetTable_scan_partition t batch_size;
|}.
End tables.
