(* ===== verification/FileTablesProps.v ===== *)
(** * Scans of Parquet files

    A scan that skips row groups by their statistics delivers the rows of one that
    reads them all. *)
From S2P Require Import Prelude Text Memory Float Expr ExprProps Logical Optimizer SchemaProps Catalog Physical Execution ExecutionDemo HashJoin Aggregate AggregateProps Executor ExecutorProps OperatorProps ScanProps OperatorDemo Pruning PruningProps FileTables.

(** The columns a mask keeps, in the order of the file. *)
Definition masked (width : nat) (ix : list nat) : list nat := base.filter (λ i, i ∈ ix) (seq 0 width).

(** A mask selects columns; it does not order them. *)
Class ParquetLaws (F : FileReaders) :=
  law_mask file reader n groups ix :
    parquet_reader file = Ok reader → Forall (λ i, i < length (pq_schema reader)) ix →
    parquet_read file n groups (Some ix) =
      (bs ← parquet_read file n groups None; Ok ((λ b, projected b (masked (length (pq_schema reader)) ix)) <$> (bs : list RecordBatch))).

(** The batches of a row group conform to the schema of the file and are described by
    the statistics of the group. *)
Definition faithful `{FileReaders, Utf8Check} (t : ParquetTable) : Prop :=
  ∀ k row_group file n bs, pt_metadata t !! k = Some row_group → open_file (pt_path t) = Ok file →
    parquet_read file n [k] None = Ok bs →
    Forall (λ b, b_schema b = pt_schema t ∧ conforming b ∧ describes (pt_schema t) (pt_parquet_columns t) row_group b) bs.

(** The same table without its statistics. *)
Definition unpruned (p : TableProvider) : TableProvider :=
  MkTableProvider (tp_schema p) (tp_partition_count p) (tp_estimated_bytes p) (λ _ _, Ok true) (tp_scan_partition p).

(** The columns of a scan. *)
Definition scanned (width : nat) (projection : option (list nat)) : list nat :=
  match projection with None => seq 0 width | Some ix => masked width ix end.

Lemma scanned_bound width pr : NoDup (scanned width pr) ∧ Forall (λ i, i < width) (scanned width pr).
Proof.
  assert (NoDup (seq 0 width) ∧ Forall (λ i, i < width) (seq 0 width)) as [Hn Hb].
  { split; [apply NoDup_seq|]. apply list.Forall_forall. intros i ?%elem_of_seq. lia. }
  destruct pr as [ix|]; [|done]. split; [by apply list.NoDup_filter|]. apply list.Forall_forall.
  intros i [_ Hi]%list_elem_of_filter. by eapply list.Forall_forall in Hb.
Qed.

Section scans.
Context `{Utf8Check, K : Kernels, !KernelLaws K, !CompareLaws K, B : BatchOps, !BatchLaws B}.

Lemma projected_conforming b jx : conforming b → Forall (λ i, i < length (b_schema b)) jx → conforming (projected b jx).
Proof.
  intros Hf Hb. pose proof (Forall2_length Hf) as Hl.
  pose proof (omap_lookup_Forall2 _ _ Hb) as H1. rewrite Hl in Hb. pose proof (omap_lookup_Forall2 _ _ Hb) as H2.
  unfold conforming. cbn. apply Forall2_same_length_lookup. split; [by rewrite <-(Forall2_length H1), (Forall2_length H2)|].
  intros i f a Hi Ha. destruct (Forall2_lookup_r _ _ _ _ _ H1 Hi) as (j & Hj & Hjf).
  pose proof (Forall2_lookup_lr _ _ _ _ _ _ H2 Hj Ha) as Hja. exact (Forall2_lookup_lr _ _ _ _ _ _ Hf Hjf Hja).
Qed.

Context (s : Schema) (parquet_columns : list (option nat)) (row_group : RowGroupMetaData).

(** Rows of the group, of some of its columns. *)
Record described (b : RecordBatch) : Prop := {
  described_conforms : conforming b;
  described_rows : described_columns s parquet_columns row_group b;
}.

Lemma filtered_conforming b mask : length mask = b_rows b → conforming b → conforming (filtered b mask).
Proof.
  intros Hm Hb. unfold conforming, filtered, map_columns in *. cbn. apply Forall2_fmap_r.
  eapply Forall2_impl; [|exact Hb]. intros f a (Ht & Hlen & Hty). split; [done|]. split; cbn.
  - apply select_cells_length. congruence.
  - apply list.Forall_forall. intros c Hc. rewrite list.Forall_forall in Hty. apply Hty. by eapply select_cells_elem.
Qed.

(** Fewer rows are described by the same statistics. *)
Lemma filtered_described b mask :
  described_columns s parquet_columns row_group b → described_columns s parquet_columns row_group (filtered b mask).
Proof.
  intros Hd n i f st a Hst Ha. cbn [evaluate filtered b_schema b_columns] in Ha. apply bind_ok in Ha as (k & Hk & Ha).
  unfold map_columns in Ha. rewrite list_lookup_fmap in Ha. destruct (b_columns b !! k) as [a0|] eqn:Ea0; [|done]. injection Ha as <-.
  destruct (Hd n i f st a0 Hst) as (Ht & Hmin & Hmax & Hnull & Hall); [cbn [evaluate]; by rewrite Hk; cbn; rewrite Ea0|].
  assert (∀ r x, select_cells mask (a_cells a0) !! r = Some x → ∃ r0, a_cells a0 !! r0 = Some x) as Hin.
  { intros r x Hx. by apply list_elem_of_lookup, (select_cells_elem mask), (list_elem_of_lookup_2 _ r). }
  split; [done|]. split_and!; cbn [a_cells a_type].
  - intros Hfl r x m Hx. destruct (Hin _ _ Hx) as (r0 & ?). by eapply Hmin.
  - intros Hfl r x m Hx. destruct (Hin _ _ Hx) as (r0 & ?). by eapply Hmax.
  - intros Ho r Hx. destruct (Hin _ _ Hx) as (r0 & ?). by eapply Hnull.
  - intros nulls Hn Hle r x Hx. destruct (Hin _ _ Hx) as (r0 & ?). by eapply Hall.
Qed.

Lemma nothing_selected (mask : list (option cell)) :
  (∀ r, mask !! r ≠ Some (Some (BoolCell true))) → select_cells mask mask = [].
Proof.
  unfold select_cells. induction mask as [|c mask IH]; intros Hm; [done|]. cbn.
  assert (c ≠ Some (BoolCell true)) as Hc by (intros ->; by apply (Hm 0)).
  rewrite IH by (intros r; apply (Hm (S r))). destruct c as [[[]| | | |]|]; done.
Qed.

Lemma selected_length (mask : list (option cell)) : length (select_cells mask mask) <= length mask.
Proof.
  unfold select_cells. induction mask as [|c mask IH]; [done|]. cbn. destruct c as [[[]| | | |]|]; cbn in *; lia.
Qed.

(** Filtering keeps no row once a filter has ruled out the group. *)
Lemma filter_rows b e c :
  described b → prunable e = true → filter_batch b e = Ok c →
  described c ∧ b_rows c <= b_rows b ∧ (expression_may_match s parquet_columns row_group e = false → b_rows c = 0).
Proof.
  intros [Hb Hd] Hp Hc. pose proof Hp as [Hv _]%prunable_inv. unfold filter_batch in Hc.
  apply bind_ok in Hc as (mask & Hm & Hc). destruct (decide _); [|done].
  destruct (evaluate_cells _ _ _ Hb Hv Hm) as [Hl _]. rewrite law_filter in Hc by done. injection Hc as <-. split_and!.
  - split; [by apply filtered_conforming|by apply filtered_described].
  - cbn. rewrite <-Hl. apply selected_length.
  - intros Hno. cbn. rewrite nothing_selected; [done|]. intros r. by apply (expression_sound s parquet_columns row_group b Hb Hd e mask r).
Qed.

Lemma pruned_rows b fs c :
  described b → Forall (λ e, prunable e = true) fs → fold_result filter_batch b fs = Ok c →
  b_rows c <= b_rows b ∧ (row_group_may_match s parquet_columns row_group fs = false → b_rows c = 0).
Proof.
  intros Hb Hfs. revert b Hb. induction Hfs as [|e fs Hp _ IH]; intros b Hb Hc; cbn in Hc.
  - injection Hc as <-. by split.
  - apply bind_ok in Hc as (b1 & H1 & Hc). destruct (filter_rows b e b1 Hb Hp H1) as (Hb1 & Hle & Hzero).
    destruct (IH b1 Hb1 Hc) as [Hle' Hzero']. split; [lia|].
    unfold row_group_may_match in *. cbn. intros [Hno|Hno]%andb_false_iff; [specialize (Hzero Hno); lia|by apply Hzero'].
Qed.

Lemma pruned_scan fs bs :
  Forall described bs → Forall (λ e, prunable e = true) fs →
  row_group_may_match s parquet_columns row_group fs = false →
  Forall (λ item : result RecordBatch, match item with Ok b => b_rows b = 0 | Err _ => True | Panic _ => False end)
    (scan_batches fs bs).
Proof.
  intros Hbs Hfs Hno. induction Hbs as [|b bs Hb _ IH]; [constructor|]. cbn [scan_batches].
  destruct (fold_result filter_batch b fs) as [c| |] eqn:E; [|by repeat constructor|constructor].
  constructor; [|done]. by eapply pruned_rows.
Qed.
End scans.

(** ** The property *)

Definition no_rows (item : result RecordBatch) : Prop :=
  match item with Ok b => b_rows b = 0 | Err _ => True | Panic _ => False end.

Section parquet.
Context `{F : FileReaders, !ParquetLaws F, Utf8Check}.
Context `{K : Kernels, !KernelLaws K, !CompareLaws K, B : BatchOps, !BatchLaws B}.

(** What a scan reads of a row group. *)
Lemma parquet_reads path t n k pr file reader bs' :
  ParquetTable_try_new path = Ok t → faithful t → open_file path = Ok file → parquet_reader file = Ok reader →
  is_Some (pt_metadata t !! k) → Forall (λ i, i < length (pt_schema t)) (default [] pr) →
  parquet_read file n [k] pr = Ok bs' →
  ∃ bs, parquet_read file n [k] None = Ok bs ∧ bs' = (λ b, projected b (scanned (length (pt_schema t)) pr)) <$> bs.
Proof.
  intros Ht Hf Hfile Hreader [rg Hk] Hpr Hr. unfold ParquetTable_try_new in Ht. rewrite Hfile in Ht.
  cbn [mbind result_bind] in Ht. apply bind_ok in Ht as (bytes & _ & Ht). rewrite Hreader in Ht. injection Ht as <-.
  destruct pr as [ix|]; cbn [scanned].
  - rewrite (law_mask file reader) in Hr by done. apply bind_ok in Hr as (bs & Hbs & [= <-]). by exists bs.
  - exists bs'. split; [done|]. pose proof (Hf k rg file n bs' Hk Hfile Hr) as Hbs. clear -Hbs.
    induction Hbs as [|b bs (Hs & Hok & _) _ IH]; [done|]. rewrite fmap_cons, <-IH. f_equal. rewrite <-Hs.
    symmetry. by eapply projected_all, Forall2_length.
Qed.

(** C30: pruning loses no row.  A scan of a partition of a Parquet table, of all or some
    columns of whatever types, delivers what it would deliver without looking at the
    statistics, or it skips a row group of which the unpruned scan would deliver, after
    the filters, only batches without rows or the error of reading them or of evaluating a
    filter (which a skipped group does not report, nor does a full channel the error of a
    partition that the table does not have).  For files whose column names are
    undotted and differ by more than case (see [pruning_ignores_case]), filters whose
    literals fit their types and are not floats (see [pruning_loses_nan_and_zero]), and
    row groups whose batches conform to the schema of the file and whose statistics bound
    the values (of columns that are not floats) and count the nulls of their columns
    ([faithful]). *)
Theorem parquet_pruning_complete full path t n pr fs k :
  ParquetTable_try_new path = Ok t → file_schema (pt_schema t) → faithful t →
  Forall (λ i, i < length (pt_schema t)) (default [] pr) → Forall (λ e, prunable e = true) fs →
  let p := parquet_provider n t in
  execute_scan full p pr fs k = execute_scan full (unpruned p) pr fs k ∨
  execute_scan full p pr fs k = [] ∧ Forall no_rows (execute_scan full (unpruned p) pr fs k).
Proof.
  intros Ht Hs Hf Hpr Hfs p. unfold execute_scan at 1 3. cbn [tp_partition_may_match p parquet_provider].
  unfold ParquetTable_partition_may_match. destruct (pt_metadata t !! k) as [rg|] eqn:Ek.
  2:{ unfold execute_scan. cbn. unfold ParquetTable_scan_partition. apply lookup_ge_None in Ek.
      rewrite (proj2 (Nat.leb_le _ _) Ek). destruct full; [right; by repeat constructor|by left]. }
  destruct (row_group_may_match _ _ _ fs) eqn:Em; [by left|]. right. split; [done|].
  unfold execute_scan. cbn. unfold ParquetTable_scan_partition. pose proof (lookup_lt_Some _ _ _ Ek) as Hlt.
  rewrite (proj2 (Nat.leb_gt _ _) Hlt). destruct (scanned_bound (length (pt_schema t)) pr) as [Hnd Hb].
  assert (pt_path t = path) as Hpath.
  { unfold ParquetTable_try_new in Ht. apply bind_ok in Ht as (? & _ & Ht). apply bind_ok in Ht as (? & _ & Ht).
    by apply bind_ok in Ht as (? & _ & [= <-]). }
  destruct (open_file (pt_path t)) as [file| |] eqn:Eo; cbn [mbind result_bind]; [|by repeat constructor..].
  destruct (parquet_reader file) as [reader| |] eqn:Er; cbn [mbind result_bind]; [|by repeat constructor..].
  destruct (parquet_read file n [k] pr) as [bs'| |] eqn:Eb; [|by repeat constructor..]. rewrite Hpath in Eo.
  destruct (parquet_reads path t n k pr file reader bs' Ht Hf Eo Er) as (bs & Hbs & ->); [by eexists|done|done|].
  eapply pruned_scan; [|done|exact Em]. rewrite <-Hpath in Eo. apply Forall_fmap. eapply list.Forall_impl; [by apply (Hf k rg file n bs)|].
  intros b (Hsch & Hok & Hd). split; [apply projected_conforming; by rewrite ?Hsch|by apply projected_described].
Qed.
End parquet.

(** ** A worked file *)

(** Two row groups of a file with the columns [b] and [a], in this order, the second of
    32-bit integers. *)
Definition events_schema : Schema := [MkField "b" DtUtf8 true; MkField "a" DtInt32 true].
Definition events_batch (b : list (option cell)) (a : list (option cell)) : RecordBatch :=
  MkRecordBatch events_schema [MkArray DtUtf8 b; MkArray DtInt32 a] (length a).
Definition events_groups : list (RowGroupMetaData * RecordBatch) :=
  [(MkRowGroup 2 [None; Some (exact_statistics (StInt32 (Some 10%Z) (Some 20%Z)))],
    events_batch [Some (StrCell "x"); None] [Some (IntCell 10); Some (IntCell 20)]);
   (MkRowGroup 1 [None; Some (exact_statistics (StInt32 (Some 40%Z) (Some 40%Z)))],
    events_batch [Some (StrCell "y")] [Some (IntCell 40)])].

#[local] Instance any_utf8 : Utf8Check := λ _, true.
#[local] Instance events_files : FileReaders := {
  File := unit;
  open_file path := if decide (path = "events.parquet") then Ok tt else Err (Io "not found");
  file_bytes _ := Ok 512%N;
  rewind _ := Ok tt;
  csv_infer_schema _ _ := Err (Arrow "not a CSV file");
  csv_read _ _ _ _ := Err (Arrow "not a CSV file");
  parquet_reader _ := Ok (MkParquetReader events_schema [["b"]; ["a"]] (events_groups.*1));
  parquet_read _ _ groups mask :=
    bs ← collect (λ k, ok_or (snd <$> events_groups !! k) (Parquet "no such row group")) groups;
    Ok (match mask with None => bs | Some ix => (λ b, projected b (masked 2 ix)) <$> (bs : list RecordBatch) end);
}.

#[local] Instance events_laws : ParquetLaws events_files.
Proof.
  intros file reader n groups ix [= <-] _. cbn.
  match goal with |- (?x ≫= _) = _ => by destruct x end.
Qed.

Definition events_table : ParquetTable :=
  MkParquetTable "events.parquet" events_schema (events_groups.*1) [Some 0; Some 1] 512.
Definition events_filter : Expr := Binary (Column "a") OpGt (Literal (Int64 30)).

Lemma describes_a lo hi b a :
  (∀ c, Some c ∈ a → ∃ z, c = IntCell z ∧ (lo <= z <= hi)%Z) → None ∉ a →
  describes events_schema [Some 0; Some 1] (MkRowGroup (Z.of_nat (length a)) [None; Some (exact_statistics (StInt32 (Some lo) (Some hi)))])
    (events_batch b a).
Proof.
  intros Ha Hn m i f st x Hst Hx. unfold column_statistics, find_first in Hst. cbn in Hst.
  destruct (eq_ignore_ascii_case "b" _); cbn in Hst; [done|]. destruct (eq_ignore_ascii_case "a" _); cbn in Hst; [|done].
  injection Hst as <- <- <-. cbn in Hx. injection Hx as <-. unfold described_cells. cbn [a_cells a_type].
  assert (∀ r c, a !! r = Some (Some c) → ∃ z, c = IntCell z ∧ (lo <= z <= hi)%Z) as Hin
    by (intros r c Hc; by apply Ha, (list_elem_of_lookup_2 _ r)).
  split_and!.
  - intros _ r c z Hc [= <-]. destruct (Hin _ _ Hc) as (y & -> & Hy). unfold scalar_le. cbn. 
    destruct (Z.compare_spec lo y); [by right|by left|lia].
  - intros _ r c z Hc [= <-]. destruct (Hin _ _ Hc) as (y & -> & Hy). unfold scalar_le. cbn.
    destruct (Z.compare_spec y hi); [by right|by left|lia].
  - intros _ r Hc. by apply Hn, (list_elem_of_lookup_2 _ r).
  - intros nulls [= <-] Hle r c Hc. apply lookup_lt_Some in Hc. cbn in Hle. lia.
Qed.

Lemma events_faithful : faithful events_table.
Proof.
  assert (∀ lo hi b a, (∀ c, Some c ∈ a → ∃ z, c = IntCell z ∧ (lo <= z <= hi)%Z) → None ∉ a →
    conforming (events_batch b a) → Forall (λ x, b_schema x = pt_schema events_table ∧ conforming x ∧
      describes (pt_schema events_table) (pt_parquet_columns events_table)
        (MkRowGroup (Z.of_nat (length a)) [None; Some (exact_statistics (StInt32 (Some lo) (Some hi)))]) x) [events_batch b a]) as Hgo.
  { intros lo hi b a Ha Hn Hok. constructor; [|constructor]. split; [done|]. split; [done|]. by apply describes_a. }
  intros k rg file n bs Hk _ Hbs. destruct k as [|[|k]]; cbn in Hk; [| |done]; injection Hk as <-; injection Hbs as <-.
  - apply (Hgo 10%Z 20%Z [Some (StrCell "x"); None] [Some (IntCell 10); Some (IntCell 20)]);
      [|by apply (bool_decide_unpack _)|].
    + intros c [[= ->]|[[= ->]|[]%elem_of_nil]%elem_of_cons]%elem_of_cons; eexists; (split; [done|lia]).
    + repeat constructor; cbn; repeat constructor; intros x Hx; by simplify_eq.
  - apply (Hgo 40%Z 40%Z [Some (StrCell "y")] [Some (IntCell 40)]); [|by apply (bool_decide_unpack _)|].
    + intros c [[= ->]|[]%elem_of_nil]%elem_of_cons. eexists. split; [done|lia].
    + repeat constructor; cbn; repeat constructor; intros x Hx; by simplify_eq.
Qed.

Lemma parquet_pruning_complete_witness :
  ParquetTable_try_new "events.parquet" = Ok events_table ∧
  execute_scan false (parquet_provider 10 events_table) (Some [1]) [events_filter] 0 = [] ∧
  let p := parquet_provider 10 events_table in
  (execute_scan false p (Some [1]) [events_filter] 0 = execute_scan false (unpruned p) (Some [1]) [events_filter] 0 ∨
   execute_scan false p (Some [1]) [events_filter] 0 = [] ∧ Forall no_rows (execute_scan false (unpruned p) (Some [1]) [events_filter] 0)).
Proof.
  split; [reflexivity|]. split; [vm_compute; reflexivity|].
  apply (parquet_pruning_complete false "events.parquet" events_table 10 (Some [1]) [events_filter] 0).
  - reflexivity.
  - split; [by repeat constructor|]. by apply (bool_decide_unpack _).
  - apply events_faithful.
  - repeat constructor.
  - by repeat constructor.
Defined.

#[local] Instance no_float_text : FloatDisplay := λ _, "0.0".
#[local] Instance no_debug_text : ScalarDebug := λ _, "value".

Definition events_query : result (list string * list (list string)) :=
  p ← project (LScan "events" None [] events_schema) [Column "a"; Column "b"];
  o ← optimize p;
  physical ← create_physical_plan o (register Catalog_default "events" (parquet_provider 10 events_table));
  batches ← execute_plan (λ _, MkSite [] (λ _, false) (MkTaskMemory 1000 0)) None physical;
  Ok (fmap (M:=list) f_name (physical_schema physical), fmap (M:=list) (λ b, fmap (M:=list) f_name (b_schema b)) batches).

(** A mask has no order, but the optimizer asks for the columns of a scan in the order of
    their names and drops a projection that repeats that order: the plan of the columns
    [a] and [b], over a scan with unqualified names, promises them in this order, and its
    batches have them in the order of the file. *)
Example parquet_column_order : events_query = Ok (["a"; "b"], [["b"; "a"]; ["b"; "a"]]).
Proof. vm_compute. reflexivity. Qed.

(** The error of a partition that the table does not have is lost when the channel of the
    scan is full: the scan ends without it. *)
Example pruning_error_lost :
  execute_scan false (parquet_provider 10 events_table) None [] 7 = [Err (no_row_group 7)] ∧
  execute_scan true (parquet_provider 10 events_table) None [] 7 = [].
Proof. vm_compute. by split. Qed.
