(* ===== verification/HashExchange.v ===== *)
(** * Hash routing of stage outputs ([src/cluster/hash_exchange.rs])

    [repartition] sends every row of a task's output to the partition its key
    hashes to.  The model is for a task that is not cancelled. *)
From S2P Require Import Prelude Text Protocol Float Expr Logical Catalog Physical Memory Execution.

(** [arrow::compute::take] and [crc32fast::hash], a [u32]. *)
Class ExchangeOps := {
  take_array : array → list nat → result array;
  crc32 : string → N;
}.

(** A destination: its number, its batches and the bytes reserved for them. *)
Record PartitionOutput := MkPartitionOutput {
  po_partition : N;
  po_batches : list RecordBatch;
  po_own : N;
}.

Section exchange.
Context `{BatchOps, RowConverter, Sizes, ExchangeOps} (memory : TaskMemory).

Definition invalid_exchange (schema : Schema) (e : HashExchange) : bool :=
  bool_decide (he_partition_count e = 0%N) || bool_decide (he_columns e = [])
  || existsb (λ c, (N.of_nat (length schema) <=? c)%N) (he_columns e).

(** What the destinations hold. *)
Definition outputs_held (outputs : list PartitionOutput) : N :=
  foldr (λ o acc, po_own o + acc)%N 0%N outputs.

(** [indices[hash % count].push(row)] for every row. *)
Definition route_rows (count : N) (keys : list string) : list (list nat) :=
  foldl (λ (indices : list (list nat)) (x : nat * string),
           list_alter (λ rows, rows ++ [x.1]) (N.to_nat (crc32 x.2 mod count)) indices)
    (replicate (N.to_nat count) []) (enumerate keys).

(** The rows of a batch for one destination. *)
Definition push_output (schema : Schema) (b : RecordBatch) (aside : N)
    (outputs : list PartitionOutput) (x : nat * list nat) : result (list PartitionOutput) :=
  if decide (x.2 = []) then Ok outputs
  else
    arrays ← collect (λ a, take_array a x.2) (b_columns b);
    output ← try_new schema arrays;
    o ← expect (outputs !! x.1) "index out of bounds";
    own ← try_grow memory (aside + (outputs_held outputs - po_own o)) (po_own o) (batch_bytes output);
    Ok (<[x.1 := MkPartitionOutput (po_partition o) (po_batches o ++ [output]) own]> outputs).

Definition repartition_batch (schema : Schema) (e : HashExchange) (k : RowKeyEncoder)
    (outputs : list PartitionOutput) (b : RecordBatch) : result (list PartitionOutput) :=
  columns ← collect (λ c, expect (b_columns b !! N.to_nat c) "index out of bounds") (he_columns e);
  keys ← encode k columns (b_rows b);
  key_bytes ← try_reserve memory (outputs_held outputs) (memory_size k keys);
  index_bytes ← try_reserve memory (outputs_held outputs + key_bytes)
                  (saturating_mul_u64 (N.of_nat (b_rows b)) 24);
  fold_result (push_output schema b (key_bytes + index_bytes)) outputs
    (enumerate (route_rows (he_partition_count e) keys)).

Definition repartition (schema : Schema) (batches : list RecordBatch) (e : HashExchange)
    : result (list PartitionOutput) :=
  if invalid_exchange schema e
  then Err (Protocol "invalid hash exchange keys or partition count")
  else
    types ← collect (λ c, f ← expect (schema !! N.to_nat c) "index out of bounds"; Ok (f_type f))
              (he_columns e);
    k ← RowKeyEncoder_new types;
    outputs ← collect (λ p, own ← try_reserve memory 0 0; Ok (MkPartitionOutput p [] own))
                (N.of_nat <$> seq 0 (N.to_nat (he_partition_count e)));
    fold_result (repartition_batch schema e k) outputs batches.
End exchange.
