(* ===== verification/HashExchangeProps.v ===== *)
(** * Hash routing is a partition of the rows

    [repartition] loses, duplicates and reorders nothing, and rows with equal keys
    meet: the destination depends only on the elements of the key. *)
From S2P Require Import Prelude Text Protocol Float Expr ExprProps Logical Catalog Physical Memory Execution ExecutionDemo HashJoin HashExchange.

(** ** What the exchange relies on *)

(** [take] picks elements by position; [RecordBatch::try_new] keeps its columns,
    which are as long as the batch, and refuses none. *)
Class ExchangeLaws (B : BatchOps) (X : ExchangeOps) := {
  law_take a idx a' :
    take_array a idx = Ok a' → Forall (λ i, i < length (a_cells a)) idx →
    a_cells a' = (λ i, default None (a_cells a !! i)) <$> idx;
  law_try_new schema columns b :
    try_new schema columns = Ok b →
    columns ≠ [] ∧ b_columns b = columns ∧ Forall (λ a, length (a_cells a) = b_rows b) columns;
}.

(** ** The rows of batches *)

Definition batch_cells (b : RecordBatch) : list (list (option cell)) :=
  cells_at (b_columns b) <$> seq 0 (b_rows b).

Definition rows_of (batches : list RecordBatch) : list (list (option cell)) :=
  batches ≫= batch_cells.

(** The elements of a row's key. *)
Definition key_cells (e : HashExchange) (row : list (option cell)) : list (option cell) :=
  (λ c, default None (row !! N.to_nat c)) <$> he_columns e.

(** The types of the key columns. *)
Definition exchange_types (schema : Schema) (e : HashExchange) : list DataType :=
  (λ c, default DtNull (f_type <$> schema !! N.to_nat c)) <$> he_columns e.

(** Where a row belongs. *)
Definition row_partition `{RowConverter, !RowLaws _, ExchangeOps} (schema : Schema) (e : HashExchange)
    (row : list (option cell)) : nat :=
  N.to_nat (crc32 (key_of (MkRowKeyEncoder (exchange_types schema e)) (key_cells e row))
              mod he_partition_count e).

Lemma rows_of_app l k : rows_of (l ++ k) = rows_of l ++ rows_of k.
Proof. apply bind_app. Qed.

(** ** Lists *)

Lemma enumerate_split {A} (l : list A) pre x post :
  enumerate l = pre ++ x :: post → x.1 = length pre ∧ l !! x.1 = Some x.2.
Proof.
  intros E. assert (enumerate l !! length pre = Some x) as Hx by (rewrite E; by apply list_lookup_middle).
  apply enumerate_from_lookup in Hx as [H1 H2]. simpl in H1. by rewrite H1.
Qed.

Lemma enumerate_fmap_seq {A} (f : nat → A) i n :
  enumerate_from i (f <$> seq i n) = (λ j, (j, f j)) <$> seq i n.
Proof. revert i. induction n as [|n IH]; intros i; [done|]. cbn. f_equal. apply IH. Qed.

Lemma length_enumerate_from {A} (l : list A) i : length (enumerate_from i l) = length l.
Proof. revert i. induction l; intros i; simpl; auto. Qed.

Lemma lookup_eq_fmap_seq {A} (l : list A) (f : nat → A) n :
  length l = n → (∀ i, i < n → l !! i = Some (f i)) → l = f <$> seq 0 n.
Proof.
  intros Hl Hi. apply list_eq. intros i. rewrite list_lookup_fmap.
  destruct (decide (i < n)) as [Hlt|Hge].
  - rewrite Hi, lookup_seq_lt by done. done.
  - rewrite lookup_ge_None_2, lookup_seq_ge by lia. done.
Qed.

Lemma lookup_list_alter {A} (f : A → A) i j (l : list A) :
  list_alter f i l !! j = if decide (i = j) then f <$> l !! j else l !! j.
Proof.
  destruct (decide (i = j)) as [->|Hne]; [apply (list_lookup_alter_eq f l j)|].
  by apply (list_lookup_alter_ne f l i j).
Qed.

(** Positions chosen by a property of the row, read back, are the rows that have
    it. *)
Lemma filter_positions {A} (f : nat → A) (g : nat → nat) (P : A → nat) p (l : list nat) :
  (∀ i, i ∈ l → g i = P (f i)) →
  f <$> (base.filter (λ x : nat * nat, x.2 = p) ((λ j, (j, g j)) <$> l)).*1 = base.filter (λ r, P r = p) (f <$> l).
Proof.
  induction l as [|i l IH]; intros Hg; [done|]. rewrite !fmap_cons.
  assert (g i = P (f i)) as E by (apply Hg; left).
  assert (∀ j, j ∈ l → g j = P (f j)) as Hg' by (intros j Hj; apply Hg; by right).
  destruct (decide (P (f i) = p)) as [Hp|Hp].
  - rewrite !filter_cons_True by (simpl; congruence). rewrite !fmap_cons. simpl. by rewrite IH.
  - rewrite !filter_cons_False by (simpl; congruence). by apply IH.
Qed.

(** ** Routing *)

Section routing.
Context `{X : ExchangeOps}.

Lemma route_rows_foldl count (xs : list (nat * string)) init p :
  foldl (λ (indices : list (list nat)) (x : nat * string),
           list_alter (λ rows, rows ++ [x.1]) (N.to_nat (crc32 x.2 mod count)) indices) init xs !! p =
  (λ rows, rows ++ (base.filter (λ x : nat * nat, x.2 = p)
    ((λ x, (x.1, N.to_nat (crc32 x.2 mod count))) <$> xs)).*1) <$> init !! p.
Proof.
  revert init. induction xs as [|[i k] xs IH]; intros init; cbn [foldl].
  { destruct (init !! p); [|done]. simpl. by rewrite app_nil_r. }
  rewrite IH, lookup_list_alter, fmap_cons. simpl.
  destruct (decide (N.to_nat (crc32 k mod count) = p)) as [Hp|Hp].
  - rewrite filter_cons_True by done. destruct (init !! p); [|done]. simpl. by rewrite <-app_assoc.
  - by rewrite filter_cons_False.
Qed.

Lemma route_rows_lookup count keys (g : nat → string) n p rows :
  keys = g <$> seq 0 n → route_rows count keys !! p = Some rows →
  rows = (base.filter (λ x : nat * nat, x.2 = p)
    ((λ j, (j, N.to_nat (crc32 (g j) mod count))) <$> seq 0 n)).*1.
Proof.
  intros -> Hr. unfold route_rows in Hr. rewrite route_rows_foldl in Hr. unfold enumerate in Hr.
  rewrite enumerate_fmap_seq in Hr. destruct (replicate _ _ !! p) as [r|] eqn:E; [|done].
  apply lookup_replicate in E as [-> _]. simpl in Hr. injection Hr as <-.
  by rewrite <-list_fmap_compose.
Qed.

Lemma length_route_rows count keys : length (route_rows count keys) = N.to_nat count.
Proof.
  unfold route_rows. rewrite <-(length_replicate (N.to_nat count) (@nil nat)) at 2.
  generalize (replicate (N.to_nat count) (@nil nat)). generalize (enumerate keys) as xs.
  induction xs as [|x xs IH]; intros init; cbn [foldl]; [done|].
  rewrite IH. apply length_alter.
Qed.
End routing.

Lemma rows_filtered n p (g : nat → nat) i :
  i ∈ (base.filter (λ x : nat * nat, x.2 = p) ((λ j, (j, g j)) <$> seq 0 n)).*1 → i < n.
Proof.
  intros Hi. apply list_elem_of_fmap in Hi as ([j q] & -> & Hj).
  apply list_elem_of_filter in Hj as [_ Hj]. apply list_elem_of_fmap in Hj as (j' & [= -> ->] & Hj).
  apply elem_of_seq in Hj. simpl. lia.
Qed.

(** ** The destinations *)

(** Destination [q] of [outs'] is that of [outs] with the rows [new q] added. *)
Definition extends (new : nat → list (list (option cell))) (outs outs' : list PartitionOutput) : Prop :=
  Forall2 (λ o o', po_partition o' = po_partition o) outs outs' ∧
  ∀ q o o', outs !! q = Some o → outs' !! q = Some o' →
    rows_of (po_batches o') = rows_of (po_batches o) ++ new q.

Lemma extends_refl new outs : (∀ q, new q = []) → extends new outs outs.
Proof.
  intros Hn. split; [apply Forall2_same_length_lookup; split; [done|]; intros; by simplify_eq|].
  intros q o o' Ho Ho'. simplify_eq. by rewrite Hn, app_nil_r.
Qed.

Lemma extends_trans n1 n2 n3 o1 o2 o3 :
  (∀ q, q < length o1 → n3 q = n1 q ++ n2 q) → extends n1 o1 o2 → extends n2 o2 o3 → extends n3 o1 o3.
Proof.
  intros Hn [L1 H1] [L2 H2]. split.
  { apply Forall2_same_length_lookup. apply Forall2_length in L1 as E1, L2 as E2.
    split; [congruence|]. intros i x z Hx Hz. destruct (Forall2_lookup_l _ _ _ _ _ L1 Hx) as (y & Hy & E).
    rewrite <-E. by eapply (Forall2_lookup_lr _ _ _ _ _ _ L2). }
  intros q o o' Ho Ho'. destruct (Forall2_lookup_l _ _ _ _ _ L1 Ho) as (om & Hom & _).
  rewrite (H2 q om o' Hom Ho'), (H1 q o om Ho Hom), Hn by (by eapply lookup_lt_Some).
  by rewrite app_assoc.
Qed.

Section destinations.
Context `{K : Kernels, B : BatchOps, C : RowConverter, !RowLaws C, Z : Sizes, X : ExchangeOps}.
Context `{!ExchangeLaws B X} (memory : TaskMemory) (schema : Schema).

(** The rows taken from a batch. *)
Lemma taken_rows b idx arrays output :
  Forall (λ i, i < b_rows b) idx → Forall (array_ok (b_rows b)) (b_columns b) →
  collect (λ a, take_array a idx) (b_columns b) = Ok arrays → try_new schema arrays = Ok output →
  batch_cells output = cells_at (b_columns b) <$> idx.
Proof.
  intros Hidx Hok Ha Ho. apply law_try_new in Ho as (Hne & Hcols & Hlen). apply collect_ok in Ha.
  assert (a_cells <$> arrays = (λ a, (λ i, default None (a_cells a !! i)) <$> idx) <$> b_columns b) as Hc.
  { clear -Hidx Hok Ha ExchangeLaws0. induction Ha as [|a a' l l' Ht _ IH]; [done|].
    apply list.Forall_cons in Hok as [[Hl _] Hok]. rewrite !fmap_cons. rewrite IH by done.
    f_equal. apply law_take; [done|]. by rewrite Hl. }
  assert (b_rows output = length idx) as Hn.
  { destruct arrays as [|a arrays]; [done|]. apply list.Forall_cons in Hlen as [Hl _].
    destruct (b_columns b) as [|a0 l0]; [done|]. rewrite !fmap_cons in Hc. injection Hc as Hc _.
    by rewrite <-Hl, Hc, length_fmap. }
  unfold batch_cells. rewrite Hcols, Hn. apply list_eq. intros i. rewrite !list_lookup_fmap.
  destruct (idx !! i) as [j|] eqn:Ej.
  - rewrite lookup_seq_lt by (by eapply lookup_lt_Some). simpl. f_equal. unfold cells_at.
    change (λ a, default None (a_cells a !! i)) with ((λ l : list (option cell), default None (l !! i)) ∘ a_cells).
    rewrite list_fmap_compose, Hc, <-list_fmap_compose. apply list_fmap_ext. intros _ a _. simpl.
    by rewrite list_lookup_fmap, Ej.
  - rewrite lookup_seq_ge by (by apply lookup_ge_None). done.
Qed.

Lemma push_output_extends b aside outs x outs' :
  Forall (λ i, i < b_rows b) x.2 → Forall (array_ok (b_rows b)) (b_columns b) →
  push_output memory schema b aside outs x = Ok outs' →
  extends (λ q, if decide (q = x.1) then cells_at (b_columns b) <$> x.2 else []) outs outs'.
Proof.
  destruct x as [p idx]. simpl. intros Hidx Hok Hp. unfold push_output in Hp. simpl in Hp.
  destruct (decide (idx = [])) as [->|Hne].
  { injection Hp as <-. apply extends_refl. intros q. by destruct (decide _). }
  apply bind_ok in Hp as (arrays & Ha & Hp). apply bind_ok in Hp as (output & Ho & Hp).
  apply bind_ok in Hp as (o & Hlook & Hp). apply bind_ok in Hp as (own & _ & [= <-]).
  destruct (outs !! p) as [o'|] eqn:Ep; [|done]. injection Hlook as ->.
  split.
  { apply Forall2_same_length_lookup. rewrite length_insert. split; [done|]. intros i x y Hx Hy.
    apply list_lookup_insert_Some in Hy as [(-> & <- & _)|[_ Hy]]; by simplify_eq. }
  intros q a a' Hq Hq'. apply list_lookup_insert_Some in Hq' as [(-> & <- & _)|[Hne' Hq']]; simplify_eq.
  - rewrite decide_True by done. simpl. rewrite rows_of_app. f_equal. unfold rows_of. cbn.
    rewrite app_nil_r. by eapply taken_rows.
  - rewrite decide_False by done. by rewrite app_nil_r.
Qed.
Lemma key_columns e b columns i :
  collect (λ c, expect (b_columns b !! N.to_nat c) "index out of bounds") (he_columns e) = Ok columns →
  Forall (λ a, a ∈ b_columns b) columns ∧ cells_at columns i = key_cells e (cells_at (b_columns b) i).
Proof.
  intros Hc. apply collect_ok in Hc. unfold key_cells, cells_at.
  induction Hc as [|c a cs columns Ha _ [IH1 IH2]]; [by split|].
  destruct (b_columns b !! N.to_nat c) as [a'|] eqn:E; [|done]. injection Ha as ->. split.
  - constructor; [by eapply list_elem_of_lookup_2|done].
  - rewrite !fmap_cons, IH2. f_equal. by rewrite list_lookup_fmap, E.
Qed.

Lemma repartition_batch_extends e outs b outs' :
  Forall (array_ok (b_rows b)) (b_columns b) → length outs = N.to_nat (he_partition_count e) →
  repartition_batch memory schema e (MkRowKeyEncoder (exchange_types schema e)) outs b = Ok outs' →
  extends (λ q, base.filter (λ r, row_partition schema e r = q) (batch_cells b)) outs outs'.
Proof.
  intros Hok Hlen Hr. unfold repartition_batch in Hr.
  apply bind_ok in Hr as (columns & Hc & Hr). apply bind_ok in Hr as (keys & Hk & Hr).
  apply bind_ok in Hr as (kb & _ & Hr). apply bind_ok in Hr as (ib & _ & Hr).
  assert (Forall (array_ok (b_rows b)) columns) as Hcok.
  { destruct (key_columns _ _ _ 0 Hc) as [Hin _]. eapply list.Forall_impl; [exact Hin|].
    intros a Ha. rewrite list.Forall_forall in Hok. by apply Hok. }
  apply encode_spec in Hk as [Hkl Hk]; [|done].
  set (k := MkRowKeyEncoder (exchange_types schema e)) in *.
  apply (lookup_eq_fmap_seq keys (λ i, key_of k (cells_at columns i))) in Hkl as Hkeys;
    [|intros i Hi; by apply Hk].
  set (g := λ i, key_of k (cells_at columns i)) in *.
  set (routes := route_rows (he_partition_count e) keys) in *.
  assert (∀ p idx, routes !! p = Some idx → Forall (λ i, i < b_rows b) idx ∧
    cells_at (b_columns b) <$> idx = base.filter (λ r, row_partition schema e r = p) (batch_cells b)) as Hrt.
  { intros p idx Hp. apply (route_rows_lookup _ _ _ _ _ _ Hkeys) in Hp as ->. split.
    - apply list.Forall_forall. intros i. apply rows_filtered.
    - apply filter_positions. intros i _. unfold row_partition, g. subst k.
      by rewrite (proj2 (key_columns _ _ _ i Hc)). }
  apply (fold_result_invariant _ (λ pre o, extends
    (λ q, if decide (q < length pre) then cells_at (b_columns b) <$> default [] (routes !! q) else [])
    outs o)) in Hr.
  - eapply (extends_trans _ (λ _, [])); [|exact Hr|by apply extends_refl]. intros q Hq.
    unfold enumerate. rewrite length_enumerate_from, app_nil_r. subst routes.
    destruct (lookup_lt_is_Some_2 (route_rows (he_partition_count e) keys) q) as [idx Hidx];
      [rewrite length_route_rows; lia|].
    rewrite decide_True by (by eapply lookup_lt_Some). rewrite Hidx. simpl. symmetry. by apply Hrt.
  - intros pre x post s s' Hsp Hi Hstep. apply enumerate_split in Hsp as [H1 H2].
    apply push_output_extends in Hstep; [|by apply (Hrt _ _ H2)|done].
    eapply extends_trans; [|exact Hi|exact Hstep].
    intros q _. simpl. rewrite length_app. simpl. rewrite H1 in *.
    repeat case_decide; try lia; subst; rewrite ?H2; simpl; by rewrite ?app_nil_r.
  - apply extends_refl. intros q. by rewrite decide_False by (simpl; lia).
Qed.

Lemma repartition_extends e batches outs outs' :
  Forall (λ b, Forall (array_ok (b_rows b)) (b_columns b)) batches →
  length outs = N.to_nat (he_partition_count e) →
  fold_result (repartition_batch memory schema e (MkRowKeyEncoder (exchange_types schema e))) outs batches
    = Ok outs' →
  extends (λ q, base.filter (λ r, row_partition schema e r = q) (rows_of batches)) outs outs'.
Proof.
  intros Hok Hlen Hf.
  apply (fold_result_invariant _ (λ pre o, length o = N.to_nat (he_partition_count e) ∧
    extends (λ q, base.filter (λ r, row_partition schema e r = q) (rows_of pre)) outs o)) in Hf as [_ Hf];
    [done| |by split; [|apply extends_refl]].
  intros pre b post s s' Hsp [Hl Hi] Hstep. rewrite Hsp in Hok.
  apply list.Forall_app in Hok as [_ Hok]. apply list.Forall_cons in Hok as [Hb _].
  pose proof (repartition_batch_extends e s b s' Hb Hl Hstep) as He. split.
  - rewrite <-Hl. symmetry. eapply Forall2_length, He.
  - eapply extends_trans; [|exact Hi|exact He]. intros q _. simpl.
    rewrite rows_of_app, list.filter_app. do 2 f_equal. unfold rows_of. cbn. by rewrite app_nil_r.
Qed.

Lemma exchange_types_spec e types k :
  collect (λ c, f ← expect (schema !! N.to_nat c) "index out of bounds"; Ok (f_type f)) (he_columns e)
    = Ok types → RowKeyEncoder_new types = Ok k → k = MkRowKeyEncoder (exchange_types schema e).
Proof.
  intros Ht Hk. assert (types = exchange_types schema e) as ->.
  { clear Hk. apply collect_ok in Ht. unfold exchange_types.
    induction Ht as [|c t cs ts Hc _ IH]; [done|]. rewrite fmap_cons, <-IH. f_equal.
    destruct (schema !! N.to_nat c); [|done]. simpl in *. by injection Hc as <-. }
  unfold RowKeyEncoder_new in Hk. destruct (decide _) as [E|]; [rewrite E; by injection Hk as <-|].
  destruct (converter_supported _); [by injection Hk as <-|done].
Qed.

(** The destinations before any row. *)
Lemma initial_outputs n outs :
  collect (λ p, own ← try_reserve memory 0 0; Ok (MkPartitionOutput p [] own)) (N.of_nat <$> seq 0 n)
    = Ok outs →
  length outs = n ∧
  (∀ q o, outs !! q = Some o → po_partition o = N.of_nat q ∧ rows_of (po_batches o) = []).
Proof.
  intros Hc. apply collect_ok in Hc. split.
  { apply Forall2_length in Hc. by rewrite <-Hc, length_fmap, length_seq. }
  intros q o Ho. destruct (Forall2_lookup_r _ _ _ _ _ Hc Ho) as (p & Hp & He).
  rewrite list_lookup_fmap in Hp. destruct (seq 0 n !! q) as [q'|] eqn:E; [|done].
  apply lookup_seq in E as [-> _]. injection Hp as <-. apply bind_ok in He as (own & _ & [= <-]). done.
Qed.

Lemma repartition_spec e batches outs :
  Forall (λ b, Forall (array_ok (b_rows b)) (b_columns b)) batches →
  repartition memory schema batches e = Ok outs →
  length outs = N.to_nat (he_partition_count e) ∧ (0 < he_partition_count e)%N ∧
  ∀ q o, outs !! q = Some o → po_partition o = N.of_nat q ∧
    rows_of (po_batches o) = base.filter (λ r, row_partition schema e r = q) (rows_of batches).
Proof.
  intros Hok Hr. unfold repartition in Hr. destruct (invalid_exchange schema e) eqn:Ev; [done|].
  apply bind_ok in Hr as (types & Ht & Hr). apply bind_ok in Hr as (k & Hk & Hr).
  rewrite (exchange_types_spec _ _ _ Ht Hk) in Hr. apply bind_ok in Hr as (init & Hi & Hr).
  apply initial_outputs in Hi as [Hl Hi]. apply repartition_extends in Hr as [H1 H2]; [|done|done].
  split_and!.
  - rewrite <-Hl. symmetry. by eapply Forall2_length.
  - unfold invalid_exchange in Ev. apply orb_false_iff in Ev as [Ev _].
    apply orb_false_iff in Ev as [Ev%bool_decide_eq_false_1 _]. lia.
  - intros q o Ho. destruct (Forall2_lookup_r _ _ _ _ _ H1 Ho) as (o0 & Ho0 & E).
    destruct (Hi q o0 Ho0) as [P1 P2]. rewrite E, (H2 q o0 o Ho0 Ho), P1, P2. done.
Qed.
End destinations.

(** ** The rows, put together again *)

Lemma filter_below {A} (f : A → nat) n l :
  base.filter (λ x, f x < S n) l ≡ₚ base.filter (λ x, f x < n) l ++ base.filter (λ x, f x = n) l.
Proof.
  induction l as [|x l IH]; [done|]. destruct (decide (f x = n)) as [E|E].
  - rewrite (filter_cons_True (λ x, f x < S n)), (filter_cons_False (λ x, f x < n)),
      (filter_cons_True (λ x, f x = n)) by lia. rewrite IH. apply Permutation_middle.
  - rewrite (filter_cons_False (λ x, f x = n)) by lia. destruct (decide (f x < n)).
    + rewrite !(filter_cons_True (λ x, f x < _)) by lia. cbn. by rewrite IH.
    + rewrite !(filter_cons_False (λ x, f x < _)) by lia. done.
Qed.

Lemma filter_classes {A} (f : A → nat) n l :
  Forall (λ x, f x < n) l → (seq 0 n ≫= λ p, base.filter (λ x, f x = p) l) ≡ₚ l.
Proof.
  intros Hf. transitivity (base.filter (λ x, f x < n) l).
  - clear Hf. induction n as [|n IH].
    + cbn. induction l as [|x l IH]; [done|]. by rewrite filter_cons_False by lia.
    + rewrite seq_S, bind_app, IH, filter_below. cbn. by rewrite app_nil_r.
  - induction Hf as [|x l Hx _ IH]; [done|]. by rewrite filter_cons_True, IH.
Qed.

Lemma bind_lookup_seq {A B} (l : list A) (f : A → list B) (g : nat → list B) :
  (∀ i x, l !! i = Some x → f x = g i) → l ≫= f = seq 0 (length l) ≫= g.
Proof.
  revert g. induction l as [|x l IH]; intros g Hg; [done|].
  cbn [length seq]. rewrite !bind_cons, (Hg 0 x eq_refl), (IH (λ i, g (S i))).
  - f_equal. rewrite <-fmap_S_seq. by rewrite list_fmap_bind.
  - intros i y Hy. by apply (Hg (S i)).
Qed.

Lemma list_bind_assoc {A B D} (f : A → list B) (g : B → list D) l :
  (l ≫= f) ≫= g = l ≫= λ x, f x ≫= g.
Proof. induction l as [|x l IH]; [done|]. by rewrite !bind_cons, bind_app, IH. Qed.

(** ** Joining destination by destination *)

(** The join of two sides on their exchange keys, as rows. *)
Definition cell_join (jt : JoinType) (width : nat) (el er : HashExchange)
    (L R : list (list (option cell))) : list (list (option cell)) :=
  L ≫= λ l,
    match base.filter (λ r, no_null (key_cells el l) = true ∧ key_cells er r = key_cells el l) R, jt with
    | [], JoinLeft => [l ++ replicate width None]
    | ms, _ => (λ r, l ++ r) <$> ms
    end.

Lemma filter_class {A} (P : A → Prop) `{!∀ x, Decision (P x)} (f : A → nat) p (l : list A) :
  (∀ x, P x → f x = p) → base.filter P (base.filter (λ x, f x = p) l) = base.filter P l.
Proof.
  intros Hp. induction l as [|x l IH]; [done|]. destruct (decide (f x = p)) as [E|E].
  - rewrite (filter_cons_True (λ x, f x = p)) by done. rewrite !filter_cons. by rewrite IH.
  - rewrite (filter_cons_False (λ x, f x = p)) by done. rewrite (filter_cons_False P) by naive_solver.
    done.
Qed.

Section copartitioned.
Context `{C : RowConverter, !RowLaws C, X : ExchangeOps}.

Lemma row_partition_key ls rs el er l r :
  exchange_types ls el = exchange_types rs er → he_partition_count el = he_partition_count er →
  key_cells er r = key_cells el l → row_partition rs er r = row_partition ls el l.
Proof. unfold row_partition. by intros -> -> ->. Qed.

Lemma row_partition_lt ls el r :
  (0 < he_partition_count el)%N → row_partition ls el r < N.to_nat (he_partition_count el).
Proof.
  intros Hc. unfold row_partition.
  pose proof (N.mod_lt (crc32 (key_of (MkRowKeyEncoder (exchange_types ls el)) (key_cells el r)))
    (he_partition_count el)). lia.
Qed.

Lemma cell_join_class jt w ls rs el er L R p :
  exchange_types ls el = exchange_types rs er → he_partition_count el = he_partition_count er →
  cell_join jt w el er (base.filter (λ l, row_partition ls el l = p) L)
    (base.filter (λ r, row_partition rs er r = p) R) =
  base.filter (λ l, row_partition ls el l = p) L ≫= λ l, cell_join jt w el er [l] R.
Proof.
  intros Ht Hc. unfold cell_join at 1. induction L as [|l L IH]; [done|].
  destruct (decide (row_partition ls el l = p)) as [E|E];
    [|by rewrite filter_cons_False].
  rewrite filter_cons_True by done. rewrite !bind_cons, IH. f_equal.
  rewrite filter_class by (intros r [_ Hr]; rewrite <-E; by apply row_partition_key).
  unfold cell_join. cbn. by rewrite app_nil_r.
Qed.

Lemma cell_join_bind jt w el er L R : cell_join jt w el er L R = L ≫= λ l, cell_join jt w el er [l] R.
Proof.
  induction L as [|l L IH]; [done|]. rewrite bind_cons, <-IH. unfold cell_join. cbn. by rewrite app_nil_r.
Qed.
End copartitioned.

(** ** The properties *)

(** The exchange partitions a task's rows: it returns one output for every
    destination, numbered in order; destination [q] holds exactly the rows whose key
    hashes to [q], in input order, over all batches; and put together the outputs
    are the input rows, none lost and none twice. *)
Theorem repartition_routes_rows
    `{B : BatchOps, C : RowConverter, !RowLaws C, Z : Sizes, X : ExchangeOps, !ExchangeLaws B X}
    memory schema batches e outs :
  Forall (λ b, Forall (array_ok (b_rows b)) (b_columns b)) batches →
  repartition memory schema batches e = Ok outs →
  po_partition <$> outs = N.of_nat <$> seq 0 (N.to_nat (he_partition_count e)) ∧
  (∀ q o, outs !! q = Some o →
    rows_of (po_batches o) = base.filter (λ r, row_partition schema e r = q) (rows_of batches)) ∧
  (outs ≫= λ o, rows_of (po_batches o)) ≡ₚ rows_of batches.
Proof.
  intros Hok Hr. apply repartition_spec in Hr as (Hl & Hc & Ho); [|done]. split_and!.
  - rewrite <-Hl. apply lookup_eq_fmap_seq; [by rewrite length_fmap|]. intros i Hi.
    destruct (lookup_lt_is_Some_2 outs i Hi) as [o Hi']. rewrite list_lookup_fmap, Hi'. simpl.
    by rewrite (proj1 (Ho _ _ Hi')).
  - intros q o Hq. by apply Ho.
  - rewrite (bind_lookup_seq outs _ (λ q, base.filter (λ r, row_partition schema e r = q) (rows_of batches)))
      by (intros i o Hi; by apply Ho).
    rewrite Hl. apply filter_classes. apply list.Forall_forall. intros r _. by apply row_partition_lt.
Qed.

(** C32: a distributed join may be run destination by destination.  When two tasks
    route their outputs by keys of the same types into the same number of
    destinations, the joins of the destinations, side by side, are together the join
    of all rows: inner or left, whatever the batches and the memory budgets, since
    rows with equal keys always meet at one destination. *)
Theorem repartition_join_locally
    `{B : BatchOps, C : RowConverter, !RowLaws C, Z : Sizes, X : ExchangeOps, !ExchangeLaws B X}
    lm rm ls rs lefts rights el er louts routs jt width :
  Forall (λ b, Forall (array_ok (b_rows b)) (b_columns b)) lefts →
  Forall (λ b, Forall (array_ok (b_rows b)) (b_columns b)) rights →
  exchange_types ls el = exchange_types rs er → he_partition_count el = he_partition_count er →
  repartition lm ls lefts el = Ok louts → repartition rm rs rights er = Ok routs →
  (zip louts routs ≫= λ x, cell_join jt width el er (rows_of (po_batches x.1)) (rows_of (po_batches x.2)))
    ≡ₚ cell_join jt width el er (rows_of lefts) (rows_of rights).
Proof.
  intros Hlok Hrok Ht Hc Hl Hr. apply repartition_spec in Hl as (Ll & Lc & Lo); [|done].
  apply repartition_spec in Hr as (Rl & _ & Ro); [|done].
  rewrite (bind_lookup_seq (zip louts routs) _ (λ p,
    base.filter (λ l, row_partition ls el l = p) (rows_of lefts) ≫= λ l, cell_join jt width el er [l] (rows_of rights))).
  2:{ intros p [o o'] Hp. apply lookup_zip_Some in Hp as [Hp Hp']. simpl.
      rewrite (proj2 (Lo _ _ Hp)), (proj2 (Ro _ _ Hp')). by apply cell_join_class. }
  rewrite length_zip_with, Ll, Rl, Hc, Nat.min_id, <-Hc.
  rewrite cell_join_bind, <-list_bind_assoc. apply bind_Permutation, filter_classes.
  apply list.Forall_forall. intros r _. by apply row_partition_lt.
Qed.

(** ** A worked exchange *)

(** A checksum of the bytes in the place of the CRC. *)
#[export] Instance demo_exchange_ops : ExchangeOps := {
  take_array a idx :=
    if forallb (λ i, bool_decide (i < length (a_cells a))) idx
    then Ok (MkArray (a_type a) ((λ i, default None (a_cells a !! i)) <$> idx))
    else Err (Arrow "take index out of bounds");
  crc32 s := foldl (λ acc b, (acc * 31 + Ascii.N_of_ascii b) mod 2 ^ 32)%N 7%N (String.list_ascii_of_string s);
}.

#[export] Instance demo_exchange_laws : ExchangeLaws demo_batch_ops demo_exchange_ops.
Proof.
  split.
  - intros a idx a' Ht _. cbn in Ht. destruct (forallb _ _); [by injection Ht as <-|done].
  - intros schema columns b Hb. cbn in Hb. destruct columns as [|a cs]; [done|].
    destruct (bool_decide _ && _) eqn:E; [|done]. injection Hb as <-.
    apply andb_true_iff in E as [_ E]. split_and!; [done|done|]. cbn [b_rows].
    apply list.Forall_forall. intros x Hx. unfold all_rows in E. rewrite forallb_forall in E.
    specialize (E x). rewrite bool_decide_eq_true in E. apply E. by apply list_elem_of_In.
Qed.

(** The orders by customer, and the customers by identifier, over four tasks. *)
Definition demo_left_exchange : HashExchange := MkHashExchange [1%N] 4.
Definition demo_right_exchange : HashExchange := MkHashExchange [0%N] 4.

Lemma demo_exchange_ok :
  Forall (λ b, Forall (array_ok (b_rows b)) (b_columns b)) [demo_orders; demo_orders] ∧
  Forall (λ b, Forall (array_ok (b_rows b)) (b_columns b)) [demo_customers].
Proof.
  destruct demo_orders_ok as [[_ H1] [_ H2]]. apply Forall2_Forall_r with (Q := λ a, array_ok 3 a) in H1.
  2:{ apply list.Forall_forall. by intros f _ a [_ Ha]. }
  apply Forall2_Forall_r with (Q := λ a, array_ok 2 a) in H2.
  2:{ apply list.Forall_forall. by intros f _ a [_ Ha]. }
  split; [constructor; [exact H1|]; constructor; [exact H1|constructor]|].
  constructor; [exact H2|constructor].
Qed.

Lemma repartition_routes_rows_witness :
  ∃ outs,
    repartition demo_task_memory (b_schema demo_orders) [demo_orders; demo_orders] demo_left_exchange = Ok outs ∧
    length outs = 4 ∧ (outs ≫= λ o, rows_of (po_batches o)) ≡ₚ rows_of [demo_orders; demo_orders].
Proof.
  eexists. split; [vm_compute; reflexivity|]. split; [reflexivity|].
  eapply (repartition_routes_rows demo_task_memory (b_schema demo_orders) [demo_orders; demo_orders]
    demo_left_exchange); [apply demo_exchange_ok|vm_compute; reflexivity].
Defined.

Lemma repartition_join_locally_witness :
  ∃ louts routs,
    repartition demo_task_memory (b_schema demo_orders) [demo_orders; demo_orders] demo_left_exchange = Ok louts ∧
    repartition demo_task_memory (b_schema demo_customers) [demo_customers] demo_right_exchange = Ok routs ∧
    (zip louts routs ≫= λ x, cell_join JoinLeft 2 demo_left_exchange demo_right_exchange
       (rows_of (po_batches x.1)) (rows_of (po_batches x.2)))
    ≡ₚ cell_join JoinLeft 2 demo_left_exchange demo_right_exchange
         (rows_of [demo_orders; demo_orders]) (rows_of [demo_customers]).
Proof.
  eexists _, _. split; [vm_compute; reflexivity|]. split; [vm_compute; reflexivity|].
  eapply (repartition_join_locally demo_task_memory demo_task_memory (b_schema demo_orders)
    (b_schema demo_customers) [demo_orders; demo_orders] [demo_customers] demo_left_exchange
    demo_right_exchange); [apply demo_exchange_ok|apply demo_exchange_ok|reflexivity|reflexivity
    |vm_compute; reflexivity|vm_compute; reflexivity].
Defined.
