(* ===== verification/PlanCodec.v ===== *)
(** * The plan codec ([src/cluster/plan_codec.rs])

    Physical plans as the messages that cross the wire, and back.  Scan nodes carry
    a table name and a schema, not a provider: decoding looks the table up in the
    worker's catalog and checks every schema again.

    Tables and plans of the model carry no Arrow metadata.  Messages may: a decoded
    schema has the metadata of its fields and its own, and a decoded plan comes with
    the metadata of its output schema, which filters, sorts and limits pass on. *)
From S2P Require Import Prelude Text Protocol Float Expr Logical Catalog Physical.

Definition PLAN_CODEC_VERSION : N := 2.
Definition MAX_PLAN_FRAGMENT_BYTES : N := 16 * 1024 * 1024.
Definition MAX_PLAN_DEPTH : nat := 128.

(** ** Messages *)

Record WireKeyValue := MkWireKeyValue { kv_key : string; kv_value : string }.

Record WireField := MkWireField {
  wf_name : string;
  wf_data_type : Z;
  wf_nullable : bool;
  wf_metadata : list WireKeyValue;
}.

Record WireSchema := MkWireSchema { ws_fields : list WireField; ws_metadata : list WireKeyValue }.

Inductive WireScalarValue :=
| WNull (marker : bool)
| WBoolean (b : bool)
| WInt64 (z : Z)
| WUInt64 (n : N)
| WFloat64 (bits : N)
| WUtf8 (s : string).

Record WireScalar := MkWireScalar { wsc_value : option WireScalarValue }.

(** [WireExpr] is a message with one optional [Kind]; boxed operands are optional
    too. *)
Inductive WireExpr :=
| MkWireExpr (kind : option WireExprKind)
with WireExprKind :=
| WColumn (name : string)
| WLiteral (value : WireScalar)
| WBinary (left : option WireExpr) (operator : Z) (right : option WireExpr)
| WIsNull (expr : option WireExpr) (negated : bool)
| WCast (expr : option WireExpr) (data_type : Z)
| WAlias (expr : option WireExpr) (alias : string)
| WAggregate (function : Z) (expr : option WireExpr) (distinct : bool)
| WWildcard (marker : bool).

Record WireSortExpr := MkWireSortExpr {
  wso_expr : option WireExpr;
  wso_ascending : bool;
  wso_nulls_first : bool;
}.

Inductive WirePlan :=
| MkWirePlan (kind : option WirePlanKind)
with WirePlanKind :=
| WScan (id : N) (table_name : string) (has_projection : bool) (projection : list N)
    (filters : list WireExpr) (schema : option WireSchema)
| WProjection (id : N) (input : option WirePlan) (exprs : list WireExpr) (schema : option WireSchema)
| WFilter (id : N) (input : option WirePlan) (predicate : option WireExpr) (schema : option WireSchema)
| WHashAggregate (id : N) (input : option WirePlan) (group_exprs aggregate_exprs : list WireExpr)
    (schema : option WireSchema)
| WSort (id : N) (input : option WirePlan) (exprs : list WireSortExpr) (schema : option WireSchema)
| WTopK (id : N) (input : option WirePlan) (exprs : list WireSortExpr) (limit : N)
    (schema : option WireSchema)
| WLimit (id : N) (input : option WirePlan) (limit : N) (schema : option WireSchema)
| WHashJoin (id : N) (left right : option WirePlan) (join_type : Z) (left_on right_on : list WireExpr)
    (schema : option WireSchema).

Record WirePlanEnvelope := MkWirePlanEnvelope { we_version : N; we_root : option WirePlan }.

(** Protobuf: [encode_to_vec] and [decode], with the text of a decoding error. *)
Class Protobuf := {
  encode_to_vec : WirePlanEnvelope → list N;
  decode_message : list N → WirePlanEnvelope + string;
}.

(** ** Helpers *)

Definition codec_error {A} (message : string) : result A :=
  Err (Prelude.Protocol ("invalid physical plan fragment: " +:+ message)).

Definition required {A} (value : option A) (name : string) : result A :=
  match value with Some a => Ok a | None => codec_error (name +:+ " is missing") end.

Definition validate_fragment_size (bytes : N) : result unit :=
  if (bytes =? 0)%N then codec_error "plan fragment must not be empty"
  else if (MAX_PLAN_FRAGMENT_BYTES <? bytes)%N
  then codec_error ("plan fragment is " +:+ pretty bytes +:+ " bytes; maximum is " +:+
                    pretty MAX_PLAN_FRAGMENT_BYTES +:+ " bytes")
  else Ok tt.

Definition check_depth (depth : nat) : result unit :=
  if (MAX_PLAN_DEPTH <=? depth)%nat
  then codec_error ("plan exceeds maximum nesting depth " +:+ pretty (N.of_nat MAX_PLAN_DEPTH))
  else Ok tt.

Definition checked_u32 (value : nat) (name : string) : result N :=
  if (N.of_nat value <=? U32_MAX)%N then Ok (N.of_nat value)
  else codec_error (name +:+ " " +:+ pretty (N.of_nat value) +:+ " exceeds u32").

(** [usize] is 64 bits wide, so neither conversion fails. *)
Definition checked_u64 (value : N) (name : string) : result N :=
  if (value <=? U64_MAX)%N then Ok value
  else codec_error (name +:+ " " +:+ pretty value +:+ " exceeds u64").
Definition checked_usize (value : N) (name : string) : result N :=
  if (value <=? U64_MAX)%N then Ok value
  else codec_error (name +:+ " " +:+ pretty value +:+ " exceeds usize").

(** ** Codes *)

Definition encode_operator (op : Operator) : Z :=
  match op with
  | OpEq => 0 | OpNotEq => 1 | OpLt => 2 | OpLtEq => 3 | OpGt => 4 | OpGtEq => 5 | OpAnd => 6
  | OpOr => 7 | OpAdd => 8 | OpSubtract => 9 | OpMultiply => 10 | OpDivide => 11
  end.

Definition decode_operator (value : Z) : result Operator :=
  match value with
  | 0 => Ok OpEq | 1 => Ok OpNotEq | 2 => Ok OpLt | 3 => Ok OpLtEq | 4 => Ok OpGt | 5 => Ok OpGtEq
  | 6 => Ok OpAnd | 7 => Ok OpOr | 8 => Ok OpAdd | 9 => Ok OpSubtract | 10 => Ok OpMultiply
  | 11 => Ok OpDivide
  | _ => codec_error ("unknown expression operator code " +:+ pretty value)
  end%Z.

Definition encode_aggregate_function (f : AggregateFunction) : Z :=
  match f with Count => 0 | Sum => 1 | Min => 2 | Max => 3 | Avg => 4 | SumUInt64 => 5 end.

Definition decode_aggregate_function (value : Z) : result AggregateFunction :=
  match value with
  | 0 => Ok Count | 1 => Ok Sum | 2 => Ok Min | 3 => Ok Max | 4 => Ok Avg | 5 => Ok SumUInt64
  | _ => codec_error ("unknown aggregate function code " +:+ pretty value)
  end%Z.

Definition encode_join_type (t : JoinType) : Z := match t with Inner => 0 | JoinLeft => 1 end.

Definition decode_join_type (value : Z) : result JoinType :=
  match value with
  | 0 => Ok Inner | 1 => Ok JoinLeft
  | _ => codec_error ("unknown join type code " +:+ pretty value)
  end%Z.

Definition encode_data_type (t : DataType) : result Z :=
  match t with
  | DtNull => Ok 0 | DtBoolean => Ok 1 | DtInt32 => Ok 2 | DtInt64 => Ok 3 | DtUInt32 => Ok 4
  | DtUInt64 => Ok 5 | DtFloat32 => Ok 6 | DtFloat64 => Ok 7 | DtUtf8 => Ok 8
  | other => codec_error ("Arrow data type " +:+ display_type other +:+
                          " is not supported by plan codec version " +:+ pretty PLAN_CODEC_VERSION)
  end%Z.

Definition decode_data_type (value : Z) : result DataType :=
  match value with
  | 0 => Ok DtNull | 1 => Ok DtBoolean | 2 => Ok DtInt32 | 3 => Ok DtInt64 | 4 => Ok DtUInt32
  | 5 => Ok DtUInt64 | 6 => Ok DtFloat32 | 7 => Ok DtFloat64 | 8 => Ok DtUtf8
  | _ => codec_error ("unknown Arrow data-type code " +:+ pretty value)
  end%Z.

(** ** Schemas *)

Abbreviation metadata := (gmap string string).

Definition encode_metadata (m : metadata) : list WireKeyValue :=
  (λ x, MkWireKeyValue x.1 x.2) <$> btree_iter m.

Definition decode_metadata_entry (m : metadata) (e : WireKeyValue) : result metadata :=
  match m !! kv_key e with
  | Some _ => codec_error ("schema metadata key '" +:+ kv_key e +:+ "' appears more than once")
  | None => Ok (<[kv_key e := kv_value e]> m)
  end.

Fixpoint decode_metadata_from (m : metadata) (entries : list WireKeyValue) : result metadata :=
  match entries with
  | [] => Ok m
  | e :: entries => m ← decode_metadata_entry m e; decode_metadata_from m entries
  end.

Definition decode_metadata : list WireKeyValue → result metadata := decode_metadata_from ∅.

(** A schema of the model has no metadata. *)
Definition encode_schema (schema : Schema) : result WireSchema :=
  fields ← collect (λ f, t ← encode_data_type (f_type f);
                         Ok (MkWireField (f_name f) t (f_nullable f) (encode_metadata ∅))) schema;
  Ok (MkWireSchema fields (encode_metadata ∅)).

(** A decoded schema. *)
Record DecodedSchema := MkDecodedSchema {
  ds_fields : list (Field * metadata);
  ds_metadata : metadata;
}.

Definition ds_schema (s : DecodedSchema) : Schema := (ds_fields s).*1.

Definition decode_schema (schema : WireSchema) : result DecodedSchema :=
  fields ← collect (λ f, t ← decode_data_type (wf_data_type f);
                         m ← decode_metadata (wf_metadata f);
                         Ok (MkField (wf_name f) t (wf_nullable f), m)) (ws_fields schema);
  m ← decode_metadata (ws_metadata schema);
  Ok (MkDecodedSchema fields m).

Definition decode_required_schema (schema : option WireSchema) (operator : string)
    : result DecodedSchema :=
  s ← required schema (operator +:+ " schema"); decode_schema s.

Definition validate_schema (operator : string) (actual : DecodedSchema) (expected : Schema)
    (expected_metadata : metadata) : result unit :=
  if bool_decide (ds_fields actual = (λ f, (f, ∅)) <$> expected)
     && bool_decide (ds_metadata actual = expected_metadata)
  then Ok tt
  else codec_error (operator +:+ " output schema does not match its decoded expressions or inputs").

(** ** Expressions *)

Definition encode_scalar (v : ScalarValue) : WireScalar :=
  MkWireScalar (Some match v with
    | Null => WNull true
    | Boolean b => WBoolean b
    | Int64 z => WInt64 z
    | UInt64 n => WUInt64 n
    | Float64 bits => WFloat64 bits
    | Utf8 s => WUtf8 s
    end).

Definition decode_scalar (wire : WireScalar) : result ScalarValue :=
  v ← required (wsc_value wire) "scalar value";
  match v with
  | WNull true => Ok Null
  | WNull false => codec_error "null scalar marker must be true"
  | WBoolean b => Ok (Boolean b)
  | WInt64 z => Ok (Int64 z)
  | WUInt64 n => Ok (UInt64 n)
  | WFloat64 bits => Ok (Float64 bits)
  | WUtf8 s => Ok (Utf8 s)
  end.

Fixpoint encode_expr (e : Expr) : result WireExpr :=
  kind ← match e with
    | Column name => Ok (WColumn name)
    | Literal value => Ok (WLiteral (encode_scalar value))
    | Binary l op r =>
        l ← encode_expr l;
        r ← encode_expr r;
        Ok (WBinary (Some l) (encode_operator op) (Some r))
    | IsNull e negated => e ← encode_expr e; Ok (WIsNull (Some e) negated)
    | Cast e t => e ← encode_expr e; t ← encode_data_type t; Ok (WCast (Some e) t)
    | Alias e alias => e ← encode_expr e; Ok (WAlias (Some e) alias)
    | Aggregate function e distinct =>
        e ← encode_expr e;
        Ok (WAggregate (encode_aggregate_function function) (Some e) distinct)
    | Wildcard => Ok (WWildcard true)
    end;
  Ok (MkWireExpr (Some kind)).

Fixpoint decode_expr (wire : WireExpr) : result Expr :=
  let operand (e : option WireExpr) name :=
    match e with Some e => decode_expr e | None => required None name end in
  match wire with
  | MkWireExpr None => required None "expression kind"
  | MkWireExpr (Some kind) =>
      match kind with
      | WColumn name =>
          if trim_is_empty name then codec_error "column name must not be empty" else Ok (Column name)
      | WLiteral value => v ← decode_scalar value; Ok (Literal v)
      | WBinary l op r =>
          l ← operand l "binary left operand";
          op ← decode_operator op;
          r ← operand r "binary right operand";
          Ok (Binary l op r)
      | WIsNull e negated => e ← operand e "IS NULL operand"; Ok (IsNull e negated)
      | WCast e t => e ← operand e "cast operand"; t ← decode_data_type t; Ok (Cast e t)
      | WAlias e alias =>
          if trim_is_empty alias then codec_error "expression alias must not be empty"
          else e ← operand e "aliased expression"; Ok (Alias e alias)
      | WAggregate function e distinct =>
          function ← decode_aggregate_function function;
          e ← operand e "aggregate argument";
          Ok (Aggregate function e distinct)
      | WWildcard true => Ok Wildcard
      | WWildcard false => codec_error "wildcard marker must be true"
      end
  end.

Definition decode_exprs (exprs : list WireExpr) : result (list Expr) := collect decode_expr exprs.

Definition validate_wire_exprs (exprs : list WireExpr) : result unit :=
  for_each (λ e, _ ← decode_expr e; Ok tt) exprs.

Definition encode_sort_expr (s : SortExpr) : result WireSortExpr :=
  e ← encode_expr (s_expr s); Ok (MkWireSortExpr (Some e) (s_ascending s) (s_nulls_first s)).

Definition decode_sort_exprs (exprs : list WireSortExpr) (schema : Schema) : result (list SortExpr) :=
  decoded ← collect (λ s, w ← required (wso_expr s) "sort expression";
                          e ← decode_expr w;
                          _ ← data_type e schema;
                          Ok (MkSortExpr e (wso_ascending s) (wso_nulls_first s))) exprs;
  if decide (decoded = []) then codec_error "sort operator requires at least one expression"
  else Ok decoded.

Definition validate_wire_sort_exprs (exprs : list WireSortExpr) : result unit :=
  if decide (length exprs = 0) then codec_error "sort operator requires at least one expression"
  else for_each (λ s, w ← required (wso_expr s) "sort expression"; _ ← decode_expr w; Ok tt) exprs.

(** ** Plans *)

(** The [Display] text of an error. *)
Definition display_error (e : SparkXError) : string :=
  match e with
  | Arrow m => "Arrow error: " +:+ m
  | Parquet m => "Parquet error: " +:+ m
  | Io m => "I/O error: " +:+ m
  | Sql m => "SQL parse error: " +:+ m
  | Planning m => "planning error: " +:+ m
  | Execution m => "execution error: " +:+ m
  | Unsupported m => "unsupported operation: " +:+ m
  | Prelude.Protocol m => "protocol error: " +:+ m
  | Transport m => "transport error: " +:+ m
  | NotFound m => "resource not found: " +:+ m
  | ResourceExhausted m => "resource exhausted: " +:+ m
  | TaskSuperseded => "task attempt was superseded"
  | Cancelled => "query was cancelled"
  | ChannelClosed => "operator channel closed unexpectedly"
  end.

Definition decode_projection (has_projection : bool) (indices : list N) : result (option (list nat)) :=
  if has_projection then Ok (Some (N.to_nat <$> indices))
  else match indices with
       | [] => Ok None
       | _ => codec_error "scan projection contains indices while has_projection is false"
       end.

(** The fields of a table in the model have no metadata. *)
Definition scan_field_matches (expected : Field * metadata) (actual : Field) : bool :=
  bool_decide (unqualified (f_name expected.1) = unqualified (f_name actual))
  && bool_decide (f_type expected.1 = f_type actual)
  && bool_decide (f_nullable expected.1 = f_nullable actual)
  && bool_decide (expected.2 = ∅).

Definition validate_scan_schema (table_name : string) (provider_schema : Schema)
    (projection : option (list nat)) (fragment : DecodedSchema) : result unit :=
  _ ← for_each (λ i : nat,
        if (length provider_schema <=? i)%nat
        then codec_error ("scan projection index " +:+ pretty (N.of_nat i) +:+ " is outside table '" +:+
                          table_name +:+ "' schema")
        else Ok tt) (default [] projection);
  actual ← projected_schema provider_schema projection;
  if negb (bool_decide (length actual = length (ds_fields fragment)))
  then codec_error ("scan schema for table '" +:+ table_name +:+ "' has " +:+
                    pretty (N.of_nat (length (ds_fields fragment))) +:+
                    " fields but worker catalog provides " +:+ pretty (N.of_nat (length actual)))
  else for_each (λ x : (Field * metadata) * Field,
         if scan_field_matches x.1 x.2 then Ok tt
         else codec_error ("scan field '" +:+ f_name x.1.1 +:+ "' does not match worker catalog field '" +:+
                           f_name x.2 +:+ "' for table '" +:+ table_name +:+ "'"))
         (zip (ds_fields fragment) actual).

Definition validate_join_key (left_schema right_schema : Schema) (keys : Expr * Expr) : result unit :=
  left_type ← data_type keys.1 left_schema;
  right_type ← data_type keys.2 right_schema;
  if decide (left_type = right_type) then Ok tt
  else codec_error ("hash join key types differ: " +:+ display_type left_type +:+ " versus " +:+
                    display_type right_type).

Definition validate_join_keys (left : list Expr) (left_schema : Schema) (right : list Expr)
    (right_schema : Schema) : result unit :=
  if bool_decide (left = []) || negb (bool_decide (length left = length right))
  then codec_error "hash join requires the same non-zero number of left and right keys"
  else for_each (validate_join_key left_schema right_schema) (zip left right).

(** The codec's own copy of the output schema of a join. *)
Definition codec_join_schema (left right : Schema) (join_type : JoinType) : Schema :=
  foldl (λ fields f,
    let nullable := match join_type with JoinLeft => true | Inner => f_nullable f end in
    let name := if existsb (λ existing, bool_decide (f_name existing = f_name f)) fields
                then "right." +:+ f_name f else f_name f in
    fields ++ [MkField name (f_type f) nullable]) left right.

Section plans.
Context `{FloatDisplay}.

Definition schema_for_exprs (exprs : list Expr) (input : Schema) : result Schema :=
  collect (λ e, field e input) exprs.

Fixpoint encode_plan (p : PhysicalPlan) (depth : nat) : result WirePlan :=
  _ ← check_depth depth;
  kind ← match p with
    | PScan id table_name _ projection filters schema =>
        indices ← collect (λ i, checked_u32 i "scan projection index") (default [] projection);
        filters ← collect encode_expr filters;
        schema ← encode_schema schema;
        Ok (WScan id table_name (bool_decide (is_Some projection)) indices filters (Some schema))
    | PProjection id input exprs schema =>
        input ← encode_plan input (S depth);
        exprs ← collect encode_expr exprs;
        schema ← encode_schema schema;
        Ok (WProjection id (Some input) exprs (Some schema))
    | PFilter id input predicate schema =>
        input ← encode_plan input (S depth);
        predicate ← encode_expr predicate;
        schema ← encode_schema schema;
        Ok (WFilter id (Some input) (Some predicate) (Some schema))
    | PHashAggregate id input group_exprs aggregate_exprs schema =>
        input ← encode_plan input (S depth);
        group_exprs ← collect encode_expr group_exprs;
        aggregate_exprs ← collect encode_expr aggregate_exprs;
        schema ← encode_schema schema;
        Ok (WHashAggregate id (Some input) group_exprs aggregate_exprs (Some schema))
    | PSort id input exprs schema =>
        input ← encode_plan input (S depth);
        exprs ← collect encode_sort_expr exprs;
        schema ← encode_schema schema;
        Ok (WSort id (Some input) exprs (Some schema))
    | PTopK id input exprs limit schema =>
        input ← encode_plan input (S depth);
        exprs ← collect encode_sort_expr exprs;
        limit ← checked_u64 limit "Top-K limit";
        schema ← encode_schema schema;
        Ok (WTopK id (Some input) exprs limit (Some schema))
    | PLimit id input limit schema =>
        input ← encode_plan input (S depth);
        limit ← checked_u64 limit "limit";
        schema ← encode_schema schema;
        Ok (WLimit id (Some input) limit (Some schema))
    | PHashJoin id l r join_type left_on right_on schema =>
        l ← encode_plan l (S depth);
        r ← encode_plan r (S depth);
        left_on ← collect encode_expr left_on;
        right_on ← collect encode_expr right_on;
        schema ← encode_schema schema;
        Ok (WHashJoin id (Some l) (Some r) (encode_join_type join_type) left_on right_on (Some schema))
    end;
  Ok (MkWirePlan (Some kind)).

(** The plan and the metadata of its output schema. *)
Fixpoint decode_plan (wire : WirePlan) (catalog : Catalog) (depth : nat)
    : result (PhysicalPlan * metadata) :=
  let child (w : option WirePlan) name :=
    match w with Some w => decode_plan w catalog (S depth) | None => required None name end in
  _ ← check_depth depth;
  match wire with
  | MkWirePlan None => required None "plan operator"
  | MkWirePlan (Some kind) =>
    match kind with
    | WScan id table_name has_projection projection filters schema =>
        if trim_is_empty table_name then codec_error "scan table name must not be empty"
        else
          provider ← match table catalog table_name with
                     | Err e => codec_error ("worker cannot resolve scan table '" +:+ table_name +:+
                                             "': " +:+ display_error e)
                     | r => r
                     end;
          projection ← decode_projection has_projection projection;
          schema ← decode_required_schema schema "scan";
          _ ← validate_scan_schema table_name (tp_schema provider) projection schema;
          filters ← decode_exprs filters;
          Ok (PScan id table_name provider projection filters (ds_schema schema), ds_metadata schema)
    | WProjection id input exprs schema =>
        '(input, m) ← child input "projection input";
        exprs ← decode_exprs exprs;
        schema ← decode_required_schema schema "projection";
        expected ← schema_for_exprs exprs (physical_schema input);
        _ ← validate_schema "projection" schema expected ∅;
        Ok (PProjection id input exprs (ds_schema schema), ds_metadata schema)
    | WFilter id input predicate schema =>
        '(input, m) ← child input "filter input";
        predicate ← required predicate "filter predicate";
        predicate ← decode_expr predicate;
        t ← data_type predicate (physical_schema input);
        if negb (bool_decide (t = DtBoolean)) then codec_error "filter predicate must be Boolean"
        else
          schema ← decode_required_schema schema "filter";
          _ ← validate_schema "filter" schema (physical_schema input) m;
          Ok (PFilter id input predicate (ds_schema schema), ds_metadata schema)
    | WHashAggregate id input group_exprs aggregate_exprs schema =>
        '(input, m) ← child input "hash aggregate input";
        group_exprs ← decode_exprs group_exprs;
        aggregate_exprs ← decode_exprs aggregate_exprs;
        schema ← decode_required_schema schema "hash aggregate";
        expected ← schema_for_exprs (group_exprs ++ aggregate_exprs) (physical_schema input);
        _ ← validate_schema "hash aggregate" schema expected ∅;
        Ok (PHashAggregate id input group_exprs aggregate_exprs (ds_schema schema), ds_metadata schema)
    | WSort id input exprs schema =>
        '(input, m) ← child input "sort input";
        exprs ← decode_sort_exprs exprs (physical_schema input);
        schema ← decode_required_schema schema "sort";
        _ ← validate_schema "sort" schema (physical_schema input) m;
        Ok (PSort id input exprs (ds_schema schema), ds_metadata schema)
    | WTopK id input exprs limit schema =>
        '(input, m) ← child input "Top-K input";
        exprs ← decode_sort_exprs exprs (physical_schema input);
        schema ← decode_required_schema schema "Top-K";
        _ ← validate_schema "Top-K" schema (physical_schema input) m;
        limit ← checked_usize limit "Top-K limit";
        Ok (PTopK id input exprs limit (ds_schema schema), ds_metadata schema)
    | WLimit id input limit schema =>
        '(input, m) ← child input "limit input";
        schema ← decode_required_schema schema "limit";
        _ ← validate_schema "limit" schema (physical_schema input) m;
        limit ← checked_usize limit "limit";
        Ok (PLimit id input limit (ds_schema schema), ds_metadata schema)
    | WHashJoin id l r join_type left_on right_on schema =>
        '(l, m) ← child l "join left input";
        '(r, m') ← child r "join right input";
        join_type ← decode_join_type join_type;
        left_on ← decode_exprs left_on;
        right_on ← decode_exprs right_on;
        _ ← validate_join_keys left_on (physical_schema l) right_on (physical_schema r);
        schema ← decode_required_schema schema "hash join";
        _ ← validate_schema "hash join" schema
              (codec_join_schema (physical_schema l) (physical_schema r) join_type) ∅;
        Ok (PHashJoin id l r join_type left_on right_on (ds_schema schema), ds_metadata schema)
    end
  end.
End plans.

(** What the coordinator checks of a fragment, without a catalog. *)
Fixpoint validate_wire_plan (wire : WirePlan) (depth : nat) : result unit :=
  let child (w : option WirePlan) name :=
    match w with Some w => validate_wire_plan w (S depth) | None => required None name end in
  _ ← check_depth depth;
  match wire with
  | MkWirePlan None => required None "plan operator"
  | MkWirePlan (Some kind) =>
    match kind with
    | WScan id table_name has_projection projection filters schema =>
        if trim_is_empty table_name then codec_error "scan table name must not be empty"
        else
          _ ← decode_projection has_projection projection;
          _ ← decode_required_schema schema "scan";
          validate_wire_exprs filters
    | WProjection id input exprs schema =>
        _ ← child input "projection input";
        _ ← decode_required_schema schema "projection";
        validate_wire_exprs exprs
    | WFilter id input predicate schema =>
        _ ← child input "filter input";
        _ ← decode_required_schema schema "filter";
        predicate ← required predicate "filter predicate";
        _ ← decode_expr predicate;
        Ok tt
    | WHashAggregate id input group_exprs aggregate_exprs schema =>
        _ ← child input "hash aggregate input";
        _ ← decode_required_schema schema "hash aggregate";
        _ ← validate_wire_exprs group_exprs;
        validate_wire_exprs aggregate_exprs
    | WSort id input exprs schema =>
        _ ← child input "sort input";
        _ ← decode_required_schema schema "sort";
        validate_wire_sort_exprs exprs
    | WTopK id input exprs limit schema =>
        _ ← child input "Top-K input";
        _ ← decode_required_schema schema "Top-K";
        _ ← checked_usize limit "Top-K limit";
        validate_wire_sort_exprs exprs
    | WLimit id input limit schema =>
        _ ← child input "limit input";
        _ ← decode_required_schema schema "limit";
        _ ← checked_usize limit "limit";
        Ok tt
    | WHashJoin id l r join_type left_on right_on schema =>
        _ ← child l "join left input";
        _ ← child r "join right input";
        _ ← decode_join_type join_type;
        _ ← decode_required_schema schema "hash join";
        if negb (bool_decide (length left_on = length right_on))
        then codec_error ("hash join has " +:+ pretty (N.of_nat (length left_on)) +:+
                          " left keys but " +:+ pretty (N.of_nat (length right_on)) +:+ " right keys")
        else
          _ ← validate_wire_exprs left_on;
          validate_wire_exprs right_on
    end
  end.

(** ** Fragments *)

Section codec.
Context `{Protobuf, FloatDisplay}.

Definition decode_envelope (bytes : list N) : result WirePlan :=
  _ ← validate_fragment_size (N.of_nat (length bytes));
  match decode_message bytes with
  | inr error => codec_error ("cannot decode Protobuf envelope: " +:+ error)
  | inl envelope =>
      if negb (we_version envelope =? PLAN_CODEC_VERSION)%N
      then codec_error ("unsupported plan codec version " +:+ pretty (we_version envelope) +:+
                        "; expected " +:+ pretty PLAN_CODEC_VERSION)
      else match we_root envelope with
           | Some root => Ok root
           | None => codec_error "plan envelope has no root operator"
           end
  end.

Definition codec_encode (p : PhysicalPlan) : result (list N) :=
  root ← encode_plan p 0;
  let bytes := encode_to_vec (MkWirePlanEnvelope PLAN_CODEC_VERSION (Some root)) in
  _ ← validate_fragment_size (N.of_nat (length bytes));
  Ok bytes.

Definition codec_validate_fragment (bytes : list N) : result unit :=
  root ← decode_envelope bytes; validate_wire_plan root 0.

Definition codec_decode (bytes : list N) (catalog : Catalog) : result PhysicalPlan :=
  root ← decode_envelope bytes;
  '(p, _) ← decode_plan root catalog 0;
  Ok p.
End codec.
