(* ===== verification/PlanCodecProps.v ===== *)
(** * The plan codec is a faithful transport

    Fragments round trip; whatever bytes decode to is a well-typed plan over the
    worker's catalog; and the coordinator's check is implied by decoding and never
    panics, which makes the codec an instance of [PlanFragments]. *)
From S2P Require Import Prelude Text Protocol Float Expr Logical Catalog Physical PhysicalProps PlanCodec.

(** ** Panic freedom *)

Create HintDb codec.

Lemma bind_no_panic {A B} (r : result A) (f : A → result B) :
  no_panic r → (∀ a, r = Ok a → no_panic (f a)) → no_panic (r ≫= f).
Proof. destruct r; simpl; auto. Qed.

Lemma collect_no_panic {A B} (f : A → result B) l :
  (∀ x, no_panic (f x)) → no_panic (collect f l).
Proof.
  intros Hf. induction l as [|x l IH]; simpl; [done|]. apply bind_no_panic; [done|].
  intros y _. by apply bind_no_panic.
Qed.

Lemma required_no_panic {A} (o : option A) name : no_panic (required o name).
Proof. by destruct o. Qed.

(** A decoding function: every step is a decoding function, or a test. *)
Ltac np :=
  repeat first
    [ progress intros
    | apply bind_no_panic
    | apply collect_no_panic
    | apply for_each_no_panic
    | apply required_no_panic
    | solve [auto with codec]
    | exact I
    | case_match
    | case_decide ].

Lemma decode_metadata_no_panic entries : no_panic (decode_metadata entries).
Proof.
  unfold decode_metadata. generalize (∅ : metadata).
  induction entries as [|e entries IH]; intros m; simpl; [done|]. unfold decode_metadata_entry. np.
Qed.
#[export] Hint Resolve decode_metadata_no_panic : codec.

Lemma decode_data_type_no_panic z : no_panic (decode_data_type z).
Proof. unfold decode_data_type. by repeat case_match. Qed.
Lemma decode_operator_no_panic z : no_panic (decode_operator z).
Proof. unfold decode_operator. by repeat case_match. Qed.
Lemma decode_function_no_panic z : no_panic (decode_aggregate_function z).
Proof. unfold decode_aggregate_function. by repeat case_match. Qed.
Lemma decode_join_type_no_panic z : no_panic (decode_join_type z).
Proof. unfold decode_join_type. by repeat case_match. Qed.
Lemma decode_scalar_no_panic w : no_panic (decode_scalar w).
Proof. unfold decode_scalar. np. Qed.
#[export] Hint Resolve decode_data_type_no_panic decode_operator_no_panic decode_function_no_panic
  decode_join_type_no_panic decode_scalar_no_panic : codec.

Lemma decode_required_schema_no_panic s op : no_panic (decode_required_schema s op).
Proof. unfold decode_required_schema, decode_schema. np. Qed.
#[export] Hint Resolve decode_required_schema_no_panic : codec.

(** Induction on expressions of the wire, through their optional operands. *)
Definition operand_ok (P : WireExpr → Prop) (e : option WireExpr) : Prop :=
  match e with Some e => P e | None => True end.

Lemma WireExpr_induction (P : WireExpr → Prop) :
  P (MkWireExpr None) →
  (∀ n, P (MkWireExpr (Some (WColumn n)))) →
  (∀ v, P (MkWireExpr (Some (WLiteral v)))) →
  (∀ l op r, operand_ok P l → operand_ok P r → P (MkWireExpr (Some (WBinary l op r)))) →
  (∀ e b, operand_ok P e → P (MkWireExpr (Some (WIsNull e b)))) →
  (∀ e t, operand_ok P e → P (MkWireExpr (Some (WCast e t)))) →
  (∀ e a, operand_ok P e → P (MkWireExpr (Some (WAlias e a)))) →
  (∀ f e d, operand_ok P e → P (MkWireExpr (Some (WAggregate f e d)))) →
  (∀ b, P (MkWireExpr (Some (WWildcard b)))) →
  ∀ w, P w.
Proof.
  intros H1 H2 H3 H4 H5 H6 H7 H8 H9. fix IH 1. intros [[k|]]; [|exact H1].
  assert (∀ e : option WireExpr, match e with Some e' => P e' | None => True end → operand_ok P e) as Ho
    by (by intros []).
  destruct k as [n|v|l op r|e b|e t|e a|f e d|b];
    [apply H2|apply H3|apply H4|apply H5|apply H6|apply H7|apply H8|apply H9]; apply Ho;
    [destruct l as [l|]|destruct r as [r|]|destruct e as [e|]|destruct e as [e|]|destruct e as [e|]
    |destruct e as [e|]]; try exact I; apply IH.
Qed.

Lemma decode_expr_no_panic w : no_panic (decode_expr w).
Proof.
  induction w as [|n|v|l op r IHl IHr|e b IH|e t IH|e a IH|f e d IH|b] using WireExpr_induction;
    cbn [decode_expr]; np; try (by destruct l); try (by destruct r); try (by destruct e);
    simpl in *; auto.
Qed.
#[export] Hint Resolve decode_expr_no_panic : codec.

Lemma validate_wire_exprs_no_panic es : no_panic (validate_wire_exprs es).
Proof. unfold validate_wire_exprs. np. Qed.
Lemma validate_wire_sort_exprs_no_panic es : no_panic (validate_wire_sort_exprs es).
Proof. unfold validate_wire_sort_exprs. np. Qed.
Lemma checked_usize_no_panic n name : no_panic (checked_usize n name).
Proof. unfold checked_usize. np. Qed.
Lemma check_depth_no_panic d : no_panic (check_depth d).
Proof. unfold check_depth. np. Qed.
Lemma decode_projection_no_panic b l : no_panic (decode_projection b l).
Proof. unfold decode_projection. np. Qed.
#[export] Hint Resolve validate_wire_exprs_no_panic validate_wire_sort_exprs_no_panic
  checked_usize_no_panic check_depth_no_panic decode_projection_no_panic : codec.

Lemma check_depth_ok d : check_depth d = Ok tt → d < MAX_PLAN_DEPTH.
Proof. unfold check_depth. destruct (MAX_PLAN_DEPTH <=? d) eqn:E; [done|]. intros _. by apply Nat.leb_gt. Qed.

Lemma validate_wire_plan_no_panic w depth : no_panic (validate_wire_plan w depth).
Proof.
  remember (MAX_PLAN_DEPTH - depth) as n eqn:En. revert w depth En.
  induction n as [n IHn] using lt_wf_ind. intros w depth ->.
  assert (depth < MAX_PLAN_DEPTH → ∀ w, no_panic (validate_wire_plan w (S depth))) as IH.
  { intros Hd w'. eapply IHn; [|done]. lia. }
  clear IHn. destruct w as [[k|]]; cbn [validate_wire_plan]; (apply bind_no_panic; [auto with codec|]);
    intros [] Hd%check_depth_ok; [|done].
  specialize (IH Hd). destruct k; np.
Qed.

(** ** Expressions and schemas round trip *)

(** No blank name: the codec refuses them. *)
Fixpoint expr_named (e : Expr) : bool :=
  match e with
  | Column name => negb (trim_is_empty name)
  | Literal _ | Wildcard => true
  | Binary l _ r => expr_named l && expr_named r
  | IsNull e _ | Cast e _ | Aggregate _ e _ => expr_named e
  | Alias e alias => negb (trim_is_empty alias) && expr_named e
  end.

Lemma data_type_code t z : encode_data_type t = Ok z → decode_data_type z = Ok t.
Proof. by destruct t; intros [= <-]. Qed.

Lemma scalar_round_trip v : decode_scalar (encode_scalar v) = Ok v.
Proof. by destruct v. Qed.

Lemma expr_round_trip e w : expr_named e = true → encode_expr e = Ok w → decode_expr w = Ok e.
Proof.
  revert w. induction e as [n|v|l IHl op r IHr|e IH neg|e IH t|e IH al|f e IH d|]; intros w Hn Hw;
    cbn [encode_expr expr_named] in *; apply bind_ok in Hw as (k & Hk & [= <-]).
  - injection Hk as <-. cbn. apply negb_true_iff in Hn. by rewrite Hn.
  - injection Hk as <-. cbn [decode_expr]. by rewrite scalar_round_trip.
  - apply andb_true_iff in Hn as [Hl Hr]. apply bind_ok in Hk as (wl & Ewl & Hk).
    apply bind_ok in Hk as (wr & Ewr & [= <-]). cbn [decode_expr]. rewrite (IHl _ Hl Ewl). cbn.
    destruct op; cbn; by rewrite (IHr _ Hr Ewr).
  - apply bind_ok in Hk as (w & Ew & [= <-]). cbn [decode_expr]. by rewrite (IH _ Hn Ew).
  - apply bind_ok in Hk as (w & Ew & Hk). apply bind_ok in Hk as (z & Ez & [= <-]).
    cbn [decode_expr]. rewrite (IH _ Hn Ew). cbn. by rewrite (data_type_code _ _ Ez).
  - apply andb_true_iff in Hn as [Ha%negb_true_iff Hn]. apply bind_ok in Hk as (w & Ew & [= <-]).
    cbn [decode_expr]. by rewrite Ha, (IH _ Hn Ew).
  - apply bind_ok in Hk as (w & Ew & [= <-]). cbn [decode_expr].
    destruct f; cbn; by rewrite (IH _ Hn Ew).
  - by injection Hk as <-.
Qed.

(** A list of encoded elements decodes to the list. *)
Lemma collect_round_trip {A B} (enc : A → result B) (dec : B → result A) l ws :
  (∀ x w, x ∈ l → enc x = Ok w → dec w = Ok x) → collect enc l = Ok ws → collect dec ws = Ok l.
Proof.
  intros Hd Hc. apply collect_ok. apply collect_ok in Hc.
  induction Hc as [|x w l ws Hx _ IH]; [constructor|]. constructor; [apply Hd; [by left|done]|].
  apply IH. intros y v Hy. apply Hd. by right.
Qed.

Lemma exprs_round_trip es ws :
  Forall (λ e, expr_named e = true) es → collect encode_expr es = Ok ws → decode_exprs ws = Ok es.
Proof.
  intros Hn. apply collect_round_trip. intros e w He. rewrite list.Forall_forall in Hn.
  by apply expr_round_trip, Hn.
Qed.

Definition no_metadata (s : Schema) : DecodedSchema := MkDecodedSchema ((λ f, (f, ∅)) <$> s) ∅.

Lemma ds_schema_no_metadata s : ds_schema (no_metadata s) = s.
Proof. unfold ds_schema, no_metadata. simpl. rewrite <-list_fmap_compose. by apply list_fmap_id. Qed.

Lemma schema_round_trip s w op :
  encode_schema s = Ok w → decode_required_schema (Some w) op = Ok (no_metadata s).
Proof.
  intros Hw. unfold encode_schema in Hw. apply bind_ok in Hw as (fs & Hfs & [= <-]).
  change (decode_schema (MkWireSchema fs (encode_metadata ∅)) = Ok (no_metadata s)).
  unfold decode_schema. apply bind_ok. exists ((λ f, (f, ∅)) <$> s). split; [|done]. cbn [ws_fields].
  apply collect_ok. apply collect_ok in Hfs. induction Hfs as [|f w s fs Hf _ IH]; [constructor|].
  constructor; [|done]. apply bind_ok in Hf as (z & Hz & [= <-]). cbn [wf_data_type wf_metadata].
  rewrite (data_type_code _ _ Hz). destruct f. done.
Qed.

Lemma validate_schema_same op s m : validate_schema op (no_metadata s) s m = Ok tt ↔ m = ∅.
Proof.
  unfold validate_schema. simpl. rewrite bool_decide_eq_true_2 by done. simpl.
  case_bool_decide; naive_solver.
Qed.

(** ** Well-typed plans *)

(** A scan's schema is the table's, up to qualification. *)
Definition scan_field_ok (f g : Field) : Prop :=
  unqualified (f_name f) = unqualified (f_name g) ∧ f_type f = f_type g ∧ f_nullable f = f_nullable g.

Definition scan_schema_ok (table_schema : Schema) (projection : option (list nat)) (s : Schema) : Prop :=
  ∃ actual, projected_schema table_schema projection = Ok actual ∧ Forall2 scan_field_ok s actual.

Definition join_keys_ok (l r : Schema) (left_on right_on : list Expr) : Prop :=
  left_on ≠ [] ∧ Forall2 (λ a b, ∃ t, data_type a l = Ok t ∧ data_type b r = Ok t) left_on right_on.

Definition sort_keys_ok (s : Schema) (exprs : list SortExpr) : Prop :=
  exprs ≠ [] ∧ Forall (λ k, ∃ t, data_type (s_expr k) s = Ok t) exprs.

Section typed.
Context `{FloatDisplay} (catalog : Catalog).

(** Tables resolve, the expressions of every operator above the scans are typed and every
    schema is the one the operator produces.  The filters inside a scan are decoded without
    being typed: a filter that does not fit fails when the scan evaluates it. *)
Fixpoint typed_plan (p : PhysicalPlan) : Prop :=
  match p with
  | PScan _ name provider projection _ s =>
      table catalog name = Ok provider ∧ scan_schema_ok (tp_schema provider) projection s
  | PProjection _ input exprs s =>
      typed_plan input ∧ schema_for_exprs exprs (physical_schema input) = Ok s
  | PFilter _ input predicate s =>
      typed_plan input ∧ data_type predicate (physical_schema input) = Ok DtBoolean ∧
      s = physical_schema input
  | PHashAggregate _ input groups aggregates s =>
      typed_plan input ∧ schema_for_exprs (groups ++ aggregates) (physical_schema input) = Ok s
  | PSort _ input exprs s | PTopK _ input exprs _ s =>
      typed_plan input ∧ sort_keys_ok (physical_schema input) exprs ∧ s = physical_schema input
  | PLimit _ input _ s => typed_plan input ∧ s = physical_schema input
  | PHashJoin _ l r jt left_on right_on s =>
      typed_plan l ∧ typed_plan r ∧ join_keys_ok (physical_schema l) (physical_schema r) left_on right_on ∧
      s = join_schema jt (physical_schema l) (physical_schema r)
  end.

Fixpoint plan_named (p : PhysicalPlan) : bool :=
  match p with
  | PScan _ name _ _ filters _ => negb (trim_is_empty name) && forallb expr_named filters
  | PProjection _ input exprs _ => plan_named input && forallb expr_named exprs
  | PFilter _ input predicate _ => plan_named input && expr_named predicate
  | PHashAggregate _ input groups aggregates _ =>
      plan_named input && forallb expr_named groups && forallb expr_named aggregates
  | PSort _ input exprs _ | PTopK _ input exprs _ _ =>
      plan_named input && forallb (λ k, expr_named (s_expr k)) exprs
  | PLimit _ input _ _ => plan_named input
  | PHashJoin _ l r _ left_on right_on _ =>
      plan_named l && plan_named r && forallb expr_named left_on && forallb expr_named right_on
  end.

Fixpoint plan_height (p : PhysicalPlan) : nat :=
  match p with
  | PScan _ _ _ _ _ _ => 1
  | PProjection _ input _ _ | PFilter _ input _ _ | PHashAggregate _ input _ _ _ | PSort _ input _ _
  | PTopK _ input _ _ _ | PLimit _ input _ _ => S (plan_height input)
  | PHashJoin _ l r _ _ _ _ => S (Nat.max (plan_height l) (plan_height r))
  end.

(** ** The checks of the codec *)

Lemma scan_field_matches_ok f m g : scan_field_matches (f, m) g = true ↔ scan_field_ok f g ∧ m = ∅.
Proof.
  unfold scan_field_matches, scan_field_ok. simpl. rewrite !andb_true_iff, !bool_decide_eq_true.
  naive_solver.
Qed.

Lemma projected_in_range s proj actual :
  projected_schema s proj = Ok actual → Forall (λ i, i < length s) (default [] proj).
Proof.
  destruct proj as [l|]; [|constructor]. simpl. intros Hc%collect_ok.
  induction Hc as [|i f l fs Hi _ IH]; constructor; [|done].
  destruct (s !! i) eqn:E; [|done]. by eapply lookup_lt_Some.
Qed.

Lemma validate_scan_schema_ok name ts proj s :
  validate_scan_schema name ts proj s = Ok tt ↔
  scan_schema_ok ts proj (ds_schema s) ∧ Forall (λ x, x.2 = ∅) (ds_fields s).
Proof.
  unfold validate_scan_schema, scan_schema_ok. rewrite bind_unit_ok, for_each_ok. split.
  - intros [_ Hv]. apply bind_ok in Hv as (actual & Ha & Hv).
    destruct (bool_decide (length actual = _)) eqn:E; [|done]. simpl in Hv.
    apply bool_decide_eq_true_1 in E. apply for_each_ok in Hv.
    assert (Forall2 (λ x g, scan_field_ok x.1 g ∧ x.2 = ∅) (ds_fields s) actual) as Hf.
    { apply Forall2_same_length_lookup. split; [done|]. intros i [f m] g Hx Hg.
      rewrite list.Forall_forall in Hv. specialize (Hv (f, m, g)). simpl in Hv.
      simpl. apply scan_field_matches_ok. destruct (scan_field_matches (f, m) g); [done|].
      discriminate Hv. apply list_elem_of_lookup_2 with i. by apply lookup_zip_Some. }
    split.
    + exists actual. split; [done|]. unfold ds_schema. apply Forall2_fmap_l.
      eapply Forall2_impl; [|exact Hf]. by intros ?? [? _].
    + clear -Hf. induction Hf as [|x g xs gs [_ Hx] _ IH]; by constructor.
  - intros [(actual & Ha & Hf) Hm]. split.
    + apply projected_in_range in Ha. eapply list.Forall_impl; [exact Ha|]. intros i Hi. simpl.
      apply Nat.leb_gt in Hi. by rewrite Hi.
    + rewrite Ha. cbn. unfold ds_schema in Hf. rewrite Forall2_fmap_l in Hf.
      pose proof (Forall2_length Hf) as Hlen.
      rewrite bool_decide_eq_true_2 by (symmetry; exact Hlen). simpl. clear Hlen.
      apply for_each_ok. clear Ha. induction Hf as [|[f m] g xs gs Hfg _ IH]; [constructor|].
      apply list.Forall_cons in Hm as [Hm1 Hm]. simpl in *. constructor; [|by apply IH].
      cbn [fst snd]. by rewrite (proj2 (scan_field_matches_ok f m g)).
Qed.

Lemma validate_schema_ok op s e m :
  validate_schema op s e m = Ok tt ↔ s = MkDecodedSchema ((λ f, (f, ∅)) <$> e) m.
Proof.
  unfold validate_schema. destruct s as [fs m']. simpl. repeat case_bool_decide; simpl; naive_solver.
Qed.

Lemma codec_join_schema_eq jt l r : codec_join_schema l r jt = join_schema jt l r.
Proof. reflexivity. Qed.

Lemma validate_join_keys_ok l ls r rs :
  validate_join_keys l ls r rs = Ok tt ↔ join_keys_ok ls rs l r.
Proof.
  unfold validate_join_keys, join_keys_ok. split.
  - destruct (bool_decide (l = []) || _) eqn:E; [done|]. apply orb_false_iff in E as [E1 E2].
    apply bool_decide_eq_false_1 in E1. apply negb_false_iff, bool_decide_eq_true_1 in E2.
    intros Hf%for_each_ok. split; [done|]. apply Forall2_same_length_lookup. split; [done|].
    intros i a b Ha Hb. rewrite list.Forall_forall in Hf. specialize (Hf (a, b)).
    assert ((a, b) ∈ zip l r) as Hin
      by (apply list_elem_of_lookup_2 with i; by apply lookup_zip_Some).
    specialize (Hf Hin). unfold validate_join_key in Hf. apply bind_ok in Hf as (t & Ht & Hf).
    apply bind_ok in Hf as (t' & Ht' & Hf). destruct (decide (t = t')) as [<-|]; [|done]. by exists t.
  - intros [Hne Hf]. rewrite bool_decide_eq_false_2 by done.
    pose proof (Forall2_length Hf) as Hlen. rewrite bool_decide_eq_true_2 by exact Hlen.
    simpl. apply for_each_ok. clear Hne Hlen. induction Hf as [|a b l r (t & Ha & Hb) _ IH]; [constructor|]. constructor; [|done].
    unfold validate_join_key. simpl in *. rewrite Ha, Hb. cbn. by rewrite decide_True.
Qed.

Lemma sort_exprs_ok ws s exprs :
  decode_sort_exprs ws s = Ok exprs → sort_keys_ok s exprs.
Proof.
  unfold decode_sort_exprs, sort_keys_ok. intros Hd. apply bind_ok in Hd as (d & Hd & Hne).
  destruct (decide (d = [])); [done|]. injection Hne as <-. split; [done|]. apply collect_ok in Hd.
  clear n. induction Hd as [|w k ws ks Hk _ IH]; constructor; [|done].
  apply bind_ok in Hk as (w' & _ & Hk). apply bind_ok in Hk as (e & _ & Hk).
  apply bind_ok in Hk as (t & Ht & [= <-]). by exists t.
Qed.
(** ** Decoding yields a typed plan *)

(** Opens a successful sequence of steps. *)
Ltac open_ok H :=
  repeat (let x := fresh "x" in let E := fresh "E" in
          apply bind_ok in H as (x & E & H);
          lazymatch type of x with
          | unit => destruct x
          | (PhysicalPlan * _)%type =>
              let p := fresh "p" in let m := fresh "m" in destruct x as [p m]
          | _ => idtac
          end;
          cbn [mbind] in H).

Lemma validated_exprs ws es : decode_exprs ws = Ok es → validate_wire_exprs ws = Ok tt.
Proof.
  unfold decode_exprs, validate_wire_exprs. intros Hd%collect_ok. apply for_each_ok.
  induction Hd as [|w e ws es Hw _ IH]; constructor; [|done]. by rewrite Hw.
Qed.

Lemma validated_sort_exprs ws s es : decode_sort_exprs ws s = Ok es → validate_wire_sort_exprs ws = Ok tt.
Proof.
  unfold decode_sort_exprs, validate_wire_sort_exprs. intros Hd. apply bind_ok in Hd as (d & Hd & Hne).
  destruct (decide (d = [])) as [|Hnn]; [done|]. pose proof (collect_length _ _ _ Hd) as Hl.
  rewrite decide_False by (intros E; apply Hnn; destruct d; [done|simpl in *; lia]).
  apply for_each_ok. apply collect_ok in Hd. clear Hl Hne Hnn.
  induction Hd as [|w e ws' es' Hw _ IH]; constructor; [|done].
  apply bind_ok in Hw as (w' & Hr & Hw). apply bind_ok in Hw as (e' & He & _).
  rewrite Hr. cbn. by rewrite He.
Qed.

Lemma join_lengths ws es vs fs :
  decode_exprs ws = Ok es → decode_exprs vs = Ok fs → length es = length fs → length ws = length vs.
Proof. unfold decode_exprs. intros H1%collect_length H2%collect_length. congruence. Qed.

(** The schema a passed check leaves. *)
Lemma checked_schema op s e m :
  validate_schema op s e m = Ok tt → ds_schema s = e ∧ ds_metadata s = m.
Proof.
  intros ->%validate_schema_ok. split; [|done]. apply (ds_schema_no_metadata e).
Qed.

Definition decoded (w : WirePlan) (depth : nat) (p : PhysicalPlan) : Prop :=
  typed_plan p ∧ depth + plan_height p <= MAX_PLAN_DEPTH ∧ validate_wire_plan w depth = Ok tt.

(** An operator's input. *)
Lemma decoded_child depth (w : option WirePlan) name p m :
  (∀ w p m, decode_plan w catalog (S depth) = Ok (p, m) → decoded w (S depth) p) →
  match w with Some w => decode_plan w catalog (S depth) | None => required None name end = Ok (p, m) →
  typed_plan p ∧ S depth + plan_height p <= MAX_PLAN_DEPTH ∧
  match w with Some w => validate_wire_plan w (S depth) | None => required None name end = Ok tt.
Proof. destruct w as [w|]; [|done]. intros IH Hw. by apply IH in Hw. Qed.

Lemma decode_plan_typed w depth p m : decode_plan w catalog depth = Ok (p, m) → decoded w depth p.
Proof.
  remember (MAX_PLAN_DEPTH - depth) as n eqn:En. revert w depth p m En.
  induction n as [n IHn] using lt_wf_ind. intros w depth p m -> Hw.
  destruct w as [k]; cbn [decode_plan] in Hw; apply bind_ok in Hw as ([] & Hd & Hw).
  apply check_depth_ok in Hd as Hlt.
  assert (∀ w p m, decode_plan w catalog (S depth) = Ok (p, m) → decoded w (S depth) p) as IH
    by (intros w' p' m' Hw'; apply (IHn (MAX_PLAN_DEPTH - S depth)) in Hw'; [done|lia|done]).
  clear IHn. unfold decoded. cbn [validate_wire_plan]. rewrite Hd. cbn [mbind result_bind].
  destruct k as [k|]; [|done]. destruct k as
    [id name hp proj fs s|id i es s|id i e s|id i gs ags s|id i es s|id i es l s|id i l s|id l r jt lo ro s].
  - destruct (trim_is_empty name); [done|]. open_ok Hw. injection Hw as <- <-.
    apply validate_scan_schema_ok in E2 as [Hs _]. split; [split; [|done]|split; [simpl; lia|]].
    + by destruct (table catalog name).
    + rewrite E0, E1. cbn. by eapply validated_exprs.
  - open_ok Hw. apply (decoded_child _ _ _ _ _ IH) in E as (T & Hh & V).
    apply checked_schema in E3 as [Es _]. injection Hw as <- <-. cbn [typed_plan plan_height]. rewrite Es, V, E1.
    split_and!; [done|done|lia|by eapply validated_exprs].
  - open_ok Hw. destruct (bool_decide (x1 = DtBoolean)) eqn:Eb; [|done]. simpl in Hw.
    apply bool_decide_eq_true_1 in Eb as ->. open_ok Hw.
    apply (decoded_child _ _ _ _ _ IH) in E as (T & Hh & V).
    apply checked_schema in E4 as [Es _]. injection Hw as <- <-. cbn [typed_plan plan_height]. rewrite Es, V, E3, E0. cbn [mbind result_bind]. rewrite E1.
    split_and!; [done..|lia|done].
  - open_ok Hw. apply (decoded_child _ _ _ _ _ IH) in E as (T & Hh & V).
    apply checked_schema in E4 as [Es _]. injection Hw as <- <-. cbn [typed_plan plan_height].
    rewrite Es, V, E2, (validated_exprs _ _ E0), (validated_exprs _ _ E1).
    split_and!; [done..|lia|done].
  - open_ok Hw. apply (decoded_child _ _ _ _ _ IH) in E as (T & Hh & V).
    apply checked_schema in E2 as [Es _]. injection Hw as <- <-. cbn [typed_plan plan_height].
    rewrite Es, V, E1, (validated_sort_exprs _ _ _ E0). apply sort_exprs_ok in E0.
    split_and!; [done..|lia|done].
  - open_ok Hw. apply (decoded_child _ _ _ _ _ IH) in E as (T & Hh & V).
    apply checked_schema in E2 as [Es _]. injection Hw as <- <-. cbn [typed_plan plan_height].
    rewrite Es, V, E1, E3, (validated_sort_exprs _ _ _ E0). apply sort_exprs_ok in E0.
    split_and!; [done..|lia|done].
  - open_ok Hw. apply (decoded_child _ _ _ _ _ IH) in E as (T & Hh & V).
    apply checked_schema in E1 as [Es _]. injection Hw as <- <-. cbn [typed_plan plan_height]. rewrite Es, V, E0, E2.
    split_and!; [done..|lia|done].
  - open_ok Hw. apply (decoded_child _ _ _ _ _ IH) in E as (T & Hh & V).
    apply (decoded_child _ _ _ _ _ IH) in E0 as (T' & Hh' & V').
    apply checked_schema in E6 as [Es _]. apply validate_join_keys_ok in E4 as Hk.
    injection Hw as <- <-. cbn [typed_plan plan_height]. rewrite Es, V, V', E1, E5, (validated_exprs _ _ E2), (validated_exprs _ _ E3).
    rewrite bool_decide_eq_true_2 by (eapply join_lengths; [done..|]; apply (Forall2_length (proj2 Hk))).
    split_and!; [done..|lia|done].
Qed.

(** ** Plans round trip *)

Lemma sort_round_trip exprs ws s :
  sort_keys_ok s exprs → forallb (λ k, expr_named (s_expr k)) exprs = true →
  collect encode_sort_expr exprs = Ok ws → decode_sort_exprs ws s = Ok exprs.
Proof.
  intros [Hne Ht] Hn Hc. unfold decode_sort_exprs.
  rewrite (collect_round_trip encode_sort_expr _ exprs ws); [|clear Hne Hc|exact Hc].
  - cbn. by rewrite decide_False.
  - intros k w Hk Hw. rewrite list.Forall_forall in Ht. destruct (Ht k Hk) as [t Hkt].
    rewrite forallb_forall in Hn. specialize (Hn k (proj1 (list_elem_of_In _ _) Hk)).
    unfold encode_sort_expr in Hw. apply bind_ok in Hw as (w' & Hw' & [= <-]). cbn.
    rewrite (expr_round_trip _ _ Hn Hw'). cbn. rewrite Hkt. by destruct k.
Qed.

Lemma named_exprs es ws :
  forallb expr_named es = true → collect encode_expr es = Ok ws → decode_exprs ws = Ok es.
Proof.
  intros Hn. apply exprs_round_trip. apply list.Forall_forall. intros e He.
  rewrite forallb_forall in Hn. apply Hn. by apply list_elem_of_In.
Qed.

Lemma projection_round_trip proj indices :
  collect (λ i, checked_u32 i "scan projection index") (default [] proj) = Ok indices →
  decode_projection (bool_decide (is_Some proj)) indices = Ok proj.
Proof.
  intros Hc. destruct proj as [l|].
  - rewrite bool_decide_eq_true_2 by done. cbn. do 2 f_equal. apply collect_ok in Hc. simpl in Hc.
    induction Hc as [|i n l ns Hi _ IH]; [done|]. cbn. rewrite IH. f_equal. unfold checked_u32 in Hi.
    destruct (_ <=? _)%N; [|done]. injection Hi as <-. lia.
  - rewrite bool_decide_eq_false_2 by (by intros [? ?]). by injection Hc as <-.
Qed.

Lemma checked_round_trip limit w n n' : checked_u64 limit n = Ok w → checked_usize w n' = Ok limit.
Proof.
  unfold checked_u64, checked_usize. destruct (limit <=? U64_MAX)%N eqn:E; [|done]. intros [= <-].
  by rewrite E.
Qed.

Lemma join_type_code t : decode_join_type (encode_join_type t) = Ok t.
Proof. by destruct t. Qed.

(** The check of a schema that was encoded with its plan. *)
Lemma same_schema op s : validate_schema op (no_metadata s) s ∅ = Ok tt.
Proof. by apply validate_schema_same. Qed.

Lemma same_scan_schema name ts proj s :
  scan_schema_ok ts proj s → validate_scan_schema name ts proj (no_metadata s) = Ok tt.
Proof.
  intros Hs. apply validate_scan_schema_ok. rewrite ds_schema_no_metadata. split; [done|].
  apply list.Forall_forall. intros y Hy. apply list_elem_of_fmap in Hy as (f & -> & _). done.
Qed.

(** Takes one step of a decoder. *)
Tactic Notation "step" uconstr(L) := rewrite L; cbn [mbind result_bind negb required].

Lemma plan_round_trip p depth w :
  typed_plan p → plan_named p = true → encode_plan p depth = Ok w → decode_plan w catalog depth = Ok (p, ∅).
Proof.
  revert depth w. induction p as [id name prov proj fs s|id i IH es s|id i IH e s|id i IH gs ags s
    |id i IH es s|id i IH es l s|id i IH l s|id l IHl r IHr jt lo ro s];
    intros depth w Ht Hn Hw; cbn [typed_plan plan_named encode_plan] in *;
    apply bind_ok in Hw as ([] & Hd & Hw); apply bind_ok in Hw as (k & Hk & [= <-]); open_ok Hk;
    injection Hk as <-; cbn [decode_plan]; step Hd; bool_to_prop.
  - destruct Ht as [Htab Hs]. rewrite H0. step Htab. step (projection_round_trip _ _ E).
    step (schema_round_trip _ _ _ E1). step (same_scan_schema name _ _ _ Hs). step (named_exprs _ _ H1 E0).
    by rewrite ds_schema_no_metadata.
  - destruct Ht as [Ht Hs]. step (IH _ _ Ht H0 E). step (named_exprs _ _ H1 E0).
    step (schema_round_trip _ _ _ E1). step Hs. step same_schema. by rewrite ds_schema_no_metadata.
  - destruct Ht as (Ht & He & ->). step (IH _ _ Ht H0 E). step (expr_round_trip _ _ H1 E0). step He.
    rewrite bool_decide_eq_true_2 by done. cbn [negb]. step (schema_round_trip _ _ _ E1). step same_schema.
    by rewrite ds_schema_no_metadata.
  - destruct Ht as [Ht Hs]. step (IH _ _ Ht H0 E). step (named_exprs _ _ H2 E0). step (named_exprs _ _ H1 E1).
    step (schema_round_trip _ _ _ E2). step Hs. step same_schema. by rewrite ds_schema_no_metadata.
  - destruct Ht as (Ht & Hk & ->). step (IH _ _ Ht H0 E). step (sort_round_trip _ _ _ Hk H1 E0).
    step (schema_round_trip _ _ _ E1). step same_schema. by rewrite ds_schema_no_metadata.
  - destruct Ht as (Ht & Hk & ->). step (IH _ _ Ht H0 E). step (sort_round_trip _ _ _ Hk H1 E0).
    step (schema_round_trip _ _ _ E2). step same_schema. step (checked_round_trip _ _ _ "Top-K limit" E1).
    by rewrite ds_schema_no_metadata.
  - destruct Ht as (Ht & ->). step (IH _ _ Ht Hn E). step (schema_round_trip _ _ _ E1). step same_schema.
    step (checked_round_trip _ _ _ "limit" E0). by rewrite ds_schema_no_metadata.
  - destruct Ht as (Hl & Hr & Hk & ->). step (IHl _ _ Hl H0 E). step (IHr _ _ Hr H3 E0). step join_type_code.
    step (named_exprs _ _ H2 E1). step (named_exprs _ _ H1 E2). step (proj2 (validate_join_keys_ok _ _ _ _) Hk).
    step (schema_round_trip _ _ _ E3). rewrite codec_join_schema_eq. step same_schema.
    by rewrite ds_schema_no_metadata.
Qed.
End typed.

(** ** Planned queries are typed *)

Section planned.
Context `{FloatDisplay} (catalog : Catalog).

(** Scans have the schema of their table, whatever columns they keep, and sorts have
    a key. *)
Fixpoint catalog_plan (p : LogicalPlan) : Prop :=
  match p with
  | LScan name projection _ s =>
      ∀ provider indices,
        table catalog name = Ok provider →
        match projection with
        | None => Ok None
        | Some columns => Some <$> collect (find_column (tp_schema provider)) columns
        end = Ok indices →
        scan_schema_ok (tp_schema provider) indices s
  | LProjection input _ _ | LFilter input _ _ | LAggregate input _ _ _ | LLimit input _ _ =>
      catalog_plan input
  | LSort input exprs _ => catalog_plan input ∧ exprs ≠ []
  | LJoin l r _ _ _ _ => catalog_plan l ∧ catalog_plan r
  end.

Lemma wf_sort_keys i es s :
  sort i es = Ok (LSort i es s) → es ≠ [] → sort_keys_ok (plan_schema i) es ∧ s = plan_schema i.
Proof.
  unfold sort. intros Hs Hne. apply bind_ok in Hs as ([] & Hf & [= <-]). apply for_each_ok in Hf.
  split; [|done]. split; [done|]. eapply list.Forall_impl; [exact Hf|]. intros k Hk.
  apply bind_ok in Hk as (t & Ht & _). by exists t.
Qed.

Lemma wf_join_keys l r jt lo ro s :
  join l r jt lo ro = Ok (LJoin l r jt lo ro s) →
  join_keys_ok (plan_schema l) (plan_schema r) lo ro ∧ s = join_schema jt (plan_schema l) (plan_schema r).
Proof.
  unfold join. destruct (negb _ || _) eqn:E; [done|]. apply orb_false_iff in E as [E1 E2]. bool_to_prop.
  intros Hj. apply bind_ok in Hj as ([] & Hf & [= <-]). split; [|done].
  apply validate_join_keys_ok. unfold validate_join_keys. rewrite bool_decide_eq_false_2 by done.
  rewrite bool_decide_eq_true_2 by done. simpl. apply for_each_ok. apply for_each_ok in Hf.
  eapply list.Forall_impl; [exact Hf|]. intros [a b] Hc. unfold check_join_key in Hc.
  apply bind_ok in Hc as (t & Ht & Hc). apply bind_ok in Hc as (t' & Ht' & Hc).
  unfold validate_join_key. cbn [fst snd] in *. rewrite Ht. cbn. rewrite Ht'. cbn.
  by destruct (decide (t = t')).
Qed.

Lemma built_schema l n p m : build l catalog n = Ok (p, m) → physical_schema p = plan_schema l.
Proof. intros Hb. by apply build_numbered in Hb as (_ & _ & ?). Qed.

Lemma build_typed l n p m :
  wf_plan l → catalog_plan l → build l catalog n = Ok (p, m) → typed_plan catalog p.
Proof.
  revert n p m.
  enough ((∀ n p m, wf_plan l → catalog_plan l → build l catalog n = Ok (p, m) → typed_plan catalog p) ∧
          (∀ i es s, l = LSort i es s → ∀ n p m, wf_plan i → catalog_plan i →
             build i catalog n = Ok (p, m) → typed_plan catalog p)) as [Hl _] by done.
  induction l as [tbl pr fs s|i IH es s|i IH e s|i IH g a s|i IH es s|i IH k s|
    l IHl r IHr t lo ro s]; (split; [|by intros; simplify_eq; eapply (proj1 IH)]);
    intros n p m Hw Hc Hb; cbn [build] in Hb; apply bind_ok in Hb as (n1 & _ & Hb); cbn [catalog_plan] in Hc.
  - apply bind_ok in Hb as (prov & Hp & Hb). apply bind_ok in Hb as (indices & Hi & [= <- <-]).
    split; [done|]. apply (Hc prov indices); [done|]. destruct pr as [cols|]; [|done].
    apply bind_ok in Hi as (ix & -> & [= <-]). done.
  - destruct Hw as [Hw Hp]. apply bind_ok in Hb as ([q m'] & Hq & [= <- <-]).
    split; [by eapply (proj1 IH)|]. rewrite (built_schema _ _ _ _ Hq). unfold project in Hp.
    apply bind_ok in Hp as (f & Hf & [= Ee <-]). by rewrite Ee in Hf.
  - destruct Hw as [Hw Hp]. apply bind_ok in Hb as ([q m'] & Hq & [= <- <-]).
    split; [by eapply (proj1 IH)|]. rewrite (built_schema _ _ _ _ Hq). unfold filter in Hp.
    apply bind_ok in Hp as (t & Ht & Hp). destruct (decide (t = DtBoolean)) as [->|]; [|done].
    by injection Hp as <-.
  - destruct Hw as [Hw Hp]. apply bind_ok in Hb as ([q m'] & Hq & [= <- <-]).
    split; [by eapply (proj1 IH)|]. rewrite (built_schema _ _ _ _ Hq). unfold aggregate in Hp.
    by apply bind_ok in Hp as (f & Hf & [= <-]).
  - destruct Hw as [Hw Hp], Hc as [Hc Hne]. apply bind_ok in Hb as ([q m'] & Hq & [= <- <-]).
    split; [by eapply (proj1 IH)|]. rewrite (built_schema _ _ _ _ Hq). by apply wf_sort_keys.
  - destruct Hw as [Hw Hp]. unfold limit in Hp. injection Hp as Hp.
    assert ((∃ j es s', i = LSort j es s') ∨ ∃ q m', build i catalog n1 = Ok (q, m') ∧
      (PLimit n q k s, m') = (p, m)) as [(j & es & s' & ->)|(q & m' & Hq & [= <- <-])].
    { destruct i; [right|right|right|right|left; eauto|right|right];
        apply bind_ok in Hb as ([q m'] & Hq & [= <- <-]); by exists q, m'. }
    + cbn [catalog_plan wf_plan plan_schema] in *. destruct Hw as [Hw Hs], Hc as [Hc Hne].
      apply wf_sort_keys in Hs as [Hk ->]; [|done]. apply bind_ok in Hb as ([q m'] & Hq & [= <- <-]).
      split; [by eapply (proj2 IH)|]. rewrite (built_schema _ _ _ _ Hq). by subst s.
    + split; [by eapply (proj1 IH)|]. by rewrite (built_schema _ _ _ _ Hq).
  - destruct Hw as (Hwl & Hwr & Hj), Hc as [Hcl Hcr]. apply bind_ok in Hb as ([q m'] & Hq & Hb).
    apply bind_ok in Hb as ([q' m''] & Hq' & [= <- <-]). apply wf_join_keys in Hj. cbn [typed_plan].
    rewrite (built_schema _ _ _ _ Hq), (built_schema _ _ _ _ Hq').
    split; [by eapply (proj1 IHl)|]. split; [by eapply (proj1 IHr)|done].
Qed.
End planned.

(** ** The interface to the protocol *)

(** The check of a fragment is one that the messages may call. *)
#[export] Instance codec_fragments `{Protobuf} : PlanFragments.
Proof.
  refine {| validate_fragment := codec_validate_fragment |}.
  intros bytes. unfold codec_validate_fragment, decode_envelope, validate_fragment_size.
  np; apply validate_wire_plan_no_panic.
Defined.

(** Protobuf parses the message back that it wrote for a plan; its parser bounds
    the nesting of messages, so this is asked of one message at a time. *)
Definition transports `{Protobuf, FloatDisplay} (p : PhysicalPlan) : Prop :=
  ∀ root, encode_plan p 0 = Ok root →
    let e := MkWirePlanEnvelope PLAN_CODEC_VERSION (Some root) in
    decode_message (encode_to_vec e) = inl e.

Lemma fragment_round_trip `{Protobuf, FloatDisplay} catalog p bytes :
  transports p → typed_plan catalog p → plan_named p = true → codec_encode p = Ok bytes →
  codec_decode bytes catalog = Ok p ∧ codec_validate_fragment bytes = Ok tt.
Proof.
  intros Htr Ht Hn He. unfold codec_encode in He. apply bind_ok in He as (root & Hr & He).
  apply bind_ok in He as ([] & Hs & [= <-]).
  assert (decode_envelope (encode_to_vec (MkWirePlanEnvelope PLAN_CODEC_VERSION (Some root))) = Ok root) as Hd.
  { unfold decode_envelope. rewrite Hs. cbn [mbind result_bind]. by rewrite (Htr root Hr). }
  pose proof (plan_round_trip catalog p 0 root Ht Hn Hr) as Hp.
  unfold codec_decode, codec_validate_fragment. rewrite Hd. cbn [mbind result_bind]. rewrite Hp. split; [done|].
  by apply decode_plan_typed in Hp as (_ & _ & ?).
Qed.

(** ** The properties *)

(** C33: plans round trip.  A typed plan without blank names whose message Protobuf
    transports is decoded, over the same catalog, to itself: every operator,
    expression, literal, type code, projection, limit and schema; and the fragment
    passes the coordinator's check. *)
Theorem codec_round_trip `{Protobuf, FloatDisplay} catalog p bytes :
  transports p → typed_plan catalog p → plan_named p = true → codec_encode p = Ok bytes →
  codec_decode bytes catalog = Ok p ∧ codec_validate_fragment bytes = Ok tt.
Proof. apply fragment_round_trip. Qed.

(** C34: a worker only runs typed plans.  Whatever the bytes are, if they decode to a
    plan, then its tables are the worker's, the expressions of every operator above the
    scans are typed (the filters inside a scan are not checked), every schema is the one
    its operator produces, it is at most 128 operators deep, and the
    bytes pass the coordinator's check. *)
Theorem codec_decode_typed `{Protobuf, FloatDisplay} catalog bytes p :
  codec_decode bytes catalog = Ok p →
  typed_plan catalog p ∧ plan_height p <= MAX_PLAN_DEPTH ∧ codec_validate_fragment bytes = Ok tt.
Proof.
  unfold codec_decode, codec_validate_fragment. intros Hd. apply bind_ok in Hd as (root & -> & Hd).
  apply bind_ok in Hd as ([q m] & Hq & [= <-]). apply decode_plan_typed in Hq as (? & ? & ?).
  by split_and!.
Qed.

(** Planned queries survive the wire.  A well-formed logical plan whose scans
    have the schemas of their tables is planned to a physical plan that, once
    encoded, every worker with the same catalog decodes to the same plan. *)
Theorem planned_plan_transports `{Protobuf, FloatDisplay} catalog l p bytes :
  wf_plan l → catalog_plan catalog l → create_physical_plan l catalog = Ok p → plan_named p = true →
  transports p → codec_encode p = Ok bytes →
  codec_decode bytes catalog = Ok p ∧ codec_validate_fragment bytes = Ok tt.
Proof.
  intros Hw Hc Hp Hn Htr He. unfold create_physical_plan in Hp. apply bind_ok in Hp as ([q m] & Hb & [= <-]).
  apply fragment_round_trip; [done| |done|done]. by eapply build_typed.
Qed.

(** ** A worked fragment *)

(** Floating-point literals do not occur in the examples. *)
#[local] Instance no_float_literals : FloatDisplay := λ _, "0.0".

(** The plan of [PhysicalProps], and a Protobuf that carries its message. *)
Definition demo_physical : PhysicalPlan :=
  match l ← demo_logical; create_physical_plan l demo_catalog with
  | Ok p => p
  | _ => PScan 0 "t" demo_provider None [] []
  end.
Definition demo_root : WirePlan :=
  match encode_plan demo_physical 0 with Ok w => w | _ => MkWirePlan None end.
#[local] Instance demo_protobuf : Protobuf := {
  encode_to_vec _ := [8; 2; 18; 0]%N;
  decode_message _ := inl (MkWirePlanEnvelope 2 (Some demo_root));
}.

Lemma demo_transports : transports demo_physical.
Proof. intros root Hr. vm_compute in Hr. injection Hr as <-. vm_compute. reflexivity. Qed.

Lemma demo_scans name : scan_schema_ok [MkField "a" DtInt64 true] None [MkField (name +:+ ".a") DtInt64 true] →
  catalog_plan demo_catalog (scan "t" [MkField (name +:+ ".a") DtInt64 true]).
Proof.
  intros Hs provider indices Ht [= <-]. vm_compute in Ht. injection Ht as <-. exact Hs.
Qed.

Lemma demo_scan_schema x : unqualified x = "a" →
  scan_schema_ok [MkField "a" DtInt64 true] None [MkField x DtInt64 true].
Proof. intros Hx. eexists. split; [done|]. repeat constructor; simpl; by rewrite ?Hx. Qed.

Definition demo_logical_plan : LogicalPlan :=
  match demo_logical with Ok l => l | _ => scan "t" [] end.

Lemma demo_logical_ok : wf_plan demo_logical_plan ∧ catalog_plan demo_catalog demo_logical_plan.
Proof.
  split.
  - vm_compute. by repeat constructor.
  - assert (∀ x, unqualified x = "a" → catalog_plan demo_catalog (scan "t" [MkField x DtInt64 true])) as Hs.
    { intros x Hx provider indices Ht [= <-]. vm_compute in Ht. injection Ht as <-. by apply demo_scan_schema. }
    split; [split; [apply (Hs "x.a"); reflexivity|apply (Hs "y.a"); reflexivity]|done].
Qed.

Lemma demo_physical_ok : typed_plan demo_catalog demo_physical ∧ plan_named demo_physical = true.
Proof.
  split; [|reflexivity]. destruct demo_logical_ok as [Hw Hc].
  apply (build_typed demo_catalog demo_logical_plan 0 demo_physical 4 Hw Hc). vm_compute. reflexivity.
Qed.

Lemma codec_round_trip_witness :
  ∃ bytes, codec_encode demo_physical = Ok bytes ∧ plan_height demo_physical = 3 ∧
    codec_decode bytes demo_catalog = Ok demo_physical ∧ codec_validate_fragment bytes = Ok tt.
Proof.
  eexists. split; [vm_compute; reflexivity|]. split; [reflexivity|].
  apply (codec_round_trip demo_catalog demo_physical);
    [apply demo_transports|apply demo_physical_ok|apply demo_physical_ok|vm_compute; reflexivity].
Defined.

Lemma codec_decode_typed_witness :
  ∃ p, codec_decode [1%N] demo_catalog = Ok p ∧ typed_plan demo_catalog p ∧ plan_height p <= MAX_PLAN_DEPTH ∧
    codec_validate_fragment [1%N] = Ok tt.
Proof.
  eexists. split; [vm_compute; reflexivity|].
  apply (codec_decode_typed demo_catalog [1%N]). vm_compute. reflexivity.
Defined.

Lemma planned_plan_transports_witness :
  ∃ bytes, codec_encode demo_physical = Ok bytes ∧
    codec_decode bytes demo_catalog = Ok demo_physical ∧ codec_validate_fragment bytes = Ok tt.
Proof.
  eexists. split; [vm_compute; reflexivity|].
  apply (planned_plan_transports demo_catalog demo_logical_plan demo_physical);
    [apply demo_logical_ok|apply demo_logical_ok|vm_compute; reflexivity|reflexivity|apply demo_transports
    |vm_compute; reflexivity].
Defined.

(** A fragment that passes the coordinator's check and panics the worker that
    decodes it: an alias of an alias reaches [unreachable!] when the projection is
    typed. *)
Definition nested_alias_fragment : WirePlan :=
  let column := MkWireExpr (Some (WColumn "a")) in
  let schema := MkWireSchema [MkWireField "a" 3 true []] [] in
  MkWirePlan (Some (WProjection 0
    (Some (MkWirePlan (Some (WScan 1 "t" false [] [] (Some schema)))))
    [MkWireExpr (Some (WAlias (Some (MkWireExpr (Some (WAlias (Some column) "b")))) "c"))]
    (Some schema))).

Example nested_alias_fragment_panics :
  validate_wire_plan nested_alias_fragment 0 = Ok tt ∧
  ∃ why, decode_plan nested_alias_fragment demo_catalog 0 = Panic why.
Proof. split; [reflexivity|]. eexists. reflexivity. Qed.
