(* ===== verification/Distributed.v ===== *)
(** * Splitting and merging aggregations ([src/cluster/distributed.rs])

    A mergeable aggregation becomes a partial aggregation per partition and a final
    one over the partial rows.  The final one exists twice: as a physical plan for
    remote workers ([final_worker_plan]) and as the in-process [merge_partials].

    [local_strategy] is the decision of [LocalCluster::execute] to distribute; the
    rest of it is in [LocalCluster]. *)
From S2P Require Import Prelude Text Protocol Float Expr Logical Catalog Physical Memory Execution Aggregate.

Definition is_distinct_aggregate (e : Expr) : bool :=
  match unalias e with Aggregate _ _ true => true | _ => false end.

Fixpoint contains_join (p : PhysicalPlan) : bool :=
  match p with
  | PHashJoin _ _ _ _ _ _ _ => true
  | PProjection _ input _ _ | PFilter _ input _ _ | PHashAggregate _ input _ _ _ | PSort _ input _ _
  | PTopK _ input _ _ _ | PLimit _ input _ _ => contains_join input
  | PScan _ _ _ _ _ _ => false
  end.

Fixpoint scan_partitions (p : PhysicalPlan) : option nat :=
  match p with
  | PScan _ _ provider _ _ _ => Some (tp_partition_count provider)
  | PProjection _ input _ _ | PFilter _ input _ _ | PHashAggregate _ input _ _ _ | PSort _ input _ _
  | PTopK _ input _ _ _ | PLimit _ input _ _ => scan_partitions input
  | PHashJoin _ _ _ _ _ _ _ => None
  end.

(** ** Splitting *)

Record PartialAggregatePlan := MkPartialAggregatePlan {
  pa_worker_plan : PhysicalPlan;
  pa_partition_count : nat;
  pa_group_count : nat;
  pa_aggregate_exprs : list Expr;
  pa_output_schema : Schema;
  pa_operator_id : N;
}.

Definition aggregate_column (function : AggregateFunction) (column alias : string) : Expr :=
  Alias (Aggregate function (Column column) false) alias.

Section split.
Context `{FloatDisplay}.

Definition expected_aggregate {A} (e : Expr) : result A :=
  Err (Planning ("expected aggregate expression, got " +:+ display_expr e)).

(** The partial aggregates of one aggregate: AVG is a sum and a count. *)
Definition partial_exprs_of (x : nat * Expr) : result (list Expr) :=
  match unalias x.2 with
  | Aggregate Avg e distinct =>
      Ok [Alias (Aggregate Sum e distinct) ("__sparkx_avg_sum_" +:+ pretty (N.of_nat x.1));
          Alias (Aggregate Count e distinct) ("__sparkx_avg_count_" +:+ pretty (N.of_nat x.1))]
  | Aggregate _ _ _ => Ok [Alias (unalias x.2) (name x.2)]
  | _ => expected_aggregate x.2
  end.

Definition partial_aggregate_exprs (aggregates : list Expr) : result (list Expr) :=
  partials ← collect partial_exprs_of (enumerate aggregates); Ok (concat partials).

Definition aggregate_schema (input_schema : Schema) (groups aggregates : list Expr) : result Schema :=
  collect (λ e, field e input_schema) (groups ++ aggregates).

Definition split_mergeable_aggregate (p : PhysicalPlan) : result (option PartialAggregatePlan) :=
  match p with
  | PHashAggregate id input group_exprs aggregate_exprs schema =>
      if existsb is_distinct_aggregate aggregate_exprs then Ok None
      else match scan_partitions input with
      | None => Ok None
      | Some 0 => Err (Execution "distributed aggregate input exposes no scan partitions")
      | Some partition_count =>
          partial_exprs ← partial_aggregate_exprs aggregate_exprs;
          partial_schema ← aggregate_schema (physical_schema input) group_exprs partial_exprs;
          Ok (Some (MkPartialAggregatePlan
                (PHashAggregate id input group_exprs partial_exprs partial_schema)
                partition_count (length group_exprs) aggregate_exprs schema id))
      end
  | _ => Ok None
  end.

(** What [LocalCluster::execute] does with a plan: run it as it is, or run its
    input on so many partitions, aggregate each partially and merge. *)
Inductive LocalStrategy := RunWhole | RunPartitions (partitions : nat).

Definition local_strategy (p : PhysicalPlan) : LocalStrategy :=
  match p with
  | PHashAggregate _ input _ aggregate_exprs _ =>
      if contains_join input then RunWhole
      else if existsb is_distinct_aggregate aggregate_exprs then RunWhole
      else match scan_partitions input with
           | None => RunWhole
           | Some partitions => if (partitions <=? 1)%nat then RunWhole else RunPartitions partitions
           end
  | _ => RunWhole
  end.

(** ** The final plan of remote workers *)

(** The expressions gathered so far, and the next partial column. *)
Record FinalExprs := MkFinalExprs {
  fe_merge : list Expr;
  fe_projection : list Expr;
  fe_column : nat;
}.

Definition field_name_at (s : Schema) (i : nat) : result string :=
  f ← expect (s !! i) "index out of bounds"; Ok (f_name f).

Definition final_exprs_of (input_schema output_schema : Schema) (group_count : nat) (acc : FinalExprs)
    (x : nat * Expr) : result FinalExprs :=
  match unalias x.2 with
  | Aggregate function _ _ =>
      output_name ← field_name_at output_schema (group_count + x.1);
      partial_name ← field_name_at input_schema (fe_column acc);
      let index := pretty (N.of_nat x.1) in
      let merge_name := "__sparkx_merge_" +:+ index in
      let one merged :=
        MkFinalExprs (fe_merge acc ++ [aggregate_column merged partial_name merge_name])
          (fe_projection acc ++ [Alias (Column merge_name) output_name]) (fe_column acc + 1) in
      match function with
      | Count => Ok (one SumUInt64)
      | Sum => Ok (one Sum)
      | Min | Max => Ok (one function)
      | SumUInt64 => Ok (one SumUInt64)
      | Avg =>
          count_name ← field_name_at input_schema (fe_column acc + 1);
          let sum_merge_name := "__sparkx_merge_avg_sum_" +:+ index in
          let count_merge_name := "__sparkx_merge_avg_count_" +:+ index in
          Ok (MkFinalExprs
                (fe_merge acc ++ [aggregate_column Sum partial_name sum_merge_name;
                                  aggregate_column SumUInt64 count_name count_merge_name])
                (fe_projection acc ++
                   [Alias (Binary (Column sum_merge_name) OpDivide (Column count_merge_name)) output_name])
                (fe_column acc + 2))
      end
  | _ => expected_aggregate x.2
  end.

Context `{BatchOps}.

Definition final_worker_plan (self : PartialAggregatePlan) (input_stage : StageId) : result PhysicalPlan :=
  let input_schema := physical_schema (pa_worker_plan self) in
  provider ← MemoryTable_new input_schema [[]];
  let scan := PScan (saturating_add_u32 (pa_operator_id self) 2) (stage_input_table_name input_stage)
                (memory_provider provider) None [] input_schema in
  let group_fields := take (pa_group_count self) input_schema in
  let merge_groups := (λ f, Column (f_name f)) <$> group_fields in
  let groups := (λ x : Field * Field, Alias (Column (f_name x.1)) (f_name x.2))
                <$> zip group_fields (pa_output_schema self) in
  exprs ← fold_result (final_exprs_of input_schema (pa_output_schema self) (pa_group_count self))
            (MkFinalExprs [] groups (pa_group_count self)) (enumerate (pa_aggregate_exprs self));
  merge_schema ← aggregate_schema input_schema merge_groups (fe_merge exprs);
  let merge := PHashAggregate (saturating_add_u32 (pa_operator_id self) 1) scan merge_groups
                 (fe_merge exprs) merge_schema in
  Ok (PProjection (pa_operator_id self) merge (fe_projection exprs) (pa_output_schema self)).
End split.

(** ** Merging in process *)

Inductive MergeState :=
| MergeCount (total : N)
| MergeSum (value : N) (seen : bool)
| MergeMin (current : option ScalarValue)
| MergeMax (current : option ScalarValue)
| MergeAvg (sum count : N).

Definition new_merge_state (function : AggregateFunction) : MergeState :=
  match function with
  | Count => MergeCount 0
  | Sum => MergeSum 0 false
  | SumUInt64 => MergeCount 0
  | Min => MergeMin None
  | Max => MergeMax None
  | Avg => MergeAvg 0 0
  end.

Definition new_merge_states (functions : list AggregateFunction) : list MergeState :=
  new_merge_state <$> functions.

Definition merge_extreme (current : option ScalarValue) (candidate : ScalarValue) (minimum : bool)
    : result (option ScalarValue) :=
  if decide (candidate = Null) then Ok current
  else
    replace ← match current with
      | None => Ok true
      | Some value =>
          match partial_compare candidate value with
          | Some Lt => Ok minimum
          | Some Gt => Ok (negb minimum)
          | Some Eq => Ok false
          | None => Err (Execution "partial aggregate types cannot be compared")
          end
      end;
    Ok (if replace : bool then Some candidate else current).

(** [size_of::<MergeState>()] *)
Class MergeSizes := sizeof_merge_state : N.

Section merge.
Context `{FloatDisplay, ScalarDebug, BatchOps, RowConverter, Sizes, MergeSizes} (memory : TaskMemory).

Definition as_f64 (value : ScalarValue) : result N :=
  match value with
  | Float64 bits => Ok bits
  | Int64 z => Ok (int_to_f64 z)
  | UInt64 n => Ok (int_to_f64 (Z.of_N n))
  | Null => Ok 0%N
  | other => Err (Execution ("expected numeric partial, got " +:+ debug_scalar other))
  end.

Definition as_u64 (value : ScalarValue) : result N :=
  match value with
  | UInt64 n => Ok n
  | Null => Ok 0%N
  | Int64 z =>
      if (0 <=? z)%Z then Ok (Z.to_N z)
      else Err (Execution ("expected unsigned partial, got " +:+ debug_scalar value))
  | other => Err (Execution ("expected unsigned partial, got " +:+ debug_scalar other))
  end.

Definition merge_group_memory_bytes (key : string) (state_count : nat) : N :=
  saturating_add_u64
    (saturating_add_u64 (saturating_add_u64 32 (encoded_key_memory_bytes key)) sizeof_vec)
    (saturating_mul_u64 (N.of_nat state_count) sizeof_merge_state).

(** [value_at(batch.column(column), row)] *)
Definition partial_value (b : RecordBatch) (row column : nat) : result ScalarValue :=
  a ← expect (b_columns b !! column) "index out of bounds"; value_at a row.

(** The state of one aggregate after a partial row, and its next column. *)
Definition merge_state (b : RecordBatch) (row column : nat) (function : AggregateFunction)
    (state : MergeState) : result (MergeState * nat) :=
  match function, state with
  | Count, MergeCount total =>
      v ← partial_value b row column; n ← as_u64 v; total ← add_u64 total n;
      Ok (MergeCount total, column + 1)
  | Sum, MergeSum value seen =>
      partial ← partial_value b row column;
      if decide (partial = Null) then Ok (MergeSum value seen, column + 1)
      else x ← as_f64 partial; Ok (MergeSum (f64_add value x) true, column + 1)
  | SumUInt64, MergeCount total =>
      v ← partial_value b row column; n ← as_u64 v;
      total ← ok_or (checked_add_u64 total n) (Execution "partial unsigned sum overflowed UInt64");
      Ok (MergeCount total, column + 1)
  | Min, MergeMin current =>
      v ← partial_value b row column; current ← merge_extreme current v true;
      Ok (MergeMin current, column + 1)
  | Max, MergeMax current =>
      v ← partial_value b row column; current ← merge_extreme current v false;
      Ok (MergeMax current, column + 1)
  | Avg, MergeAvg sum count =>
      v ← partial_value b row column; x ← as_f64 v;
      w ← partial_value b row (column + 1); n ← as_u64 w; count ← add_u64 count n;
      Ok (MergeAvg (f64_add sum x) count, column + 2)
  | _, _ => Err (Execution "invalid partial aggregate state")
  end.

(** All aggregates of a row, side by side with the states of its group. *)
Fixpoint merge_states (b : RecordBatch) (row column : nat) (functions : list AggregateFunction)
    (states : list MergeState) : result (list MergeState) :=
  match functions, states with
  | f :: functions, s :: states =>
      '(s, column) ← merge_state b row column f s;
      states ← merge_states b row column functions states;
      Ok (s :: states)
  | _, states => Ok states
  end.

Record MergeGroups := MkMergeGroups { mg_groups : gmap string (list MergeState); mg_own : N }.

Definition merge_row (functions : list AggregateFunction) (group_count : nat) (b : RecordBatch)
    (encoded : list string) (aside : N) (st : MergeGroups) (row : nat) : result MergeGroups :=
  key ← expect (encoded !! row) "encoded row index out of bounds";
  st ← match mg_groups st !! key with
       | Some _ => Ok st
       | None =>
           own ← try_grow memory aside (mg_own st) (merge_group_memory_bytes key (length functions));
           Ok (MkMergeGroups (<[key := new_merge_states functions]> (mg_groups st)) own)
       end;
  states ← expect (mg_groups st !! key) "encoded merge key was inserted";
  states ← merge_states b row group_count functions states;
  Ok (MkMergeGroups (<[key := states]> (mg_groups st)) (mg_own st)).

Definition merge_batch (k : RowKeyEncoder) (functions : list AggregateFunction) (group_count : nat)
    (st : MergeGroups) (b : RecordBatch) : result MergeGroups :=
  if (length (b_columns b) <? group_count)%nat then Panic "range end index out of range"
  else
    encoded ← encode k (take group_count (b_columns b)) (b_rows b);
    aside ← try_reserve memory (mg_own st) (memory_size k encoded);
    fold_result (merge_row functions group_count b encoded aside) st (seq 0 (b_rows b)).

Definition merge_groups (k : RowKeyEncoder) (functions : list AggregateFunction) (group_count : nat)
    (own : N) (batches : list RecordBatch) : result MergeGroups :=
  st ← if decide (group_count = 0) then
         own ← try_grow memory 0 own (merge_group_memory_bytes EmptyString (length functions));
         Ok (MkMergeGroups {[ EmptyString := new_merge_states functions ]} own)
       else Ok (MkMergeGroups ∅ own);
  fold_result (merge_batch k functions group_count) st batches.

Definition merge_finish (s : MergeState) : ScalarValue :=
  match s with
  | MergeCount value => UInt64 value
  | MergeSum value seen => if seen then Float64 value else Null
  | MergeMin value | MergeMax value => default Null value
  | MergeAvg sum count =>
      if (count =? 0)%N then Null else Float64 (f64_div sum (int_to_f64 (Z.of_N count)))
  end.

Definition aggregate_function (e : Expr) : result AggregateFunction :=
  match unalias e with Aggregate f _ _ => Ok f | other => expected_aggregate other end.

Definition merge_partials (batches : list RecordBatch) (group_count : nat) (aggregates : list Expr)
    (schema : Schema) : result RecordBatch :=
  functions ← collect aggregate_function aggregates;
  own ← try_reserve memory 0 0;
  k ← RowKeyEncoder_new (f_type <$> take group_count schema);
  st ← merge_groups k functions group_count own batches;
  let entries := btree_iter (mg_groups st) in
  arrays ← decode k (entries.*1);
  columns ← fold_result push_row (replicate (length aggregates) []) (fmap (M:=list) merge_finish <$> entries.*2);
  outputs ← collect (λ x : list ScalarValue * Field, scalars_to_array x.1 (f_type x.2))
              (zip columns (drop group_count schema));
  try_new schema (arrays ++ outputs).
End merge.
