(* ===== verification/DistributedProps.v ===== *)
(** * Distributed aggregation is aggregation

    Aggregating every partition on its own, moving the partial rows as record
    batches and merging them gives the batch that one aggregation of all rows
    gives. *)
From S2P Require Import Prelude Text Protocol Memory Float Expr ExprProps Logical Catalog Physical Execution ExecutionDemo HashJoin Aggregate AggregateProps Distributed.

(** ** Maps in key order *)

Lemma btree_iter_fmap `{Countable K, !KeyOrder K} {V W} (f : V → W) (m : gmap K V) :
  btree_iter (f <$> m) = prod_map id f <$> btree_iter m.
Proof.
  apply (StronglySorted_unique_strong entry_le).
  - intros [k1 w1] [k2 w2] H1 H2 H12 H21. apply elem_of_btree_iter in H1.
    apply list_elem_of_fmap in H2 as ([k v] & [= -> ->] & Hv). apply elem_of_btree_iter in Hv.
    assert (k1 = k) as -> by (by apply (anti_symm key_le)).
    rewrite lookup_fmap, Hv in H1. simpl in H1. by simplify_eq.
  - apply btree_iter_sorted.
  - apply (StronglySorted_fmap (prod_map id f) entry_le entry_le); [by intros [] []|apply btree_iter_sorted].
  - rewrite !btree_iter_Permutation. by rewrite map_to_list_fmap.
Qed.

Lemma btree_iter_same `{Countable K, !KeyOrder K} {V W X} (f : V → X) (g : W → X) (m : gmap K V)
    (m' : gmap K W) :
  f <$> m = g <$> m' →
  (btree_iter m).*1 = (btree_iter m').*1 ∧ f <$> (btree_iter m).*2 = g <$> (btree_iter m').*2.
Proof.
  intros E. apply (f_equal btree_iter) in E. rewrite !btree_iter_fmap in E.
  revert E. generalize (btree_iter m) as l, (btree_iter m') as l'. clear.
  induction l as [|[k v] l IH]; intros [|[k' w] l'] E; try done. injection E as -> E1 E2.
  destruct (IH _ E2) as [H1 H2]. csimpl. by rewrite H1, H2, E1.
Qed.

(** ** Rows and columns *)

Lemma push_rows_spec n (rows : list (list ScalarValue)) cols :
  Forall (λ r, length r = n) rows → fold_result push_row (replicate n []) rows = Ok cols →
  length cols = n ∧
  ∀ c col, cols !! c = Some col → length col = length rows ∧ ∀ j r, rows !! j = Some r → col !! j = r !! c.
Proof.
  intros Hn Hf. apply (fold_result_invariant _ (λ pre cols, length cols = n ∧
    ∀ c col, cols !! c = Some col → length col = length pre ∧ ∀ j r, pre !! j = Some r → col !! j = r !! c))
    in Hf; [done| |].
  2:{ split; [apply length_replicate|]. intros c col Hc. apply lookup_replicate in Hc as [-> _]. done. }
  intros pre r post s s' Hsp [Hl Hs] Hp. rewrite Hsp in Hn. apply list.Forall_app in Hn as [_ Hn].
  apply list.Forall_cons in Hn as [Hr _]. unfold push_row in Hp. rewrite decide_True in Hp by lia.
  injection Hp as <-. rewrite Hr, <-Hl, firstn_all, drop_all, app_nil_r. split.
  { rewrite length_zip_with. lia. }
  intros c col Hc. apply lookup_zip_with_Some in Hc as (col0 & v & -> & Hc & Hv).
  destruct (Hs _ _ Hc) as [Hlen Hrows]. rewrite !length_app. split; [simpl; lia|].
  intros j r' Hj. apply lookup_app_Some in Hj as [Hj|[Hge Hj]].
  - rewrite lookup_app_l; [by apply Hrows|]. rewrite Hlen. by eapply lookup_lt_Some.
  - apply list_lookup_singleton_Some in Hj as [Hj <-]. rewrite lookup_app_r by lia.
    by replace (j - length col0) with 0 by lia.
Qed.

(** A value that an array of a type gives back. *)
Definition storable (t : DataType) (v : ScalarValue) : Prop :=
  value_at (MkArray t [built_cell t v]) 0 = Ok v.

Lemma stored_value t vs a j v :
  scalars_to_array vs t = Ok a → Forall (storable t) vs → vs !! j = Some v → value_at a j = Ok v.
Proof.
  intros Ha Hs Hj. rewrite Forall_lookup in Hs. specialize (Hs _ _ Hj). unfold storable, value_at in Hs.
  assert (a = MkArray t (built_cell t <$> vs)) as -> by (by destruct t; simplify_eq/=).
  unfold value_at. simpl in *. by rewrite list_lookup_fmap, Hj.
Qed.

Lemma storable_null t : storable t Null.
Proof. by destruct t. Qed.

Lemma storable_count n : storable DtUInt64 (UInt64 n).
Proof. unfold storable, value_at. simpl. by rewrite N2Z.id. Qed.

(** A value read from an array can be stored in another of its type. *)
Lemma storable_read n a i v :
  array_ok n a → native (a_type a) = true → value_at a i = Ok v → storable (a_type a) v.
Proof.
  intros [_ Ht] Hn Hv. unfold value_at in Hv. apply bind_ok in Hv as (c & Hc & Hv).
  destruct (a_cells a !! i) as [c'|] eqn:E; [|done]. injection Hc as ->. rewrite Forall_lookup in Ht.
  specialize (Ht _ _ E). destruct c as [c|]; [|injection Hv as <-; by apply storable_null].
  specialize (Ht c eq_refl). destruct (a_type a), c; try done; simpl in Hv; injection Hv as <-; try done;
    unfold cell_typed in Ht; bool_to_prop; unfold storable, value_at; cbn [a_cells a_type built_cell];
    change ([?x] !! 0) with (Some x); cbn [expect mbind result_bind].
  do 2 f_equal. lia.
Qed.

(** ** Extremes: the first of the best *)

Definition beats (choice : OrderingChoice) (a b : ScalarValue) : Prop :=
  better choice a b ∧ ~ better choice b a.

Lemma beats_trans choice a b c : beats choice a b → better choice b c → beats choice a c.
Proof.
  intros [H1 H2] H3. split; [by eapply better_trans|]. intros H4. apply H2. by eapply better_trans.
Qed.

Definition first_extreme (choice : OrderingChoice) (l : list ScalarValue) (m : option ScalarValue) : Prop :=
  match m with
  | None => ∀ v, v ∈ l → v = Null
  | Some x => ∃ a b, l = a ++ x :: b ∧ x ≠ Null ∧
      (∀ y, y ∈ a → y ≠ Null → beats choice x y) ∧ (∀ y, y ∈ b → y ≠ Null → better choice x y)
  end.

Lemma first_extreme_better choice l x y :
  first_extreme choice l (Some x) → y ∈ l → y ≠ Null → y = x ∨ better choice x y.
Proof.
  intros (a & b & -> & _ & Ha & Hb) Hy Hn. apply elem_of_app in Hy as [Hy|Hy].
  - right. by apply Ha.
  - apply elem_of_cons in Hy as [->|Hy]; [by left|right; by apply Hb].
Qed.

Lemma first_extreme_unique choice l x y :
  first_extreme choice l (Some x) → first_extreme choice l (Some y) → x = y.
Proof.
  intros (a & b & Hl & Hx & Ha & Hb) (a' & b' & Hl' & Hy & Ha' & Hb'). subst l.
  apply app_eq_inv in Hl' as [(k & -> & Hk)|(k & -> & Hk)]; destruct k as [|z k];
    injection Hk as -> Hk; try done; exfalso.
  - assert (beats choice x z) as [_ Hn] by (apply Ha; set_solver). apply Hn, Hb'; set_solver.
  - assert (beats choice y z) as [_ Hn] by (apply Ha'; set_solver). apply Hn, Hb; set_solver.
Qed.

Lemma first_extreme_functional choice l m m' :
  first_extreme choice l m → first_extreme choice l m' → m = m'.
Proof.
  assert (∀ x, first_extreme choice l (Some x) → first_extreme choice l None → False) as Hno.
  { intros x (a & b & -> & Hx & _) Hn. apply Hx, Hn. set_solver. }
  destruct m as [x|], m' as [y|]; intros H1 H2; [|by destruct (Hno x)|by destruct (Hno y)|done].
  f_equal. by eapply first_extreme_unique.
Qed.

Lemma update_extreme_cases choice m v m' :
  v ≠ Null → update_extreme (Some m) v choice = Ok m' →
  (m' = Some v ∧ beats choice v m) ∨ (m' = Some m ∧ better choice m v).
Proof.
  unfold update_extreme, should_replace_extreme. intros Hv Hu. rewrite decide_False in Hu by done.
  pose proof (partial_compare_flip v m) as Hflip. unfold beats, better, scalar_le.
  destruct (partial_compare v m) as [o|]; [|done]. simpl in Hflip.
  destruct o, choice; injection Hu as <-; rewrite Hflip; simpl; naive_solver.
Qed.

(** Two stretches of values, merged by their extremes. *)
Lemma first_extreme_app choice l k m p m' :
  first_extreme choice l m → first_extreme choice k p → update_extreme m (default Null p) choice = Ok m' →
  first_extreme choice (l ++ k) m'.
Proof.
  intros Hm Hp Hu. destruct p as [y|]; simpl in Hu.
  2:{ unfold update_extreme, should_replace_extreme in Hu. simpl in Hu. injection Hu as <-.
      destruct m as [x|]; simpl in *; [|set_solver]. destruct Hm as (a & b & -> & Hx & Ha & Hb).
      exists a, (b ++ k). rewrite <-app_assoc. split_and!; [done|done|done|].
      intros y Hy Hn. apply elem_of_app in Hy as [Hy|Hy]; [by apply Hb|]. by apply Hp in Hy. }
  pose proof Hp as (a' & b' & -> & Hy & Ha' & Hb'). destruct m as [x|].
  2:{ unfold update_extreme, should_replace_extreme in Hu. rewrite decide_False in Hu by done.
      injection Hu as <-. exists (l ++ a'), b'. rewrite <-app_assoc. split_and!; [done|done| |done].
      intros z Hz Hn. apply elem_of_app in Hz as [Hz|Hz]; [by apply Hm in Hz|by apply Ha']. }
  apply update_extreme_cases in Hu as [[-> Hbt]|[-> Hbt]]; [| |done].
  - exists (l ++ a'), b'. rewrite <-app_assoc. split_and!; [done|done| |done]. intros z Hz Hn.
    apply elem_of_app in Hz as [Hz|Hz]; [|by apply Ha'].
    destruct (first_extreme_better _ _ _ _ Hm Hz Hn) as [->|Hxz]; [done|by eapply beats_trans].
  - pose proof Hm as (a & b & -> & Hx & Ha & Hb). exists a, (b ++ a' ++ y :: b').
    rewrite <-app_assoc. split_and!; [done|done|done|]. intros z Hz Hn.
    apply elem_of_app in Hz as [Hz|Hz]; [by apply Hb|].
    destruct (first_extreme_better _ _ _ _ Hp Hz Hn) as [->|Hyz]; [done|by eapply better_trans].
Qed.

Lemma fold_first_extreme `{ScalarDebug} choice vs s :
  fold_result update (extreme_state choice None) vs = Ok s →
  ∃ m, s = extreme_state choice m ∧ first_extreme choice vs m.
Proof.
  intros Hf. apply (fold_result_invariant _ (λ pre s, ∃ m, s = extreme_state choice m ∧
    first_extreme choice pre m)) in Hf; [done| |].
  - intros pre v post s1 s2 _ (m & -> & Hm) Hu.
    assert (∃ m', update_extreme m v choice = Ok m' ∧ s2 = extreme_state choice m') as (m' & Hm' & ->).
    { destruct choice; simpl in Hu; apply bind_ok in Hu as (m' & ? & [= <-]); eauto. }
    exists m'. split; [done|]. destruct (decide (v = Null)) as [->|Hv].
    + apply (first_extreme_app choice pre [Null] m None); [done|set_solver|done].
    + apply (first_extreme_app choice pre [v] m (Some v)); [done| |done].
      exists [], []. split_and!; [done|done|set_solver|set_solver].
  - exists None. split; [done|]. by intros v Hv%not_elem_of_nil.
Qed.

(** ** One aggregate of one group *)

(** The functions whose merge is exact; SUM and AVG add floating-point numbers, and
    partitioning changes the order of the additions. *)
Definition exact_function (f : AggregateFunction) : bool :=
  match f with Count | Min | Max => true | _ => false end.

(** A merged state and the state of a single aggregation agree. *)
Inductive same_state : MergeState → AggregateState → Prop :=
| same_count n : same_state (MergeCount n) (CountState n None)
| same_min m : same_state (MergeMin m) (MinState m)
| same_max m : same_state (MergeMax m) (MaxState m).

Lemma same_state_finish m s : same_state m s → merge_finish m = finish s.
Proof. by destruct 1. Qed.

Section values.
Context `{ScalarDebug}.

(** [merge_state] on the partial value. *)
Definition merge_value (f : AggregateFunction) (m : MergeState) (v : ScalarValue) : result MergeState :=
  match f, m with
  | Count, MergeCount total => n ← as_u64 v; total ← add_u64 total n; Ok (MergeCount total)
  | Min, MergeMin current => current ← merge_extreme current v true; Ok (MergeMin current)
  | Max, MergeMax current => current ← merge_extreme current v false; Ok (MergeMax current)
  | _, _ => Err (Execution "invalid partial aggregate state")
  end.

Lemma merge_state_value b row column f m v r :
  exact_function f = true → partial_value b row column = Ok v → merge_state b row column f m = Ok r →
  ∃ m', merge_value f m v = Ok m' ∧ r = (m', column + 1).
Proof.
  intros Hf Hv Hm. destruct f; try done; destruct m; try done; cbn in Hm; rewrite Hv in Hm; cbn in *.
  - apply bind_ok in Hm as (n & -> & Hm). apply bind_ok in Hm as (t & Ht & [= <-]). cbn. rewrite Ht. by eexists.
  - apply bind_ok in Hm as (t & -> & [= <-]). by eexists.
  - apply bind_ok in Hm as (t & -> & [= <-]). by eexists.
Qed.

Lemma merge_extreme_update current v choice m :
  merge_extreme current v (match choice with ChooseMin => true | ChooseMax => false end) = Ok m →
  update_extreme current v choice = Ok m.
Proof.
  unfold merge_extreme, update_extreme, should_replace_extreme.
  destruct (decide (v = Null)); [by intros [= <-]|]. destruct current as [c|]; [|done].
  destruct (partial_compare v c) as [[]|]; [..|done]; by destruct choice.
Qed.

(** The values so far, in one aggregation and in merged partial ones. *)
Lemma merge_value_fold f us vs l p m m' l' :
  exact_function f = true → fold_result update (AggregateState_new f false) us = Ok l →
  fold_result update (AggregateState_new f false) vs = Ok p → same_state m l →
  merge_value f m (finish p) = Ok m' →
  fold_result update (AggregateState_new f false) (us ++ vs) = Ok l' → same_state m' l'.
Proof.
  intros Hf Hl Hp Hs Hm Hl'. destruct f; try done.
  - apply fold_count in Hl as ->, Hp as ->, Hl' as ->. inversion Hs; subst. cbn in Hm. unfold add_u64 in Hm.
    destruct (_ <=? _)%N; [|done]. injection Hm as <-.
    unfold non_null. rewrite omap_app, length_app, Nat2N.inj_add. constructor.
  - apply (fold_first_extreme ChooseMin) in Hl as (x & -> & Hx), Hp as (y & -> & Hy), Hl' as (z & -> & Hz).
    inversion Hs; subst. cbn in Hm. apply bind_ok in Hm as (w & Hw & [= <-]).
    apply (merge_extreme_update _ _ ChooseMin) in Hw. apply (first_extreme_app _ _ _ _ _ _ Hx Hy) in Hw.
    rewrite (first_extreme_functional _ _ _ _ Hw Hz). constructor.
  - apply (fold_first_extreme ChooseMax) in Hl as (x & -> & Hx), Hp as (y & -> & Hy), Hl' as (z & -> & Hz).
    inversion Hs; subst. cbn in Hm. apply bind_ok in Hm as (w & Hw & [= <-]).
    apply (merge_extreme_update _ _ ChooseMax) in Hw. apply (first_extreme_app _ _ _ _ _ _ Hx Hy) in Hw.
    rewrite (first_extreme_functional _ _ _ _ Hw Hz). constructor.
Qed.
End values.

(** ** All aggregates of one group *)

Section groups.
Context `{ScalarDebug}.

(** The inputs of one aggregate. *)
Definition input_column (c : nat) (inputs : list (list ScalarValue)) : list ScalarValue :=
  omap (λ r : list ScalarValue, r !! c) inputs.

Lemma input_column_app c l k : input_column c (l ++ k) = input_column c l ++ input_column c k.
Proof. apply omap_app. Qed.

Lemma update_all_min s r s' : update_all s r = Ok s' → length s' = Nat.min (length s) (length r).
Proof. unfold update_all. intros Hu. by rewrite (collect_length _ _ _ Hu), length_zip_with. Qed.

Lemma update_all_shrinks inputs s s' : fold_result update_all s inputs = Ok s' → length s' <= length s.
Proof.
  revert s. induction inputs as [|r inputs IH]; intros s Hf; cbn in Hf; [injection Hf as <-; done|].
  apply bind_ok in Hf as (s1 & H1 & Hf). apply update_all_min in H1. apply IH in Hf. lia.
Qed.

(** Each aggregate folds its own inputs. *)
Lemma group_column inputs s s' c x :
  fold_result update_all s inputs = Ok s' → length s' = length s → s !! c = Some x →
  ∃ y, s' !! c = Some y ∧ fold_result update x (input_column c inputs) = Ok y.
Proof.
  revert s x. induction inputs as [|r inputs IH]; intros s x Hf Hl Hx; cbn in Hf.
  { injection Hf as <-. by exists x. }
  apply bind_ok in Hf as (s1 & H1 & Hf). pose proof (update_all_min _ _ _ H1) as Hm.
  pose proof (update_all_shrinks _ _ _ Hf) as Hs. apply lookup_lt_Some in Hx as Hc.
  destruct (lookup_lt_is_Some_2 r c) as [v Hv]; [lia|].
  destruct (lookup_lt_is_Some_2 s1 c) as [y Hy]; [lia|].
  assert (update x v = Ok y) as Hu.
  { unfold update_all in H1. apply collect_ok in H1.
    destruct (Forall2_lookup_r _ _ _ _ _ H1 Hy) as ([x' v'] & Hz & Hu). apply lookup_zip_Some in Hz as [? ?].
    by simplify_eq. }
  destruct (IH s1 y Hf) as (y' & Hy' & Hfold); [lia|done|]. exists y'. split; [done|].
  cbn. rewrite Hv. cbn. by rewrite Hu.
Qed.

Definition functions_of (specs : list spec) : list AggregateFunction := (λ s : spec, s.1.1) <$> specs.

(** Aggregates that can be merged exactly. *)
Definition exact_spec (s : spec) : Prop := exact_function s.1.1 = true ∧ s.2 = false.

Lemma new_states_lookup specs c s :
  specs !! c = Some s → new_states specs !! c = Some (AggregateState_new s.1.1 s.2).
Proof. unfold new_states. intros Hs. by rewrite list_lookup_fmap, Hs. Qed.

(** The merged states of a group after another partition. *)
Definition merged (functions : list AggregateFunction) (ms : list MergeState) (vs : list ScalarValue)
    (ms' : list MergeState) : Prop :=
  length ms' = length ms ∧
  ∀ c f m v, functions !! c = Some f → ms !! c = Some m → vs !! c = Some v →
    ∃ m', ms' !! c = Some m' ∧ merge_value f m v = Ok m'.

Lemma merge_states_merged b row column functions ms vs ms' :
  Forall (λ f, exact_function f = true) functions →
  (∀ c v, vs !! c = Some v → partial_value b row (column + c) = Ok v) →
  length vs = length functions →
  merge_states b row column functions ms = Ok ms' → merged functions ms vs ms'.
Proof.
  revert column functions ms ms'. induction vs as [|v vs IH]; intros column [|f functions] ms ms' Hf Hv Hl Hm;
    try done; [by destruct ms; cbn in Hm; simplify_eq|]. destruct ms as [|m ms]; cbn in Hm.
  { injection Hm as <-. by split. }
  apply list.Forall_cons in Hf as [Hf Hfs]. apply bind_ok in Hm as ([m1 c1] & H1 & Hm).
  apply bind_ok in Hm as (rest & Hrest & [= <-]).
  specialize (Hv 0 v eq_refl) as Hv0. rewrite Nat.add_0_r in Hv0.
  destruct (merge_state_value _ _ _ _ _ _ _ Hf Hv0 H1) as (m' & Hm' & [= -> ->]).
  destruct (IH (column + 1) functions ms rest) as [Hlen Hmerge]; [done| |by injection Hl|done|].
  { intros c w Hw. rewrite <-Nat.add_assoc. by apply (Hv (S c)). }
  split; [simpl; lia|]. intros [|c] f' m0 v' Hf' Hm0 Hv'; simplify_eq/=; [by exists m'|]. by apply Hmerge.
Qed.

(** A group's merged states agree with one aggregation of the same inputs. *)
Definition agree (specs : list spec) (inputs : list (list ScalarValue)) (ms : list MergeState) : Prop :=
  ∃ ls, group_states specs inputs = Ok ls ∧ length ls = length specs ∧ Forall2 same_state ms ls.

Lemma agree_new specs : Forall exact_spec specs → agree specs [] (new_merge_states (functions_of specs)).
Proof.
  intros Hs. exists (new_states specs). split_and!; [done|unfold new_states; by rewrite length_fmap|].
  unfold new_merge_states, functions_of, new_states. rewrite <-list_fmap_compose.
  induction Hs as [|[[f e] d] specs [Hf Hd] _ IH]; [constructor|]. rewrite !fmap_cons. constructor; [|done].
  simpl in *. subst d. destruct f; try done; constructor.
Qed.

Lemma agree_merged specs us vs ms p ms' ls :
  Forall exact_spec specs → agree specs us ms →
  group_states specs vs = Ok p → length p = length specs →
  merged (functions_of specs) ms (finish <$> p) ms' →
  group_states specs (us ++ vs) = Ok ls → length ls = length specs → agree specs (us ++ vs) ms'.
Proof.
  intros Hex (l & Hl & Hll & Hsame) Hp Hlp [Hlm Hm] Hls Hlls. exists ls. split_and!; [done|done|].
  pose proof (Forall2_length Hsame) as Hms. apply Forall2_same_length_lookup. split; [lia|].
  intros c m' x Hm' Hx. apply lookup_lt_Some in Hx as Hc.
  destruct (lookup_lt_is_Some_2 specs c) as [[[f e] d] Hs]; [lia|].
  destruct (lookup_lt_is_Some_2 ms c) as [m Hmc]; [lia|].
  pose proof (Forall_lookup_1 _ _ _ _ Hex Hs) as [Hf Hd]. simpl in Hf, Hd. subst d.
  assert (new_states specs !! c = Some (AggregateState_new f false)) as Hn by (by apply (new_states_lookup _ _ _ Hs)).
  assert (length (new_states specs) = length specs) as Hlen by (unfold new_states; by rewrite length_fmap).
  destruct (group_column us _ l c _ Hl ltac:(lia) Hn) as (y & Hy & Hfy).
  destruct (group_column vs _ p c _ Hp ltac:(lia) Hn) as (z & Hz & Hfz).
  destruct (group_column (us ++ vs) _ ls c _ Hls ltac:(lia) Hn) as (w & Hw & Hfw). simplify_eq.
  rewrite input_column_app in Hfw.
  destruct (Hm c f m (finish z)) as (m'' & Hm'' & Hmv);
    [unfold functions_of; by rewrite list_lookup_fmap, Hs|done|by rewrite list_lookup_fmap, Hz|]. simplify_eq.
  eapply merge_value_fold; [exact Hf|exact Hfy|exact Hfz| |exact Hmv|exact Hfw].
  by eapply (Forall2_lookup_lr _ _ _ _ _ _ Hsame).
Qed.
End groups.

(** ** The rows of a partial batch *)

Section merging.
Context `{D : ScalarDebug, B : BatchOps, C : RowConverter, Z : Sizes, M : MergeSizes} (memory : TaskMemory).

(** A batch that carries the groups of a partition: [n] key columns that encode to
    the keys, and a column of values per aggregate. *)
Record partial_batch (k : RowKeyEncoder) (n : nat) (entries : list (string * list AggregateState))
    (b : RecordBatch) : Prop := {
  pb_width : n <= length (b_columns b);
  pb_keys : encode k (take n (b_columns b)) (b_rows b) = Ok (entries.*1);
  pb_rows : b_rows b = length entries;
  pb_value j key states c s : entries !! j = Some (key, states) → states !! c = Some s →
    partial_value b j (n + c) = Ok (finish s);
}.

Lemma entries_NoDup {V} (m : gmap string V) : NoDup (btree_iter m).*1.
Proof. rewrite btree_iter_Permutation. apply NoDup_fst_map_to_list. Qed.

(** What a key holds once some entries have been merged. *)
Definition merged_key (functions : list AggregateFunction) (before after : gmap string (list MergeState))
    (entries : list (string * list AggregateState)) (key : string) : Prop :=
  (key ∉ entries.*1 ∧ after !! key = before !! key) ∨
  ∃ states ms', (key, states) ∈ entries ∧ after !! key = Some ms' ∧
    merged functions (default (new_merge_states functions) (before !! key)) (finish <$> states) ms'.

Lemma merge_row_step functions n b encoded aside st j st' key states :
  Forall (λ f, exact_function f = true) functions → encoded !! j = Some key →
  length states = length functions →
  (∀ c s, states !! c = Some s → partial_value b j (n + c) = Ok (finish s)) →
  merge_row memory functions n b encoded aside st j = Ok st' →
  ∃ ms', mg_groups st' = <[key := ms']> (mg_groups st) ∧
    merged functions (default (new_merge_states functions) (mg_groups st !! key)) (finish <$> states) ms'.
Proof.
  intros Hf Hk Hl Hv Hm. unfold merge_row in Hm. rewrite Hk in Hm. cbn in Hm.
  apply bind_ok in Hm as (st1 & H1 & Hm). apply bind_ok in Hm as (ms & Hms & Hm).
  apply bind_ok in Hm as (ms' & Hmerge & [= <-]). exists ms'. simpl.
  assert (ms = default (new_merge_states functions) (mg_groups st !! key) ∧
          <[key := ms']> (mg_groups st1) = <[key := ms']> (mg_groups st)) as [-> ->].
  { destruct (mg_groups st !! key) as [old|] eqn:E.
    - injection H1 as <-. rewrite E in Hms. by injection Hms as ->.
    - apply bind_ok in H1 as (own & _ & [= <-]). simpl in Hms. rewrite lookup_insert_eq in Hms.
      injection Hms as <-. split; [done|]. simpl. by rewrite insert_insert_eq. }
  split; [done|]. eapply merge_states_merged; [done| |by rewrite length_fmap|done].
  intros c v Hc. rewrite list_lookup_fmap in Hc. destruct (states !! c) as [s|] eqn:E; [|done].
  injection Hc as <-. by apply Hv.
Qed.

Lemma merge_batch_keys k n functions entries st b st' key :
  Forall (λ f, exact_function f = true) functions → NoDup entries.*1 →
  Forall (λ x : string * list AggregateState, length x.2 = length functions) entries →
  partial_batch k n entries b → merge_batch memory k functions n st b = Ok st' →
  merged_key functions (mg_groups st) (mg_groups st') entries key.
Proof.
  intros Hf Hnd Hlen [Hw Hk Hr Hv] Hm. unfold merge_batch in Hm.
  destruct (_ <? n) eqn:E; [done|]. rewrite Hk in Hm. cbn in Hm. apply bind_ok in Hm as (aside & _ & Hm).
  pose (I := λ (pre : list nat) (s : MergeGroups),
    ∀ key, merged_key functions (mg_groups st) (mg_groups s) (take (length pre) entries) key).
  assert (I (seq 0 (b_rows b)) st') as HI;
    [|specialize (HI key); by rewrite length_seq, Hr, firstn_all in HI].
  eapply fold_result_invariant; [..|exact Hm]; subst I; cbn beta.
  - intros pre j post s s' Hsp Hi Hstep key'.
    assert (j = length pre) as ->.
    { apply (f_equal (lookup (length pre))) in Hsp. rewrite list_lookup_middle in Hsp by done.
      by apply lookup_seq in Hsp as [-> _]. }
    assert (length pre < length entries) as Hlt
      by (rewrite <-Hr, <-(length_seq (b_rows b) 0), Hsp, length_app; simpl; lia).
    destruct (lookup_lt_is_Some_2 entries (length pre) Hlt) as [[kj states] Hj].
    rewrite length_app, Nat.add_1_r, (take_S_r _ _ _ Hj).
    assert (kj ∉ (take (length pre) entries).*1) as Hnotin.
    { rewrite <-(take_drop (length pre) entries), fmap_app in Hnd. apply list.NoDup_app in Hnd as (_ & Hdis & _).
      intros Hin. apply (Hdis _ Hin). rewrite (drop_S _ _ _ Hj). cbn. by left. }
    eapply (merge_row_step functions n b _ _ _ _ _ kj states) in Hstep as (ms' & Hs' & Hmg);
      [|done|by rewrite list_lookup_fmap, Hj|by apply (Forall_lookup_1 _ _ _ _ Hlen Hj)|intros c x Hc; by eapply Hv].
    rewrite Hs'. unfold merged_key. rewrite fmap_app. cbn.
    destruct (decide (key' = kj)) as [->|Hne].
    + right. exists states, ms'. split; [set_solver|]. split; [apply lookup_insert_eq|].
      destruct (Hi kj) as [[_ <-]|(? & ? & Hin & _)]; [done|]. destruct Hnotin.
      apply (list_elem_of_fmap_2 fst) in Hin. done.
    + rewrite lookup_insert_ne by done. destruct (Hi key') as [[Hn' Heq]|(x & y & Hin & Hy & Hmy)].
      * left. split; [set_solver|done].
      * right. exists x, y. split; [set_solver|done].
  - intros key'. left. split; [apply not_elem_of_nil|done].
Qed.
End merging.

(** ** What a partition produces *)

(** Arrow's record batches keep their columns, and the row format reads back what it
    wrote. *)
Class MergeLaws (B : BatchOps) (C : RowConverter) `{!RowLaws C} := {
  law_batch schema columns b :
    try_new schema columns = Ok b →
    columns ≠ [] ∧ b_columns b = columns ∧ Forall (λ a, length (a_cells a) = b_rows b) columns;
  law_rows_back types rows arrays :
    types ≠ [] → Forall (row_typed types) rows → convert_rows types (row_bytes types <$> rows) = Ok arrays →
    length arrays = length types ∧ convert_columns types arrays = Ok (row_bytes types <$> rows);
}.

Lemma partial_specs `{FloatDisplay} aggs ps specs :
  partial_aggregate_exprs aggs = Ok ps → collect aggregate_spec aggs = Ok specs → Forall exact_spec specs →
  collect aggregate_spec ps = Ok specs.
Proof.
  unfold partial_aggregate_exprs, enumerate. intros Hp. apply bind_ok in Hp as (pss & Hp & [= <-]).
  revert pss specs Hp. generalize 0 as i. induction aggs as [|e aggs IH]; intros i pss specs Hp Hs Hex; cbn in *.
  { injection Hp as <-. by injection Hs as <-. }
  apply bind_ok in Hp as (qs & Hq & Hp). apply bind_ok in Hp as (rest & Hrest & [= <-]).
  apply bind_ok in Hs as (sp & Hsp & Hs). apply bind_ok in Hs as (specs' & Hs & [= <-]).
  apply list.Forall_cons in Hex as [Hx Hex]. specialize (IH _ _ _ Hrest Hs Hex).
  unfold partial_exprs_of in Hq. unfold aggregate_spec in Hsp. cbn in Hq.
  destruct (unalias e) as [| | | | | |f x d|]; try done. injection Hsp as <-. destruct Hx as [Hf Hd]. simpl in *.
  destruct f; try done; injection Hq as <-; cbn; by rewrite IH.
Qed.

(** The type of the column of an aggregate. *)
Definition spec_type (s : Schema) (sp : spec) : result DataType := data_type (Aggregate sp.1.1 sp.1.2 sp.2) s.

Lemma aggregate_fields `{FloatDisplay} s groups exprs specs schema :
  aggregate_schema s groups exprs = Ok schema → collect aggregate_spec exprs = Ok specs →
  Forall exact_spec specs → length schema = length groups + length specs ∧
  ∀ c sp fld, specs !! c = Some sp → schema !! (length groups + c) = Some fld →
    spec_type s sp = Ok (f_type fld).
Proof.
  unfold aggregate_schema. intros Hs Hsp Hex. pose proof (collect_length _ _ _ Hs) as Hl.
  pose proof (collect_length _ _ _ Hsp) as Hl'. rewrite length_app in Hl. split; [lia|].
  intros c sp fld Hc Hf. apply collect_ok in Hs. apply collect_ok in Hsp.
  destruct (Forall2_lookup_r _ _ _ _ _ Hs Hf) as (e & He & Hfe). rewrite lookup_app_r in He by lia.
  replace (length groups + c - length groups) with c in He by lia.
  pose proof (Forall2_lookup_lr _ _ _ _ _ _ Hsp He Hc) as Hspec. simpl in Hspec.
  unfold field in Hfe. apply bind_ok in Hfe as (t & Ht & [= <-]). simpl.
  unfold aggregate_spec in *. pose proof (Forall_lookup_1 _ _ _ _ Hex Hc) as [Hx _].
  destruct e as [| | | | |e al|f x d|]; try done; simpl in *.
  - destruct e as [| | | | | |f x d|]; try done. by injection Hspec as <-.
  - by injection Hspec as <-.
Qed.

Section partition.
Context `{FloatDisplay, D : ScalarDebug, K : Kernels, !KernelLaws K, B : BatchOps}.
Context `{C : RowConverter, !RowLaws C, !MergeLaws B C, Z : Sizes} (memory : TaskMemory).
Context (s : Schema) (groups : list Expr) (specs : list spec).

(** The inputs of an aggregate are read from the arrays its argument evaluates to. *)
Lemma agg_row_values batches rows r c f e d v :
  agg_rows groups specs batches = Ok rows → r ∈ rows → specs !! c = Some (f, e, d) → e ≠ Wildcard →
  r.2 !! c = Some v → ∃ b a i, b ∈ batches ∧ evaluate e b = Ok a ∧ value_at a i = Ok v.
Proof.
  unfold agg_rows. intros Hr Hin Hc Hw Hv. apply bind_ok in Hr as (rss & Hrss & [= <-]).
  apply list_elem_of_In, in_concat in Hin as (rs & Hrs%list_elem_of_In & Hrin%list_elem_of_In).
  apply collect_ok in Hrss.
  apply list_elem_of_lookup in Hrs as [j Hj]. destruct (Forall2_lookup_r _ _ _ _ _ Hrss Hj) as (b & Hb & Hagg).
  exists b. unfold agg_batch in Hagg. apply bind_ok in Hagg as (keys & _ & Hagg).
  apply bind_ok in Hagg as (inputs & Hi & Hagg). apply collect_ok in Hagg.
  apply list_elem_of_lookup in Hrin as [i Hri]. destruct (Forall2_lookup_r _ _ _ _ _ Hagg Hri) as (n & _ & Hn).
  apply bind_ok in Hn as (vs & Hvs & [= <-]). simpl in Hv. apply collect_ok in Hvs.
  destruct (Forall2_lookup_r _ _ _ _ _ Hvs Hv) as (x & Hx & Hxv). unfold aggregate_inputs in Hi.
  apply collect_ok in Hi. pose proof (Forall2_lookup_lr _ _ _ _ _ _ Hi Hc Hx) as He.
  cbn [fst snd] in He. destruct e; try done; cbv beta iota in He; apply bind_ok in He as (a & Ha & [= <-]); exists a, n;
    (split; [by eapply list_elem_of_lookup_2|by split]).
Qed.

Lemma encoded_inputs_rows k rows key c v :
  v ∈ input_column c (encoded_inputs k rows key) → ∃ r, r ∈ rows ∧ r.2 !! c = Some v.
Proof.
  unfold input_column, encoded_inputs. intros Hv. apply list_elem_of_omap in Hv as (vs & Hvs & Hv).
  apply list_elem_of_omap in Hvs as (r & Hr & Hk). exists r. split; [done|].
  destruct (bool_decide _); [|done]. by injection Hk as ->.
Qed.

(** A finished state can be stored in the column of its aggregate. *)
Lemma finish_storable batches rows k key c f e t st :
  Forall (λ b, batch_ok b ∧ b_schema b = s) batches → agg_rows groups specs batches = Ok rows →
  specs !! c = Some (f, e, false) → exact_function f = true → e = Wildcard ∨ group_key e = true →
  spec_type s (f, e, false) = Ok t →
  fold_result update (AggregateState_new f false) (input_column c (encoded_inputs k rows key)) = Ok st →
  storable t (finish st).
Proof.
  intros Hb Hr Hc Hf He Ht Hst.
  assert (∀ choice x, first_extreme choice (input_column c (encoded_inputs k rows key)) (Some x) →
    data_type e s = Ok t → storable t x) as Hx.
  { intros choice x (a & b & E & Hx & _) Hty.
    destruct (encoded_inputs_rows k rows key c x) as (r & Hrin & Hrv); [rewrite E; set_solver|].
    destruct (agg_row_values batches rows r c f e false x Hr Hrin Hc) as (b' & ar & i & Hbin & Hev & Hva);
      [by intros ->|done|]. rewrite list.Forall_forall in Hb. destruct (Hb b' Hbin) as [Hbok Hbs].
    destruct He as [->|He]; [done|]. apply andb_true_iff in He as [He1 He2].
    destruct (evaluate_ok _ _ _ Hbok He1 He2 Hev) as (Hok & Hnat & Hdt). rewrite Hbs, Hty in Hdt.
    injection Hdt as ->. destruct Hnat as [Hnat|Hnull]; [by eapply storable_read|].
    exfalso. apply Hx. unfold value_at in Hva. rewrite Hnull in Hva. apply bind_ok in Hva as ([cl|] & _ & [= <-]); done. }
  destruct f; try done; cbn in Ht.
  - injection Ht as <-. apply fold_count in Hst as ->. apply storable_count.
  - apply (fold_first_extreme ChooseMin) in Hst as ([x|] & -> & Hm); simpl; [by eapply Hx|apply storable_null].
  - apply (fold_first_extreme ChooseMax) in Hst as ([x|] & -> & Hm); simpl; [by eapply Hx|apply storable_null].
Qed.

(** The keys of a partition's groups, decoded and encoded again. *)
Lemma keys_round_trip k rows m arrays n :
  grouped k groups specs rows m → (groups = [] → key_types k = []) →
  decode k (btree_iter m).*1 = Ok arrays →
  (key_types k ≠ [] → Forall (λ a, length (a_cells a) = n) arrays → n = length (btree_iter m)) ∧
  length arrays = length (key_types k) ∧
  encode k arrays (length (btree_iter m)) = Ok (btree_iter m).*1.
Proof.
  intros [Gs Gn Gt] Hg Hd. unfold decode, encode in *.
  assert (∀ key, key ∈ (btree_iter m).*1 → (∃ r, r ∈ rows ∧ key = key_of k r.1) ∨ (groups = [] ∧ key = EmptyString))
    as Hkeys.
  { intros key Hk. apply list_elem_of_fmap in Hk as ([key' states] & -> & Hk). apply elem_of_btree_iter in Hk.
    destruct (Gs _ _ Hk) as (_ & _ & [Hne|Hgl]); [left|by right]. simpl.
    destruct (encoded_inputs k rows key') as [|v vs] eqn:E; [done|].
    assert (v ∈ encoded_inputs k rows key') as Hv by (rewrite E; by left).
    apply list_elem_of_omap in Hv as (r & Hr & Hrk). exists r. split; [done|].
    destruct (bool_decide (key_of k r.1 = key')) eqn:Eb; [|done]. by apply bool_decide_eq_true_1 in Eb. }
  destruct (decide (key_types k = [])) as [Et|Et].
  - destruct (existsb _ _); [done|]. injection Hd as <-. rewrite decide_True by done.
    split_and!; [done|by rewrite Et|]. f_equal. apply replicate_as_Forall_2; [by rewrite length_fmap|]. apply list.Forall_forall. intros key Hk.
    destruct (Hkeys key Hk) as [(r & _ & ->)|[_ ->]]; [|done]. unfold key_of. by rewrite decide_True.
  - assert (∃ rs, Forall (row_typed (key_types k)) rs ∧ (btree_iter m).*1 = row_bytes (key_types k) <$> rs) as (rs & Hrs & Ek).
    { assert (∀ l, (∀ key, key ∈ l → ∃ r, r ∈ rows ∧ key = key_of k r.1) →
        ∃ rs, Forall (row_typed (key_types k)) rs ∧ l = row_bytes (key_types k) <$> rs) as Hl.
      { clear -Gt Et. induction l as [|key l IH]; intros Hl; [by exists []|].
        destruct IH as (rs & H1 & ->); [intros x Hx; apply Hl; by right|].
        destruct (Hl key) as (r & Hr & ->); [by left|]. exists (r.1 :: rs). rewrite list.Forall_forall in Gt.
        split; [constructor; [by apply Gt|done]|]. unfold key_of. by rewrite decide_False. }
      apply Hl. intros key Hk. destruct (Hkeys key Hk) as [?|[Hgl _]]; [done|]. by destruct Et; apply Hg. }
    rewrite Ek in Hd |- *. apply law_rows_back in Hd as [Hla Hc]; [|done|done].
    split_and!.
    + intros _ Hn. apply law_convert in Hc as [Hf _]. rewrite length_fmap in Hf.
      rewrite <-(length_fmap fst (btree_iter m)), Ek, length_fmap.
      inversion Hf as [E1 E2|t a ts as' [_ Ha] _ E1 E2]; [by rewrite <-E1 in Et|]. subst arrays.
      apply list.Forall_cons in Hn as [<- _]. done.
    + done.
    + rewrite Hc. cbn. rewrite decide_True; [done|]. by rewrite <-Ek, length_fmap.
Qed.

(** What an aggregation computes before it builds its batch. *)
Lemma hash_aggregate_groups exprs schema batches b :
  Forall (λ b, batch_ok b ∧ b_schema b = s) batches → Forall (λ e, group_key e = true) groups →
  collect aggregate_spec exprs = Ok specs →
  hash_aggregate_with_memory memory batches groups exprs schema = Ok b →
  ∃ k rows m arrays columns outputs,
    RowKeyEncoder_new (f_type <$> take (length groups) schema) = Ok k ∧
    agg_rows groups specs batches = Ok rows ∧ grouped k groups specs rows m ∧
    decode k (btree_iter m).*1 = Ok arrays ∧
    finish_columns (length exprs) (btree_iter m).*2 = Ok columns ∧
    collect (λ x : list ScalarValue * Field, scalars_to_array x.1 (f_type x.2))
      (zip columns (drop (length groups) schema)) = Ok outputs ∧
    try_new schema (arrays ++ outputs) = Ok b.
Proof.
  intros Hb Hg Hs Ha. unfold hash_aggregate_with_memory in Ha. rewrite Hs in Ha. cbn [mbind result_bind] in Ha.
  apply bind_ok in Ha as (own & _ & Ha). apply bind_ok in Ha as (k & Hk & Ha).
  apply bind_ok in Ha as (st & Hst & Ha). apply bind_ok in Ha as (arrays & Har & Ha).
  apply bind_ok in Ha as (columns & Hco & Ha). apply bind_ok in Ha as (outputs & Hou & Ha).
  assert (Forall batch_ok batches) as Hbok by (eapply list.Forall_impl; [exact Hb|by intros ? [? _]]).
  destruct (aggregate_groups_grouped memory _ _ _ _ _ _ Hbok Hg Hst) as (rows & Hrows & Hgr).
  exists k, rows, (Aggregate.groups st), arrays, columns, outputs. by split_and!.
Qed.

Lemma key_types_length k schema :
  RowKeyEncoder_new (f_type <$> take (length groups) schema) = Ok k → length groups <= length schema →
  length (key_types k) = length groups.
Proof.
  intros Hk Hl. assert (key_types k = f_type <$> take (length groups) schema) as ->.
  { unfold RowKeyEncoder_new in Hk. destruct (decide _) as [E|]; [rewrite E; by injection Hk as <-|].
    destruct (converter_supported _); [by injection Hk as <-|done]. }
  rewrite length_fmap, length_take. lia.
Qed.

(** The columns of finished states: one per aggregate, one element per group. *)
Lemma finished_columns k rows m columns :
  grouped k groups specs rows m → finish_columns (length specs) (btree_iter m).*2 = Ok columns →
  length columns = length specs ∧
  ∀ c vs, columns !! c = Some vs → length vs = length (btree_iter m) ∧
    ∀ j key states, btree_iter m !! j = Some (key, states) →
      ∃ st, states !! c = Some st ∧ vs !! j = Some (finish st) ∧ m !! key = Some states.
Proof.
  intros Hgr Hco. unfold finish_columns in Hco. apply push_rows_spec in Hco as [Hcl Hcv].
  - split; [done|]. intros c vs Hvs. destruct (Hcv c vs Hvs) as [Hlv Hrow]. rewrite !length_fmap in Hlv.
    split; [done|]. intros j key states Hj.
    assert (m !! key = Some states) as Hin by (apply elem_of_btree_iter; by eapply list_elem_of_lookup_2).
    destruct (gr_some _ _ _ _ _ Hgr _ _ Hin) as (_ & Hls & _). apply lookup_lt_Some in Hvs as Hc.
    destruct (lookup_lt_is_Some_2 states c) as [st Hst]; [lia|]. exists st. split_and!; [done| |done].
    rewrite (Hrow j (finish <$> states)); [by rewrite list_lookup_fmap, Hst|by rewrite !list_lookup_fmap, Hj].
  - apply list.Forall_forall. intros r Hr. apply list_elem_of_fmap in Hr as (st & -> & Hr).
    apply list_elem_of_fmap in Hr as ([key st'] & -> & Hin). apply elem_of_btree_iter in Hin.
    destruct (gr_some _ _ _ _ _ Hgr _ _ Hin) as (_ & Hl & _). by rewrite length_fmap.
Qed.

(** A state of a group folds the inputs of its aggregate. *)
Lemma group_state_fold k rows m key states c f e st :
  grouped k groups specs rows m → m !! key = Some states → specs !! c = Some (f, e, false) →
  states !! c = Some st →
  fold_result update (AggregateState_new f false) (input_column c (encoded_inputs k rows key)) = Ok st.
Proof.
  intros Hgr Hm Hc Hst. destruct (gr_some _ _ _ _ _ Hgr _ _ Hm) as (Hgs & Hls & _).
  destruct (group_column (encoded_inputs k rows key) _ states c (AggregateState_new f false) Hgs) as (y & Hy & Hf);
    [unfold new_states; by rewrite length_fmap|by apply (new_states_lookup _ _ _ Hc)|]. by simplify_eq.
Qed.

(** The array of an aggregate gives back the finished states. *)
Lemma output_column k batches rows m columns schema outputs c vs :
  Forall (λ b, batch_ok b ∧ b_schema b = s) batches → agg_rows groups specs batches = Ok rows →
  Forall (λ sp : spec, sp.1.2 = Wildcard ∨ group_key sp.1.2 = true) specs → Forall exact_spec specs →
  grouped k groups specs rows m → finish_columns (length specs) (btree_iter m).*2 = Ok columns →
  length schema = length groups + length specs →
  (∀ c sp fld, specs !! c = Some sp → schema !! (length groups + c) = Some fld →
     spec_type s sp = Ok (f_type fld)) →
  collect (λ x : list ScalarValue * Field, scalars_to_array x.1 (f_type x.2))
    (zip columns (drop (length groups) schema)) = Ok outputs →
  columns !! c = Some vs →
  ∃ a, outputs !! c = Some a ∧ length (a_cells a) = length (btree_iter m) ∧
    ∀ j v, vs !! j = Some v → value_at a j = Ok v.
Proof.
  intros Hb Hrows Hargs Hex Hgr Hco Hlen Hty Hou Hvs.
  destruct (finished_columns _ _ _ _ Hgr Hco) as [Hcl Hcv]. destruct (Hcv c vs Hvs) as [Hlv Hrow].
  apply lookup_lt_Some in Hvs as Hc. destruct (lookup_lt_is_Some_2 schema (length groups + c)) as [fld Hf]; [lia|].
  apply collect_ok in Hou. destruct (Forall2_lookup_l _ _ _ c (vs, fld) Hou) as (a & Hoc & Hsc).
  { apply lookup_zip_Some. split; [done|]. by rewrite lookup_drop. }
  simpl in Hsc. exists a. split_and!; [done| |].
  { assert (a = MkArray (f_type fld) (built_cell (f_type fld) <$> vs)) as ->
      by (by destruct (f_type fld); simplify_eq/=). simpl. by rewrite length_fmap. }
  intros j v Hj. eapply stored_value; [exact Hsc| |exact Hj]. clear j v Hj. apply Forall_lookup. intros j v Hj.
  apply lookup_lt_Some in Hj as Hjl. destruct (lookup_lt_is_Some_2 (btree_iter m) j) as [[key states] Hent]; [lia|].
  destruct (Hrow j key states Hent) as (st & Hst & Hv & Hm). simplify_eq.
  destruct (lookup_lt_is_Some_2 specs c) as [[[f e] d] Hsp]; [lia|].
  pose proof (Forall_lookup_1 _ _ _ _ Hex Hsp) as [Hfx Hd]. simpl in Hfx, Hd. subst d.
  eapply (finish_storable batches rows k key c f e); [done|done|done|done| |by apply (Hty c (f, e, false))|].
  - by apply (Forall_lookup_1 _ _ _ _ Hargs Hsp).
  - by eapply group_state_fold.
Qed.

Lemma hash_aggregate_partial exprs schema batches b :
  Forall (λ b, batch_ok b ∧ b_schema b = s) batches → Forall (λ e, group_key e = true) groups →
  Forall (λ sp : spec, sp.1.2 = Wildcard ∨ group_key sp.1.2 = true) specs →
  collect aggregate_spec exprs = Ok specs → Forall exact_spec specs →
  aggregate_schema s groups exprs = Ok schema →
  hash_aggregate_with_memory memory batches groups exprs schema = Ok b →
  ∃ k rows m, RowKeyEncoder_new (f_type <$> take (length groups) schema) = Ok k ∧
    agg_rows groups specs batches = Ok rows ∧ grouped k groups specs rows m ∧
    partial_batch k (length groups) (btree_iter m) b.
Proof.
  intros Hb Hg Hargs Hs Hex Hsch Ha.
  destruct (hash_aggregate_groups _ _ _ _ Hb Hg Hs Ha)
    as (k & rows & m & arrays & columns & outputs & Hk & Hrows & Hgr & Har & Hco & Hou & Hnew).
  rewrite <-(collect_length _ _ _ Hs) in Hco.
  exists k, rows, m. split_and!; [done..|].
  destruct (aggregate_fields _ _ _ _ _ Hsch Hs Hex) as [Hlen Hty].
  apply law_batch in Hnew as (Hne & Hcols & Hrowlen). pose proof (key_types_length _ _ Hk ltac:(lia)) as Hlk.
  destruct (keys_round_trip k rows m arrays (b_rows b) Hgr) as (Hbr & Hla & Henc);
    [intros ->; by apply nil_length_inv|done|]. rewrite Hlk in Hla.
  apply list.Forall_app in Hrowlen as [Hrl1 Hrl2].
  pose proof (λ c vs, output_column k batches rows m columns schema outputs c vs Hb Hrows Hargs Hex Hgr Hco Hlen Hty Hou)
    as Hout.
  destruct (finished_columns _ _ _ _ Hgr Hco) as [Hcl Hcv].
  assert (b_rows b = length (btree_iter m)) as Hbrows.
  { destruct (decide (key_types k = [])) as [Et|Et]; [|by apply Hbr].
    rewrite Et in Hlk. simpl in Hlk. destruct arrays; [|simpl in *; lia].
    destruct columns as [|vs columns]; [simpl in Hou; by injection Hou as <-|].
    destruct (Hout 0 vs eq_refl) as (a & Ha0 & Hal & _). rewrite Forall_lookup in Hrl2.
    by rewrite <-(Hrl2 _ _ Ha0). }
  split; [rewrite Hcols, length_app; lia|by rewrite Hcols, Hbrows, <-Hla, take_app_length|done|].
  intros j key states c st Hj Hc. unfold partial_value. rewrite Hcols, lookup_app_r by lia.
  replace (length groups + c - length arrays) with c by lia.
  assert (m !! key = Some states) as Hin by (apply elem_of_btree_iter; by eapply list_elem_of_lookup_2).
  destruct (gr_some _ _ _ _ _ Hgr _ _ Hin) as (_ & Hls & _). apply lookup_lt_Some in Hc as Hclt.
  destruct (lookup_lt_is_Some_2 columns c) as [vs Hvs]; [lia|].
  destruct (Hout c vs Hvs) as (a & Hac & _ & Hval). rewrite Hac. cbn [expect mbind result_bind].
  destruct (Hcv c vs Hvs) as [_ Hrow]. destruct (Hrow j key states Hj) as (st' & Hst' & Hv & _). simplify_eq.
  by apply Hval.
Qed.
End partition.

(** ** Merging all partitions *)

Section merge_all.
Context `{FloatDisplay, D : ScalarDebug, B : BatchOps, C : RowConverter, !RowLaws C, Z : Sizes, M : MergeSizes}.
Context (memory : TaskMemory) (k : RowKeyEncoder) (groups : list Expr) (specs : list spec).
Context (Hexact : Forall exact_spec specs).

(** The merged groups agree with one aggregation of the rows so far. *)
Definition merged_upto (rows : list keyed_row) (mg : gmap string (list MergeState)) : Prop :=
  (∀ key ms, mg !! key = Some ms → agree specs (encoded_inputs k rows key) ms ∧
     (encoded_inputs k rows key ≠ [] ∨ global_key groups key)) ∧
  (∀ key, mg !! key = None → encoded_inputs k rows key = [] ∧ ~ global_key groups key).

Lemma encoded_inputs_app rows rows' key :
  encoded_inputs k (rows ++ rows') key = encoded_inputs k rows key ++ encoded_inputs k rows' key.
Proof. apply omap_app. Qed.

Lemma prefix_states rows rest m key :
  grouped k groups specs (rows ++ rest) m → encoded_inputs k rows key ≠ [] ∨ global_key groups key →
  ∃ ls, group_states specs (encoded_inputs k rows key) = Ok ls ∧ length ls = length specs.
Proof.
  intros [Gs Gn _] Hk. destruct (m !! key) as [states|] eqn:E.
  - destruct (Gs _ _ E) as (Hg & Hl & _). rewrite encoded_inputs_app in Hg. unfold group_states in *.
    rewrite fold_result_app, bind_ok in Hg. destruct Hg as (ls & Hls & Hrest). exists ls. split; [done|].
    apply update_all_shrinks in Hls, Hrest. unfold new_states in Hls. rewrite length_fmap in Hls. lia.
  - destruct (Gn _ E) as [Hn Hng]. rewrite encoded_inputs_app in Hn. apply app_eq_nil in Hn as [Hn _].
    by destruct Hk.
Qed.

Lemma exact_functions : Forall (λ f, exact_function f = true) (functions_of specs).
Proof.
  unfold functions_of. apply Forall_fmap. eapply list.Forall_impl; [exact Hexact|]. by intros sp [? _].
Qed.

Lemma merge_partition rows part rest m ml st b st' :
  merged_upto rows (mg_groups st) → grouped k groups specs part m →
  grouped k groups specs (rows ++ part ++ rest) ml → partial_batch k (length groups) (btree_iter m) b →
  merge_batch memory k (functions_of specs) (length groups) st b = Ok st' →
  merged_upto (rows ++ part) (mg_groups st').
Proof.
  intros [Is In] Hgr Htot Hpb Hm.
  assert (∀ key, merged_key (functions_of specs) (mg_groups st) (mg_groups st') (btree_iter m) key) as Hmk.
  { intros key. eapply merge_batch_keys; [apply exact_functions|apply entries_NoDup| |done|done].
    apply list.Forall_forall. intros [key' states] Hin. apply elem_of_btree_iter in Hin.
    destruct (gr_some _ _ _ _ _ Hgr _ _ Hin) as (_ & Hl & _). unfold functions_of. by rewrite length_fmap. }
  assert (∀ key, key ∉ (btree_iter m).*1 → encoded_inputs k part key = [] ∧ ~ global_key groups key) as Hnone.
  { intros key Hn. apply (gr_none _ _ _ _ _ Hgr). destruct (m !! key) as [x|] eqn:E; [|done]. destruct Hn.
    apply list_elem_of_fmap. exists (key, x). split; [done|]. by apply elem_of_btree_iter. }
  split; intros key; rewrite encoded_inputs_app; destruct (Hmk key) as [[Hni Heq]|(states & ms' & Hin & Heq & Hmg)];
    rewrite Heq; try (destruct (Hnone key Hni) as [Hpart Hng]; rewrite Hpart, app_nil_r); [apply Is| |apply In|done].
  intros ms [= <-]. apply elem_of_btree_iter in Hin. destruct (gr_some _ _ _ _ _ Hgr _ _ Hin) as (Hgs & Hls & Hne).
  assert (encoded_inputs k rows key ++ encoded_inputs k part key ≠ [] ∨ global_key groups key) as Hne'.
  { destruct Hne as [Hne|?]; [left|by right]. intros [_ ?]%app_eq_nil. done. }
  split; [|done]. rewrite app_assoc in Htot.
  destruct (prefix_states (rows ++ part) rest ml key Htot) as (ls & Hg & Hl);
    [by rewrite encoded_inputs_app|]. rewrite encoded_inputs_app in Hg.
  assert (agree specs (encoded_inputs k rows key)
    (default (new_merge_states (functions_of specs)) (mg_groups st !! key))) as Hag.
  { destruct (mg_groups st !! key) as [ms|] eqn:E; [by apply Is|]. destruct (In _ E) as [-> _]. by apply agree_new. }
  by eapply agree_merged.
Qed.

Lemma merge_batches rowss pbs rows ml st st' :
  Forall2 (λ part b, ∃ m, grouped k groups specs part m ∧
    partial_batch k (length groups) (btree_iter m) b) rowss pbs →
  merged_upto rows (mg_groups st) → grouped k groups specs (rows ++ concat rowss) ml →
  fold_result (merge_batch memory k (functions_of specs) (length groups)) st pbs = Ok st' →
  merged_upto (rows ++ concat rowss) (mg_groups st').
Proof.
  intros Hp. revert rows st. induction Hp as [|part b rowss pbs (m & Hgr & Hpb) _ IH]; intros rows st Hi Htot Hf; cbn in *.
  - injection Hf as <-. by rewrite app_nil_r.
  - apply bind_ok in Hf as (st1 & H1 & Hf). rewrite app_assoc. apply (IH _ st1); [|by rewrite <-app_assoc|done].
    by eapply merge_partition.
Qed.

Lemma merge_groups_spec rowss pbs ml own st :
  Forall2 (λ part b, ∃ m, grouped k groups specs part m ∧
    partial_batch k (length groups) (btree_iter m) b) rowss pbs →
  grouped k groups specs (concat rowss) ml →
  merge_groups memory k (functions_of specs) (length groups) own pbs = Ok st →
  fmap (M:=list) merge_finish <$> mg_groups st = fmap (M:=list) finish <$> ml.
Proof.
  intros Hp Hgr Hm. unfold merge_groups in Hm. apply bind_ok in Hm as (st0 & H0 & Hm).
  assert (merged_upto [] (mg_groups st0)) as Hinit.
  { destruct (decide (length groups = 0)) as [E|E].
    - apply nil_length_inv in E. apply bind_ok in H0 as (own' & _ & [= <-]). simpl. split.
      + intros key ms [<- <-]%lookup_singleton_Some. split; [by apply agree_new|right; by split].
      + intros key Hk%lookup_singleton_None. split; [done|]. by intros [_ ->].
    - injection H0 as <-. simpl. split; [intros key ms Hk; by rewrite lookup_empty in Hk|].
      intros key _. split; [done|]. intros [Hg0 _]. apply E. by rewrite Hg0. }
  destruct (merge_batches rowss pbs [] ml st0 st Hp Hinit Hgr Hm) as [Ms Mn].
  apply map_eq. intros key. rewrite !lookup_fmap. destruct (mg_groups st !! key) as [ms|] eqn:E1.
  - destruct (Ms _ _ E1) as [(ls & Hls & _ & Hsame) Hne]. destruct (ml !! key) as [ls'|] eqn:E2.
    + destruct (gr_some _ _ _ _ _ Hgr _ _ E2) as (Hls' & _ & _). cbn [app] in Hls.
      rewrite Hls in Hls'. injection Hls' as <-. cbn. apply f_equal. clear -Hsame.
      induction Hsame as [|x y xs ys Hxy _ IH]; [done|]. by rewrite !fmap_cons, IH, (same_state_finish _ _ Hxy).
    + destruct (gr_none _ _ _ _ _ Hgr _ E2) as [Hn Hng]. by destruct Hne.
  - destruct (Mn _ E1) as [Hn Hng]. destruct (ml !! key) as [ls|] eqn:E2; [|done].
    destruct (gr_some _ _ _ _ _ Hgr _ _ E2) as (_ & _ & [Hne|?]); [|done]. by destruct Hne.
Qed.
End merge_all.

(** ** Distributed aggregation *)

Section distributed.
Context `{FloatDisplay, D : ScalarDebug, K : Kernels, !KernelLaws K, B : BatchOps}.
Context `{C : RowConverter, !RowLaws C, !MergeLaws B C, Z : Sizes, M : MergeSizes}.
Context (s : Schema) (groups : list Expr) (specs : list spec).

Lemma agg_rows_concat bss rowss :
  Forall2 (λ bs rows, agg_rows groups specs bs = Ok rows) bss rowss →
  agg_rows groups specs (concat bss) = Ok (concat rowss).
Proof.
  unfold agg_rows. induction 1 as [|bs rows bss rowss Hr _ IH]; [done|]. cbn.
  apply bind_ok in Hr as (r1 & H1 & [= <-]). apply bind_ok in IH as (r2 & H2 & [= <-]).
  rewrite (proj2 (collect_app _ _ _ (r1 ++ r2))) by eauto. cbn. by rewrite concat_app.
Qed.

Lemma aggregate_functions aggs :
  collect aggregate_spec aggs = Ok specs → collect aggregate_function aggs = Ok (functions_of specs).
Proof.
  rewrite !collect_ok. unfold functions_of. induction 1 as [|e sp aggs sps He _ IH]; [constructor|].
  constructor; [|done]. unfold aggregate_spec, aggregate_function in *.
  destruct (unalias e); try done. by injection He as <-.
Qed.

(** The fields of the groups come first in every aggregation's schema. *)
Lemma aggregate_schema_groups exprs schema :
  aggregate_schema s groups exprs = Ok schema →
  collect (λ e, field e s) groups = Ok (take (length groups) schema).
Proof.
  unfold aggregate_schema. intros (g & a & Hg & _ & ->)%collect_app.
  by rewrite <-(collect_length _ _ _ Hg), take_app_length.
Qed.

Lemma partition_rows exprs schema pschema k bss pbs :
  Forall (Forall (λ b, batch_ok b ∧ b_schema b = s)) bss → Forall (λ e, group_key e = true) groups →
  Forall (λ sp : spec, sp.1.2 = Wildcard ∨ group_key sp.1.2 = true) specs →
  collect aggregate_spec exprs = Ok specs → Forall exact_spec specs →
  aggregate_schema s groups exprs = Ok pschema → take (length groups) pschema = take (length groups) schema →
  RowKeyEncoder_new (f_type <$> take (length groups) schema) = Ok k →
  Forall2 (λ bs pb, ∃ m, hash_aggregate_with_memory m bs groups exprs pschema = Ok pb) bss pbs →
  ∃ rowss, Forall2 (λ bs rows, agg_rows groups specs bs = Ok rows) bss rowss ∧
    Forall2 (λ part b, ∃ m, grouped k groups specs part m ∧
      partial_batch k (length groups) (btree_iter m) b) rowss pbs.
Proof.
  intros Hb Hg Hargs Hs Hex Hsch Etake Hk Hp.
  induction Hp as [|bs pb bss pbs (memory & Ha) _ IH]; [exists []; by repeat constructor|].
  apply list.Forall_cons in Hb as [Hb Hbs]. destruct (IH Hbs) as (rowss & Hr & Hgr).
  destruct (hash_aggregate_partial memory s groups specs _ _ _ _ Hb Hg Hargs Hs Hex Hsch Ha)
    as (k' & rows & m & Hk' & Hrows & Hg' & Hpb).
  rewrite Etake, Hk in Hk'. injection Hk' as <-. exists (rows :: rowss). split; constructor; eauto.
Qed.

(** Splitting an aggregation is sound.  Let the rows be in any number of
    partitions, each aggregated on its own with the partial aggregates of the plan
    and shipped as a record batch, and let [merge_partials] combine the partial
    batches.  For COUNT, MIN and MAX (without DISTINCT) over any grouping the
    result is the record batch that one aggregation of all the rows returns: the
    same groups in the same order with the same values, empty partitions, NULL keys
    and a global aggregation without groups included. *)
Theorem distributed_aggregation_correct aggs partials pschema schema bss pbs mm ml merged whole :
  Forall (Forall (λ b, batch_ok b ∧ b_schema b = s)) bss → Forall (λ e, group_key e = true) groups →
  collect aggregate_spec aggs = Ok specs → Forall exact_spec specs →
  Forall (λ sp : spec, sp.1.2 = Wildcard ∨ group_key sp.1.2 = true) specs →
  partial_aggregate_exprs aggs = Ok partials →
  aggregate_schema s groups partials = Ok pschema → aggregate_schema s groups aggs = Ok schema →
  Forall2 (λ bs pb, ∃ m, hash_aggregate_with_memory m bs groups partials pschema = Ok pb) bss pbs →
  merge_partials mm pbs (length groups) aggs schema = Ok merged →
  hash_aggregate_with_memory ml (concat bss) groups aggs schema = Ok whole →
  merged = whole.
Proof.
  intros Hb Hg Hs Hex Hargs Hpart Hps Hsch Hp Hm Hw.
  pose proof (partial_specs _ _ _ Hpart Hs Hex) as Hs'.
  assert (take (length groups) pschema = take (length groups) schema) as Etake.
  { apply aggregate_schema_groups in Hps, Hsch. congruence. }
  assert (Forall (λ b, batch_ok b ∧ b_schema b = s) (concat bss)) as Hbc by (by apply Forall_concat).
  destruct (hash_aggregate_groups ml s groups specs aggs schema (concat bss) whole Hbc Hg Hs Hw)
    as (k & rows & m & arrays & columns & outputs & Hk & Hrows & Hgr & Har & Hco & Hou & Hnew).
  destruct (partition_rows partials schema pschema k bss pbs) as (rowss & Hr & Hpb); [done..|].
  apply agg_rows_concat in Hr. rewrite Hrows in Hr. injection Hr as ->.
  unfold merge_partials in Hm. rewrite (aggregate_functions _ Hs) in Hm. cbn [mbind result_bind] in Hm.
  apply bind_ok in Hm as (own & _ & Hm). rewrite Hk in Hm. cbn [mbind result_bind] in Hm.
  apply bind_ok in Hm as (st & Hst & Hm).
  pose proof (merge_groups_spec mm k groups specs Hex _ _ _ _ _ Hpb Hgr Hst) as Hsame.
  apply btree_iter_same in Hsame as [Hkeys Hvals]. rewrite Hkeys, Har in Hm. cbn [mbind result_bind] in Hm.
  rewrite Hvals in Hm. unfold finish_columns in Hco. rewrite Hco in Hm. cbn [mbind result_bind] in Hm.
  rewrite Hou in Hm. cbn [mbind result_bind] in Hm. rewrite Hnew in Hm. by injection Hm.
Qed.
End distributed.

(** ** A worked split *)

#[local] Instance demo_debug : ScalarDebug := λ _, "value".
#[local] Instance no_float_names : FloatDisplay := λ _, "0.0".
#[local] Instance demo_merge_sizes : MergeSizes := 40%N.

Lemma all_rows_spec n columns : all_rows n columns = true ↔ Forall (λ a, length (a_cells a) = n) columns.
Proof.
  unfold all_rows. induction columns as [|a columns IH]; cbn; [by split; constructor|].
  rewrite andb_true_iff, IH, bool_decide_eq_true, list.Forall_cons. done.
Qed.

Lemma demo_convert columns n :
  columns ≠ [] → Forall (λ a, length (a_cells a) = n) columns →
  convert_columns (a_type <$> columns) columns = Ok ((λ i, demo_row_bytes (cells_at columns i)) <$> seq 0 n).
Proof.
  intros Hne Hlen. destruct columns as [|a columns]; [done|]. pose proof Hlen as [Ha _]%list.Forall_cons.
  unfold convert_columns, demo_converter. rewrite Ha, bool_decide_true by done.
  by rewrite (proj2 (all_rows_spec _ _) Hlen).
Qed.

Lemma demo_rows_back (types : list DataType) (rows : list (list (option cell))) arrays :
  types ≠ [] → Forall (row_typed types) rows →
  convert_rows types (demo_row_bytes <$> rows) = Ok arrays →
  length arrays = length types ∧ convert_columns types arrays = Ok (demo_row_bytes <$> rows).
Proof.
  intros Ht Hr Hc. cbn in Hc. injection Hc as <-. split; [by rewrite length_imap|].
  rewrite <-list_fmap_compose.
  rewrite (list_fmap_ext (_ ∘ demo_row_bytes) id rows).
  2:{ intros i r _. unfold demo_row_bytes. simpl. by rewrite of_bits_of, countable.decode_encode. }
  rewrite list_fmap_id. set (arrays := imap _ types).
  assert (a_type <$> arrays = types) as Etypes.
  { apply list_eq. intros i. unfold arrays. rewrite list_lookup_fmap, list_lookup_imap. by destruct (types !! i). }
  assert (Forall (λ a, length (a_cells a) = length rows) arrays) as Hlen.
  { apply Forall_lookup. intros i a. unfold arrays. rewrite list_lookup_imap.
    intros (t & _ & ->)%fmap_Some. simpl. by rewrite length_fmap. }
  rewrite <-Etypes at 1. rewrite (demo_convert _ (length rows)); [|intros E; by rewrite E in Etypes; destruct Ht|done].
  f_equal.
  apply list_eq. intros i. rewrite !list_lookup_fmap. destruct (decide (i < length rows)) as [Hi|Hi].
  2:{ rewrite lookup_seq_ge, lookup_ge_None_2 by lia. done. }
  rewrite lookup_seq_lt by done. destruct (lookup_lt_is_Some_2 rows i Hi) as [r Hri]. rewrite Hri. cbn. do 2 f_equal.
  apply list_eq. intros c. unfold cells_at, arrays. rewrite list_lookup_fmap, list_lookup_imap.
  pose proof (Forall_lookup_1 _ _ _ _ Hr Hri) as Hrt. apply Forall2_length in Hrt.
  destruct (types !! c) as [t|] eqn:Et; cbn.
  - rewrite list_lookup_fmap, Hri. cbn. apply lookup_lt_Some in Et.
    destruct (lookup_lt_is_Some_2 r c) as [x Hx]; [lia|]. by rewrite Hx.
  - apply lookup_ge_None in Et. symmetry. apply lookup_ge_None. lia.
Qed.

#[local] Instance demo_merge_laws : MergeLaws demo_batch_ops demo_converter.
Proof.
  split; [|apply demo_rows_back].
  intros schema columns b Hn. cbn in Hn. destruct columns as [|a cs]; [done|].
  destruct (bool_decide _ && _) eqn:E; [|done]. apply andb_true_iff in E as [_ E].
  injection Hn as <-. cbn. split_and!; [done|done|]. by apply all_rows_spec.
Qed.

(** Five orders in two partitions, counted by customer. *)
Definition demo_more_orders : RecordBatch :=
  MkRecordBatch [MkField "o.id" DtInt64 true; MkField "o.customer" DtInt64 true]
    [MkArray DtInt64 [Some (IntCell 4); Some (IntCell 5)];
     MkArray DtInt64 [Some (IntCell 9); None]] 2.

Lemma demo_more_orders_ok : batch_ok demo_more_orders.
Proof.
  split; [by repeat constructor|]. repeat constructor; simpl; repeat constructor; intros x Hx; by simplify_eq.
Qed.

Definition demo_aggregates : list Expr :=
  [Aggregate Count Wildcard false; Alias (Aggregate Max (Column "o.id") false) "newest"].

Definition ok_or_default {A} (d : A) (r : result A) : A := match r with Ok x => x | _ => d end.

Definition demo_partials : list Expr := ok_or_default [] (partial_aggregate_exprs demo_aggregates).
Definition demo_partial_schema : Schema :=
  ok_or_default [] (aggregate_schema (b_schema demo_orders) [Column "o.customer"] demo_partials).
Definition demo_output_schema : Schema :=
  ok_or_default [] (aggregate_schema (b_schema demo_orders) [Column "o.customer"] demo_aggregates).
Definition demo_partial (b : RecordBatch) : RecordBatch :=
  ok_or_default demo_orders
    (hash_aggregate_with_memory demo_task_memory [b] [Column "o.customer"] demo_partials demo_partial_schema).

Definition demo_merged : RecordBatch :=
  ok_or_default demo_orders
    (merge_partials demo_task_memory [demo_partial demo_orders; demo_partial demo_more_orders] 1
       demo_aggregates demo_output_schema).

Lemma distributed_aggregation_correct_witness :
  b_rows demo_merged = 3 ∧
  Ok demo_merged = hash_aggregate_with_memory demo_task_memory [demo_orders; demo_more_orders]
    [Column "o.customer"] demo_aggregates demo_output_schema.
Proof.
  split; [vm_compute; reflexivity|].
  destruct (hash_aggregate_with_memory demo_task_memory [demo_orders; demo_more_orders]
    [Column "o.customer"] demo_aggregates demo_output_schema) as [whole| |] eqn:E;
    [|vm_compute in E; discriminate E..].
  f_equal.
  apply (distributed_aggregation_correct (b_schema demo_orders) [Column "o.customer"]
    [(Count, Wildcard, false); (Max, Column "o.id", false)] demo_aggregates demo_partials demo_partial_schema
    demo_output_schema [[demo_orders]; [demo_more_orders]]
    [demo_partial demo_orders; demo_partial demo_more_orders] demo_task_memory demo_task_memory).
  - constructor; [constructor; [split; [apply demo_orders_ok|reflexivity]|constructor]|].
    constructor; [|constructor]. constructor; [|constructor]. split; [apply demo_more_orders_ok|reflexivity].
  - by repeat constructor.
  - vm_compute. reflexivity.
  - by repeat constructor.
  - constructor; [by left|]. constructor; [by right|constructor].
  - vm_compute. reflexivity.
  - vm_compute. reflexivity.
  - vm_compute. reflexivity.
  - constructor; [exists demo_task_memory; vm_compute; reflexivity|].
    constructor; [exists demo_task_memory; vm_compute; reflexivity|constructor].
  - vm_compute. reflexivity.
  - exact E.
Defined.

(** *** A limit below an aggregation

    [scan_partitions] looks through limits, so the aggregation of a limited input
    is split, and every partition keeps as many rows as the limit allows. *)
Definition demo_orders_provider : TableProvider :=
  MkTableProvider (b_schema demo_orders) 2 0 (λ _ _, Ok true)
    (λ p _, Ok [if decide (p = 0) then demo_orders else demo_more_orders]).
Definition count_of_limit : PhysicalPlan :=
  let s := b_schema demo_orders in
  PHashAggregate 0 (PLimit 1 (PScan 2 "orders" demo_orders_provider None [] s) 1 s) []
    [Aggregate Count Wildcard false] [MkField "COUNT(*)" DtUInt64 true].

Definition count_limited (input : stream) : result RecordBatch :=
  batches ← receive_all (execute_limit input 1);
  hash_aggregate_with_memory demo_task_memory batches [] [Aggregate Count Wildcard false]
    [MkField "COUNT(*)" DtUInt64 true].

Example limit_below_aggregate_miscounts :
  local_strategy count_of_limit = RunPartitions 2 ∧
  (b ← count_limited [Ok demo_orders; Ok demo_more_orders]; partial_value b 0 0) = Ok (UInt64 1) ∧
  (p ← count_limited [Ok demo_orders]; q ← count_limited [Ok demo_more_orders];
   b ← merge_partials demo_task_memory [p; q] 0 [Aggregate Count Wildcard false]
         [MkField "COUNT(*)" DtUInt64 true];
   partial_value b 0 0) = Ok (UInt64 2).
Proof. by vm_compute. Qed.

(** *** The internal unsigned sum of no rows

    One aggregation returns NULL, the merge of partial sums 0. *)
Example merged_unsigned_sum_of_nothing :
  finish (AggregateState_new SumUInt64 false) = Null ∧
  merge_finish (new_merge_state SumUInt64) = UInt64 0.
Proof. done. Qed.
