(* ===== verification/Sql.v ===== *)
(** * SQL planning ([src/query/session.rs])

    [Session::sql] translates a [sqlparser] syntax tree to a logical plan.  The
    parser is a third-party package: [parse_sql] is a parameter, and the tree is
    the part of its type that the planner inspects.  Fields the planner only tests
    for presence are [bool]s; alternatives it does not name are one constructor with
    their printed text.  Clauses of [Query] and [Select] that the planner never
    reads (FETCH, QUALIFY, named windows, ...) do not appear. *)
From Stdlib Require Import Ascii.
From S2P Require Import Prelude Text Float Expr Logical Optimizer Catalog Physical.

(** ** The syntax tree *)

Inductive SqlDataType :=
| SqlBoolean | SqlBool
| SqlTinyInt | SqlInt2 | SqlSmallInt | SqlMediumInt | SqlInt | SqlInt4 | SqlInteger | SqlInt16 | SqlInt32
| SqlBigInt | SqlInt8 | SqlInt64 | SqlSigned | SqlSignedInteger
| SqlTinyIntUnsigned | SqlInt2Unsigned | SqlSmallIntUnsigned | SqlMediumIntUnsigned | SqlIntUnsigned
| SqlInt4Unsigned | SqlIntegerUnsigned | SqlUTinyInt | SqlUSmallInt | SqlUInt8 | SqlUInt16 | SqlUInt32
| SqlBigIntUnsigned | SqlInt8Unsigned | SqlUBigInt | SqlUInt64 | SqlUnsigned | SqlUnsignedInteger
| SqlFloat4 | SqlFloat32 | SqlReal
| SqlFloat | SqlFloat8 | SqlFloat64 | SqlDouble | SqlDoublePrecision
| SqlCharacter | SqlChar | SqlCharacterVarying | SqlCharVarying | SqlVarchar | SqlNvarchar | SqlText
| SqlString
| SqlOtherType (text : string).

Inductive BinaryOperator :=
| SqlEq | SqlNotEq | SqlLt | SqlLtEq | SqlGt | SqlGtEq | SqlAnd | SqlOr
| SqlPlus | SqlMinus | SqlMultiply | SqlDivide
| SqlOtherOperator (text : string).

Inductive SqlValue :=
| SqlNumber (text : string)
| SqlSingleQuotedString (text : string)
| SqlDoubleQuotedString (text : string)
| SqlBooleanValue (b : bool)
| SqlNullValue
| SqlOtherValue (text : string).

Inductive CastKind := CastCast | CastDoubleColon | CastOther (text : string).

Inductive DuplicateTreatment := DuplicateDistinct | DuplicateAll.

(** The tests of a function call that rule it out at once: [over], [filter],
    [null_treatment], [within_group] and [parameters]. *)
Record FunctionModifiers := MkFunctionModifiers {
  fm_over : bool;
  fm_filter : bool;
  fm_null_treatment : bool;
  fm_within_group : bool;
  fm_parameters : bool;
}.

Inductive SqlExpr :=
| SqlIdentifier (value : string)
| SqlCompoundIdentifier (parts : list string)
| SqlValueExpr (value : SqlValue)
| SqlNested (e : SqlExpr)
| SqlIsNull (e : SqlExpr)
| SqlIsNotNull (e : SqlExpr)
| SqlCast (kind : CastKind) (e : SqlExpr) (data_type : SqlDataType) (array has_format : bool)
| SqlBinaryOp (left : SqlExpr) (op : BinaryOperator) (right : SqlExpr)
| SqlFunction (name : string) (modifiers : FunctionModifiers) (args : FunctionArguments)
| SqlOtherExpr (text : string)
with FunctionArguments :=
| ArgumentsList (duplicate_treatment : option DuplicateTreatment) (args : list FunctionArg)
    (has_clauses : bool)
| ArgumentsOther
with FunctionArg :=
| ArgExpr (e : SqlExpr)
| ArgWildcard
| ArgOther (text : string).

Inductive SelectItem :=
| UnnamedExpr (e : SqlExpr)
| ExprWithAlias (e : SqlExpr) (alias : string)
| SelectWildcard
| QualifiedWildcard
| ExprWithAliases.

Inductive TableFactor :=
| TableNamed (name : string) (alias : option string) (has_args : bool)
| TableOther (text : string).

Inductive JoinConstraint := JoinOn (condition : SqlExpr) | JoinOtherConstraint.

Inductive JoinOperator :=
| OperatorJoin (c : JoinConstraint)
| OperatorInner (c : JoinConstraint)
| OperatorLeft (c : JoinConstraint)
| OperatorLeftOuter (c : JoinConstraint)
| OperatorOther (debug : string).

Record SqlJoin := MkSqlJoin { sj_relation : TableFactor; sj_operator : JoinOperator }.

Record TableWithJoins := MkTableWithJoins { twj_relation : TableFactor; twj_joins : list SqlJoin }.

Inductive GroupByExpr :=
| GroupByExpressions (exprs : list SqlExpr) (has_modifiers : bool)
| GroupByAll.

Record Select := MkSelect {
  sel_distinct : bool;
  sel_projection : list SelectItem;
  sel_from : list TableWithJoins;
  sel_selection : option SqlExpr;
  sel_group_by : GroupByExpr;
  sel_having : option SqlExpr;
}.

Record OrderByExpr := MkOrderByExpr {
  ob_expr : SqlExpr;
  ob_asc : option bool;
  ob_nulls_first : option bool;
  ob_with_fill : bool;
}.

Inductive OrderByKind := OrderByExpressions (exprs : list OrderByExpr) | OrderByAll.

Record OrderBy := MkOrderBy { ob_interpolate : bool; ob_kind : OrderByKind }.

Inductive LimitClause :=
| LimitOffset (limit : option SqlExpr) (has_offset has_limit_by : bool)
| OffsetCommaLimit.

Inductive SetExpr := SetSelect (s : Select) | SetOther.

Record Query := MkQuery {
  q_with : bool;
  q_body : SetExpr;
  q_order_by : option OrderBy;
  q_limit_clause : option LimitClause;
}.

Inductive Statement := StatementQuery (q : Query) | StatementOther (text : string).

(** The parser, how a syntax tree is printed, and [str::parse::<f64>]. *)
Class SqlParser := {
  parse_sql : string → result (list Statement);
  display_sql : SqlExpr → string;
  parse_f64 : string → option N;
}.

(** ** Expressions *)

Definition sql_operator (operator : BinaryOperator) : result Operator :=
  match operator with
  | SqlEq => Ok OpEq
  | SqlNotEq => Ok OpNotEq
  | SqlLt => Ok OpLt
  | SqlLtEq => Ok OpLtEq
  | SqlGt => Ok OpGt
  | SqlGtEq => Ok OpGtEq
  | SqlAnd => Ok OpAnd
  | SqlOr => Ok OpOr
  | SqlPlus => Ok OpAdd
  | SqlMinus => Ok OpSubtract
  | SqlMultiply => Ok OpMultiply
  | SqlDivide => Ok OpDivide
  | SqlOtherOperator text => Err (Unsupported ("operator " +:+ text))
  end.

Definition sql_data_type (data_type : SqlDataType) : result DataType :=
  match data_type with
  | SqlBoolean | SqlBool => Ok DtBoolean
  | SqlTinyInt | SqlInt2 | SqlSmallInt | SqlMediumInt | SqlInt | SqlInt4 | SqlInteger | SqlInt16
  | SqlInt32 => Ok DtInt32
  | SqlBigInt | SqlInt8 | SqlInt64 | SqlSigned | SqlSignedInteger => Ok DtInt64
  | SqlTinyIntUnsigned | SqlInt2Unsigned | SqlSmallIntUnsigned | SqlMediumIntUnsigned
  | SqlIntUnsigned | SqlInt4Unsigned | SqlIntegerUnsigned | SqlUTinyInt | SqlUSmallInt | SqlUInt8
  | SqlUInt16 | SqlUInt32 => Ok DtUInt32
  | SqlBigIntUnsigned | SqlInt8Unsigned | SqlUBigInt | SqlUInt64 | SqlUnsigned
  | SqlUnsignedInteger => Ok DtUInt64
  | SqlFloat4 | SqlFloat32 | SqlReal => Ok DtFloat32
  | SqlFloat | SqlFloat8 | SqlFloat64 | SqlDouble | SqlDoublePrecision => Ok DtFloat64
  | SqlCharacter | SqlChar | SqlCharacterVarying | SqlCharVarying | SqlVarchar | SqlNvarchar
  | SqlText | SqlString => Ok DtUtf8
  | SqlOtherType text => Err (Unsupported ("CAST target type " +:+ text))
  end.

Definition has_float_mark (s : string) : bool :=
  contains_char "."%char s || contains_char "e"%char s || contains_char "E"%char s.

Section expressions.
Context `{SqlParser}.

Definition sql_value (value : SqlValue) : result Expr :=
  match value with
  | SqlNumber text =>
      if has_float_mark text then
        bits ← ok_or (parse_f64 text) (Planning ("invalid floating-point literal " +:+ text));
        Ok (Literal (Float64 bits))
      else
        z ← ok_or (parse_i64 text) (Planning ("invalid integer literal " +:+ text));
        Ok (Literal (Int64 z))
  | SqlSingleQuotedString text | SqlDoubleQuotedString text => Ok (Literal (Utf8 text))
  | SqlBooleanValue b => Ok (Literal (Boolean b))
  | SqlNullValue => Ok (Literal Null)
  | SqlOtherValue text => Err (Unsupported ("literal " +:+ text))
  end.

Definition cast_kind_ok (kind : CastKind) : result unit :=
  match kind with
  | CastCast | CastDoubleColon => Ok tt
  | CastOther text => Err (Unsupported ("cast kind " +:+ text))
  end.

Definition modifiers_ok (m : FunctionModifiers) : result unit :=
  if fm_over m || fm_filter m || fm_null_treatment m || fm_within_group m || fm_parameters m
  then Err (Unsupported "aggregate parameters, windows, filters, null treatment, or WITHIN GROUP")
  else Ok tt.

Definition sql_aggregate_function (function_name : string) : result AggregateFunction :=
  if decide (function_name = "COUNT") then Ok Count
  else if decide (function_name = "SUM") then Ok Sum
  else if decide (function_name = "MIN") then Ok Min
  else if decide (function_name = "MAX") then Ok Max
  else if decide (function_name = "AVG") then Ok Avg
  else Err (Unsupported ("function " +:+ function_name)).

Definition is_distinct_treatment (t : option DuplicateTreatment) : bool :=
  match t with Some DuplicateDistinct => true | _ => false end.

Fixpoint sql_expr (e : SqlExpr) : result Expr :=
  match e with
  | SqlIdentifier value => Ok (Column value)
  | SqlCompoundIdentifier parts => Ok (Column (join_with "." parts))
  | SqlValueExpr value => sql_value value
  | SqlNested e => sql_expr e
  | SqlIsNull e => e ← sql_expr e; Ok (IsNull e false)
  | SqlIsNotNull e => e ← sql_expr e; Ok (IsNull e true)
  | SqlCast kind e data_type array has_format =>
      if array || has_format then Err (Unsupported "CAST ARRAY/FORMAT options")
      else
        _ ← cast_kind_ok kind;
        e ← sql_expr e;
        t ← sql_data_type data_type;
        Ok (Cast e t)
  | SqlBinaryOp l op r =>
      l ← sql_expr l;
      op ← sql_operator op;
      r ← sql_expr r;
      Ok (Binary l op r)
  | SqlFunction name modifiers args =>
      _ ← modifiers_ok modifiers;
      let function_name := to_ascii_uppercase name in
      aggregate ← sql_aggregate_function function_name;
      match args with
      | ArgumentsOther => Err (Planning (function_name +:+ " requires arguments"))
      | ArgumentsList duplicate_treatment [arg] has_clauses =>
          if has_clauses then Err (Unsupported "aggregate argument ORDER BY/LIMIT clauses")
          else
            argument ← match arg with
                       | ArgExpr e => sql_expr e
                       | ArgWildcard => Ok Wildcard
                       | ArgOther text => Err (Unsupported ("aggregate argument " +:+ text))
                       end;
            let distinct := is_distinct_treatment duplicate_treatment in
            if distinct && bool_decide (argument = Wildcard)
            then Err (Unsupported "DISTINCT wildcard aggregate")
            else Ok (Aggregate aggregate argument distinct)
      | ArgumentsList _ _ _ => Err (Planning (function_name +:+ " requires exactly one argument"))
      end
  | SqlOtherExpr text => Err (Unsupported ("SQL expression " +:+ text))
  end.

Definition select_item (item : SelectItem) : result Expr :=
  match item with
  | UnnamedExpr e => sql_expr e
  | ExprWithAlias e alias => e ← sql_expr e; Ok (Alias e alias)
  | SelectWildcard => Ok Wildcard
  | QualifiedWildcard => Err (Unsupported "qualified wildcard projection")
  | ExprWithAliases => Err (Unsupported "multi-alias projection")
  end.

Definition limit_must_be_integer {A} : result A := Err (Planning "LIMIT must be an integer literal").

Definition parse_limit (clause : option LimitClause) : result (option N) :=
  match clause with
  | None => Ok None
  | Some OffsetCommaLimit => Err (Unsupported "LIMIT offset, count")
  | Some (LimitOffset limit has_offset has_limit_by) =>
      if has_offset || has_limit_by then Err (Unsupported "LIMIT OFFSET/BY")
      else match limit with
      | Some (SqlValueExpr (SqlNumber text)) =>
          n ← ok_or (parse_usize text) (Planning ("invalid LIMIT " +:+ text)); Ok (Some n)
      | _ => limit_must_be_integer
      end
  end.

(** ** Joins *)

Fixpoint extract_join_pairs (e : SqlExpr) : result (list (SqlExpr * SqlExpr)) :=
  match e with
  | SqlBinaryOp l SqlAnd r =>
      ls ← extract_join_pairs l; rs ← extract_join_pairs r; Ok (ls ++ rs)
  | SqlBinaryOp l SqlEq r => Ok [(l, r)]
  | other => Err (Unsupported ("join condition " +:+ display_sql other +:+
                               "; only equality joined with AND is supported"))
  end.

Inductive JoinSide := SideLeft | SideRight.

Definition type_resolves {A} (r : result A) : result bool :=
  match r with Ok _ => Ok true | Err _ => Ok false | Panic why => Panic why end.

Context `{FloatDisplay}.

Definition join_expression_side (e : Expr) (left right : Schema) : result JoinSide :=
  in_left ← type_resolves (data_type e left);
  in_right ← type_resolves (data_type e right);
  match in_left, in_right with
  | true, false => Ok SideLeft
  | false, true => Ok SideRight
  | true, true => Err (Planning ("JOIN expression " +:+ display_expr e +:+
                    " is ambiguous; qualify its columns with a table name or alias"))
  | false, false => Err (Planning ("JOIN expression " +:+ display_expr e +:+
                      " does not resolve to either input"))
  end.

(** One equality of the join condition: its operands in the order left input, right
    input. *)
Definition join_pair (left right : Schema) (pair : SqlExpr * SqlExpr) : result (Expr * Expr) :=
  left_expr ← sql_expr pair.1;
  right_expr ← sql_expr pair.2;
  left_side ← join_expression_side left_expr left right;
  right_side ← join_expression_side right_expr left right;
  match left_side, right_side with
  | SideLeft, SideRight => Ok (left_expr, right_expr)
  | SideRight, SideLeft => Ok (right_expr, left_expr)
  | _, _ => Err (Planning "JOIN equality operands must reference opposite table sides")
  end.

Definition join_operator (op : JoinOperator) : result (JoinType * JoinConstraint) :=
  match op with
  | OperatorJoin c | OperatorInner c => Ok (Inner, c)
  | OperatorLeft c | OperatorLeftOuter c => Ok (JoinLeft, c)
  | OperatorOther debug => Err (Unsupported ("join operator " +:+ debug))
  end.

(** ** Queries *)

Definition qualify_schema (schema : Schema) (qualifier : string) : Schema :=
  (λ f, MkField (qualifier +:+ "." +:+ f_name f) (f_type f) (f_nullable f)) <$> schema.

Context (catalog : Catalog).

Definition table_factor (factor : TableFactor) : result (LogicalPlan * string) :=
  match factor with
  | TableOther text => Err (Unsupported ("table factor " +:+ text))
  | TableNamed name alias has_args =>
      if has_args then Err (Unsupported "table-valued functions")
      else
        let qualifier := default name alias in
        provider ← table catalog name;
        Ok (scan name (qualify_schema (tp_schema provider) qualifier), qualifier)
  end.

Definition plan_join (plan : LogicalPlan) (left_qualifier : string) (j : SqlJoin) : result LogicalPlan :=
  '(right_plan, right_qualifier) ← table_factor (sj_relation j);
  if decide (left_qualifier = right_qualifier) then
    Err (Planning ("table qualifier '" +:+ left_qualifier +:+
                   "' is used more than once; add unique aliases"))
  else
    '(join_type, constraint) ← join_operator (sj_operator j);
    match constraint with
    | JoinOtherConstraint => Err (Unsupported "only JOIN ... ON equality constraints are supported")
    | JoinOn condition =>
        pairs ← extract_join_pairs condition;
        on ← collect (join_pair (plan_schema plan) (plan_schema right_plan)) pairs;
        join plan right_plan join_type (on.*1) (on.*2)
    end.

Definition plan_from (from : TableWithJoins) : result LogicalPlan :=
  if (1 <? length (twj_joins from))%nat then Err (Unsupported "more than one JOIN in a SELECT")
  else
    '(plan, left_qualifier) ← table_factor (twj_relation from);
    match twj_joins from with
    | [] => Ok plan
    | j :: _ => plan_join plan left_qualifier j
    end.

Definition plan_selection (plan : LogicalPlan) (selection : option SqlExpr) : result LogicalPlan :=
  match selection with
  | Some e => e ← sql_expr e; filter plan e
  | None => Ok plan
  end.

Definition plan_group_by (projection : list Expr) (group_by : GroupByExpr) : result (list Expr) :=
  match group_by with
  | GroupByExpressions exprs has_modifiers =>
      if has_modifiers then Err (Unsupported "GROUP BY modifiers") else collect sql_expr exprs
  | GroupByAll => Ok (List.filter (λ e, negb (contains_aggregate e)) projection)
  end.

Definition is_aggregate (e : Expr) : bool :=
  match unalias e with Aggregate _ _ _ => true | _ => false end.

Definition plan_select (s : Select) : result LogicalPlan :=
  if sel_distinct s then Err (Unsupported "SELECT DISTINCT")
  else match sel_from s with
  | [from] =>
      plan ← plan_from from;
      plan ← plan_selection plan (sel_selection s);
      projection ← collect select_item (sel_projection s);
      group_exprs ← plan_group_by projection (sel_group_by s);
      let aggregate_exprs := List.filter contains_aggregate projection in
      match List.find (λ e, negb (is_aggregate e)) aggregate_exprs with
      | Some e => Err (Unsupported ("aggregate expressions must be directly projected; got " +:+
                                    display_expr e))
      | None =>
          if negb (bool_decide (group_exprs = [])) || negb (bool_decide (aggregate_exprs = [])) then
            plan ← aggregate plan group_exprs aggregate_exprs;
            plan ← project plan ((λ e, Column (name e)) <$> projection);
            plan_selection plan (sel_having s)
          else project plan projection
      end
  | _ => Err (Planning "a SELECT must contain exactly one FROM relation")
  end.

Definition plan_order (o : OrderByExpr) : result SortExpr :=
  if ob_with_fill o then Err (Unsupported "ORDER BY WITH FILL")
  else
    e ← sql_expr (ob_expr o);
    let ascending := default true (ob_asc o) in
    Ok (MkSortExpr e ascending (default (negb ascending) (ob_nulls_first o))).

Definition plan_order_by (plan : LogicalPlan) (order_by : option OrderBy) : result LogicalPlan :=
  match order_by with
  | None => Ok plan
  | Some o =>
      if ob_interpolate o then Err (Unsupported "ORDER BY INTERPOLATE")
      else match ob_kind o with
      | OrderByAll => Err (Unsupported "ORDER BY ALL")
      | OrderByExpressions exprs => exprs ← collect plan_order exprs; sort plan exprs
      end
  end.

Definition plan_query (q : Query) : result LogicalPlan :=
  if q_with q then Err (Unsupported "CTEs are not implemented yet")
  else match q_body q with
  | SetOther => Err (Unsupported "UNION, INTERSECT, and EXCEPT are not implemented yet")
  | SetSelect s =>
      plan ← plan_select s;
      plan ← plan_order_by plan (q_order_by q);
      n ← parse_limit (q_limit_clause q);
      Ok (match n with Some n => limit plan n | None => plan end)
  end.

Definition plan_statement (s : Statement) : result LogicalPlan :=
  match s with
  | StatementQuery q => plan_query q
  | StatementOther text => Err (Unsupported ("only SELECT queries are supported, got " +:+ text))
  end.

Definition sql (text : string) : result LogicalPlan :=
  statements ← parse_sql text;
  match statements with
  | [s] => plan_statement s
  | _ => Err (Planning "exactly one SQL statement is required")
  end.

(** What [explain] and the two ways to execute a query plan first. *)
Definition plan_sql `{Kernels} (text : string) : result (LogicalPlan * LogicalPlan * PhysicalPlan) :=
  logical ← sql text;
  optimized ← optimize logical;
  physical ← create_physical_plan optimized catalog;
  Ok (logical, optimized, physical).
End expressions.

(** ** Sessions *)

Record SessionConfig := MkSessionConfig {
  sc_batch_size : N;
  sc_channel_capacity : N;
  sc_workers : N;
  sc_distributed : bool;
  sc_memory_limit_bytes : N;
}.

Record Session := MkSession { s_config : SessionConfig; s_catalog : Catalog }.

Definition Session_new (config : SessionConfig) : Session :=
  MkSession
    (MkSessionConfig (N.max (sc_batch_size config) 1) (N.max (sc_channel_capacity config) 1)
       (N.max (sc_workers config) 1) (sc_distributed config) (N.max (sc_memory_limit_bytes config) 1))
    Catalog_default.

Definition register_table (self : Session) (name : string) (t : TableProvider) : Session :=
  MkSession (s_config self) (register (s_catalog self) name t).

Definition register_memory `{BatchOps} (self : Session) (name : string) (t : MemoryTable) : Session :=
  register_table self name (memory_provider t).
