(* ===== verification/SqlProps.v ===== *)
(** * What SQL planning guarantees

    A planned query is a well-formed logical plan over the catalog, planning never
    panics, and the whole way from SQL to a physical plan keeps the columns of the
    query and ends in a plan that every worker accepts. *)
From Stdlib Require Import Ascii.
From S2P Require Import Prelude Text Protocol Float Expr ExprProps Logical Optimizer SchemaProps OptimizerProps Catalog Physical PhysicalProps PlanCodec PlanCodecProps Sql.

(** ** Scans through the optimizer *)

Section scans.
Context `{FloatDisplay, Kernels} (P : string → option (list string) → Schema → Prop).

(** Every scan of a plan satisfies a property, and sorts have keys. *)
Fixpoint scans_sat (p : LogicalPlan) : Prop :=
  match p with
  | LScan name projection _ s => P name projection s
  | LProjection input _ _ | LFilter input _ _ | LAggregate input _ _ _ | LLimit input _ _ => scans_sat input
  | LSort input exprs _ => scans_sat input ∧ exprs ≠ []
  | LJoin l r _ _ _ _ => scans_sat l ∧ scans_sat r
  end.

Lemma project_scans i es p : project i es = Ok p → scans_sat i → scans_sat p.
Proof. unfold project. by intros (fs & _ & [= <-])%bind_ok. Qed.
Lemma filter_scans i e p : filter i e = Ok p → scans_sat i → scans_sat p.
Proof. by intros [_ ->]%filter_ok. Qed.
Lemma aggregate_scans i g a p : aggregate i g a = Ok p → scans_sat i → scans_sat p.
Proof. unfold aggregate. by intros (fs & _ & [= <-])%bind_ok. Qed.
Lemma sort_scans i es p : sort i es = Ok p → es ≠ [] → scans_sat i → scans_sat p.
Proof. by intros [_ ->]%sort_ok. Qed.
Lemma join_scans l r t lo ro p : join l r t lo ro = Ok p → scans_sat l → scans_sat r → scans_sat p.
Proof. by intros (_ & _ & ->)%join_ok. Qed.
Hint Resolve project_scans filter_scans aggregate_scans sort_scans join_scans : scans.

Context (Hnarrow : ∀ name pr s t, P name pr s → (∀ f, f ∈ t → f ∈ s) → P name (Some (f_name <$> t)) t).

Lemma optimize_children_scans rec p p' :
  (∀ i i', is_input i p → scans_sat i → rec i = Ok i' → scans_sat i') →
  scans_sat p → optimize_children rec p = Ok p' → scans_sat p'.
Proof.
  intros Hrec Hp Ho. destruct p as [| | | | | |l r t lo ro s]; cbn [optimize_children is_input scans_sat] in *;
    [by injection Ho as <-|..].
  - apply bind_ok in Ho as (i' & Hi & Ho). eapply project_scans; [done|by eapply Hrec].
  - apply bind_ok in Ho as (i' & Hi & Ho). eapply filter_scans; [done|by eapply Hrec].
  - apply bind_ok in Ho as (i' & Hi & Ho). eapply aggregate_scans; [done|by eapply Hrec].
  - destruct Hp as [Hi Hne]. apply bind_ok in Ho as (i' & Hi' & Ho).
    eapply sort_scans; [done|done|by eapply Hrec].
  - apply bind_ok in Ho as (i' & Hi & [= <-]). cbn. eauto.
  - destruct Hp. apply bind_ok in Ho as (l' & Hl & Ho). apply bind_ok in Ho as (r' & Hr & Ho).
    eapply join_scans; [done|eapply Hrec; [by left|done..]|eapply Hrec; [by right|done..]].
Qed.

Lemma simplify_expressions_scans p p' : scans_sat p → simplify_expressions p = Ok p' → scans_sat p'.
Proof.
  intros Hp Ho. destruct p as [tbl pr fs s|i es s|i e s|i g a s|i es s|i n s|l r t lo ro s];
    cbn [simplify_expressions scans_sat] in *.
  - by apply bind_ok in Ho as (fs' & _ & [= <-]).
  - apply bind_ok in Ho as (es' & _ & Ho). eauto with scans.
  - apply bind_ok in Ho as (e' & _ & Ho). eauto with scans.
  - apply bind_ok in Ho as (g' & _ & Ho). apply bind_ok in Ho as (a' & _ & Ho). eauto with scans.
  - destruct Hp as [Hi Hne]. apply bind_ok in Ho as (es' & Hes & Ho). eapply sort_scans; [done| |done].
    intros ->. apply collect_length in Hes. by destruct es.
  - by injection Ho as <-.
  - destruct Hp. apply bind_ok in Ho as (lo' & _ & Ho). apply bind_ok in Ho as (ro' & _ & Ho). eauto with scans.
Qed.

Lemma push_filter_scans p p' : scans_sat p → push_filter_into_scan p = Ok p' → scans_sat p'.
Proof.
  intros Hp Ho. destruct p as [|i|i e s| | | |]; try by injection Ho as <-.
  destruct i; cbn [push_filter_into_scan scans_sat] in *; try (by eapply filter_scans); by injection Ho as <-.
Qed.

Lemma push_projection_scans p p' : scans_sat p → push_projection_into_scan p = Ok p' → scans_sat p'.
Proof.
  intros Hp Ho. destruct p as [|i es s0| | | | |]; try by injection Ho as <-.
  destruct i as [tbl pr fs s| | | | | |]; cbn [push_projection_into_scan scans_sat] in *;
    try by eapply project_scans.
  destruct (decide _); [by eapply project_scans|].
  apply bind_ok in Ho as (indices & _ & Ho). apply bind_ok in Ho as (t & Ht & Ho).
  eapply project_scans; [done|]. cbn. eapply Hnarrow; [done|].
  unfold fields_at in Ht. apply collect_ok in Ht. clear -Ht. intros f Hf.
  apply list_elem_of_lookup in Hf as [k Hk]. destruct (Forall2_lookup_r _ _ _ _ _ Ht Hk) as (i & _ & Hi).
  destruct (s !! i) eqn:E; [|done]. injection Hi as ->. by eapply list_elem_of_lookup_2.
Qed.

Lemma eliminate_identity_scans p p' : scans_sat p → eliminate_identity_projection p = Ok p' → scans_sat p'.
Proof.
  intros Hp Ho. destruct p as [|i es s0| | | | |]; try by injection Ho as <-.
  cbn [eliminate_identity_projection scans_sat] in *. destruct (_ && _); [by injection Ho as <-|].
  by eapply project_scans.
Qed.

Lemma optimize_scans p p' : scans_sat p → optimize p = Ok p' → scans_sat p'.
Proof.
  revert p'. induction p as [tbl pr fs s|i IH es s|i IH e s|i IH g a s|i IH es s|i IH n s|
    l IHl r IHr t lo ro s]; intros p' Hg Hp;
    match type of Hp with optimize ?q = _ =>
      change (optimize_children optimize q ≫= optimize_node = Ok p') in Hp end;
    apply bind_ok in Hp as (p1 & H1 & Hp); apply optimize_children_scans in H1; try done;
    try (simpl; naive_solver); unfold optimize_node in Hp;
    apply bind_ok in Hp as (p2 & H2 & Hp); apply bind_ok in Hp as (p3 & H3 & Hp);
    apply bind_ok in Hp as (p4 & H4 & Hp);
    eauto using simplify_expressions_scans, push_filter_scans, push_projection_scans, eliminate_identity_scans.
Qed.
End scans.

(** ** Expressions *)

Section expressions.
Context `{SqlParser}.

Lemma sql_value_no_alias v x : sql_value v = Ok x → no_alias x = true.
Proof.
  unfold sql_value. destruct v; try (by intros [= <-]); try done. destruct (has_float_mark _);
    by intros (y & _ & [= <-])%bind_ok.
Qed.

(** SQL expressions have no aliases inside. *)
Lemma sql_expr_no_alias : ∀ e x, sql_expr e = Ok x → no_alias x = true.
Proof.
  fix IH 1. intros e x Hx. destruct e as [| |v|e|e|e|k e t a f|l op r|n m args|]; cbn [sql_expr] in Hx.
  - by injection Hx as <-.
  - by injection Hx as <-.
  - by eapply sql_value_no_alias.
  - by eapply IH.
  - apply bind_ok in Hx as (y & Hy & [= <-]). simpl. by eapply IH.
  - apply bind_ok in Hx as (y & Hy & [= <-]). simpl. by eapply IH.
  - destruct (a || f); [done|]. apply bind_ok in Hx as (_ & _ & Hx).
    apply bind_ok in Hx as (y & Hy & Hx). apply bind_ok in Hx as (t' & _ & [= <-]). simpl. by eapply IH.
  - apply bind_ok in Hx as (y & Hy & Hx). apply bind_ok in Hx as (o & _ & Hx).
    apply bind_ok in Hx as (z & Hz & [= <-]). simpl. by rewrite (IH _ _ Hy), (IH _ _ Hz).
  - apply bind_ok in Hx as (_ & _ & Hx). apply bind_ok in Hx as (g & _ & Hx).
    destruct args as [d [|arg [|]] c|]; try done. destruct c; [done|].
    apply bind_ok in Hx as (y & Hy & Hx). destruct (_ && _); [done|]. injection Hx as <-. simpl.
    destruct arg as [e| |]; [by eapply IH|by injection Hy as <-|done].
  - done.
Qed.

Lemma sql_value_no_panic v : no_panic (sql_value v).
Proof.
  unfold sql_value. destruct v as [text| | | | |]; try done.
  destruct (has_float_mark _); (apply bind_no_panic; [|done]); [by destruct (parse_f64 text)|by destruct (parse_i64 text)].
Qed.

Lemma sql_operator_no_panic o : no_panic (sql_operator o).
Proof. by destruct o. Qed.

Lemma sql_data_type_no_panic t : no_panic (sql_data_type t).
Proof. by destruct t. Qed.

Lemma sql_aggregate_function_no_panic n : no_panic (sql_aggregate_function n).
Proof. unfold sql_aggregate_function. by repeat case_decide. Qed.
End expressions.

#[export] Hint Resolve sql_value_no_panic sql_operator_no_panic sql_data_type_no_panic
  sql_aggregate_function_no_panic : codec.

Lemma sql_expr_no_panic `{SqlParser} : ∀ e, no_panic (sql_expr e).
Proof.
  fix IH 1. intros [| |v|e|e|e|k e t a f|l op r|n m args|]; cbn [sql_expr]; try exact I.
  - apply sql_value_no_panic.
  - apply IH.
  - apply bind_no_panic; [apply IH|by intros].
  - apply bind_no_panic; [apply IH|by intros].
  - destruct (a || f); [done|]. apply bind_no_panic; [by destruct k|intros _ _].
    apply bind_no_panic; [apply IH|intros]. apply bind_no_panic; [apply sql_data_type_no_panic|by intros].
  - apply bind_no_panic; [apply IH|intros]. apply bind_no_panic; [apply sql_operator_no_panic|intros].
    apply bind_no_panic; [apply IH|by intros].
  - apply bind_no_panic; [unfold modifiers_ok; by destruct (_ || _)|intros _ _].
    apply bind_no_panic; [apply sql_aggregate_function_no_panic|intros].
    destruct args as [d [|arg [|]] c|]; try done. destruct c; [done|].
    apply bind_no_panic; [destruct arg; [apply IH|done|done]|intros]. by destruct (_ && _).
Qed.

Lemma select_item_no_panic `{SqlParser} i : no_panic (select_item i).
Proof. destruct i; cbn; try done; [apply sql_expr_no_panic|]. apply bind_no_panic; [apply sql_expr_no_panic|done]. Qed.

Lemma select_item_no_alias `{SqlParser} i x : select_item i = Ok x → no_alias (unalias x) = true.
Proof.
  destruct i; cbn; try done.
  - intros Hx. pose proof (sql_expr_no_alias _ _ Hx). by destruct x.
  - intros (y & Hy & [= <-])%bind_ok. by eapply sql_expr_no_alias.
  - by intros [= <-].
Qed.

Lemma find_field_no_panic s n : no_panic (find_field s n).
Proof.
  unfold find_field. destruct (resolve_field_index s n) as [i| |] eqn:E; try done; cbn.
  - by apply resolve_field_refers in E as (f & -> & _).
  - exfalso. revert E. unfold resolve_field_index. by repeat case_match.
Qed.

Lemma data_type_no_panic e s : no_alias e = true → no_panic (data_type e s).
Proof.
  induction e as [n|v|l IHl op r IHr|e IH negated|e IH t|e IH alias|f e IH d|]; cbn [data_type no_alias]; try done.
  - intros _. pose proof (find_field_no_panic s n) as Hn. by destruct (find_field s n).
  - intros [Hl Hr]%andb_true_iff. apply bind_no_panic; [by apply IHl|intros t _].
    apply bind_no_panic; [by apply IHr|intros t' _]. unfold binary_type. repeat case_match; try done.
    by destruct (common_numeric_type t t').
  - intros He. destruct f; try done; try (by apply IH); (apply bind_no_panic; [by apply IH|intros; by case_match]).
Qed.

Lemma data_type_item_no_panic e s : no_alias (unalias e) = true → no_panic (data_type e s).
Proof.
  destruct e as [| | | | |e a| |]; try by apply data_type_no_panic. cbn. intros He.
  destruct e; cbn in He; try done; by apply data_type_no_panic.
Qed.

(** ** Planning never panics and builds well-formed plans *)

Section planning.
Context `{SqlParser, FloatDisplay} (catalog : Catalog).

Lemma fields_no_panic es s :
  Forall (λ e, no_alias (unalias e) = true) es → no_panic (collect (λ e, field e s) es).
Proof.
  induction 1 as [|e es He _ IH]; [done|]. cbn. apply bind_no_panic.
  - unfold field. apply bind_no_panic; [by apply data_type_item_no_panic|done].
  - intros. by apply bind_no_panic.
Qed.

Lemma expand_no_alias es s :
  Forall (λ e, no_alias (unalias e) = true) es → Forall (λ e, no_alias (unalias e) = true) (expand_projection es s).
Proof.
  unfold expand_projection. induction 1 as [|e es He _ IH]; [constructor|]. rewrite fmap_cons. cbn.
  apply list.Forall_app. split; [|done]. destruct e; try (by constructor). apply Forall_fmap, Forall_true. done.
Qed.

Lemma project_no_panic i es : Forall (λ e, no_alias (unalias e) = true) es → no_panic (project i es).
Proof.
  intros Hes. unfold project. apply bind_no_panic; [|done]. by apply fields_no_panic, expand_no_alias.
Qed.

Lemma filter_no_panic i e : no_alias e = true → no_panic (filter i e).
Proof. intros He. unfold filter. apply bind_no_panic; [by apply data_type_no_panic|]. intros. by case_decide. Qed.

Lemma items_no_alias items es :
  collect select_item items = Ok es → Forall (λ e, no_alias (unalias e) = true) es.
Proof.
  intros Hc%collect_ok. induction Hc as [|i e items es Hi _ IH]; constructor; [|done].
  by eapply select_item_no_alias.
Qed.

Lemma exprs_no_alias items es :
  collect sql_expr items = Ok es → Forall (λ e, no_alias e = true) es.
Proof.
  intros Hc%collect_ok. induction Hc as [|i e items es Hi _ IH]; constructor; [|done].
  by eapply sql_expr_no_alias.
Qed.

Lemma no_alias_unalias e : no_alias e = true → no_alias (unalias e) = true.
Proof. by destruct e. Qed.

Lemma group_by_no_alias projection g es :
  Forall (λ e, no_alias (unalias e) = true) projection → plan_group_by projection g = Ok es →
  Forall (λ e, no_alias (unalias e) = true) es.
Proof.
  intros Hp. unfold plan_group_by. destruct g as [items m|].
  - destruct m; [done|]. intros Hes%exprs_no_alias. eapply list.Forall_impl; [exact Hes|]. apply no_alias_unalias.
  - intros [= <-]. rewrite list.Forall_forall in *. intros e [He _]%list_elem_of_In%filter_In. apply Hp.
    by apply list_elem_of_In.
Qed.

Lemma table_factor_no_panic f : no_panic (table_factor catalog f).
Proof.
  destruct f; cbn; [|done]. destruct has_args; [done|]. apply bind_no_panic; [|done].
  unfold table. by destruct (_ !! _).
Qed.

Lemma join_pair_ok l r p lr :
  join_pair l r p = Ok lr → no_alias lr.1 = true ∧ no_alias lr.2 = true.
Proof.
  unfold join_pair. intros (a & Ha & Hp)%bind_ok. apply bind_ok in Hp as (b & Hb & Hp).
  apply bind_ok in Hp as (sa & _ & Hp). apply bind_ok in Hp as (sb & _ & Hp).
  apply sql_expr_no_alias in Ha, Hb. by destruct sa, sb; simplify_eq.
Qed.

Lemma extract_join_pairs_no_panic e : no_panic (extract_join_pairs e).
Proof.
  revert e. fix IH 1. intros [| |v|e|e|e|k e t a f|l op r|n m args|]; cbn; try done.
  destruct op; try done. apply bind_no_panic; [apply IH|intros]. apply bind_no_panic; [apply IH|done].
Qed.

Lemma join_pair_no_panic l r p : no_panic (join_pair l r p).
Proof.
  unfold join_pair. apply bind_no_panic; [apply sql_expr_no_panic|intros a Ha].
  apply bind_no_panic; [apply sql_expr_no_panic|intros b Hb]. apply sql_expr_no_alias in Ha, Hb.
  assert (∀ e, no_alias e = true → no_panic (join_expression_side e l r)) as Hs.
  { intros e He. unfold join_expression_side, type_resolves.
    pose proof (data_type_no_panic e l He). pose proof (data_type_no_panic e r He).
    destruct (data_type e l), (data_type e r); done. }
  apply bind_no_panic; [by apply Hs|intros sa _]. apply bind_no_panic; [by apply Hs|intros sb _]. by destruct sa, sb.
Qed.

Lemma join_no_panic l r t lo ro :
  Forall (λ e, no_alias e = true) lo → Forall (λ e, no_alias e = true) ro → no_panic (join l r t lo ro).
Proof.
  intros Hl Hr. unfold join. destruct (_ || _); [done|]. apply bind_no_panic; [|done].
  apply for_each_no_panic. intros [a b] Hab. rewrite list.Forall_forall in Hl, Hr.
  unfold check_join_key. apply bind_no_panic; [apply data_type_no_panic, Hl; by eapply elem_of_zip_l|intros].
  apply bind_no_panic; [apply data_type_no_panic, Hr; by eapply elem_of_zip_r|intros]. by case_decide.
Qed.

Lemma plan_from_no_panic f : no_panic (plan_from catalog f).
Proof.
  unfold plan_from. destruct (_ <? _)%nat; [done|]. apply bind_no_panic; [apply table_factor_no_panic|].
  intros [plan q] _. destruct (twj_joins f) as [|j _]; [done|]. unfold plan_join.
  apply bind_no_panic; [apply table_factor_no_panic|]. intros [right_plan rq] _. case_decide; [done|].
  apply bind_no_panic; [by destruct (sj_operator j)|]. intros [t c] _. destruct c as [cond|]; [|done].
  apply bind_no_panic; [apply extract_join_pairs_no_panic|]. intros pairs _.
  apply bind_no_panic; [apply collect_no_panic, join_pair_no_panic|]. intros on Hon. apply collect_ok in Hon.
  apply join_no_panic; apply Forall_fmap; clear -Hon;
    induction Hon as [|p lr pairs on Hp _ IH]; constructor; try done; by eapply join_pair_ok.
Qed.

Lemma plan_selection_no_panic p o : no_panic (plan_selection p o).
Proof.
  destruct o as [e|]; [|done]. cbn. apply bind_no_panic; [apply sql_expr_no_panic|]. intros x Hx.
  by apply filter_no_panic, (sql_expr_no_alias _ _ Hx).
Qed.

Lemma plan_select_no_panic s : no_panic (plan_select catalog s).
Proof.
  unfold plan_select. destruct (sel_distinct s); [done|]. destruct (sel_from s) as [|f [|]]; try done.
  apply bind_no_panic; [apply plan_from_no_panic|intros p1 _].
  apply bind_no_panic; [apply plan_selection_no_panic|intros p2 _].
  apply bind_no_panic; [apply collect_no_panic, select_item_no_panic|intros projection Hpr].
  apply items_no_alias in Hpr.
  apply bind_no_panic.
  { unfold plan_group_by. destruct (sel_group_by s) as [? []|]; try done. apply collect_no_panic, sql_expr_no_panic. }
  intros groups Hg. apply (group_by_no_alias _ _ _ Hpr) in Hg. destruct (List.find _ _); [done|].
  destruct (_ || _); [|by apply project_no_panic].
  apply bind_no_panic.
  { unfold aggregate. apply bind_no_panic; [|done]. apply fields_no_panic, list.Forall_app. split; [done|].
    rewrite list.Forall_forall in *. intros e [He _]%list_elem_of_In%filter_In. by apply Hpr, list_elem_of_In. }
  intros p3 _. apply bind_no_panic; [|intros; apply plan_selection_no_panic].
  apply project_no_panic, Forall_fmap, Forall_true. done.
Qed.

Lemma plan_query_no_panic q : no_panic (plan_query catalog q).
Proof.
  unfold plan_query. destruct (q_with q); [done|]. destruct (q_body q) as [s|]; [|done].
  apply bind_no_panic; [apply plan_select_no_panic|intros p _]. apply bind_no_panic.
  { unfold plan_order_by. destruct (q_order_by q) as [[? []]|]; cbn; [..|done]; case_match; try done.
    apply bind_no_panic.
    - apply collect_no_panic. intros o. unfold plan_order. destruct (ob_with_fill o); [done|].
      apply bind_no_panic; [apply sql_expr_no_panic|done].
    - intros es Hes. unfold sort. apply bind_no_panic; [|done]. apply for_each_no_panic. intros x Hx.
      apply bind_no_panic; [|done]. apply data_type_no_panic. apply collect_ok in Hes.
      apply list_elem_of_lookup in Hx as [k Hk]. destruct (Forall2_lookup_r _ _ _ _ _ Hes Hk) as (o & _ & Ho).
      unfold plan_order in Ho. destruct (ob_with_fill o); [done|]. apply bind_ok in Ho as (y & Hy & [= <-]).
      by eapply sql_expr_no_alias. }
  intros p' _. apply bind_no_panic; [|done]. unfold parse_limit.
  repeat case_match; try done. apply bind_no_panic; [by destruct (parse_usize _)|done].
Qed.
End planning.

(** ** Planned queries are well formed *)

Section well_formed.
Context `{SqlParser, FloatDisplay} (catalog : Catalog).

Lemma expand_twice es s s' : expand_projection (expand_projection es s) s' = expand_projection es s.
Proof.
  unfold expand_projection. induction es as [|e es IH]; [done|]. rewrite fmap_cons. cbn.
  rewrite fmap_app, join_app. f_equal; [|exact IH].
  destruct e; try done. clear IH. rewrite <-list_fmap_compose. induction s as [|f s IHs]; [done|].
  rewrite !fmap_cons. cbn. by f_equal.
Qed.

Lemma project_wf i es p : wf_plan i → project i es = Ok p → wf_plan p.
Proof.
  intros Hi Hp. pose proof Hp as (fs & Hfs & [= <-])%bind_ok. split; [done|]. unfold project.
  rewrite expand_twice, Hfs. done.
Qed.

Lemma filter_wf i e p : wf_plan i → filter i e = Ok p → wf_plan p.
Proof. intros Hi Hp. pose proof Hp as [_ ->]%filter_ok. done. Qed.

Lemma plan_selection_wf p o p' : wf_plan p → plan_selection p o = Ok p' → wf_plan p'.
Proof.
  intros Hp. destruct o as [e|]; cbn; [|by intros [= <-]]. intros (x & _ & Hf)%bind_ok. by eapply filter_wf.
Qed.

Lemma table_factor_wf f p q : table_factor catalog f = Ok (p, q) → wf_plan p.
Proof.
  destruct f; cbn; [|done]. destruct has_args; [done|]. intros (t & _ & [= <- <-])%bind_ok. constructor.
Qed.

Lemma plan_from_wf f p : plan_from catalog f = Ok p → wf_plan p.
Proof.
  unfold plan_from. destruct (_ <? _)%nat; [done|]. intros ([p1 q1] & Hp1%table_factor_wf & Hp)%bind_ok.
  destruct (twj_joins f) as [|j _]; [by injection Hp as <-|]. unfold plan_join in Hp.
  apply bind_ok in Hp as ([p2 q2] & Hp2%table_factor_wf & Hp). destruct (decide _); [done|].
  apply bind_ok in Hp as ([t c] & _ & Hp). destruct c as [cond|]; [|done].
  apply bind_ok in Hp as (pairs & _ & Hp). apply bind_ok in Hp as (on & _ & Hp).
  pose proof Hp as (_ & _ & ->)%join_ok. done.
Qed.

Lemma plan_select_wf s p : plan_select catalog s = Ok p → wf_plan p.
Proof.
  unfold plan_select. destruct (sel_distinct s); [done|]. destruct (sel_from s) as [|f [|]]; try done.
  intros (p1 & H1%plan_from_wf & Hp)%bind_ok. apply bind_ok in Hp as (p2 & H2 & Hp).
  pose proof (plan_selection_wf _ _ _ H1 H2) as Hw2. apply bind_ok in Hp as (projection & _ & Hp).
  apply bind_ok in Hp as (groups & _ & Hp). destruct (List.find _ _); [done|].
  destruct (_ || _); [|by eapply project_wf]. apply bind_ok in Hp as (p3 & H3 & Hp).
  assert (wf_plan p3) as Hw3.
  { unfold aggregate in H3. pose proof H3 as (fs & _ & E)%bind_ok. injection E as <-. done. }
  apply bind_ok in Hp as (p4 & H4 & Hp). eapply plan_selection_wf; [|done]. by eapply project_wf.
Qed.

Lemma plan_order_by_wf p o p' : wf_plan p → plan_order_by p o = Ok p' → wf_plan p'.
Proof.
  intros Hp. unfold plan_order_by. destruct o as [o|]; [|by intros [= <-]].
  destruct (ob_interpolate o); [done|]. destruct (ob_kind o); [|done].
  intros (es & _ & Hs)%bind_ok. pose proof Hs as [_ ->]%sort_ok. done.
Qed.

Lemma plan_query_wf q p : plan_query catalog q = Ok p → wf_plan p.
Proof.
  unfold plan_query. destruct (q_with q); [done|]. destruct (q_body q) as [s|]; [|done].
  intros (p1 & H1%plan_select_wf & Hp)%bind_ok. apply bind_ok in Hp as (p2 & H2 & Hp).
  pose proof (plan_order_by_wf _ _ _ H1 H2). apply bind_ok in Hp as (n & _ & [= <-]). by destruct n.
Qed.
End well_formed.

(** ** Scans of planned queries *)

(** A table whose columns have distinct names without dots and native types. *)
Definition clean_table (t : TableProvider) : Prop :=
  native_schema (tp_schema t) ∧ NoDup (f_name <$> tp_schema t) ∧ Forall (λ f, dotted f = false) (tp_schema t).

Definition clean_catalog (catalog : Catalog) : Prop :=
  ∀ name t, table catalog name = Ok t → clean_table t.

Section scan_schemas.
Context (catalog : Catalog).

(** The columns of a scan are columns of its table, under qualified names. *)
Definition scan_of_table (name : string) (projection : option (list string)) (s : Schema) : Prop :=
  ∀ t, table catalog name = Ok t →
    (∀ f, f ∈ s → ∃ g, g ∈ tp_schema t ∧ scan_field_ok f g) ∧
    match projection with
    | None => Forall2 scan_field_ok s (tp_schema t)
    | Some columns => columns = f_name <$> s
    end.

Lemma scan_of_table_narrow name pr s t :
  scan_of_table name pr s → (∀ f, f ∈ t → f ∈ s) → scan_of_table name (Some (f_name <$> t)) t.
Proof. intros Hs Ht p Hp. destruct (Hs p Hp) as [Hf _]. split; [|done]. intros f Hin. by apply Hf, Ht. Qed.

(** A column of a clean table is found by its qualified name. *)
Lemma clean_find_column t f g i :
  clean_table t → tp_schema t !! i = Some g → scan_field_ok f g →
  find_column (tp_schema t) (f_name f) = Ok i.
Proof.
  intros (_ & Hnd & Hd) Hg (Hn & _). unfold find_column, resolve_field_index.
  assert (∀ j h, tp_schema t !! j = Some h → unqualified (f_name h) = f_name h) as Hun.
  { intros j h Hh. apply after_last_id. by apply (Forall_lookup_1 _ _ _ _ Hd Hh). }
  assert (∀ j h, tp_schema t !! j = Some h → f_name h = f_name g → j = i) as Huniq.
  { intros j h Hh E. eapply NoDup_lookup; [exact Hnd|rewrite list_lookup_fmap, Hh; done|].
    rewrite list_lookup_fmap, Hg. cbn. by rewrite E. }
  rewrite (Hun _ _ Hg) in Hn.
  destruct (decide (f_name f = f_name g)) as [E|E].
  - rewrite (field_indices_single _ _ i g); [done|done|by apply bool_decide_eq_true_2|].
    intros j h Hh Eh%bool_decide_eq_true_1. eapply Huniq; [done|]. congruence.
  - assert (field_indices (λ h, bool_decide (f_name h = f_name f)) (tp_schema t) = []) as ->.
    { apply field_indices_none. intros j h Hh. apply bool_decide_eq_false_2. intros Eh. apply E.
      rewrite <-Hn, <-Eh. symmetry. by eapply Hun. }
    assert (existsb (λ h, contains_char "."%char (f_name h)) (tp_schema t) = false) as ->.
    { rewrite <-not_true_iff_false, existsb_exists. intros (h & Hh%list_elem_of_In & Eh).
      rewrite list.Forall_forall in Hd. unfold dotted in Hd. by rewrite (Hd _ Hh) in Eh. }
    rewrite andb_false_r. rewrite (field_indices_single _ _ i g); [done|done| |].
    + apply bool_decide_eq_true_2. by rewrite (Hun _ _ Hg).
    + intros j h Hh Eh%bool_decide_eq_true_1. eapply Huniq; [done|]. rewrite (Hun _ _ Hh) in Eh. congruence.
Qed.

Lemma scan_of_table_schema name pr s t indices :
  clean_table t → table catalog name = Ok t → scan_of_table name pr s →
  match pr with
  | None => Ok None
  | Some columns => Some <$> collect (find_column (tp_schema t)) columns
  end = Ok indices → scan_schema_ok (tp_schema t) indices s.
Proof.
  intros Hc Ht Hs Hi. destruct (Hs t Ht) as [Hin Hpr]. destruct pr as [columns|]; [|injection Hi as <-; by eexists].
  subst columns. destruct (collect _ _) as [ix| |] eqn:Ec; try done. injection Hi as <-.
  unfold scan_schema_ok. cbn [projected_schema]. clear Hs. revert ix Ec.
  induction s as [|f s IH]; intros ix Ec; cbn in Ec.
  { injection Ec as <-. exists []. by split. }
  apply bind_ok in Ec as (i & Hf & Ec). apply bind_ok in Ec as (ix' & Hix & [= <-]).
  destruct (Hin f) as (g & Hg & Hfg); [by left|]. apply list_elem_of_lookup in Hg as [j Hj].
  rewrite (clean_find_column t f g j) in Hf by done. injection Hf as <-.
  destruct (IH (λ f Hf, Hin f (list_elem_of_further _ _ _ Hf)) ix' Hix) as (actual & Ha & Hall).
  exists (g :: actual). cbn. rewrite Hj. cbn. rewrite Ha. split; [done|by constructor].
Qed.
End scan_schemas.

(** ** Plain queries *)

(** Whether an expression of the query translates to one that satisfies [good]. *)
Definition translates `{SqlParser} (good : Expr → bool) (e : SqlExpr) : bool :=
  match sql_expr e with Ok x => good x | _ => true end.

(** A bare [NULL] has no native type. *)
Definition not_null (e : Expr) : bool :=
  match unalias e with Literal Null | Aggregate _ (Literal Null) _ => false | _ => true end.

Definition plain_group (e : Expr) : bool := not_null e && select_expr e.

Definition plain_item (e : Expr) : bool :=
  match e with
  | Wildcard => true
  | _ => not_null e && if contains_aggregate e then aggregate_expr e else select_expr e
  end.

Section plain_queries.
Context `{SqlParser}.

Definition plain_join (j : SqlJoin) : bool :=
  match sj_operator j with
  | OperatorJoin (JoinOn c) | OperatorInner (JoinOn c) | OperatorLeft (JoinOn c) | OperatorLeftOuter (JoinOn c) =>
      match extract_join_pairs c with
      | Ok pairs => forallb (λ p : SqlExpr * SqlExpr, translates plain p.1 && translates plain p.2) pairs
      | _ => true
      end
  | _ => true
  end.

Definition plain_select (s : Select) : bool :=
  forallb (λ f, forallb plain_join (twj_joins f)) (sel_from s)
  && match sel_selection s with Some e => translates plain e | None => true end
  && forallb (λ i, match select_item i with Ok x => plain_item x | _ => true end) (sel_projection s)
  && match sel_group_by s with GroupByExpressions es _ => forallb (translates plain_group) es | GroupByAll => true end
  && match sel_having s with Some e => translates plain e | None => true end.

(** Scalar clauses without aggregates, casts to the types literals have, select
    items with an alias or a name of their own, and sort keys in every [ORDER BY]. *)
Definition plain_query (q : Query) : bool :=
  match q_body q with SetSelect s => plain_select s | SetOther => true end
  && match q_order_by q with
     | Some o => match ob_kind o with
                 | OrderByExpressions es =>
                     negb (bool_decide (length es = 0)) && forallb (λ x, translates plain (ob_expr x)) es
                 | OrderByAll => true
                 end
     | None => true
     end.
End plain_queries.

Lemma plain_type_native s e t :
  native_schema s → plain e = true → e ≠ Literal Null → data_type e s = Ok t → native t = true.
Proof.
  intros Hs Hp Hn Ht. apply plain_inv in Hp as (Hc & _ & Ha & Hg).
  destruct e as [n|v|l op r|e ng|e ty|e a|f e d|]; cbn in *; try done.
  - destruct (find_field s n) as [f| |] eqn:E; try done. injection Ht as <-. unfold find_field in E.
    apply bind_ok in E as (i & _ & E). unfold native_schema in Hs. rewrite list.Forall_forall in Hs. apply Hs.
    destruct (s !! i) eqn:Ei; [|done]. injection E as ->. by eapply list_elem_of_lookup_2.
  - injection Ht as <-. by destruct v.
  - apply bind_ok in Ht as (t1 & _ & Ht). apply bind_ok in Ht as (t2 & _ & Ht).
    by eapply binary_type_native.
  - by injection Ht as <-.
  - injection Ht as <-. by apply andb_true_iff in Hc as [? _].
Qed.

Lemma aggregate_type_native s f x d t :
  native_schema s → x = Wildcard ∨ plain x = true → x ≠ Literal Null →
  data_type (Aggregate f x d) s = Ok t → native t = true.
Proof.
  intros Hs Hx Hn Ht. destruct f; cbn [data_type] in Ht.
  - by injection Ht as <-.
  - apply bind_ok in Ht as (t' & _ & Ht). destruct (is_numeric t'); [|done]. by injection Ht as <-.
  - apply bind_ok in Ht as (t' & _ & Ht). destruct (decide _); [|done]. by injection Ht as <-.
  - destruct Hx as [->|Hx]; [done|]. by eapply plain_type_native.
  - destruct Hx as [->|Hx]; [done|]. by eapply plain_type_native.
  - apply bind_ok in Ht as (t' & _ & Ht). destruct (is_numeric t'); [|done]. by injection Ht as <-.
Qed.

Lemma contains_char_app c s t : contains_char c (s +:+ t) = contains_char c s || contains_char c t.
Proof.
  induction s as [|d s IH]; [done|]. change (String d s +:+ t) with (String d (s +:+ t)). cbn.
  by rewrite IH, orb_assoc.
Qed.

Lemma unqualified_qualified q n : unqualified (q +:+ "." +:+ n) = unqualified n.
Proof.
  unfold unqualified. induction q as [|c q IH].
  - change (EmptyString +:+ "." +:+ n) with (String "."%char n). cbn.
    destruct (contains_char "."%char n) eqn:E; [done|]. by rewrite after_last_id.
  - change (String c q +:+ "." +:+ n) with (String c (q +:+ "." +:+ n)). cbn [after_last].
    by rewrite contains_char_app, orb_true_r.
Qed.

Lemma join_schema_native t l r : native_schema l → native_schema r → native_schema (join_schema t l r).
Proof.
  unfold join_schema, native_schema. intros Hl Hr. revert l Hl.
  induction Hr as [|f r Hf _ IH]; intros l Hl; [done|]. cbn. apply IH, list.Forall_app. split; [done|].
  by constructor.
Qed.

Section plain_plans.
Context `{SqlParser, FloatDisplay} (catalog : Catalog) (Hclean : clean_catalog catalog).

Lemma fields_native s es fs :
  native_schema s → Forall (λ e, not_null e = true ∧ (select_expr e = true ∨ aggregate_expr e = true)) es →
  collect (λ e, field e s) es = Ok fs → native_schema fs.
Proof.
  intros Hs Hes Hc%collect_ok. unfold native_schema. induction Hc as [|e f es fs He _ IH]; constructor.
  2:{ apply IH. by inversion Hes. }
  apply list.Forall_cons in Hes as [[Hn He'] _]. unfold field in He. apply bind_ok in He as (t & Ht & [= <-]). cbn.
  assert (data_type (unalias e) s = Ok t) as Htu.
  { rewrite <-data_type_unalias; [done|]. destruct He' as [[_ Hp]%andb_true_iff|[_ Ha]%andb_true_iff].
    - by apply plain_inv in Hp as (_ & _ & ? & _).
    - destruct (unalias e); try done. cbn. destruct e0; try done; by apply plain_inv in Ha as (_ & _ & ? & _). }
  unfold not_null in Hn. destruct He' as [[_ Hp]%andb_true_iff|[_ Ha]%andb_true_iff].
  - eapply plain_type_native; [done|done| |done]. intros E. by rewrite E in Hn.
  - destruct (unalias e) as [| | | | | |fn x d|]; try done. eapply aggregate_type_native; [exact Hs| | |exact Htu].
    + destruct (decide (x = Wildcard)) as [->|]; [by left|right]. by destruct x.
    + intros ->. done.
Qed.

(** What the optimizer and the planner need of a plan. *)
Definition plannable (p : LogicalPlan) : Prop :=
  wf_plan p ∧ plain_plan p ∧ scans_sat (scan_of_table catalog) p.

Lemma plannable_native p : plannable p → native_schema (plan_schema p).
Proof. intros (_ & Hp & _). by apply plain_plan_native. Qed.

Lemma table_factor_plannable f p q : table_factor catalog f = Ok (p, q) → plannable p.
Proof.
  intros Hf. split; [by eapply table_factor_wf|]. destruct f as [nm alias args|]; [|done]. cbn in Hf.
  destruct args; [done|]. apply bind_ok in Hf as (t & Ht & [= <- <-]).
  destruct (Hclean _ _ Ht) as (Hnat & Hnd & Hdot). set (q := default nm alias). split.
  - split; [|split; [|constructor]]; cbn.
    + unfold native_schema, qualify_schema in *. by apply Forall_fmap.
    + split.
      * unfold qualify_schema. rewrite <-list_fmap_compose.
        rewrite (list_fmap_ext _ f_name); [done|]. intros i g Hg. cbn. unfold short_name. cbn.
        rewrite unqualified_qualified. apply after_last_id. by apply (Forall_lookup_1 _ _ _ _ Hdot Hg).
      * exists true. unfold qualify_schema. apply Forall_fmap, Forall_true. intros g. unfold dotted. cbn.
        rewrite !contains_char_app. cbn. by rewrite orb_true_r.
  - intros t' Ht'. rewrite Ht in Ht'. injection Ht' as <-.
    assert (Forall2 scan_field_ok (qualify_schema (tp_schema t) q) (tp_schema t)) as Hall.
    { unfold qualify_schema. apply Forall2_fmap_l. apply Forall_Forall2_diag, Forall_true. intros g.
      split_and!; try done. cbn. by rewrite unqualified_qualified. }
    split; [|done]. intros g Hg. apply list_elem_of_lookup in Hg as [i Hi].
    destruct (Forall2_lookup_l _ _ _ _ _ Hall Hi) as (h & Hh & Hgh). exists h.
    split; [by eapply list_elem_of_lookup_2|done].
Qed.

Lemma filter_plannable i e p : plannable i → plain e = true → filter i e = Ok p → plannable p.
Proof.
  intros Hi He Hf. pose proof (plannable_native _ Hi). destruct Hi as (Hw & Hp & Hs).
  pose proof Hf as [_ ->]%filter_ok. by split_and!.
Qed.

Lemma plan_selection_plannable p o p' :
  plannable p → match o with Some e => translates plain e | None => true end = true →
  plan_selection p o = Ok p' → plannable p'.
Proof.
  intros Hp Ho. destruct o as [e|]; cbn; [|by intros [= <-]]. intros (x & Hx & Hf)%bind_ok.
  unfold translates in Ho. rewrite Hx in Ho. by eapply filter_plannable.
Qed.

Lemma join_pair_plain l r p lr :
  translates plain p.1 && translates plain p.2 = true → join_pair l r p = Ok lr →
  plain lr.1 = true ∧ plain lr.2 = true.
Proof.
  unfold join_pair, translates. intros Hp (a & Ha & Hj)%bind_ok. apply bind_ok in Hj as (b & Hb & Hj).
  rewrite Ha, Hb in Hp. apply andb_true_iff in Hp as [? ?].
  apply bind_ok in Hj as (sa & _ & Hj). apply bind_ok in Hj as (sb & _ & Hj). by destruct sa, sb; simplify_eq.
Qed.

Lemma plan_join_plannable p q j p' :
  plannable p → plain_join j = true → plan_join catalog p q j = Ok p' → plannable p'.
Proof.
  intros Hp Hj Hpj. unfold plan_join in Hpj. apply bind_ok in Hpj as ([p2 q2] & Hp2%table_factor_plannable & Hpj).
  destruct (decide _); [done|]. apply bind_ok in Hpj as ([t c] & Hop & Hpj). destruct c as [cond|]; [|done].
  apply bind_ok in Hpj as (pairs & Hpairs & Hpj). apply bind_ok in Hpj as (on & Hon & Hpj).
  assert (forallb (λ p : SqlExpr * SqlExpr, translates plain p.1 && translates plain p.2) pairs = true) as Hpl.
  { unfold plain_join in Hj. destruct (sj_operator j) as [[]|[]|[]|[]|]; cbn in Hop; simplify_eq;
      by rewrite Hpairs in Hj. }
  pose proof (join_schema_native t _ _ (plannable_native _ Hp) (plannable_native _ Hp2)) as Hn.
  destruct Hp as (Hw & Hpp & Hs), Hp2 as (Hw2 & Hpp2 & Hs2).
  pose proof Hpj as (_ & _ & ->)%join_ok. split; [by split_and!|]. split; [|by split].
  apply collect_ok in Hon. rewrite forallb_forall in Hpl.
  assert (Forall (λ lr, plain lr.1 = true ∧ plain lr.2 = true) on) as Hon'.
  { apply Forall_lookup. intros i lr Hi. destruct (Forall2_lookup_r _ _ _ _ _ Hon Hi) as (pr & Hpr & Hjp).
    eapply join_pair_plain; [|exact Hjp]. apply Hpl, list_elem_of_In. by eapply list_elem_of_lookup_2. }
  split; [done|]. split_and!; [done|done|..]; apply Forall_fmap; (eapply list.Forall_impl; [exact Hon'|]);
    by intros [] [].
Qed.

Lemma plan_from_plannable f p :
  forallb plain_join (twj_joins f) = true → plan_from catalog f = Ok p → plannable p.
Proof.
  intros Hj. unfold plan_from. destruct (_ <? _)%nat; [done|].
  intros ([p1 q1] & Hp1%table_factor_plannable & Hp)%bind_ok.
  destruct (twj_joins f) as [|j js]; [by injection Hp as <-|]. apply andb_true_iff in Hj as [Hj _].
  by eapply plan_join_plannable.
Qed.

Lemma project_plannable i es p :
  plannable i → Forall (λ e, e = Wildcard ∨ not_null e = true ∧ select_expr e = true) es →
  project i es = Ok p → plannable p.
Proof.
  intros Hi Hes Hp. pose proof (plannable_native _ Hi) as Hn. pose proof Hi as (Hw & Hpl & Hs).
  assert (Forall (λ e, not_null e = true ∧ select_expr e = true) (expand_projection es (plan_schema i))) as Hex.
  { clear -Hes. unfold expand_projection. induction Hes as [|e es He _ IH]; [constructor|]. rewrite fmap_cons. cbn.
    apply list.Forall_app. split; [|done]. destruct He as [->|He]; [|destruct e; try (by constructor); by destruct He].
    apply Forall_fmap, Forall_true. done. }
  pose proof Hp as (fs & Hfs & E)%bind_ok. split; [by eapply project_wf|]. split; [|by eapply project_scans].
  injection E as <-. split; cbn.
  - eapply fields_native; [exact Hn| |exact Hfs]. eapply list.Forall_impl; [exact Hex|]. intros e [? ?]. by split; [|left].
  - split; [done|]. eapply list.Forall_impl; [exact Hex|]. by intros e [_ ?].
Qed.

Lemma aggregate_plannable i g a p :
  plannable i → Forall (λ e, plain_group e = true) g →
  Forall (λ e, not_null e = true ∧ aggregate_expr e = true) a → aggregate i g a = Ok p → plannable p.
Proof.
  intros Hi Hg Ha Hp. pose proof (plannable_native _ Hi) as Hn. pose proof Hi as (Hw & Hpl & Hs).
  pose proof Hp as (fs & Hfs & E)%bind_ok. injection E as <-. split; [by split|]. split; [|done].
  unfold plain_group in Hg. setoid_rewrite andb_true_iff in Hg. split; cbn.
  - eapply fields_native; [exact Hn| |exact Hfs]. apply list.Forall_app.
    split; (eapply list.Forall_impl; [eassumption|]); intros e [? ?]; split; auto.
  - split; [done|]. split; (eapply list.Forall_impl; [eassumption|]); by intros e [_ ?].
Qed.

Lemma items_plain items es :
  forallb (λ i, match select_item i with Ok x => plain_item x | _ => true end) items = true →
  collect select_item items = Ok es → Forall (λ e, plain_item e = true) es.
Proof.
  intros Hp Hc%collect_ok. induction Hc as [|i e items es Hi _ IH]; constructor; cbn in Hp;
    apply andb_true_iff in Hp as [Hp1 Hp2]; [by rewrite Hi in Hp1|by apply IH].
Qed.

Lemma groups_plain projection g es i a p :
  match g with GroupByExpressions es _ => forallb (translates plain_group) es | GroupByAll => true end = true →
  Forall (λ e, plain_item e = true) projection → plan_group_by projection g = Ok es →
  aggregate i es a = Ok p → Forall (λ e, plain_group e = true) es.
Proof.
  intros Hg Hpr Hes Hagg. unfold plan_group_by in Hes. destruct g as [items m|].
  - destruct m; [done|]. apply collect_ok in Hes.
    clear Hagg. induction Hes as [|x e items es Hx _ IH]; constructor; cbn in Hg;
      apply andb_true_iff in Hg as [Hg1 Hg2]; [unfold translates in Hg1; by rewrite Hx in Hg1|by apply IH].
  - injection Hes as <-. apply list.Forall_forall. intros e He.
    pose proof He as [Hin Hna]%list_elem_of_In%filter_In. apply list_elem_of_In in Hin.
    rewrite list.Forall_forall in Hpr. specialize (Hpr _ Hin). apply negb_true_iff in Hna.
    assert (e ≠ Wildcard) as Hw.
    { intros ->. unfold aggregate in Hagg. apply bind_ok in Hagg as (fs & Hfs & _).
      apply collect_app in Hfs as (s1 & s2 & Hs1 & _). apply collect_ok in Hs1.
      apply list_elem_of_lookup in He as [k Hk]. by destruct (Forall2_lookup_l _ _ _ _ _ Hs1 Hk) as (f & _ & Hf). }
    unfold plain_item in Hpr. rewrite Hna in Hpr. by destruct e.
Qed.

Lemma aggregates_plain projection :
  Forall (λ e, plain_item e = true) projection →
  Forall (λ e, not_null e = true ∧ aggregate_expr e = true) (List.filter contains_aggregate projection).
Proof.
  intros Hpr. apply list.Forall_forall. intros e [Hin Hc]%list_elem_of_In%filter_In. apply list_elem_of_In in Hin.
  rewrite list.Forall_forall in Hpr. specialize (Hpr _ Hin). unfold plain_item in Hpr. rewrite Hc in Hpr.
  apply andb_true_iff. by destruct e.
Qed.

Lemma plan_select_plannable s p :
  plain_select s = true → plan_select catalog s = Ok p → plannable p.
Proof.
  unfold plain_select, plan_select. rewrite !andb_true_iff. intros [[[[Hf Hsel] Hit] Hgr] Hhav].
  destruct (sel_distinct s); [done|]. destruct (sel_from s) as [|f [|]]; try done. cbn in Hf.
  apply andb_true_iff in Hf as [Hf _]. intros (p1 & H1 & Hp)%bind_ok.
  apply plan_from_plannable in H1; [|done]. apply bind_ok in Hp as (p2 & H2 & Hp).
  apply plan_selection_plannable in H2; [|done..]. apply bind_ok in Hp as (projection & Hpr & Hp).
  apply items_plain in Hpr; [|done]. apply bind_ok in Hp as (groups & Hg & Hp). destruct (List.find _ _); [done|].
  destruct (_ || _) eqn:E.
  - apply bind_ok in Hp as (p3 & H3 & Hp). pose proof (groups_plain _ _ _ _ _ _ Hgr Hpr Hg H3) as Hg'.
    apply aggregate_plannable in H3; [|done|done|by apply aggregates_plain].
    apply bind_ok in Hp as (p4 & H4 & Hp). apply project_plannable in H4; [|done|].
    + by eapply plan_selection_plannable.
    + apply Forall_fmap, Forall_true. intros e. by right.
  - eapply project_plannable; [exact H2| |exact Hp]. apply orb_false_iff in E as [_ E].
    apply negb_false_iff, bool_decide_eq_true_1 in E. apply list.Forall_forall. intros e He.
    rewrite list.Forall_forall in Hpr. specialize (Hpr _ He). unfold plain_item in Hpr.
    destruct (contains_aggregate e) eqn:Ec.
    + assert (e ∈ List.filter contains_aggregate projection) as Hin
        by (apply list_elem_of_In, filter_In; split; [by apply list_elem_of_In|done]).
      rewrite E in Hin. by apply not_elem_of_nil in Hin.
    + destruct (decide (e = Wildcard)) as [->|]; [by left|right]. apply andb_true_iff. by destruct e.
Qed.

Lemma plan_query_plannable q p : plain_query q = true → plan_query catalog q = Ok p → plannable p.
Proof.
  unfold plain_query, plan_query. intros [Hb Ho]%andb_true_iff. destruct (q_with q); [done|].
  destruct (q_body q) as [s|]; [|done]. intros (p1 & H1 & Hp)%bind_ok. apply plan_select_plannable in H1; [|done].
  apply bind_ok in Hp as (p2 & H2 & Hp).
  assert (plannable p2) as H2'.
  { pose proof (plan_order_by_wf _ _ _ (proj1 H1) H2) as Hw. pose proof (plannable_native _ H1) as Hn.
    unfold plan_order_by in H2. destruct (q_order_by q) as [o|]; [|by injection H2 as <-].
    destruct (ob_interpolate o); [done|]. destruct (ob_kind o) as [os|]; [|done].
    apply bind_ok in H2 as (es & Hes & Hs). apply andb_true_iff in Ho as [Hne Ho].
    apply negb_true_iff, bool_decide_eq_false_1 in Hne. destruct H1 as (_ & Hpl & Hsc).
    split; [done|]. split; [|eapply sort_scans; [exact Hs| |done]; intros ->;
      apply collect_length in Hes; cbn in Hes; lia].
    apply sort_ok in Hs as [_ ->]. split; [done|]. split; [done|]. apply collect_ok in Hes. clear -Hes Ho.
    induction Hes as [|o x os es Hx _ IH]; constructor; cbn in Ho; apply andb_true_iff in Ho as [Ho1 Ho2].
    - unfold plan_order in Hx. destruct (ob_with_fill o); [done|]. apply bind_ok in Hx as (e & He & [= <-]).
      unfold translates in Ho1. by rewrite He in Ho1.
    - by apply IH. }
  apply bind_ok in Hp as (n & _ & [= <-]). destruct n as [n|]; [|done].
  pose proof (plannable_native _ H2'). destruct H2' as (Hw & Hpl & Hsc). by split_and!.
Qed.

Lemma plannable_catalog p : plannable p → catalog_plan catalog p.
Proof.
  intros (_ & _ & Hs). induction p as [tbl pr fs s| | | | | |]; cbn in *; try naive_solver.
  intros t indices Ht Hi. eapply scan_of_table_schema; [by eapply Hclean|done|done|done].
Qed.
End plain_plans.

(** ** The properties *)

(** C38: the way from SQL to workers is total and typed.  For every catalog and every
    syntax tree, [plan_query] returns an error or a logical plan in which every node is
    what its checked constructor returns (so that every column resolves, every predicate
    is Boolean and join keys have equal types); it never reaches a panic, whatever the
    query nests.  A plain query over a catalog of clean tables that is then optimized and
    lowered becomes a physical plan that has the columns (names and types, in order) of
    the plan it was translated to, and that is typed over the catalog: every scan has the
    columns of its table that it names, so that workers with the same catalog accept and
    reconstruct it. *)
Theorem sql_pipeline_typed `{SqlParser, FloatDisplay, K : Kernels, !KernelLaws K} catalog q :
  match plan_query catalog q with
  | Ok l =>
      wf_plan l ∧
      (clean_catalog catalog → plain_query q = true → ∀ o p, optimize l = Ok o → create_physical_plan o catalog = Ok p →
         typed_plan catalog p ∧ signature (physical_schema p) = signature (plan_schema l))
  | Err _ => True
  | Panic _ => False
  end.
Proof.
  pose proof (plan_query_no_panic catalog q) as Hnp. destruct (plan_query catalog q) as [l|e|w] eqn:Hl; [|done|done].
  split; [by eapply plan_query_wf|]. intros Hc Hq o p Ho Hp.
  pose proof (plan_query_plannable catalog Hc q l Hq Hl) as (Hw & Hpl & Hs).
  destruct (optimize_keeps l o (conj Hw Hpl) Ho) as [[Hwo Hplo] Hsig].
  pose proof (optimize_scans _ (scan_of_table_narrow catalog) _ _ Hs Ho) as Hso.
  assert (catalog_plan catalog o) as Hcat by (by apply plannable_catalog).
  unfold create_physical_plan in Hp. apply bind_ok in Hp as ([p' m] & Hb & [= ->]).
  pose proof (built_schema catalog _ _ _ _ Hb) as Hsch. split; [by eapply build_typed|]. by rewrite Hsch.
Qed.

(** ** A worked query *)

#[local] Instance demo_float_text : FloatDisplay := λ _, "0.0".

(** [SELECT t.a, COUNT( * ) AS n FROM items t WHERE a > 1 + 2 GROUP BY t.a ORDER BY n DESC LIMIT 10] *)
Definition no_modifiers : FunctionModifiers := MkFunctionModifiers false false false false false.
Definition demo_count : SqlExpr :=
  SqlFunction "count" no_modifiers (ArgumentsList None [ArgWildcard] false).
Definition demo_select : Select :=
  MkSelect false [UnnamedExpr (SqlCompoundIdentifier ["t"; "a"]); ExprWithAlias demo_count "n"]
    [MkTableWithJoins (TableNamed "items" (Some "t") false) []]
    (Some (SqlBinaryOp (SqlIdentifier "a") SqlGt
             (SqlBinaryOp (SqlValueExpr (SqlNumber "1")) SqlPlus (SqlValueExpr (SqlNumber "2")))))
    (GroupByExpressions [SqlCompoundIdentifier ["t"; "a"]] false) None.
Definition demo_sql_query : Query :=
  MkQuery false (SetSelect demo_select)
    (Some (MkOrderBy false (OrderByExpressions [MkOrderByExpr (SqlIdentifier "n") (Some false) None false])))
    (Some (LimitOffset (Some (SqlValueExpr (SqlNumber "10"))) false false)).

#[local] Instance demo_parser : SqlParser := {
  parse_sql _ := Ok [StatementQuery demo_sql_query];
  display_sql _ := "expression";
  parse_f64 _ := None;
}.

Definition items_provider : TableProvider :=
  MkTableProvider
    [MkField "a" DtInt64 true; MkField "b" DtBoolean true; MkField "c" DtUtf8 true] 2 0
    (λ _ _, Ok true) (λ _ _, Ok []).
Definition items_catalog : Catalog := register Catalog_default "Items" items_provider.

Lemma items_catalog_clean : clean_catalog items_catalog.
Proof.
  intros name t Ht. unfold items_catalog in Ht. rewrite table_register in Ht.
  destruct (decide _); [|done]. injection Ht as <-. split_and!; [by repeat constructor| |by repeat constructor].
  apply (bool_decide_unpack _). by vm_compute.
Qed.

Definition demo_planned : LogicalPlan :=
  match plan_query items_catalog demo_sql_query with Ok p => p | _ => scan "items" [] end.
Definition demo_planned_optimized : LogicalPlan :=
  match optimize demo_planned with Ok p => p | _ => scan "items" [] end.

Lemma sql_pipeline_typed_witness :
  f_name <$> plan_schema demo_planned = ["a"; "n"] ∧
  ∃ p, create_physical_plan demo_planned_optimized items_catalog = Ok p ∧
    typed_plan items_catalog p ∧ signature (physical_schema p) = signature (plan_schema demo_planned).
Proof.
  split; [vm_compute; reflexivity|].
  destruct (create_physical_plan demo_planned_optimized items_catalog) as [p| |] eqn:E;
    [|vm_compute in E; discriminate E..].
  exists p. split; [reflexivity|].
  assert (plan_query items_catalog demo_sql_query = Ok demo_planned) as Hq by (vm_compute; reflexivity).
  pose proof (sql_pipeline_typed items_catalog demo_sql_query) as Ht. rewrite Hq in Ht. destruct Ht as [_ Ht].
  apply (Ht items_catalog_clean eq_refl demo_planned_optimized p); [vm_compute; reflexivity|exact E].
Defined.

(** *** Queries the planner refuses or accepts against expectation *)

(** [SELECT a AS x, COUNT( * ) FROM items GROUP BY a]: the projection over the
    aggregation looks the grouped column up by its alias. *)
Definition aliased_group : Query :=
  MkQuery false
    (SetSelect (MkSelect false [ExprWithAlias (SqlIdentifier "a") "x"; UnnamedExpr demo_count]
       [MkTableWithJoins (TableNamed "items" None false) []] None
       (GroupByExpressions [SqlIdentifier "a"] false) None)) None None.

Example aliased_group_column_rejected :
  ∃ e, plan_query items_catalog aliased_group = Err e.
Proof. eexists. vm_compute. reflexivity. Qed.

(** [SELECT a FROM items WHERE MAX(a) > 1] is planned, although its predicate
    cannot be evaluated on any batch. *)
Definition aggregate_in_where : Query :=
  MkQuery false
    (SetSelect (MkSelect false [UnnamedExpr (SqlIdentifier "a")]
       [MkTableWithJoins (TableNamed "items" None false) []]
       (Some (SqlBinaryOp (SqlFunction "max" no_modifiers (ArgumentsList None [ArgExpr (SqlIdentifier "a")] false))
          SqlGt (SqlValueExpr (SqlNumber "1")))) (GroupByExpressions [] false) None)) None None.

Example aggregate_in_where_planned :
  match plan_query items_catalog aggregate_in_where with Ok _ => True | _ => False end ∧
  ∀ b, ∃ e, evaluate (Aggregate Max (Column "a") false) b = Err e.
Proof. split; [vm_compute; exact I|]. intros b. by eexists. Qed.

(** [SELECT a FROM items HAVING 1]: without aggregation the clause is not even
    typed. *)
Definition having_without_groups : Query :=
  MkQuery false
    (SetSelect (MkSelect false [UnnamedExpr (SqlIdentifier "a")]
       [MkTableWithJoins (TableNamed "items" None false) []] None
       (GroupByExpressions [] false) (Some (SqlValueExpr (SqlNumber "1"))))) None None.

Example having_ignored :
  match plan_query items_catalog having_without_groups with
  | Ok (LProjection (LScan _ _ _ _) _ _) => True
  | _ => False
  end.
Proof. vm_compute. exact I. Qed.
