(* ===== verification/SqlRun.v ===== *)
(** * SQL queries that run

    What the planner of SQL makes of a query over honest tables meets the conditions of
    [OptimizerSound] as soon as the optimizer accepts it, so that optimizing it does not
    change its result. *)
From S2P Require Import Prelude Text Float Expr ExprProps SchemaProps Logical Optimizer OptimizerProps Catalog Physical PhysicalProps Memory Execution ExecutionDemo HashJoin Aggregate AggregateProps Executor ExecutorProps OperatorProps ScanProps PlanRun OptimizerSound Sql SqlProps.

(** A test of every expression of a plan, with the schema of its input. *)
Fixpoint plan_exprs (test : Schema → Expr → bool) (p : LogicalPlan) : bool :=
  match p with
  | LScan _ _ filters s => forallb (test s) filters
  | LProjection i es _ => plan_exprs test i && forallb (test (plan_schema i)) es
  | LFilter i e _ => plan_exprs test i && test (plan_schema i) e
  | LAggregate i g a _ =>
      plan_exprs test i && forallb (test (plan_schema i)) g && forallb (test (plan_schema i)) a
  | LSort i es _ => plan_exprs test i && forallb (λ x, test (plan_schema i) (s_expr x)) es
  | LLimit i _ _ => plan_exprs test i
  | LJoin l r _ lo ro _ =>
      plan_exprs test l && plan_exprs test r && forallb (test (plan_schema l)) lo && forallb (test (plan_schema r)) ro
  end.

(** Every column an expression of the plan mentions is a column of its input. *)
Definition plan_resolved : LogicalPlan → bool := plan_exprs resolved.

(** Simplification looks at every column, also where typing does not: under [IS NULL],
    [CAST] and [COUNT]. *)
Lemma simplify_resolves `{Kernels} s e e' : simplify e s = Ok e' → resolved s e = true.
Proof.
  revert e'. induction e as [n|v|l IHl op r IHr|e IH ng|e IH ty|e IH a|f e IH d|]; intros e' He; cbn in *; try done.
  - apply bind_ok in He as (t & Ht & _). destruct (find_field s n) as [f| |] eqn:E; try done.
    unfold find_field in E. unfold find_column. by apply bind_ok in E as (i & -> & _).
  - apply bind_ok in He as (l' & Hl & He). apply bind_ok in He as (r' & Hr & _). by rewrite (IHl _ Hl), (IHr _ Hr).
  - apply bind_ok in He as (x & Hx & _). by eapply IH.
  - apply bind_ok in He as (x & Hx & _). by eapply IH.
  - apply bind_ok in He as (x & Hx & _). by eapply IH.
  - apply bind_ok in He as (x & Hx & _). by eapply IH.
Qed.

Lemma collect_resolves `{Kernels} s es es' :
  collect (λ e, simplify e s) es = Ok es' → forallb (resolved s) es = true.
Proof.
  rewrite collect_ok. induction 1 as [|e e' es es' He _ IH]; [done|]. cbn. by rewrite (simplify_resolves _ _ _ He), IH.
Qed.

Lemma resolved_signature s s' e : signature s = signature s' → resolved s e = resolved s' e.
Proof.
  intros E. induction e as [n|v|l IHl op r IHr|e IH ng|e IH ty|e IH a|f e IH d|]; cbn; try done; [|by rewrite IHl, IHr].
  unfold find_column. by rewrite (resolve_names s s' n (signature_names _ _ E)).
Qed.

(** The columns of the optimized input have the names of those of the input. *)
Lemma collect_resolves_input `{Kernels} s s' es es' :
  signature s = signature s' → collect (λ e, simplify e s') es = Ok es' → forallb (resolved s) es = true.
Proof.
  intros E Hes%collect_resolves. rewrite forallb_forall in Hes |- *. intros e He.
  rewrite (resolved_signature s s' e E). by apply Hes.
Qed.

Section optimized.
Context `{FloatDisplay, K : Kernels, !KernelLaws K}.

(** A plan that the optimizer accepts mentions no column that is not there. *)
Lemma optimized_resolved p p' : good p → optimize p = Ok p' → plan_resolved p = true.
Proof.
  unfold plan_resolved. revert p'. induction p as [tbl pr fs s|i IH es s|i IH e s|i IH g a s|i IH es s|i IH n s|l IHl r IHr t lo ro s];
    intros p' Hg Hp; match type of Hp with optimize ?q = _ =>
      change (optimize_children optimize q ≫= optimize_node = Ok p') in Hp end;
    apply bind_ok in Hp as (p1 & H1 & Hp); apply bind_ok in Hp as (p2 & H2 & _); cbn [optimize_children] in H1; cbn [plan_exprs].
  - injection H1 as <-. cbn in H2. apply bind_ok in H2 as (fs' & Hfs & _). by eapply collect_resolves.
  - apply good_projection in Hg as (Hi & _ & Hes & _). apply bind_ok in H1 as (i' & Hi' & H1).
    destruct (optimize_keeps _ _ Hi Hi') as [_ Hsig]. rewrite (IH _ Hi Hi').
    apply bind_ok in H1 as (fs & _ & [= <-]). cbn in H2. apply bind_ok in H2 as (es' & Hes' & _).
    rewrite expand_projection_id in Hes' by done. exact (collect_resolves_input _ _ _ _ (eq_sym Hsig) Hes').
  - apply good_filter in Hg as (Hi & _). apply bind_ok in H1 as (i' & Hi' & H1).
    destruct (optimize_keeps _ _ Hi Hi') as [_ Hsig]. rewrite (IH _ Hi Hi').
    apply filter_ok in H1 as [_ ->]. cbn in H2. apply bind_ok in H2 as (e' & He & _).
    rewrite (resolved_signature _ (plan_schema i')) by done. by eapply simplify_resolves.
  - apply good_aggregate in Hg as (Hi & _). apply bind_ok in H1 as (i' & Hi' & H1).
    destruct (optimize_keeps _ _ Hi Hi') as [_ Hsig]. rewrite (IH _ Hi Hi').
    apply bind_ok in H1 as (fs & _ & [= <-]). cbn in H2. apply bind_ok in H2 as (g' & Hg' & H2).
    apply bind_ok in H2 as (a' & Ha' & _). cbn.
    by rewrite (collect_resolves_input _ _ _ _ (eq_sym Hsig) Hg'), (collect_resolves_input _ _ _ _ (eq_sym Hsig) Ha').
  - apply good_sort in Hg as (Hi & _). apply bind_ok in H1 as (i' & Hi' & H1).
    destruct (optimize_keeps _ _ Hi Hi') as [_ Hsig]. rewrite (IH _ Hi Hi').
    apply sort_ok in H1 as [_ ->]. cbn in H2. apply bind_ok in H2 as (es' & Hes & _). apply collect_ok in Hes.
    cbn [andb]. clear -Hes Hsig. induction Hes as [|x x' es es' Hx _ IH]; [done|]. cbn [forallb]. rewrite IH, andb_true_r.
    apply bind_ok in Hx as (e & He & _). rewrite (resolved_signature _ (plan_schema i')) by done. by eapply simplify_resolves.
  - apply good_limit in Hg as (Hi & _). apply bind_ok in H1 as (i' & Hi' & _). by eapply IH.
  - apply good_join in Hg as (Hl & Hr & _). apply bind_ok in H1 as (l' & Hl' & H1). apply bind_ok in H1 as (r' & Hr' & H1).
    destruct (optimize_keeps _ _ Hl Hl') as [_ Hsl]. destruct (optimize_keeps _ _ Hr Hr') as [_ Hsr].
    rewrite (IHl _ Hl Hl'), (IHr _ Hr Hr'). apply join_ok in H1 as (_ & _ & ->). cbn in H2.
    apply bind_ok in H2 as (lo' & Hlo & H2). apply bind_ok in H2 as (ro' & Hro & _).
    cbn. by rewrite (collect_resolves_input _ _ _ _ (eq_sym Hsl) Hlo), (collect_resolves_input _ _ _ _ (eq_sym Hsr) Hro).
Qed.
End optimized.

Section ready.
Context `{SqlParser, FloatDisplay, B : BatchOps} (catalog : Catalog) (Hhonest : ∀ name t, table catalog name = Ok t → honest t).

Lemma honest_clean : clean_catalog catalog.
Proof. intros name t Ht. destruct (Hhonest _ _ Ht). by split_and!. Qed.

(** What [ready] asks beyond resolved columns. *)
Fixpoint runnable (p : LogicalPlan) : Prop :=
  nullable_schema (plan_schema p) ∧
  match p with
  | LScan name pr _ s => ∃ provider ix, table catalog name = Ok provider ∧ honest provider ∧ scan_ok provider pr s ix
  | LProjection i _ _ => runnable i ∧ is_sort i = false
  | LFilter i _ _ | LAggregate i _ _ _ | LSort i _ _ | LLimit i _ _ => runnable i
  | LJoin l r _ _ _ _ => runnable l ∧ runnable r
  end.

Lemma runnable_nullable p : runnable p → nullable_schema (plan_schema p).
Proof. by destruct p; intros [? _]. Qed.

Lemma forallb_Forall {A} (f : A → bool) l : forallb f l = true → Forall (λ x, f x = true) l.
Proof. rewrite forallb_forall, list.Forall_forall. intros Hf x Hx. by apply Hf, list_elem_of_In. Qed.

Lemma runnable_ready p : runnable p → plan_resolved p = true → ready catalog p.
Proof.
  unfold plan_resolved.
  induction p as [name pr fs s|i IH es s|i IH e s|i IH g a s|i IH es s|i IH n s|l IHl r IHr t lo ro s]; cbn;
    rewrite ?andb_true_iff; naive_solver eauto using forallb_Forall.
Qed.

(** Planning, step by step; before the [ORDER BY] no plan is a sort. *)
Definition settled (p : LogicalPlan) : Prop := runnable p ∧ is_sort p = false.

Lemma table_factor_settled f p q : table_factor catalog f = Ok (p, q) → settled p.
Proof.
  destruct f as [nm alias args|]; [|done]. cbn. destruct args; [done|]. intros (t & Ht & [= <- <-])%bind_ok.
  pose proof (Hhonest _ _ Ht) as Hh. split; [|done]. set (q := default nm alias).
  assert (nullable_schema (qualify_schema (tp_schema t) q)) as Hn.
  { unfold nullable_schema, qualify_schema. apply Forall_fmap. exact (honest_nullable _ Hh). }
  split; [exact Hn|]. exists t, (seq 0 (length (tp_schema t))). split; [done|]. split; [done|]. split; [done|].
  apply Forall2_same_length_lookup. unfold qualify_schema. rewrite length_fmap, length_seq. split; [done|].
  intros k f i Hf Hi. apply lookup_seq in Hi as [-> _]. rewrite list_lookup_fmap in Hf.
  destruct (tp_schema t !! k) as [g|] eqn:Eg; [|done]. injection Hf as <-. exists g. split; [done|].
  split; [|split; [done|exact (Forall_lookup_1 _ _ _ _ (honest_nullable _ Hh) Eg)]].
  unfold short_name. cbn. rewrite unqualified_qualified. apply after_last_id.
  exact (Forall_lookup_1 _ _ _ _ (honest_undotted _ Hh) Eg).
Qed.

Lemma join_schema_nullable t l r : nullable_schema l → nullable_schema r → nullable_schema (join_schema t l r).
Proof.
  unfold join_schema, nullable_schema. intros Hl Hr. revert l Hl. induction Hr as [|f r Hf _ IH]; intros l Hl; [done|].
  cbn. apply IH, list.Forall_app. split; [done|]. constructor; [|done]. by destruct t.
Qed.

Lemma plan_from_settled f p : plan_from catalog f = Ok p → settled p.
Proof.
  unfold plan_from. destruct (_ <? _)%nat; [done|]. intros ([p1 q1] & H1%table_factor_settled & Hp)%bind_ok.
  destruct (twj_joins f) as [|j js]; [by injection Hp as <-|]. unfold plan_join in Hp.
  apply bind_ok in Hp as ([p2 q2] & H2%table_factor_settled & Hp). destruct (decide _); [done|].
  apply bind_ok in Hp as ([t c] & _ & Hp). destruct c; [|done]. apply bind_ok in Hp as (pairs & _ & Hp).
  apply bind_ok in Hp as (on & _ & Hp). apply join_ok in Hp as (_ & _ & ->). destruct H1 as [H1 _], H2 as [H2 _].
  split; [|done]. split; [by apply join_schema_nullable; apply runnable_nullable|done].
Qed.

Lemma plan_selection_settled p o p' : settled p → plan_selection p o = Ok p' → settled p'.
Proof.
  intros [Hp Hs]. destruct o as [e|]; cbn; [|by intros [= <-]]. intros (x & _ & [_ ->]%filter_ok)%bind_ok.
  split; [|done]. split; [exact (runnable_nullable _ Hp)|done].
Qed.

Lemma project_settled i es p : settled i → project i es = Ok p → settled p.
Proof. intros [Hi Hs] (fs & Hfs & [= <-])%bind_ok. split; [|done]. split; [by eapply fields_nullable|done]. Qed.

Lemma plan_select_settled s p : plan_select catalog s = Ok p → settled p.
Proof.
  unfold plan_select. destruct (sel_distinct s); [done|]. destruct (sel_from s) as [|f [|]]; try done.
  intros (p1 & H1%plan_from_settled & Hp)%bind_ok. apply bind_ok in Hp as (p2 & H2 & Hp).
  apply plan_selection_settled in H2; [|done]. apply bind_ok in Hp as (projection & _ & Hp).
  apply bind_ok in Hp as (groups & _ & Hp). destruct (List.find _ _); [done|]. destruct (_ || _).
  - apply bind_ok in Hp as (p3 & (fs & Hfs & [= <-])%bind_ok & Hp). apply bind_ok in Hp as (p4 & H4 & Hp).
    eapply plan_selection_settled, Hp. eapply project_settled, H4. split; [|done].
    split; [by eapply fields_nullable|apply H2].
  - by eapply project_settled.
Qed.

Lemma plan_query_runnable q p : plan_query catalog q = Ok p → runnable p.
Proof.
  unfold plan_query. destruct (q_with q); [done|]. destruct (q_body q) as [s|]; [|done].
  intros (p1 & [H1 _]%plan_select_settled & Hp)%bind_ok. apply bind_ok in Hp as (p2 & H2 & Hp).
  assert (runnable p2) as H2'.
  { unfold plan_order_by in H2. destruct (q_order_by q) as [o|]; [|by injection H2 as <-].
    destruct (ob_interpolate o); [done|]. destruct (ob_kind o); [|done]. apply bind_ok in H2 as (es & _ & H2).
    apply sort_ok in H2 as [_ ->]. split; [exact (runnable_nullable _ H1)|done]. }
  apply bind_ok in Hp as (n & _ & [= <-]). destruct n; [|done]. split; [exact (runnable_nullable _ H2')|done].
Qed.

(** A plan of SQL can run. *)
Lemma plan_query_ready q p : plan_query catalog q = Ok p → plan_resolved p = true → ready catalog p.
Proof. intros Hp Hr. by apply runnable_ready; [eapply plan_query_runnable|]. Qed.
End ready.
