(* ===== verification/Stages.v ===== *)
(** * Stage graphs of remote queries ([src/cluster/join.rs], [src/query/session.rs],
    [src/cluster/protocol.rs])

    How a physical plan becomes the stages that the coordinator schedules: one stage
    for a partition-local plan, a partial and a final one for a mergeable
    aggregation, two producers and a consumer for a join. *)
From S2P Require Import Prelude Text Protocol Float Expr Logical Catalog Physical Memory Execution Aggregate PlanCodec PlanCodecProps Distributed.

Section stages.
Context `{Protobuf, FloatDisplay, BatchOps}.

(** ** Stages and fragments *)

Definition from_physical_plan (query_id : QueryId) (stage_id : StageId) (input_stages : list StageId)
    (partition_count : N) (p : PhysicalPlan) : result StagePlan :=
  plan_fragment ← codec_encode p;
  let stage := MkStagePlan query_id stage_id input_stages partition_count plan_fragment None false in
  _ ← StagePlan_validate stage;
  Ok stage.

Definition decode_physical_plan (self : StagePlan) (catalog : Catalog) : result PhysicalPlan :=
  _ ← StagePlan_validate self;
  codec_decode (sp_plan_fragment self) catalog.

(** [stage.output_exchange = Some(..)] and [stage.partitioned_input = ..] *)
Definition with_exchange (s : StagePlan) (e : HashExchange) : StagePlan :=
  MkStagePlan (sp_query_id s) (sp_stage_id s) (sp_input_stages s) (sp_partition_count s)
    (sp_plan_fragment s) (Some e) (sp_partitioned_input s).

Definition with_partitioned_input (s : StagePlan) (b : bool) : StagePlan :=
  MkStagePlan (sp_query_id s) (sp_stage_id s) (sp_input_stages s) (sp_partition_count s)
    (sp_plan_fragment s) (sp_output_exchange s) b.

(** ** Remote joins *)

Definition join_contains_join : PhysicalPlan → bool := contains_join.

Fixpoint local_partitions (p : PhysicalPlan) : result N :=
  match p with
  | PScan _ _ provider _ _ _ =>
      let count := N.of_nat (tp_partition_count provider) in
      if (count <=? U32_MAX)%N && (0 <? count)%N then Ok count
      else Err (Planning "remote join scan partition count is invalid")
  | PProjection _ input _ _ | PFilter _ input _ _ => local_partitions input
  | _ => Err (Unsupported "remote join inputs must be partition-local scans, filters, or projections")
  end.

Definition dependency_scan (input : PhysicalPlan) (stage : StageId) : result PhysicalPlan :=
  let schema := physical_schema input in
  t ← MemoryTable_new schema [[]];
  Ok (PScan (plan_id input) (stage_input_table_name stage) (memory_provider t) None [] schema).

(** The columns a pair of keys refers to. *)
Definition join_key_columns (left_schema right_schema : Schema) (keys : Expr * Expr) : result (N * N) :=
  match keys with
  | (Column left_name, Column right_name) =>
      l ← find_column left_schema left_name;
      r ← find_column right_schema right_name;
      left_field ← expect (left_schema !! l) "index out of bounds";
      right_field ← expect (right_schema !! r) "index out of bounds";
      if decide (f_type left_field = f_type right_field) then Ok (N.of_nat l, N.of_nat r)
      else Err (Planning "remote join key types must match on both inputs")
  | _ => Err (Unsupported "remote join keys must be columns; key expressions are not supported")
  end.

(** A stage that sends its rows to the join. *)
Definition join_producer (query : QueryId) (stage_id : StageId) (input : PhysicalPlan) (count : N)
    (columns : list N) (partitions : N) : result StagePlan :=
  stage ← from_physical_plan query stage_id [] count input;
  Ok (with_exchange stage (MkHashExchange columns partitions)).

(** The plan of the consumer, and the producers. *)
Fixpoint rewrite (p : PhysicalPlan) (query : QueryId) : result (PhysicalPlan * list StagePlan) :=
  match p with
  | PProjection id input exprs schema =>
      '(input, stages) ← rewrite input query; Ok (PProjection id input exprs schema, stages)
  | PFilter id input predicate schema =>
      '(input, stages) ← rewrite input query; Ok (PFilter id input predicate schema, stages)
  | PHashJoin id left_input right_input join_type left_on right_on schema =>
      left_count ← local_partitions left_input;
      right_count ← local_partitions right_input;
      let partitions := N.max left_count right_count in
      if bool_decide (left_on = []) || negb (bool_decide (length left_on = length right_on))
      then Err (Planning "remote join requires matching nonempty equi-join keys")
      else
        columns ← collect (join_key_columns (physical_schema left_input) (physical_schema right_input))
                    (zip left_on right_on);
        left_stage ← join_producer query (MkStageId 0) left_input left_count (columns.*1) partitions;
        right_stage ← join_producer query (MkStageId 1) right_input right_count (columns.*2) partitions;
        left_scan ← dependency_scan left_input (MkStageId 0);
        right_scan ← dependency_scan right_input (MkStageId 1);
        Ok (PHashJoin id left_scan right_scan join_type left_on right_on schema,
            [left_stage; right_stage])
  | _ => Err (Unsupported "remote joins support one inner/left equi-join with scan/filter/projection inputs and optional filter/projection output; chained joins, aggregation, sorting, and limits are not supported")
  end.

Definition plan_remote_join (p : PhysicalPlan) (query_id : QueryId) : result (option (list StagePlan)) :=
  if negb (join_contains_join p) then Ok None
  else
    '(downstream, producers) ← rewrite p query_id;
    first ← expect (head producers) "index out of bounds";
    exchange ← expect (sp_output_exchange first) "join producer exchange";
    final_stage ← from_physical_plan query_id (MkStageId 2) [MkStageId 0; MkStageId 1]
                    (he_partition_count exchange) downstream;
    Ok (Some (producers ++ [with_partitioned_input final_stage true])).

(** ** Remote queries *)

Definition remote_partition_count_from_usize (partitions : nat) : result N :=
  ok_or (try_u32 (N.of_nat partitions))
    (Planning ("remote scan has " +:+ pretty (N.of_nat partitions) +:+
               " partitions, which exceeds the protocol limit")).

Fixpoint remote_partition_count (p : PhysicalPlan) : result N :=
  match p with
  | PScan _ _ provider _ _ _ => remote_partition_count_from_usize (tp_partition_count provider)
  | PProjection _ input _ _ | PFilter _ input _ _ => remote_partition_count input
  | _ => Err (Unsupported "remote SQL supports partition-local Scan, Filter, and Projection plans plus top-level non-distinct aggregates over join-free inputs; this plan requires unsupported repartitioning or global stage planning")
  end.

(** The stages of a mergeable aggregation. *)
Definition aggregate_stages (query_id : QueryId) (a : PartialAggregatePlan) : result (list StagePlan) :=
  partition_count ← remote_partition_count_from_usize (pa_partition_count a);
  partial_stage ← from_physical_plan query_id (MkStageId 0) [] partition_count (pa_worker_plan a);
  let merge_partitions := if decide (pa_group_count a = 0) then 1%N else partition_count in
  let partial_stage :=
    if (0 <? pa_group_count a)%nat
    then with_exchange partial_stage
           (MkHashExchange (N.of_nat <$> seq 0 (pa_group_count a)) merge_partitions)
    else partial_stage in
  final_plan ← final_worker_plan a (MkStageId 0);
  final_stage ← from_physical_plan query_id (MkStageId 1) [MkStageId 0] merge_partitions final_plan;
  Ok [partial_stage; with_partitioned_input final_stage (0 <? pa_group_count a)%nat].

Definition checked_task_count (stages : list StagePlan) : result N :=
  fold_result (λ count s,
    ok_or (try_u32 (count + sp_partition_count s)%N) (Planning "remote join task count overflowed"))
    0%N stages.

(** The stages a remote query submits, in order, and the one whose output is the
    result. *)
Record RemoteGraph := MkRemoteGraph { rg_stages : list StagePlan; rg_result : StageId }.

Definition remote_stages (physical : PhysicalPlan) (query_id : QueryId) : result RemoteGraph :=
  a ← split_mergeable_aggregate physical;
  match a with
  | Some a => stages ← aggregate_stages query_id a; Ok (MkRemoteGraph stages (MkStageId 1))
  | None =>
      graph ← plan_remote_join physical query_id;
      match graph with
      | Some stages => _ ← checked_task_count stages; Ok (MkRemoteGraph stages (MkStageId 2))
      | None =>
          partition_count ← remote_partition_count physical;
          stage ← from_physical_plan query_id (MkStageId 0) [] partition_count physical;
          Ok (MkRemoteGraph [stage] (MkStageId 0))
      end
  end.
End stages.
