(* ===== verification/StagesProps.v ===== *)
(** * The coordinator accepts the stages of a remote query

    The stages that planning produces are submitted in order.  They are valid, their
    dependencies come first, and consumers of exchanged rows have one partition per
    destination, so that the coordinator takes every one of them. *)
From S2P Require Import Prelude Text Protocol Coordinator Float Expr SchemaProps Logical Catalog Physical Memory Execution ExecutionDemo Aggregate PlanCodec PlanCodecProps HashExchange HashExchangeProps Distributed Stages.

(** Submitting stages one after the other, until one is refused. *)
Fixpoint submit_all `{PlanFragments} (graph : list StagePlan) (c : Coordinator) : result unit * Coordinator :=
  match graph with
  | [] => (Ok tt, c)
  | s :: graph =>
      match submit_stage s c with
      | (Ok _, c) => submit_all graph c
      | refused => refused
      end
  end.

(** ** What a graph must be *)

Section graphs.
Context `{PlanFragments} (query : QueryId).

(** What a stage needs of a dependency: a consumer of exchanged rows has one
    partition per destination. *)
Definition feeds (s upstream : StagePlan) : Prop :=
  sp_partitioned_input s = true →
  he_partition_count <$> sp_output_exchange upstream = Some (sp_partition_count s).

Record stage_ok (before : list StagePlan) (s : StagePlan) : Prop := {
  so_query : sp_query_id s = query;
  so_valid : valid_stage s;
  so_new : ∀ s', s' ∈ before → sp_stage_id s' ≠ sp_stage_id s;
  so_inputs : ∀ d, d ∈ sp_input_stages s → ∃ s', s' ∈ before ∧ sp_stage_id s' = d ∧ feeds s s';
}.

Fixpoint graph_ok (before graph : list StagePlan) : Prop :=
  match graph with
  | [] => True
  | s :: graph => stage_ok before s ∧ graph_ok (before ++ [s]) graph
  end.

(** The limits of a coordinator that a stage keeps. *)
Definition within_limits (c : Coordinator) (s : StagePlan) : Prop :=
  (sp_partition_count s <= max_stage_partitions (config c))%N ∧
  ∀ e, sp_output_exchange s = Some e → (he_partition_count e <= max_stage_partitions (config c))%N.

(** The coordinator holds the given stages of the query, untouched. *)
Definition holds (c : Coordinator) (before : list StagePlan) : Prop :=
  (∀ s, s ∈ before → ∃ r, stages c !! (query, sp_stage_id s) = Some r ∧ plan r = s) ∧
  (∀ id r, stages c !! (query, id) = Some r → ∃ s, s ∈ before ∧ sp_stage_id s = id).

Lemma contains_key_bool `{Countable K} {V} (m : gmap K V) k : contains_key m k = bool_decide (is_Some (m !! k)).
Proof. unfold contains_key. by destruct (m !! k). Qed.

Lemma submit_checks_pass c before s :
  holds c before → stage_ok before s → within_limits c s → contains_key (cancelled_queries c) query = false →
  submit_checks c s = Ok tt.
Proof.
  intros [Hin Hout] [Hq Hv Hn Hi] [Hl He] Hc. unfold submit_checks.
  rewrite (proj2 (StagePlan_validate_ok s) Hv). cbn [mbind result_bind]. rewrite Hq, Hc.
  replace (_ <? _)%N with false by (symmetry; apply N.ltb_ge; lia).
  rewrite contains_key_bool, bool_decide_eq_false_2.
  2:{ intros [r Hr]. destruct (Hout _ _ Hr) as (s' & Hs' & E). by apply (Hn _ Hs'). }
  assert (for_each (check_dependency c s) (sp_input_stages s) = Ok tt) as ->.
  { apply for_each_ok, list.Forall_forall. intros d Hd. destruct (Hi d Hd) as (s' & Hs' & <- & _).
    destruct (Hin _ Hs') as (r & Hr & _). unfold check_dependency. rewrite Hq, contains_key_bool, Hr.
    by rewrite bool_decide_eq_true_2. }
  cbn [mbind result_bind].
  assert ((if sp_partitioned_input s then for_each (check_partitioned_dependency c s) (sp_input_stages s)
           else Ok tt) = Ok tt) as ->.
  { destruct (sp_partitioned_input s) eqn:Ep; [|done]. apply for_each_ok, list.Forall_forall. intros d Hd.
    destruct (Hi d Hd) as (s' & Hs' & <- & Hf). destruct (Hin _ Hs') as (r & Hr & <-).
    unfold check_partitioned_dependency. rewrite Hq, Hr. cbn. rewrite decide_True; [done|]. by apply Hf. }
  cbn [mbind result_bind]. destruct (sp_output_exchange s) as [e|] eqn:Ee; [|done].
  replace (_ <? _)%N with false; [done|]. symmetry. apply N.ltb_ge. by apply He.
Qed.

Lemma submit_stage_holds c before s :
  holds c before → stage_ok before s → within_limits c s → contains_key (cancelled_queries c) query = false →
  ∃ c', submit_stage s c = (Ok tt, c') ∧ holds c' (before ++ [s]) ∧ config c' = config c ∧
    cancelled_queries c' = cancelled_queries c.
Proof.
  intros Hh Hs Hl Hc. unfold submit_stage. rewrite (submit_checks_pass c before s) by done. eexists. split; [done|].
  split; [|done]. destruct Hh as [Hin Hout]. pose proof (so_query _ _ Hs) as Hq. split; cbn.
  - intros s' [Hs'|Hs']%elem_of_app.
    + destruct (Hin _ Hs') as (r & Hr & Hp). exists r. split; [|done]. rewrite lookup_insert_ne; [done|].
      rewrite Hq. intros [= E]. by apply (so_new _ _ Hs _ Hs').
    + apply list_elem_of_singleton in Hs' as ->. rewrite Hq, lookup_insert_eq. by eexists.
  - intros id r Hr. rewrite Hq in Hr. destruct (decide (sp_stage_id s = id)) as [<-|Hne].
    + exists s. split; [set_solver|done].
    + rewrite lookup_insert_ne in Hr by congruence. destruct (Hout _ _ Hr) as (s' & ? & ?). exists s'. set_solver.
Qed.

Lemma graph_accepted before graph c :
  holds c before → graph_ok before graph → Forall (within_limits c) graph →
  contains_key (cancelled_queries c) query = false →
  ∃ c', submit_all graph c = (Ok tt, c') ∧ holds c' (before ++ graph).
Proof.
  revert before c. induction graph as [|s graph IH]; intros before c Hh Hg Hl Hc; cbn.
  { exists c. by rewrite app_nil_r. }
  destruct Hg as [Hs Hg]. apply list.Forall_cons in Hl as [Hls Hl].
  destruct (submit_stage_holds c before s) as (c' & -> & Hh' & Hcfg & Hcan); [done..|].
  destruct (IH (before ++ [s]) c') as (c'' & Hsub & Hfin); [done|done| |by rewrite Hcan|].
  - eapply list.Forall_impl; [exact Hl|]. intros x. unfold within_limits. by rewrite Hcfg.
  - exists c''. split; [done|]. by rewrite <-app_assoc in Hfin.
Qed.
End graphs.

(** ** What planning produces *)

Section planned.
Context `{Protobuf, FloatDisplay, B : BatchOps}.

Lemma from_physical_plan_ok q id inputs n p s :
  from_physical_plan q id inputs n p = Ok s →
  valid_stage s ∧ sp_query_id s = q ∧ sp_stage_id s = id ∧ sp_input_stages s = inputs ∧
  sp_partition_count s = n ∧ sp_output_exchange s = None ∧ sp_partitioned_input s = false ∧
  codec_encode p = Ok (sp_plan_fragment s).
Proof.
  unfold from_physical_plan. intros (bytes & Hb & Hs)%bind_ok. apply bind_ok in Hs as ([] & Hv & [= <-]).
  apply StagePlan_validate_ok in Hv. by split_and!.
Qed.

Lemma with_exchange_valid s e :
  valid_stage s → (0 < he_partition_count e)%N → he_columns e ≠ [] → valid_stage (with_exchange s e).
Proof. intros [Hq Hc He Hi Hf Hu Hn] Hp Hcols. split; try done. cbn. by intros e' [= <-]. Qed.

Lemma with_partitioned_input_valid s b :
  valid_stage s → (b = true → sp_input_stages s ≠ []) → valid_stage (with_partitioned_input s b).
Proof. intros [Hq Hc He Hi Hf Hu Hn] Hb. by split. Qed.

(** A producer of a join. *)
Lemma join_producer_ok q id p n columns partitions s :
  join_producer q id p n columns partitions = Ok s → columns ≠ [] → (0 < partitions)%N →
  valid_stage s ∧ sp_query_id s = q ∧ sp_stage_id s = id ∧ sp_input_stages s = [] ∧
  sp_output_exchange s = Some (MkHashExchange columns partitions) ∧ codec_encode p = Ok (sp_plan_fragment s).
Proof.
  unfold join_producer. intros (s0 & Hs%from_physical_plan_ok & [= <-])%bind_ok Hc Hp.
  destruct Hs as (Hv & Hq & Hid & Hin & Hn & _ & _ & Hf). split_and!; try done. by apply with_exchange_valid.
Qed.

Lemma local_partitions_pos p n : local_partitions p = Ok n → (0 < n)%N.
Proof.
  induction p; cbn; try done. destruct (_ <=? _)%N; [|done]. cbn.
  destruct (0 <? _)%N eqn:E; [|done]. intros [= <-]. by apply N.ltb_lt in E.
Qed.

Lemma join_key_columns_types ls rs ks cs :
  collect (join_key_columns ls rs) ks = Ok cs →
  length cs = length ks ∧
  (λ c, default DtNull (f_type <$> ls !! N.to_nat c)) <$> cs.*1 =
  (λ c, default DtNull (f_type <$> rs !! N.to_nat c)) <$> cs.*2.
Proof.
  intros Hc. split; [by eapply collect_length|]. apply collect_ok in Hc.
  induction Hc as [|k c ks cs Hk _ IH]; [done|]. rewrite !fmap_cons, IH. f_equal.
  unfold join_key_columns in Hk. destruct k as [[] []]; try done.
  apply bind_ok in Hk as (l & _ & Hk). apply bind_ok in Hk as (r & _ & Hk).
  apply bind_ok in Hk as (lf & Hl & Hk). apply bind_ok in Hk as (rf & Hr & Hk).
  destruct (ls !! l) as [lf'|] eqn:El; [|done]. destruct (rs !! r) as [rf'|] eqn:Er; [|done].
  injection Hl as ->. injection Hr as ->.
  destruct (decide _) as [E|]; [|done]. injection Hk as <-. cbn. rewrite !Nat2N.id, El, Er. exact E.
Qed.

(** Two producers that route by keys of the same types. *)
Definition paired (l r : StagePlan) : Prop :=
  ∃ lp rp el er, codec_encode lp = Ok (sp_plan_fragment l) ∧ codec_encode rp = Ok (sp_plan_fragment r) ∧
    sp_output_exchange l = Some el ∧ sp_output_exchange r = Some er ∧
    exchange_types (physical_schema lp) el = exchange_types (physical_schema rp) er ∧
    he_partition_count el = he_partition_count er.

Lemma rewrite_ok p q down producers :
  rewrite p q = Ok (down, producers) →
  ∃ l r, producers = [l; r] ∧ graph_ok q [] [l; r] ∧ paired l r ∧
    sp_stage_id l = MkStageId 0 ∧ sp_stage_id r = MkStageId 1.
Proof.
  revert down producers. induction p as [|id i IH es s|id i IH e s| | | | |id l _ r _ jt lo ro s];
    intros down producers Hr; cbn [rewrite] in Hr; try done.
  - apply bind_ok in Hr as ([i' ps] & Hi & [= <- <-]). by eapply IH.
  - apply bind_ok in Hr as ([i' ps] & Hi & [= <- <-]). by eapply IH.
  - apply bind_ok in Hr as (lc & Hlc & Hr). apply bind_ok in Hr as (rc & Hrc & Hr).
    apply local_partitions_pos in Hlc, Hrc. destruct (_ || _) eqn:E; [done|].
    apply orb_false_iff in E as [E1 E2]. bool_to_prop.
    apply bind_ok in Hr as (cs & Hcs & Hr). apply join_key_columns_types in Hcs as [Hlen Htypes].
    rewrite length_zip_with in Hlen.
    assert (cs ≠ []) as Hne by (intros ->; cbn in Hlen; destruct lo, ro; cbn in *; done || lia).
    apply bind_ok in Hr as (ls & Hls & Hr). apply bind_ok in Hr as (rs & Hrs & Hr).
    apply join_producer_ok in Hls as (Lv & Lq & Lid & Lin & Lex & Lf); [|by destruct cs|lia].
    apply join_producer_ok in Hrs as (Rv & Rq & Rid & Rin & Rex & Rf); [|by destruct cs|lia].
    apply bind_ok in Hr as (lscan & _ & Hr). apply bind_ok in Hr as (rscan & _ & [= <- <-]).
    exists ls, rs. split_and!; [done| | |done|done].
    + cbn. split; [split; [done|done|set_solver|rewrite Lin; set_solver]|].
      split; [|done]. split; [done|done| |rewrite Rin; set_solver].
      intros s' Hs'%list_elem_of_singleton. subst s'. rewrite Lid, Rid. done.
    + exists l, r, (MkHashExchange (cs.*1) (N.max lc rc)), (MkHashExchange (cs.*2) (N.max lc rc)). by split_and!.
Qed.

Lemma join_graph_ok p q graph :
  plan_remote_join p q = Ok (Some graph) → graph_ok q [] graph ∧ ∃ l r f, graph = [l; r; f] ∧ paired l r ∧ sp_stage_id f = MkStageId 2.
Proof.
  unfold plan_remote_join. destruct (negb _); [done|]. intros ([down ps] & Hrw & Hp)%bind_ok.
  apply rewrite_ok in Hrw as (l & r & -> & (Hl & Hr & _) & Hpair & Lid & Rid).
  pose proof Hpair as (lp & rp & el & er & _ & _ & Hel & Her & _ & Hcount).
  cbn in Hp. rewrite Hel in Hp. cbn in Hp. apply bind_ok in Hp as (f & Hf%from_physical_plan_ok & [= <-]).
  destruct Hf as (Fv & Fq & Fid & Fin & Fn & _ & _ & _).
  split; [|by exists l, r, (with_partitioned_input f true)]. cbn. split; [done|]. split; [done|]. split; [|done].
  split.
  - done.
  - apply with_partitioned_input_valid; [done|]. by rewrite Fin.
  - intros s' Hs'. cbn. rewrite Fid. apply elem_of_cons in Hs' as [->|Hs'%list_elem_of_singleton]; [by rewrite Lid|].
    subst. by rewrite Rid.
  - intros d Hd. cbn in Hd. rewrite Fin in Hd. unfold feeds. cbn.
    apply elem_of_cons in Hd as [->|Hd%list_elem_of_singleton].
    + exists l. split; [by left|]. split; [done|]. intros _. by rewrite Hel, Fn.
    + exists r. split; [by right; left|]. split; [by rewrite Rid, Hd|]. intros _. by rewrite Her, Fn, Hcount.
Qed.

Lemma aggregate_graph_ok q a graph : aggregate_stages q a = Ok graph → graph_ok q [] graph ∧ length graph = 2.
Proof.
  unfold aggregate_stages. intros (n & _ & Hs)%bind_ok. apply bind_ok in Hs as (p & Hp%from_physical_plan_ok & Hs).
  apply bind_ok in Hs as (fp & _ & Hs). apply bind_ok in Hs as (f & Hf%from_physical_plan_ok & [= <-]).
  destruct Hp as (Pv & Pq & Pid & Pin & Pn & Pe & Pp & _), Hf as (Fv & Fq & Fid & Fin & Fn & _ & _ & _).
  split; [|done]. pose proof (vs_count _ Pv) as Hpos. cbn [graph_ok].
  set (grouped := (0 <? pa_group_count a)%nat) in *.
  match goal with |- stage_ok _ _ ?x ∧ _ => set (p' := x) end.
  assert (valid_stage p' ∧ sp_query_id p' = q ∧ sp_stage_id p' = MkStageId 0 ∧ sp_input_stages p' = [] ∧
    (grouped = true → he_partition_count <$> sp_output_exchange p' = Some (sp_partition_count f)))
    as (V & Q & I & In & X).
  { subst p'. destruct grouped eqn:Eg; [|by split_and!]. subst grouped. apply Nat.ltb_lt in Eg.
    rewrite decide_False in * by lia. split_and!; try done.
    - apply with_exchange_valid; [done|cbn; by rewrite <-Pn|]. cbn. destruct (pa_group_count a); [lia|done].
    - intros _. cbn. by rewrite Fn. }
  split; [split; [done|done|set_solver|rewrite In; set_solver]|]. split; [|done]. split; [done| | |].
  - apply with_partitioned_input_valid; [done|]. by rewrite Fin.
  - intros s' Hs'%list_elem_of_singleton. subst s'. cbn. by rewrite I, Fid.
  - intros d Hd. cbn in Hd. rewrite Fin in Hd. apply list_elem_of_singleton in Hd as ->.
    exists p'. split; [by left|]. split; [done|]. exact X.
Qed.

Lemma remote_stages_ok physical q g :
  remote_stages physical q = Ok g →
  graph_ok q [] (rg_stages g) ∧ (∃ s, list.last (rg_stages g) = Some s ∧ sp_stage_id s = rg_result g) ∧
  (∀ l r f, rg_stages g = [l; r; f] → paired l r).
Proof.
  unfold remote_stages. intros ([a|] & _ & Hg)%bind_ok.
  - apply bind_ok in Hg as (graph & Hs & [= <-]). pose proof Hs as [Hok Hlen]%aggregate_graph_ok. cbn.
    split; [done|]. split; [|intros l r f ->; done].
    unfold aggregate_stages in Hs. apply bind_ok in Hs as (n & _ & Hs). apply bind_ok in Hs as (p & _ & Hs).
    apply bind_ok in Hs as (fp & _ & Hs). apply bind_ok in Hs as (f & Hf%from_physical_plan_ok & [= <-]).
    eexists. split; [done|]. cbn. by destruct Hf as (_ & _ & ? & _).
  - apply bind_ok in Hg as ([graph|] & Hj & Hg).
    + apply bind_ok in Hg as (n & _ & [= <-]). apply join_graph_ok in Hj as (Hok & l & r & f & -> & Hp & Hid). cbn.
      split; [done|]. split; [by exists f|]. by intros ??? [= <- <- <-].
    + apply bind_ok in Hg as (n & _ & Hg). apply bind_ok in Hg as (s & Hs%from_physical_plan_ok & [= <-]).
      destruct Hs as (V & Q & I & In & _). cbn. split; [|split; [by exists s|by intros ??? [=]]].
      split; [|done]. split; [done|done|set_solver|rewrite In; set_solver].
Qed.
End planned.

(** ** The property *)

(** C39: planning and scheduling fit together.  The stages planned for a remote
    query (a partition-local plan, a split aggregation or a join) are accepted by
    every coordinator that does not know the query yet and whose limits they keep:
    submitted in order none is refused, afterwards the coordinator holds exactly
    these stages of the query, the last of them is the one whose output is the
    result, and the two producers of a join route their rows by keys of the same
    types to the same number of destinations. *)
Theorem remote_stages_accepted `{Protobuf, FloatDisplay, B : BatchOps} physical query g c :
  remote_stages physical query = Ok g →
  (∀ id, stages c !! (query, id) = None) → contains_key (cancelled_queries c) query = false →
  Forall (within_limits c) (rg_stages g) →
  (∃ c', submit_all (rg_stages g) c = (Ok tt, c') ∧ holds query c' (rg_stages g)) ∧
  (∃ s, list.last (rg_stages g) = Some s ∧ sp_stage_id s = rg_result g) ∧
  (∀ l r f, rg_stages g = [l; r; f] → paired l r).
Proof.
  intros Hg Hnew Hc Hl. apply remote_stages_ok in Hg as (Hok & Hlast & Hpair). split; [|by split].
  apply (graph_accepted query []); [|done|done|done].
  split; [set_solver|]. intros id r Hr. by rewrite Hnew in Hr.
Qed.

(** ** A worked graph *)

#[local] Instance no_float_columns : FloatDisplay := λ _, "0.0".

(** A Protobuf that carries one message: a scan. *)
#[local] Instance scan_protobuf : Protobuf := {
  encode_to_vec _ := [8; 2]%N;
  decode_message _ :=
    inl (MkWirePlanEnvelope 2 (Some (MkWirePlan (Some
      (WScan 1 "t" false [] [] (Some (MkWireSchema [MkWireField "a" 3 true []] [])))))));
}.

(** A join of a table with two partitions and one with three. *)
Definition demo_join_scan (id : N) (name : string) (partitions : nat) : PhysicalPlan :=
  let s := [MkField (name +:+ ".a") DtInt64 true; MkField (name +:+ ".b") DtUtf8 true] in
  PScan id name (MkTableProvider s partitions 0 (λ _ _, Ok true) (λ _ _, Ok [])) None [] s.
Definition demo_join_plan : PhysicalPlan :=
  let l := demo_join_scan 1 "l" 2 in
  let r := demo_join_scan 2 "r" 3 in
  PHashJoin 0 l r Inner [Column "l.a"] [Column "r.a"]
    (join_schema Inner (physical_schema l) (physical_schema r)).
Definition demo_join_query : QueryId := MkQueryId "q".
Definition demo_join_graph : RemoteGraph :=
  match remote_stages demo_join_plan demo_join_query with Ok g => g | _ => MkRemoteGraph [] (MkStageId 0) end.
Definition demo_empty_coordinator : Coordinator := MkCoordinator (MkCoordinatorConfig 1000 500 2 16) ∅ ∅ ∅.

Lemma remote_stages_accepted_witness :
  sp_partition_count <$> rg_stages demo_join_graph = [2; 3; 3]%N ∧
  (∃ c', submit_all (rg_stages demo_join_graph) demo_empty_coordinator = (Ok tt, c') ∧
    holds demo_join_query c' (rg_stages demo_join_graph)) ∧
  (∃ s, list.last (rg_stages demo_join_graph) = Some s ∧ sp_stage_id s = rg_result demo_join_graph) ∧
  (∀ l r f, rg_stages demo_join_graph = [l; r; f] → paired l r).
Proof.
  split; [vm_compute; reflexivity|].
  apply (remote_stages_accepted demo_join_plan demo_join_query demo_join_graph demo_empty_coordinator).
  - vm_compute. reflexivity.
  - intros id. reflexivity.
  - reflexivity.
  - assert (∃ a b c, rg_stages demo_join_graph = [a; b; c] ∧ within_limits demo_empty_coordinator a ∧
      within_limits demo_empty_coordinator b ∧ within_limits demo_empty_coordinator c) as (a & b & c & -> & ? & ? & ?).
    { eexists _, _, _. split; [vm_compute; reflexivity|].
      unfold within_limits. cbn. split_and!; try lia; intros e He; simplify_eq; cbn; lia. }
    constructor; [done|]. constructor; [done|]. constructor; [done|constructor].
Defined.
