(* ===== verification/LocalCluster.v ===== *)
(** * The in-process cluster ([src/cluster/distributed.rs])

    [LocalCluster::execute] runs a partial aggregation per partition on in-process
    workers that a private coordinator schedules, moves every partial batch through a
    loopback exchange and merges what arrives.

    What the runtime decides is an argument: the task that finishes next, the memory
    the rest of the query holds when the shuffle buffer grows, and the schedule and
    memory inside a task.  The query is not cancelled. *)
From S2P Require Import Prelude Text Protocol Coordinator Float Expr Logical Catalog Physical Memory Execution Aggregate Executor PlanCodec PlanCodecProps Distributed Stages.

(** [trait ShuffleExchange], with the constructor of the loopback one. *)
Class ShuffleExchange := {
  exchange_start : result unit;
  exchange : Schema → list RecordBatch → result (list RecordBatch);
  exchange_close : result unit;
}.

Record ClusterResult := MkClusterResult {
  cr_batches : list RecordBatch;
  cr_distributed : bool;
  cr_stages : nat;
}.

Definition LocalCluster_new (workers : nat) : nat := Nat.max workers 1.

(** [format!("{index:04}")] *)
Definition pad4 (index : nat) : string :=
  let digits := pretty (N.of_nat index) in
  String.concat EmptyString (replicate (4 - String.length digits) "0") +:+ digits.

(** Leases and heartbeats that do not run out. *)
Definition local_config (partition_count : N) : CoordinatorConfig :=
  MkCoordinatorConfig (U64_MAX / 2) (U64_MAX / 2) 1 partition_count.

Section start.
Context `{Protobuf, FloatDisplay, BatchOps}.

Definition register_local (memory_limit : N) (c : Coordinator) (index : nat) : result Coordinator :=
  worker_id ← WorkerId_new ("local-worker-" +:+ pad4 index);
  let '(r, c) := handle_worker_message
    (Register PROTOCOL_VERSION (MkWorkerRegistration worker_id 1 memory_limit)) 0 c in
  _ ← r;
  Ok c.

(** The coordinator with the stage and its workers. *)
Definition local_start (workers : nat) (memory_limit : N) (partitions : nat) (input : PhysicalPlan)
    : result Coordinator :=
  partition_count ← ok_or (try_u32 (N.of_nat partitions))
    (Execution ("local cluster partition count " +:+ pretty (N.of_nat partitions) +:+
                " exceeds the protocol limit"));
  query_id ← QueryId_new "local-cluster-query";
  stage ← from_physical_plan query_id (MkStageId 0) [] partition_count input;
  c ← Coordinator_new (local_config partition_count);
  let '(r, c) := submit_stage stage c in
  _ ← r;
  fold_result (register_local memory_limit) c (seq 0 (Nat.min workers partitions)).
End start.

(** ** Scheduling *)

(** A spawned task: its worker, the attempt and the stage it was sent. *)
Abbreviation local_task := (WorkerId * TaskAttemptId * StagePlan)%type.

Record LocalEvent := MkLocalEvent {
  next_task : nat;
  grow_memory : TaskMemory;
  settle_memory : TaskMemory;
}.

Record LocalRun := MkLocalRun {
  lr_coordinator : Coordinator;
  lr_tasks : list local_task;
  lr_partials : list RecordBatch;
  lr_shuffle : N;
}.

Definition task_partition (task : TaskAttemptId) : nat := N.to_nat (partition_num (ta_partition_id task)).

(** The state a failed task reports. *)
Definition failure_state (e : SparkXError) : TaskState :=
  if decide (e = Cancelled) then TaskCancelled 0 "query cancellation reached local worker"
  else TaskFailed 0 (display_error e) false.

Section schedule.
Context `{Protobuf}.

(** The inner loop: tasks are spawned until there is no assignment.  [None] when the
    fuel runs out. *)
Fixpoint assign_all (fuel : nat) (c : Coordinator) (tasks : list local_task)
    : option (result (Coordinator * list local_task)) :=
  match fuel with
  | 0 => None
  | S fuel =>
      let '(r, c) := next_assignment 0 c in
      match r with
      | Ok (Some (AssignTask _ stage task lease _)) =>
          assign_all fuel c (tasks ++ [(tl_worker_id lease, task, stage)])
      | Ok (Some (CancelQuery _ _ _)) =>
          Some (Err (Execution "local coordinator returned a cancellation while scheduling"))
      | Ok None => Some (Ok (c, tasks))
      | Err e => Some (Err e)
      | Panic why => Some (Panic why)
      end
  end.

Definition report (worker_id : WorkerId) (task : TaskAttemptId) (state : TaskState) (c : Coordinator)
    : result Coordinator :=
  let '(r, c) := handle_worker_message (TaskUpdate PROTOCOL_VERSION worker_id task state) 0 c in
  _ ← r;
  Ok c.

Context `{BatchOps, ShuffleExchange} (partitions : nat) (task_result : StagePlan → nat → result RecordBatch).

(** The reservation after the batches have arrived. *)
Definition settle (memory : TaskMemory) (own input_bytes output_bytes : N) : result N :=
  if (input_bytes <? output_bytes)%N then try_grow memory 0 own (output_bytes - input_bytes)
  else Ok (own - N.min (input_bytes - output_bytes) own)%N.

(** What follows a finished task. *)
Definition finish_task (ev : LocalEvent) (run : LocalRun) (c : Coordinator) (tasks : list local_task)
    (worker_id : WorkerId) (task : TaskAttemptId) (outcome : result RecordBatch) : result LocalRun :=
  match outcome with
  | Panic why => Err (Execution ("worker task failed: " +:+ why))
  | Err e => _ ← report worker_id task (failure_state e) c; Err e
  | Ok batch =>
      c ← report worker_id task (TaskSucceeded 0 []) c;
      let input_bytes := batch_bytes batch in
      own ← try_grow (grow_memory ev) 0 (lr_shuffle run) input_bytes;
      transported ← exchange (b_schema batch) [batch];
      output_bytes ← sum_bytes_u64 (batch_bytes <$> transported);
      own ← settle (settle_memory ev) own input_bytes output_bytes;
      Ok (MkLocalRun c tasks (lr_partials run ++ transported) own)
  end.

(** One round of the outer loop. *)
Definition local_step (ev : LocalEvent) (run : LocalRun) : option (result LocalRun) :=
  match assign_all (S partitions) (lr_coordinator run) (lr_tasks run) with
  | None => None
  | Some r => Some (
      '(c, tasks) ← r;
      let k := next_task ev mod length tasks in
      match tasks !! k with
      | None => Err (Execution "local coordinator has unfinished partitions but no running tasks")
      | Some (worker_id, task, stage) =>
          finish_task ev run c (delete k tasks) worker_id task (task_result stage (task_partition task))
      end)
  end.

(** The outer loop; [None] when tasks are still running after the last event. *)
Fixpoint local_loop (events : list LocalEvent) (run : LocalRun) : option (result (list RecordBatch)) :=
  if decide (partitions ≤ length (lr_partials run)) then Some (Ok (lr_partials run))
  else match events with
  | [] => None
  | ev :: events =>
      match local_step ev run with
      | None => None
      | Some (Ok run) => local_loop events run
      | Some (Err e) => Some (Err e)
      | Some (Panic why) => Some (Panic why)
      end
  end.
End schedule.

(** ** Execution *)

Section execute.
Context `{Protobuf, FloatDisplay, ScalarDebug, Kernels, BatchOps, SortOps, RowConverter, Sizes, MergeSizes, ShuffleExchange}.
Context (catalog : Catalog) (memory_limit : N) (task_env : nat → nat → Site) (task_memory : nat → TaskMemory)
  (memory : TaskMemory).

(** The body of a spawned task. *)
Definition partial_task (group_exprs partial_exprs : list Expr) (partial_schema : Schema) (stage : StagePlan)
    (partition : nat) : result RecordBatch :=
  input ← decode_physical_plan stage catalog;
  '(batches, own) ← collect_with_memory (task_memory partition) 0
                      (execute (task_env partition) (Some partition) 0 input);
  hash_aggregate_with_memory (holding (task_memory partition) own) batches group_exprs partial_exprs
    partial_schema.

(** What [execute] sets up before its loop: the partial aggregates and their schema,
    the coordinator and the shuffle reservation. *)
Definition local_prepare (workers partitions : nat) (input : PhysicalPlan) (group_exprs aggregate_exprs : list Expr)
    : result (list Expr * Schema * Coordinator * N) :=
  partial_exprs ← partial_aggregate_exprs aggregate_exprs;
  partial_schema ← aggregate_schema (physical_schema input) group_exprs partial_exprs;
  c ← local_start workers memory_limit partitions input;
  _ ← exchange_start;
  own ← try_reserve memory 0 0;
  Ok (partial_exprs, partial_schema, c, own).

(** What follows the loop. *)
Definition local_finish (group_exprs aggregate_exprs : list Expr) (schema : Schema) (partials : list RecordBatch)
    : result ClusterResult :=
  _ ← exchange_close;
  final_batch ← merge_partials memory partials (length group_exprs) aggregate_exprs schema;
  Ok (MkClusterResult [final_batch] true 2).

Definition execute_partitions (workers partitions : nat) (events : list LocalEvent) (input : PhysicalPlan)
    (group_exprs aggregate_exprs : list Expr) (schema : Schema) : option (result ClusterResult) :=
  match local_prepare workers partitions input group_exprs aggregate_exprs with
  | Err e => Some (Err e)
  | Panic why => Some (Panic why)
  | Ok (partial_exprs, partial_schema, c, own) =>
      match local_loop partitions (partial_task group_exprs partial_exprs partial_schema) events
              (MkLocalRun c [] [] own) with
      | None => None
      | Some partials => Some (partials ← partials; local_finish group_exprs aggregate_exprs schema partials)
      end
  end.

Definition LocalCluster_execute (workers : nat) (events : list LocalEvent) (env : nat → Site)
    (partition : option nat) (plan : PhysicalPlan) : option (result ClusterResult) :=
  match plan, local_strategy plan with
  | PHashAggregate _ input group_exprs aggregate_exprs schema, RunPartitions partitions =>
      execute_partitions workers partitions events input group_exprs aggregate_exprs schema
  | _, _ => Some (batches ← execute_plan env partition plan; Ok (MkClusterResult batches false 1))
  end.
End execute.
