(* ===== verification/LocalClusterProps.v ===== *)
(** * The in-process cluster always finishes

    The private coordinator of a local run has one stage, one attempt per partition
    and a clock that stands still.  [local_inv] says where every partition is; the
    loop keeps it, so it never waits for a task that does not exist and collects the
    partial batch of every partition exactly once. *)
From S2P Require Import Prelude Text Protocol Coordinator CoordinatorClock CoordinatorInv CoordinatorSpec CoordinatorSteps CoordinatorAssign CoordinatorRun Memory Float Expr Logical Catalog Physical Execution Aggregate Executor PlanCodec PlanCodecProps Distributed Stages LocalCluster.

(** ** A clock that stands still *)

Section clock.
Context `{PlanFragments}.

Lemma advanced_zero c : wf c → advanced 0 c = c.
Proof.
  intros Hc.
  assert (∀ wr, timed_out c 0 wr = false) as Ht.
  { intros wr. unfold timed_out, saturating_sub. destruct (alive wr); [|done]. cbn. apply N.ltb_ge. lia. }
  assert (timed_out_workers c 0 = []) as Hd.
  { destruct (timed_out_workers c 0) as [|w l] eqn:E; [done|].
    assert (w ∈ timed_out_workers c 0) as Hw by (rewrite E; by left).
    apply elem_of_timed_out in Hw as (wr & _ & Hw). by rewrite Ht in Hw. }
  assert (∀ key st i p, stages c !! key = Some st → partitions st !! i = Some p →
    match p with Active _ _ l _ | Cancelling _ _ l => (0 < tl_expires_at_ms l)%N | _ => True end) as Hl.
  { intros key st i p Hst Hp. assert (part_wf c key i p) as Hw by (apply Hc, part_Some; eauto).
    destruct p; try done; cbn in Hw; destruct Hw as (_ & _ & (_ & ?) & _); lia. }
  unfold advanced. rewrite Hd. destruct c as [cfg ws ss cq]. cbn in *. f_equal.
  - apply map_eq. intros w. rewrite map_lookup_imap. destruct (ws !! w) as [wr|] eqn:E; [|done]. cbn.
    rewrite Ht. replace (freed_slots _ _ _ w) with 0; [done|].
    symmetry. apply map_sum_zero. cbn. intros key st Hst. apply count_zero. intros i p Hp.
    specialize (Hl key st i p Hst Hp). unfold frees. destruct p; try done; cbn.
    all: apply andb_false_iff; right; apply N.leb_gt; lia.
  - apply map_eq. intros key. rewrite lookup_fmap. destruct (ss !! key) as [st|] eqn:E; [|done]. cbn.
    f_equal. unfold map_partitions. destruct st as [p ps]. f_equal. cbn.
    apply list_eq. intros i. rewrite list_lookup_fmap. destruct (ps !! i) as [q|] eqn:Eq; [|done]. cbn. f_equal.
    specialize (Hl key _ i q E Eq). unfold expire_partition. destruct q; try done.
    all: rewrite decide_False by apply not_elem_of_nil;
         match goal with |- context [(?x <=? 0)%N] => replace (x <=? 0)%N with false by (symmetry; apply N.leb_gt; lia) end; done.
Qed.
End clock.

(** ** Where every partition is *)

Section local.
Context `{PlanFragments} (n : nat) (stage : StagePlan).
Context (Hinputs : sp_input_stages stage = []) (Hnoexchange : sp_output_exchange stage = None).
Context (Hcount : sp_partition_count stage = N.of_nat n) (Hid : good_id (query_text (sp_query_id stage))).

Definition local_key : StageKey := (sp_query_id stage, sp_stage_id stage).
Definition attempt_of (i : nat) : TaskAttemptId := assigned_task local_key i 0.
Definition local_lease (w : WorkerId) : TaskLease := MkTaskLease w 0 (U64_MAX / 2).

(** The running partitions with their workers, and the finished ones. *)
Record placed (ps : list PartitionRuntime) (running : list (WorkerId * nat)) (finished : list nat) : Prop := {
  placed_length : length ps = n;
  placed_finished i : i ∈ finished → ps !! i = Some (Succeeded (attempt_of i) []);
  placed_running w i : (w, i) ∈ running → ps !! i = Some (Active (attempt_of i) w (local_lease w) None);
  placed_pending i : i < n → i ∉ finished → i ∉ running.*2 → ps !! i = Some (Pending 0);
}.

Record local_inv (c : Coordinator) (running : list (WorkerId * nat)) (finished : list nat) : Prop := {
  li_wf : wf c;
  li_config : config c = local_config (N.of_nat n);
  li_queries : cancelled_queries c = ∅;
  li_stage : ∃ ps, stages c = {[ local_key := MkStageRuntime stage ps ]} ∧ placed ps running finished;
  li_distinct : NoDup (running.*2 ++ finished);
  li_workers w wr : workers c !! w = Some wr →
    alive wr = true ∧ wr_slots (registration wr) = 1%N ∧ (w ∉ running.*1 → available_slots wr = 1%N);
  li_some : workers c ≠ ∅;
}.

Lemma placed_lt ps running finished i : placed ps running finished → i ∈ running.*2 ++ finished → i < n.
Proof.
  intros Hp Hi. rewrite <-(placed_length _ _ _ Hp). apply elem_of_app in Hi as [Hi|Hi].
  - apply list_elem_of_fmap in Hi as ([w j] & -> & Hj). by eapply lookup_lt_Some, placed_running.
  - by eapply lookup_lt_Some, placed_finished.
Qed.

Lemma NoDup_bounded (l : list nat) m : NoDup l → (∀ i, i ∈ l → i < m) → length l ≤ m.
Proof.
  intros Hnd Hl. replace m with (length (seq 0 m)) by apply length_seq. apply submseteq_length, NoDup_submseteq; [done|].
  intros i Hi. apply elem_of_seq. specialize (Hl i Hi). lia.
Qed.

Lemma local_bound c running finished : local_inv c running finished → length running + length finished ≤ n.
Proof.
  intros Hi. destruct (li_stage _ _ _ Hi) as (ps & _ & Hp).
  rewrite <-(length_fmap snd running), <-length_app. apply NoDup_bounded; [apply Hi|].
  intros i. by eapply placed_lt.
Qed.

(** *** Assignment *)

Lemma local_pending c running finished key i a :
  local_inv c running finished → next_pending_partition c = Some (key, i, a) →
  key = local_key ∧ a = 0%N ∧ i < n ∧ i ∉ running.*2 ++ finished.
Proof.
  intros Hi (st & Hst & _ & _ & Hp)%next_pending_Some. destruct (li_stage _ _ _ Hi) as (ps & Hss & Hpl).
  rewrite Hss in Hst. apply lookup_singleton_Some in Hst as [<- <-]. cbn in Hp.
  assert (i < n) as Hlt by (rewrite <-(placed_length _ _ _ Hpl); by eapply lookup_lt_Some).
  assert (i ∉ running.*2 ++ finished) as Hni.
  { intros [Hin|Hin]%elem_of_app.
    - apply list_elem_of_fmap in Hin as ([w j] & -> & Hj). cbn in Hp. by rewrite (placed_running _ _ _ Hpl _ _ Hj) in Hp.
    - by rewrite (placed_finished _ _ _ Hpl _ Hin) in Hp. }
  split_and!; try done. apply not_elem_of_app in Hni as [Hr Hf].
  rewrite (placed_pending _ _ _ Hpl i) in Hp by done. congruence.
Qed.

Lemma placed_assign ps running finished w i :
  placed ps running finished → i < n → i ∉ running.*2 ++ finished →
  placed (<[i := Active (attempt_of i) w (local_lease w) None]> ps) (running ++ [(w, i)]) finished.
Proof.
  intros Hp Hi [Hr Hf]%not_elem_of_app. split.
  - rewrite length_insert. apply Hp.
  - intros j Hj. rewrite list_lookup_insert_ne by (by intros ->). by apply Hp.
  - intros w' j [Hj|Hj%list_elem_of_singleton]%elem_of_app.
    + rewrite list_lookup_insert_ne; [by apply Hp|]. intros ->. apply Hr, list_elem_of_fmap. by exists (w', j).
    + injection Hj as -> ->. apply list_lookup_insert_eq. by rewrite (placed_length _ _ _ Hp).
  - intros j Hj Hjf Hjr. rewrite fmap_app in Hjr. cbn in Hjr. apply not_elem_of_app in Hjr as [Hjr Hji].
    rewrite list_lookup_insert_ne by (intros ->; apply Hji; by left). by apply Hp.
Qed.

Lemma local_assign c running finished w wr :
  local_inv c running finished → free_worker c = Some (w, wr) →
  (next_pending_partition c = None ∧ assign_to_worker w 0 c = (Ok None, c)) ∨
  ∃ i c', assign_to_worker w 0 c =
      (Ok (Some (AssignTask PROTOCOL_VERSION stage (attempt_of i) (local_lease w) [])), c') ∧
    local_inv c' (running ++ [(w, i)]) finished.
Proof.
  intros Hi Hfree. pose proof (li_wf _ _ _ Hi) as Hwf. destruct (free_worker_Some _ _ _ Hfree) as (Hw & Hal & Hav).
  pose proof (assign_to_worker_spec c w wr 0 Hwf Hw Hal Hav) as Hs.
  destruct (next_pending_partition c) as [[[key i] a]|] eqn:En; [right|by left].
  destruct (local_pending _ _ _ _ _ _ Hi En) as (-> & -> & Hlt & Hni).
  destruct (li_stage _ _ _ Hi) as (ps & Hss & Hpl).
  rewrite (li_config _ _ _ Hi) in Hs. destruct Hs as [[Hbig _]|(st & c' & _ & Hst & Has & _ & Hg & _)].
  { exfalso. cbn in Hbig. revert Hbig. by vm_compute. }
  rewrite Hss in Hst. apply lookup_singleton_Some in Hst as [_ <-]. cbn [plan] in Has.
  assert (expected_inputs c stage (MkPartitionId (N.of_nat i)) = []) as Hin.
  { unfold expected_inputs. rewrite Hinputs. by destruct (sp_partitioned_input stage). }
  rewrite Hin in Has. change (0 + lease_duration_ms (local_config (N.of_nat n)))%N with (U64_MAX / 2)%N in Has.
  exists i, c'. split; [done|].
  destruct (assign_to_worker_state _ _ _ _ _ _ _ _ En Has) as (? & ? & ? & ? & c1 & Hm & Hset & Htake).
  injection Hm as <- <- <- <-.
  rewrite (set_partition_ok _ _ _ _ (MkStageRuntime stage ps)) in Hset;
    [|by rewrite Hss, lookup_singleton_eq|cbn; by rewrite (placed_length _ _ _ Hpl)].
  injection Hset as <-. rewrite (take_worker_slot_ok w wr) in Htake by done. injection Htake as <-.
  split; cbn.
  - apply Hg.
  - apply Hi.
  - apply Hi.
  - eexists. rewrite Hss, insert_singleton_eq. split; [done|]. by apply placed_assign.
  - rewrite fmap_app, <-app_assoc. cbn. rewrite <-Permutation_middle. constructor; [done|apply Hi].
  - intros w' wr'. rewrite fmap_app. cbn. intros [[<- <-]|[Hne Hwr']]%lookup_insert_Some.
    + destruct (li_workers _ _ _ Hi _ _ Hw) as (Ha & Hsl & _). cbn. split_and!; [done|done|].
      intros Hnin. exfalso. apply Hnin, elem_of_app. right. by left.
    + destruct (li_workers _ _ _ Hi _ _ Hwr') as (Ha & Hsl & Hfr). split_and!; [done|done|].
      intros [Hnin _]%not_elem_of_app. by apply Hfr.
  - apply insert_non_empty.
Qed.

Lemma next_assignment_local c running finished :
  local_inv c running finished →
  (next_assignment 0 c = (Ok None, c) ∧ (running = [] → n ≤ length finished)) ∨
  ∃ w i c', next_assignment 0 c =
      (Ok (Some (AssignTask PROTOCOL_VERSION stage (attempt_of i) (local_lease w) [])), c') ∧
    local_inv c' (running ++ [(w, i)]) finished.
Proof.
  intros Hi. rewrite next_assignment_eq, (advanced_zero c) by apply Hi.
  destruct (free_worker c) as [[w wr]|] eqn:Ef.
  - destruct (local_assign _ _ _ _ _ Hi Ef) as [[Hn Has]|(i & c' & Has & Hi')]; [left|right; by exists w, i, c'].
    split; [done|]. intros ->. destruct (li_stage _ _ _ Hi) as (ps & Hss & Hpl).
    replace n with (length (seq 0 n)) by apply length_seq. apply submseteq_length, NoDup_submseteq; [apply NoDup_seq|].
    intros i Hlt%elem_of_seq. destruct (decide (i ∈ finished)) as [|Hni]; [done|]. exfalso.
    refine (next_pending_None c local_key (MkStageRuntime stage ps) i 0 Hn _ _ _ _).
    + by rewrite Hss, lookup_singleton_eq.
    + rewrite (li_queries _ _ _ Hi). apply lookup_empty.
    + unfold dependencies_succeeded. cbn. by rewrite Hinputs.
    + cbn. apply Hpl; [lia|done|apply not_elem_of_nil].
  - left. split; [done|]. intros ->. exfalso.
    destruct (map_choose _ (li_some _ _ _ Hi)) as (w & wr & Hw).
    destruct (li_workers _ _ _ Hi _ _ Hw) as (Hal & _ & Hav). specialize (Hav (not_elem_of_nil _)).
    by rewrite (free_worker_None c w wr Ef Hw Hal) in Hav.
Qed.

(** *** Reports *)

Lemma placed_remove ps running1 running2 finished w i :
  placed ps (running1 ++ (w, i) :: running2) finished → NoDup ((running1 ++ (w, i) :: running2).*2 ++ finished) →
  placed (<[i := Succeeded (attempt_of i) []]> ps) (running1 ++ running2) (finished ++ [i]).
Proof.
  intros Hp Hnd.
  assert (i < n) as Hlt by (eapply placed_lt; [done|]; rewrite fmap_app; set_solver).
  rewrite fmap_app, fmap_cons, <-app_assoc in Hnd. cbn in Hnd. rewrite <-Permutation_middle in Hnd.
  apply list.NoDup_cons in Hnd as [Hni _]. rewrite app_assoc, <-fmap_app in Hni. apply not_elem_of_app in Hni as [Hnr Hnf].
  split.
  - rewrite length_insert. apply Hp.
  - intros j [Hj|Hj%list_elem_of_singleton]%elem_of_app.
    + rewrite list_lookup_insert_ne by (by intros ->). by apply Hp.
    + subst j. apply list_lookup_insert_eq. by rewrite (placed_length _ _ _ Hp).
  - intros w' j Hj. rewrite list_lookup_insert_ne by (intros ->; apply Hnr, list_elem_of_fmap; by exists (w', j)).
    apply Hp. set_solver.
  - intros j Hj [Hjf Hji]%not_elem_of_app Hjr. assert (i ≠ j) by (intros ->; apply Hji; by left).
    rewrite list_lookup_insert_ne by done. apply Hp; [done|done|]. rewrite !fmap_app in *. cbn. set_solver.
Qed.

(** A report of the running attempt passes every check. *)
Lemma report_local c running1 running2 finished w i state :
  let running := running1 ++ (w, i) :: running2 in
  local_inv c running finished → TaskState_validate_for state (attempt_of i) w = Ok tt →
  handle_worker_message (TaskUpdate PROTOCOL_VERSION w (attempt_of i) state) 0 c =
  apply_report w (attempt_of i) state 0 local_key i (attempt_of i) w (local_lease w) None c.
Proof.
  intros running Hi Hv. destruct (li_stage _ _ _ Hi) as (ps & Hss & Hpl).
  assert ((w, i) ∈ running) as Hin by (subst running; set_solver).
  pose proof (placed_running _ _ _ Hpl _ _ Hin) as Hps.
  assert (i < n) as Hlt by (rewrite <-(placed_length _ _ _ Hpl); by eapply lookup_lt_Some).
  assert (part_wf c local_key i (Active (attempt_of i) w (local_lease w) None)) as (_ & _ & _ & [wr Hwr] & _).
  { apply (li_wf _ _ _ Hi). apply part_Some. exists (MkStageRuntime stage ps). by rewrite Hss, lookup_singleton_eq. }
  assert (good_id (worker_text w)) as Hw by apply (wf_worker _ (li_wf _ _ _ Hi) _ _ Hwr).
  unfold handle_worker_message, WorkerMessage_validate, WorkerId_validate, QueryId_validate.
  rewrite (proj2 (validate_version_ok PROTOCOL_VERSION) eq_refl). cbn [mbind result_bind].
  rewrite (proj2 (validate_text_id_ok _ _) Hw). cbn [mbind result_bind].
  rewrite (proj2 (validate_text_id_ok _ (query_text (ta_query_id (attempt_of i)))) Hid). cbn [mbind result_bind].
  rewrite Hv, advance_time_advanced, (advanced_zero c) by apply Hi.
  unfold record_task_update. rewrite (proj2 (contains_key_spec _ _)) by done. cbn [negb].
  change (ta_query_id (attempt_of i), ta_stage_id (attempt_of i)) with local_key.
  rewrite Hss, lookup_singleton_eq. cbn [ok_or plan partitions].
  rewrite (proj2 (TaskAttemptId_validate_for_ok (attempt_of i) stage)) by (cbn; rewrite Hcount; split_and!; try done; lia).
  change (N.to_nat (partition_num (ta_partition_id (attempt_of i)))) with (N.to_nat (N.of_nat i)). rewrite Nat2N.id, Hps.
  cbn [expect superseded]. rewrite N.ltb_irrefl. unfold exchange_mismatch. rewrite Hnoexchange.
  unfold update_active. rewrite !decide_True by done. done.
Qed.

Lemma set_local c ps running finished i p :
  local_inv c running finished → stages c = {[ local_key := MkStageRuntime stage ps ]} → length ps = n → i < n →
  set_partition local_key i p c =
  Ok (with_stages c {[ local_key := MkStageRuntime stage (<[i := p]> ps) ]}).
Proof.
  intros Hi Hss Hps Hlt. rewrite (set_partition_ok _ _ _ _ (MkStageRuntime stage ps)).
  - by rewrite Hss, insert_singleton_eq.
  - by rewrite Hss, lookup_singleton_eq.
  - cbn. lia.
Qed.

Lemma finish_local c running1 running2 finished w i :
  let running := running1 ++ (w, i) :: running2 in
  local_inv c running finished →
  ∃ c', handle_worker_message (TaskUpdate PROTOCOL_VERSION w (attempt_of i) (TaskSucceeded 0 [])) 0 c = (Ok tt, c') ∧
    local_inv c' (running1 ++ running2) (finished ++ [i]).
Proof.
  intros running Hi. pose proof (report_local c running1 running2 finished w i (TaskSucceeded 0 []) Hi eq_refl) as Hrep.
  destruct (li_stage _ _ _ Hi) as (ps & Hss & Hpl).
  assert (i < n) as Hlt by (eapply (placed_lt _ _ _ _ Hpl); subst running; rewrite fmap_app; set_solver).
  destruct (handle_worker_message _ 0 c) as [r c'] eqn:Hmsg.
  destruct (handle_worker_message_step (TaskUpdate PROTOCOL_VERSION w (attempt_of i) (TaskSucceeded 0 [])) 0 c r c'
    (li_wf _ _ _ Hi) Logic.I Hmsg) as (Hg & _).
  cbn [apply_report] in Hrep. change (validate_reported_time "finished" 0 (local_lease w) 0) with (Ok tt : result unit) in Hrep.
  rewrite (set_local c ps running finished i) in Hrep by (done || apply Hpl). injection Hrep as -> ->.
  eexists. split; [done|]. set (c1 := with_stages c _) in *.
  assert (workers c1 = workers c) as Hw1 by done.
  split.
  - apply Hg.
  - unfold release_worker_slot. repeat case_match; apply Hi.
  - unfold release_worker_slot. repeat case_match; apply Hi.
  - exists (<[i := Succeeded (attempt_of i) []]> ps). split; [unfold release_worker_slot; by repeat case_match|].
    eapply placed_remove; [exact Hpl|apply Hi].
  - pose proof (li_distinct _ _ _ Hi) as Hnd. subst running. rewrite fmap_app, fmap_cons, <-app_assoc in Hnd. cbn in Hnd.
    rewrite fmap_app, <-app_assoc, (app_assoc (running2.*2)), Permutation_app_comm, <-app_assoc. cbn.
    rewrite <-Permutation_middle in Hnd. rewrite Permutation_app_comm. done.
  - intros w' wr'. unfold release_worker_slot. rewrite Hw1. destruct (workers c !! w) as [wr|] eqn:Ew.
    + destruct (li_workers _ _ _ Hi _ _ Ew) as (Hal & Hsl & Hav). rewrite Hal. cbn.
      intros [[<- <-]|[Hne Hwr']]%lookup_insert_Some; cbn.
      * split_and!; [done|done|]. intros _. rewrite Hsl. unfold saturating_add_u32.
        pose proof (ww_slots _ _ _ (wf_worker _ (li_wf _ _ _ Hi) _ _ Ew)) as Hsw. unfold slots_wf in Hsw. rewrite Hal, Hsl in Hsw. unfold U32_MAX. lia.
      * destruct (li_workers _ _ _ Hi _ _ Hwr') as (Ha' & Hsl' & Hav'). split_and!; [done|done|].
        intros Hni. apply Hav'. subst running. rewrite fmap_app, fmap_cons. rewrite fmap_app in Hni. cbn. set_solver.
    + cbn. intros Hwr'. destruct (li_workers _ _ _ Hi _ _ Hwr') as (Ha' & Hsl' & Hav'). split_and!; [done|done|].
      intros Hni. apply Hav'. subst running. rewrite fmap_app, fmap_cons. rewrite fmap_app in Hni. cbn.
      assert (w' ≠ w) by congruence. set_solver.
  - unfold release_worker_slot. rewrite Hw1. destruct (workers c !! w) as [wr|]; [|apply Hi].
    destruct (alive wr); [apply insert_non_empty|apply Hi].
Qed.

Lemma display_error_not_blank e : trim_is_empty (display_error e) = false.
Proof. by destruct e. Qed.

Lemma fail_local c running1 running2 finished w i e :
  let running := running1 ++ (w, i) :: running2 in
  local_inv c running finished →
  ∃ c', handle_worker_message (TaskUpdate PROTOCOL_VERSION w (attempt_of i) (failure_state e)) 0 c = (Ok tt, c').
Proof.
  intros running Hi. destruct (li_stage _ _ _ Hi) as (ps & Hss & Hpl).
  assert (i < n) as Hlt by (eapply (placed_lt _ _ _ _ Hpl); subst running; rewrite fmap_app; set_solver).
  assert (TaskState_validate_for (failure_state e) (attempt_of i) w = Ok tt) as Hv.
  { unfold failure_state. destruct (decide (e = Cancelled)); [done|]. cbn. by rewrite display_error_not_blank. }
  rewrite (report_local c running1 running2 finished w i _ Hi Hv). unfold failure_state.
  destruct (decide (e = Cancelled)); cbn [apply_report];
    change (validate_reported_time "finished" 0 (local_lease w) 0) with (Ok tt : result unit); cbn;
    rewrite (set_local c ps running finished i) by (done || apply Hpl); by eexists.
Qed.

(** ** The loops *)

Definition tasks_of (running : list (WorkerId * nat)) : list local_task :=
  (λ x, (x.1, attempt_of x.2, stage)) <$> running.
End local.

(** An exchange returns, and the size of what it delivers of a batch is a [u64] as that of
    the batch is. *)
Definition orderly_exchange `{BatchOps, ShuffleExchange} : Prop :=
  ∀ b, (batch_bytes b <= U64_MAX)%N →
    match exchange (b_schema b) [b] with
    | Ok out => no_panic (sum_bytes_u64 (batch_bytes <$> out))
    | Err _ => True
    | Panic _ => False
    end.

Section loops.
Context `{Protobuf} (n : nat) (stage : StagePlan).
Context (Hinputs : sp_input_stages stage = []) (Hnoexchange : sp_output_exchange stage = None).
Context (Hcount : sp_partition_count stage = N.of_nat n) (Hid : good_id (query_text (sp_query_id stage))).

Lemma assign_all_local fuel c running finished :
  local_inv n stage c running finished → n < fuel + (length running + length finished) →
  ∃ c' running', assign_all fuel c (tasks_of stage running) = Some (Ok (c', tasks_of stage running')) ∧
    local_inv n stage c' running' finished ∧ (running' = [] → n ≤ length finished).
Proof.
  revert c running. induction fuel as [|fuel IH]; intros c running Hi Hf.
  { pose proof (local_bound n stage Hcount _ _ _ Hi). lia. }
  cbn [assign_all].
  destruct (next_assignment_local n stage Hinputs Hcount c running finished Hi) as [[-> Hr]|(w & i & c' & -> & Hi')].
  - exists c, running. done.
  - specialize (IH c' (running ++ [(w, i)]) Hi'). rewrite length_app in IH. cbn in IH.
    unfold tasks_of in *. rewrite fmap_app in IH. cbn in IH. apply IH. lia.
Qed.

Context `{BatchOps, ShuffleExchange} (task_result : StagePlan → nat → result RecordBatch).
Context (Hreturns : orderly_exchange).

(** How a task fails the query. *)
Definition failed_with (e : SparkXError) (r : result RecordBatch) : Prop :=
  match r with
  | Ok _ => False
  | Err e' => e = e'
  | Panic why => e = Execution ("worker task failed: " +:+ why)
  end.

(** What the exchange delivers of the partial batch of a partition. *)
Definition delivered (i : nat) (out : list RecordBatch) : Prop :=
  ∃ b, task_result stage i = Ok b ∧ exchange (b_schema b) [b] = Ok out.

(** What was delivered of some partitions, each once, in the order in which they finished:
    of all of them, if the exchange delivers a batch as one batch. *)
Definition gathered (bs : list RecordBatch) : Prop :=
  ∃ parts outs, NoDup parts ∧ (∀ i, i ∈ parts → i < n) ∧ Forall2 delivered parts outs ∧ bs = concat outs ∧
    (Forall (λ out, length out = 1) outs → parts ≡ₚ seq 0 n).

(** How the loop fails: a task or the exchange fails, the memory does not suffice, or the
    exchange has swallowed a batch. *)
Definition loop_failure (e : SparkXError) : Prop :=
  (∃ i, i < n ∧ failed_with e (task_result stage i)) ∨ (∃ s b, exchange s [b] = Err e) ∨
  (∃ m, e = ResourceExhausted m) ∨
  (e = Execution "local coordinator has unfinished partitions but no running tasks" ∧ ∃ i, i < n ∧ delivered i []).

Definition loop_outcome (r : result (list RecordBatch)) : Prop :=
  match r with Ok bs => gathered bs | Err e => loop_failure e | Panic _ => False end.

Lemma reserve_check_outcome limit current bytes :
  match reserve_check limit current bytes with
  | Ok _ => True
  | Err e => ∃ m, e = ResourceExhausted m
  | Panic _ => False
  end.
Proof.
  unfold reserve_check, checked_add_u64. destruct (_ <=? _)%N; cbn; [|eauto]. destruct (_ <? _)%N; by eauto.
Qed.

Lemma try_grow_outcome memory aside own bytes :
  match try_grow memory aside own bytes with
  | Ok next => (own + bytes <= U64_MAX)%N
  | Err e => ∃ m, e = ResourceExhausted m
  | Panic _ => False
  end.
Proof.
  unfold try_grow, grow_check, checked_add_u64. destruct (N.leb_spec (own + bytes) U64_MAX) as [Hle|]; cbn; [|eauto].
  pose proof (reserve_check_outcome (tm_limit memory) (tm_others memory + aside + own) bytes) as Hr.
  destruct (reserve_check _ _ _); cbn; by eauto.
Qed.

Lemma sum_bytes_outcome l : no_panic (sum_bytes_u64 l) → ∃ total, sum_bytes_u64 l = Ok total.
Proof. unfold sum_bytes_u64. case_match; [eauto|done]. Qed.

Lemma settle_outcome memory own input output :
  match settle memory own input output with
  | Ok _ => True
  | Err e => ∃ m, e = ResourceExhausted m
  | Panic _ => False
  end.
Proof.
  unfold settle. destruct (_ <? _)%N; [|done]. pose proof (try_grow_outcome memory 0 own (output - input)) as Hg.
  by destruct (try_grow _ _ _ _).
Qed.

(** One finished task. *)
Lemma finish_task_local ev run c running1 running2 finished w i :
  local_inv n stage c (running1 ++ (w, i) :: running2) finished →
  match finish_task ev run c (tasks_of stage (running1 ++ running2)) w (attempt_of stage i) (task_result stage i) with
  | Ok run' => ∃ c' out, local_inv n stage c' (running1 ++ running2) (finished ++ [i]) ∧ delivered i out ∧
      lr_coordinator run' = c' ∧ lr_tasks run' = tasks_of stage (running1 ++ running2) ∧
      lr_partials run' = lr_partials run ++ out
  | Err e => loop_failure e
  | Panic _ => False
  end.
Proof.
  intros Hi. assert (i < n) as Hlt.
  { destruct (li_stage _ _ _ _ _ Hi) as (ps & _ & Hpl). eapply (placed_lt _ _ _ _ _ _ Hpl). rewrite fmap_app. set_solver. }
  unfold finish_task, report. destruct (task_result stage i) as [b|e|why] eqn:Er.
  - destruct (finish_local n stage Hinputs Hnoexchange Hcount Hid c running1 running2 finished w i Hi) as (c' & -> & Hi').
    cbn [mbind result_bind]. pose proof (try_grow_outcome (grow_memory ev) 0 (lr_shuffle run) (batch_bytes b)) as Hg.
    destruct (try_grow _ _ _ _) as [own|e|]; cbn; [|by right; right; left|done].
    pose proof (Hreturns b ltac:(lia)) as Hnp.
    destruct (exchange (b_schema b) [b]) as [out|e|] eqn:Ex; cbn; [|right; left; eauto|done].
    destruct (sum_bytes_outcome _ Hnp) as [total ->]. cbn [mbind result_bind].
    pose proof (settle_outcome (settle_memory ev) own (batch_bytes b) total) as Hset.
    destruct (settle _ _ _ _) as [own'|e|]; cbn; [|by right; right; left|done].
    exists c', out. split; [done|]. split; [by exists b|done].
  - destruct (fail_local n stage Hinputs Hnoexchange Hcount Hid c running1 running2 finished w i e Hi) as (c' & ->). cbn.
    left. exists i. by rewrite Er.
  - left. exists i. by rewrite Er.
Qed.

Lemma all_finished (finished : list nat) :
  NoDup finished → (∀ i, i ∈ finished → i < n) → n ≤ length finished → finished ≡ₚ seq 0 n.
Proof.
  intros Hnd Hlt Hlen. apply submseteq_length_Permutation.
  - apply NoDup_submseteq; [done|]. intros i Hi. apply elem_of_seq. specialize (Hlt i Hi). lia.
  - by rewrite length_seq.
Qed.

Lemma some_empty {A} (ls : list (list A)) : length (concat ls) < length ls → [] ∈ ls.
Proof.
  induction ls as [|l ls IH]; cbn; [lia|]. rewrite length_app. intros Hl. destruct l as [|x l]; [by left|].
  right. apply IH. cbn in Hl. lia.
Qed.

Lemma finished_lt c running finished :
  local_inv n stage c running finished → NoDup finished ∧ ∀ i, i ∈ finished → i < n.
Proof.
  intros Hi. destruct (li_stage _ _ _ _ _ Hi) as (ps & _ & Hpl). split.
  - pose proof (li_distinct _ _ _ _ _ Hi) as Hd. by apply list.NoDup_app in Hd as (_ & _ & ?).
  - intros i Hin. eapply (placed_lt _ _ _ _ _ _ Hpl). apply elem_of_app. by right.
Qed.

Lemma gathered_enough c running finished outs :
  local_inv n stage c running finished → Forall2 delivered finished outs → n ≤ length (concat outs) →
  gathered (concat outs).
Proof.
  intros Hi Hp Hle. destruct (finished_lt _ _ _ Hi) as [Hnd Hlt]. exists finished, outs. split_and!; try done.
  intros Hone. apply all_finished; [done..|]. rewrite (Forall2_length Hp).
  enough (length (concat outs) = length outs) by lia. clear -Hone.
  induction Hone as [|out outs Ho _ IH]; [done|]. cbn. rewrite length_app. lia.
Qed.

(** One round that finds the running tasks [running1]. *)
Lemma local_step_local ev c running finished outs own c1 running1 :
  assign_all (S n) c (tasks_of stage running) = Some (Ok (c1, tasks_of stage running1)) →
  local_inv n stage c1 running1 finished → (running1 = [] → n ≤ length finished) →
  Forall2 delivered finished outs → length (concat outs) < n →
  ∃ r, local_step n task_result ev (MkLocalRun c (tasks_of stage running) (concat outs) own) = Some r ∧
  match r with
  | Ok run' => ∃ running' i out, local_inv n stage (lr_coordinator run') running' (finished ++ [i]) ∧ delivered i out ∧
      lr_tasks run' = tasks_of stage running' ∧ lr_partials run' = concat (outs ++ [out])
  | Err e => loop_failure e
  | Panic _ => False
  end.
Proof.
  intros Has Hi1 Hrun Hp Hgt. unfold local_step. cbn [lr_coordinator lr_tasks]. rewrite Has. eexists. split; [done|].
  cbn [mbind result_bind]. set (k := next_task ev mod length (tasks_of stage running1)).
  assert (length (tasks_of stage running1) = length running1) as Hlen by apply length_fmap.
  destruct (decide (running1 = [])) as [->|Hne].
  { cbn. right; right; right. split; [done|]. specialize (Hrun eq_refl). rewrite (Forall2_length Hp) in Hrun.
    destruct (list_elem_of_lookup_1 outs [] (some_empty outs ltac:(lia))) as [j Hj].
    destruct (Forall2_lookup_r _ _ _ _ _ Hp Hj) as (i & Hij & Hd). exists i. split; [|done].
    destruct (finished_lt _ _ _ Hi1) as [_ Hlt]. apply Hlt. by eapply list_elem_of_lookup_2. }
  assert (k < length running1) as Hk by (subst k; rewrite Hlen; apply Nat.mod_upper_bound; by destruct running1).
  destruct (lookup_lt_is_Some_2 running1 k Hk) as [[w i] Hki].
  apply list_elem_of_split_length in Hki as (r1 & r2 & -> & Hkl).
  unfold tasks_of. rewrite fmap_app, fmap_cons. cbn [fst snd].
  rewrite lookup_app_r by (rewrite length_fmap; lia). rewrite length_fmap, <-Hkl, Nat.sub_diag. cbn [lookup list_lookup].
  replace (delete k _) with (tasks_of stage (r1 ++ r2)).
  2:{ unfold tasks_of. rewrite fmap_app. rewrite Hkl, <-(length_fmap (λ x, (x.1, attempt_of stage x.2, stage)) r1).
      by rewrite delete_middle. }
  change (task_partition (attempt_of stage i)) with (N.to_nat (N.of_nat i)). rewrite Nat2N.id.
  pose proof (finish_task_local ev (MkLocalRun c (tasks_of stage running) (concat outs) own) c1 r1 r2 finished w i Hi1) as Hfin.
  destruct (finish_task _ _ _ _ _ _ _) as [run'|e|why]; [|done..].
  destruct Hfin as (c' & out & Hi' & Hb & <- & Ht & Hpart). exists (r1 ++ r2), i, out. split_and!; try done.
  rewrite Hpart, concat_app. cbn. by rewrite app_nil_r.
Qed.

Lemma local_loop_runs events c running finished outs own :
  local_inv n stage c running finished → Forall2 delivered finished outs →
  match local_loop n task_result events (MkLocalRun c (tasks_of stage running) (concat outs) own) with
  | None => length finished + length events ≤ n
  | Some r => loop_outcome r
  end.
Proof.
  revert c running finished outs own. induction events as [|ev events IH]; intros c running finished outs own Hi Hp.
  all: cbn [local_loop lr_partials]; destruct (decide (n ≤ length (concat outs))) as [Hle|Hgt]; [by eapply gathered_enough|].
  { pose proof (local_bound n stage Hcount _ _ _ Hi). cbn. lia. }
  destruct (assign_all_local (S n) c running finished Hi) as (c1 & running1 & Has & Hi1 & Hrun); [lia|].
  destruct (local_step_local ev c running finished outs own c1 running1 Has Hi1 Hrun Hp) as (r & -> & Hr); [lia|].
  destruct r as [[c2 ts ps own']|e|why]; [|done..]. destruct Hr as (running' & i & out & Hi' & Hd & Ht & Hps). cbn in *. subst ts ps.
  specialize (IH c2 running' (finished ++ [i]) (outs ++ [out]) own' Hi'). rewrite length_app in IH. cbn in IH.
  assert (Forall2 delivered (finished ++ [i]) (outs ++ [out])) as Hp' by (apply Forall2_app; [done|by constructor]).
  specialize (IH Hp'). destruct (local_loop _ _ _ _); [done|]. cbn. lia.
Qed.
End loops.

(** ** The coordinator a run starts with *)

Section start.
Context `{Protobuf, FloatDisplay, BatchOps} (n : nat) (stage : StagePlan) (memory_limit : N).

(** A coordinator that has only the stage, before or after some registrations. *)
Record starting (c : Coordinator) : Prop := {
  st_wf : wf c;
  st_config : config c = local_config (N.of_nat n);
  st_queries : cancelled_queries c = ∅;
  st_stages : stages c = {[ local_key stage := MkStageRuntime stage (replicate n (Pending 0)) ]};
  st_workers w wr : workers c !! w = Some wr →
    alive wr = true ∧ wr_slots (registration wr) = 1%N ∧ available_slots wr = 1%N;
}.

Lemma register_local_starting c k c' :
  starting c → register_local memory_limit c k = Ok c' → starting c' ∧ workers c' ≠ ∅.
Proof.
  intros Hs. unfold register_local. destruct (WorkerId_new _) as [w| |]; [|done..]. cbn [mbind result_bind].
  destruct (handle_worker_message _ 0 c) as [r c1] eqn:Hm. destruct r as [u| |]; [|done..]. cbn. intros [= <-].
  assert (typed_message (Register PROTOCOL_VERSION (MkWorkerRegistration w 1 memory_limit))) as Ht
    by (cbn; unfold U32_MAX; lia).
  destruct (handle_worker_message_step _ _ _ _ _ (st_wf _ Hs) Ht Hm) as ([Hwf _ _ _] & _).
  unfold handle_worker_message in Hm. destruct (WorkerMessage_validate _); [|done..].
  rewrite advance_time_advanced, (advanced_zero c) in Hm by apply Hs. unfold register_worker in Hm.
  destruct (contains_key _ _); [done|]. injection Hm as _ <-.
  split; [|apply insert_non_empty]. split; [done|apply Hs..|].
  intros w' wr'. cbn. intros [[<- <-]|[_ Hw]]%lookup_insert_Some; [done|]. by eapply st_workers.
Qed.

Lemma register_all_starting l c c' :
  starting c → fold_result (register_local memory_limit) c l = Ok c' →
  starting c' ∧ (l ≠ [] → workers c' ≠ ∅).
Proof.
  intros Hs. revert c'. induction l as [|k l IH] using rev_ind; intros c'; [by intros [= <-]|].
  rewrite fold_result_app. destruct (fold_result _ c l) as [c1| |]; [|done..]. cbn.
  destruct (register_local memory_limit c1 k) as [c2| |] eqn:Hk; [|done..]. intros [= <-].
  destruct (register_local_starting c1 k c2) as [? ?]; [by apply IH|done|done].
Qed.

Lemma starting_local c : starting c → workers c ≠ ∅ → local_inv n stage c [] [].
Proof.
  intros Hs Hw. split; try apply Hs; [|apply NoDup_nil_2| |done].
  2:{ intros w wr Hwr. by destruct (st_workers _ Hs _ _ Hwr) as (? & ? & ?). }
  eexists. split; [apply Hs|]. split.
  - apply length_replicate.
  - intros i Hi. by apply not_elem_of_nil in Hi.
  - intros w i Hi. by apply not_elem_of_nil in Hi.
  - intros i Hi _ _. by apply lookup_replicate_2.
Qed.
End start.

(** ** A whole run *)

Section run.
Context `{Protobuf, FloatDisplay, ScalarDebug, Kernels, BatchOps, SortOps, RowConverter, Sizes, MergeSizes, ShuffleExchange}.
Context (catalog : Catalog) (memory_limit : N) (task_env : nat → nat → Site) (task_memory : nat → TaskMemory)
  (memory : TaskMemory) (workers : nat).

(** The stage every task of the run receives. *)
Definition local_stage (n : nat) (input : PhysicalPlan) : result StagePlan :=
  from_physical_plan (MkQueryId "local-cluster-query") (MkStageId 0) [] (N.of_nat n) input.

Lemma run_partitions_pos plan n : local_strategy plan = RunPartitions n → 0 < n.
Proof.
  destruct plan; try done. cbn. destruct (contains_join _); [done|]. destruct (existsb _ _); [done|].
  destruct (scan_partitions _) as [m|]; [|done]. destruct (Nat.leb_spec m 1); [done|]. intros [= <-]. lia.
Qed.

Lemma local_stage_shape n input stage :
  local_stage n input = Ok stage →
  sp_input_stages stage = [] ∧ sp_output_exchange stage = None ∧ sp_partition_count stage = N.of_nat n ∧
  good_id (query_text (sp_query_id stage)).
Proof.
  unfold local_stage, from_physical_plan. destruct (codec_encode input); [|done..]. cbn [mbind result_bind].
  destruct (StagePlan_validate _); [|done..]. cbn. intros [= <-]. split_and!; try done.
Qed.

Lemma submitted_starting n stage c :
  0 < n → (N.of_nat n <= U32_MAX)%N → sp_partition_count stage = N.of_nat n →
  (c0 ← Coordinator_new (local_config (N.of_nat n)); let '(r, c) := submit_stage stage c0 in _ ← r; Ok c) = Ok c →
  starting n stage c.
Proof.
  intros Hn Hmax Hcount. destruct (Coordinator_new _) as [c0| |] eqn:Ec; [|done..]. cbn [mbind result_bind].
  assert (typed_config (local_config (N.of_nat n))) as Ht by (split; cbn; [unfold U32_MAX; lia|done]).
  destruct (new_wf _ _ Ht Ec) as [Hwf _].
  destruct (submit_stage stage c0) as [r c1] eqn:Esub. destruct (submit_stage_step _ _ _ _ Hwf Esub) as ([Hwf1 _ _ _] & _).
  destruct r; [|done..]. cbn. intros [= <-].
  assert (c0 = MkCoordinator (local_config (N.of_nat n)) ∅ ∅ ∅) as ->.
  { unfold Coordinator_new, CoordinatorConfig_validate in Ec. repeat (case_match; [done|]). by injection Ec as <-. }
  unfold submit_stage in Esub. destruct (submit_checks _ _); [|done..]. injection Esub as _ <-.
  split; [done|done|done| |done]. cbn. by rewrite Hcount, Nat2N.id, insert_empty.
Qed.

Lemma local_start_local k n input c :
  0 < n → 0 < k → local_start k memory_limit n input = Ok c →
  ∃ stage, local_stage n input = Ok stage ∧ local_inv n stage c [] [].
Proof.
  intros Hn Hw. unfold local_start, try_u32. destruct (N.leb_spec (N.of_nat n) U32_MAX) as [Hmax|]; [|done].
  cbn [ok_or mbind result_bind]. change (QueryId_new "local-cluster-query") with (Ok (MkQueryId "local-cluster-query")).
  cbn [mbind result_bind]. fold (local_stage n input). destruct (local_stage n input) as [stage| |] eqn:Es; [|done..].
  cbn [mbind result_bind]. destruct (local_stage_shape _ _ _ Es) as (_ & _ & Hcount & _).
  pose proof (λ c, submitted_starting n stage c Hn Hmax Hcount) as Hstart.
  destruct (Coordinator_new _) as [c0| |]; [|done..]. cbn [mbind result_bind] in *.
  destruct (submit_stage stage c0) as [r c1]. destruct r; [|done..]. cbn [mbind result_bind] in *.
  intros Hreg. destruct (register_all_starting n stage memory_limit _ c1 c (Hstart c1 eq_refl) Hreg) as [Hc Hne].
  exists stage. split; [done|]. apply starting_local; [done|]. apply Hne.
  destruct (Nat.min k n) eqn:E; [lia|]. done.
Qed.

(** What a run that is set up makes of its query. *)
Definition cluster_outcome (n : nat) (input : PhysicalPlan) (group_exprs aggregate_exprs : list Expr) (schema : Schema)
    (r : result ClusterResult) : Prop :=
  let task := partial_task catalog task_env task_memory group_exprs in
  match local_prepare memory_limit memory (LocalCluster_new workers) n input group_exprs aggregate_exprs with
  | Err e => r = Err e
  | Panic why => r = Panic why
  | Ok (pe, ps, _, _) => ∃ stage, local_stage n input = Ok stage ∧
      ((∃ partials, gathered n stage (task pe ps) partials ∧
          r = local_finish memory group_exprs aggregate_exprs schema partials) ∨
       (∃ e, r = Err e ∧ loop_failure n stage (task pe ps) e))
  end.

Lemma local_cluster_run events env partition id input group_exprs aggregate_exprs schema n :
  let plan := PHashAggregate id input group_exprs aggregate_exprs schema in
  local_strategy plan = RunPartitions n → orderly_exchange →
  match LocalCluster_execute catalog memory_limit task_env task_memory memory (LocalCluster_new workers) events env
          partition plan with
  | None => length events ≤ n
  | Some r => cluster_outcome n input group_exprs aggregate_exprs schema r
  end.
Proof.
  intros plan Hs Hret. unfold LocalCluster_execute, plan. fold plan. rewrite Hs.
  unfold execute_partitions, cluster_outcome. unfold local_prepare at 1 2.
  assert (0 < n) as Hn by (by apply (run_partitions_pos plan)).
  destruct (partial_aggregate_exprs aggregate_exprs) as [pe| |]; cbn [mbind result_bind]; [|done..].
  destruct (aggregate_schema _ _ _) as [ps| |]; cbn [mbind result_bind]; [|done..].
  destruct (local_start _ _ _ _) as [c| |] eqn:Ec; cbn [mbind result_bind]; [|done..].
  destruct exchange_start; cbn [mbind result_bind]; [|done..].
  destruct (try_reserve _ _ _) as [own| |]; cbn [mbind result_bind]; [|done..].
  assert (0 < LocalCluster_new workers) as Hw by (unfold LocalCluster_new; lia).
  destruct (local_start_local _ n input c Hn Hw Ec) as (stage & Hst & Hinv).
  destruct (local_stage_shape _ _ _ Hst) as (H1' & H2' & H3' & H4').
  pose proof (local_loop_runs n stage H1' H2' H3' H4' (partial_task catalog task_env task_memory group_exprs pe ps) Hret
    events c [] [] [] own Hinv ltac:(constructor)) as Hr. cbn [concat] in Hr.
  change (tasks_of stage []) with (@nil local_task) in Hr.
  destruct (local_loop _ _ _ _) as [r|]; [|exact Hr]. exists stage. split; [done|].
  destruct r as [partials|e|]; [left; by exists partials|right; by exists e|done].
Qed.

End run.
