(* ===== verification/ClusterRefines.v ===== *)
(** * The in-process cluster returns what one node returns

    A distributed aggregation over scans, filters and projections is a run of the
    single-node executor: the one whose scan delivers the partitions in the order in
    which the tasks of the cluster finished. *)
From S2P Require Import Prelude Text Protocol Float Expr ExprProps SchemaProps Logical Catalog Physical Memory Execution HashJoin Aggregate AggregateProps Executor ExecutorProps OperatorProps ScanProps PlanCodec PlanCodecProps Distributed DistributedProps Stages LocalCluster LocalClusterProps.

(** ** Schedules *)

(** The streams one after the other, in an order. *)
Definition in_order {A} (order : list nat) (ss : list (list A)) : list A :=
  mjoin ((λ k, default [] (ss !! k)) <$> order).

Definition schedule_of {A} (order : list nat) (ss : list (list A)) : list nat :=
  mjoin ((λ k, replicate (length (default [] (ss !! k))) k) <$> order).

Lemma interleave_drains {A} k (s : list A) schedule ss :
  ss !! k = Some s → interleave (replicate (length s) k ++ schedule) ss = s ++ interleave schedule (<[k := []]> ss).
Proof.
  revert ss. induction s as [|x s IH]; intros ss Hk; cbn; [by rewrite list_insert_id|].
  rewrite Hk. f_equal. rewrite IH by (apply list_lookup_insert_eq; by eapply lookup_lt_Some).
  by rewrite list_insert_insert_eq.
Qed.

Lemma in_order_insert {A} order k (ss : list (list A)) :
  k ∉ order → in_order order (<[k := []]> ss) = in_order order ss ∧ schedule_of order (<[k := []]> ss) = schedule_of order ss.
Proof.
  intros Hk. unfold in_order, schedule_of. split; f_equal; apply list_fmap_ext; intros i j Hj;
    rewrite list_lookup_insert_ne; try done; intros ->; by apply list_elem_of_lookup_2 in Hj.
Qed.

(** Some schedule delivers the streams in a given order. *)
Lemma interleave_in_order {A} order (ss : list (list A)) :
  order ≡ₚ seq 0 (length ss) → interleave (schedule_of order ss) ss = in_order order ss.
Proof.
  intros Hp. assert (NoDup order) as Hnd by (rewrite Hp; apply NoDup_seq).
  assert (∀ k s, ss !! k = Some s → k ∉ order → s = []) as Hrest.
  { intros k s Hk Hn. destruct Hn. rewrite Hp. apply elem_of_seq. apply lookup_lt_Some in Hk. lia. }
  assert (∀ k, k ∈ order → k < length ss) as Hin by (intros k; rewrite Hp, elem_of_seq; lia).
  clear Hp. revert ss Hrest Hin. induction Hnd as [|k order Hk _ IH]; intros ss Hrest Hin.
  - unfold in_order. cbn. induction ss as [|s ss IH]; [done|]. cbn.
    rewrite (Hrest 0 s eq_refl) by by apply not_elem_of_nil. apply IH; [|by intros ? ?%elem_of_nil].
    intros j t Hj _. apply (Hrest (S j) t Hj). by apply not_elem_of_nil.
  - destruct (lookup_lt_is_Some_2 ss k ltac:(apply Hin; by left)) as [s Hs].
    assert (schedule_of (k :: order) ss = replicate (length s) k ++ schedule_of order ss) as ->
      by (unfold schedule_of; rewrite fmap_cons; cbn [mjoin list_join]; by rewrite Hs).
    assert (in_order (k :: order) ss = s ++ in_order order ss) as ->
      by (unfold in_order; rewrite fmap_cons; cbn [mjoin list_join]; by rewrite Hs).
    rewrite interleave_drains by done.
    destruct (in_order_insert order k ss Hk) as [<- <-]. f_equal. apply IH.
    + intros j t Hj Hn. destruct (decide (j = k)) as [->|Hne].
      * rewrite list_lookup_insert_eq in Hj by by eapply lookup_lt_Some. by injection Hj.
      * rewrite list_lookup_insert_ne in Hj by done. apply (Hrest j t Hj). by intros [->|?]%elem_of_cons.
    + intros j Hj. rewrite length_insert. apply Hin. by right.
Qed.

Lemma interleave_one {A} schedule (s : list A) : interleave schedule [s] = s.
Proof.
  revert s. induction schedule as [|k schedule IH]; intros s; cbn; [by rewrite app_nil_r|].
  destruct k as [|k]; cbn; [|apply IH]. destruct s as [|x s]; [apply IH|]. cbn. by rewrite IH.
Qed.

(** ** Row by row *)

(** Scans, filters and projections that can run. *)
Fixpoint steady `{K : Kernels, !BatchOps} (p : PhysicalPlan) : Prop :=
  match p with
  | PScan _ _ provider projection filters s =>
      honest provider ∧ native_schema s ∧ uniform_schema s ∧
      Forall2 (source_field provider) s (default (seq 0 (length (tp_schema provider))) projection) ∧
      Forall (λ e, expr_ok s e e) filters
  | PProjection _ input exprs s =>
      steady input ∧ Forall (λ e, expr_ok (physical_schema input) e e) exprs ∧ native_schema s
  | PFilter _ input predicate s => steady input ∧ expr_ok (physical_schema input) predicate predicate ∧ s = physical_schema input
  | _ => False
  end.

Section rows.
Context `{K : Kernels, !KernelLaws K, !KernelsReturn K, B : BatchOps, !BatchLaws B}.
Context `{FD : FloatDisplay, SD : ScalarDebug, SO : SortOps, RC : RowConverter, SZ : Sizes}.

(** What a plan does to a batch of its scan. *)
Fixpoint row_op (p : PhysicalPlan) (b : RecordBatch) : result RecordBatch :=
  match p with
  | PProjection _ input exprs s => b ← row_op input b; project_batch b exprs s
  | PFilter _ input predicate _ => b ← row_op input b; filter_batch b predicate
  | _ => Ok b
  end.

Definition on_item (p : PhysicalPlan) (item : result RecordBatch) : result RecordBatch := b ← item; row_op p b.

Fixpoint leaf_scans (schedule : list nat) (part : option nat) (p : PhysicalPlan) : stream :=
  match p with
  | PScan _ _ provider projection filters _ =>
      interleave schedule (execute_scan false provider projection filters <$> scan_tasks provider part)
  | PProjection _ input _ _ | PFilter _ input _ _ => leaf_scans schedule part input
  | _ => []
  end.

(** Nothing is lost of an honest table. *)
Lemma scan_full full provider projection filters k :
  honest provider → execute_scan full provider projection filters k = execute_scan false provider projection filters k.
Proof. intros Hp. unfold execute_scan. by rewrite (honest_unpruned _ Hp). Qed.

Lemma scan_items_fit provider projection filters s k :
  honest provider → native_schema s → uniform_schema s →
  Forall2 (source_field provider) s (default (seq 0 (length (tp_schema provider))) projection) →
  Forall (λ e, expr_ok s e e) filters → Forall (item_fits s) (execute_scan false provider projection filters k).
Proof.
  intros Hp Hn Hu Hs Hf. unfold execute_scan. rewrite (honest_unpruned _ Hp).
  rewrite (scan_selects provider projection s _ k Hp Hs eq_refl). pose proof (honest_batches _ Hp k) as Hbs.
  destruct (tp_scan_partition provider k None) as [bs| |]; cbn; [|by repeat constructor..].
  apply scan_batches_fit; [done|]. apply Forall_fmap. eapply list.Forall_impl; [by apply Hbs|].
  intros b [Hb1 Hb2]. by eapply source_fits.
Qed.

Lemma project_returns s b es t : fits s b → Forall (λ e, expr_ok s e e) es → no_panic (project_batch b es t).
Proof.
  intros Hb Hes. unfold project_batch. assert (no_panic (collect (λ e, evaluate e b) es)) as Hnp.
  { induction Hes as [|e es [He Hr _] _ IH]; [done|]. cbn [collect]. rewrite (evaluate_relabel s) by done.
    pose proof (evaluate_no_panic _ e (fit_ok _ _ Hb) (proj2 (proj2 He))) as Hnp.
    destruct (evaluate e (relabel s b)); [|done|done]. cbn. by destruct (collect _ es). }
  destruct (collect _ es); [|done|done]. cbn. apply law_new_returns.
Qed.

Lemma project_fits s b es t c :
  fits s b → Forall (λ e, expr_ok s e e) es → native_schema t → project_batch b es t = Ok c → fits t c.
Proof.
  intros Hb Hes Ht Hc. pose proof (project_refines s t b b es es (same_refl _ _ Hb) (Forall_Forall2_diag _ _ Hes) Ht) as Hr.
  rewrite Hc in Hr. destruct Hr as (? & _ & Hs). apply Hs.
Qed.

(** An operator over items that fit works item by item. *)
Lemma emit_items s (f : RecordBatch → result RecordBatch) (run : stream → stream) st :
  run [] = [] → (∀ item st, run (item :: st) = emit (b ← item; f b) (run st)) →
  (∀ b, fits s b → no_panic (f b)) → Forall (item_fits s) st → run st = (λ item, b ← item; f b) <$> st.
Proof.
  intros Hnil Hcons Hf. induction 1 as [|item st Hi _ IH]; [done|]. rewrite Hcons, fmap_cons, IH.
  destruct item as [b| |]; [|done|done]. cbn. specialize (Hf b Hi). by destruct (f b).
Qed.

Lemma on_item_fits s t (f : RecordBatch → result RecordBatch) st :
  (∀ b, fits s b → no_panic (f b)) → (∀ b c, fits s b → f b = Ok c → fits t c) → Forall (item_fits s) st →
  Forall (item_fits t) ((λ item, b ← item; f b) <$> st).
Proof.
  intros Hnp Hf Hst. apply Forall_fmap. eapply list.Forall_impl; [exact Hst|]. intros [b| |] Hb; [|done|done]. cbn.
  specialize (Hnp b Hb). destruct (f b) as [c| |] eqn:E; [|done|done]. by eapply Hf.
Qed.

Lemma execute_steady env part n p :
  steady p → execute env part n p = on_item p <$> leaf_scans (site_schedule (env n)) part p ∧
    Forall (item_fits (physical_schema p)) (execute env part n p).
Proof.
  induction p as [id name provider pr fs s|id i IH es s|id i IH e s| | | | |]; cbn [steady]; try done.
  - intros (Hp & Hn & Hu & Hs & Hf). cbn [execute leaf_scans physical_schema]. unfold execute_scans.
    rewrite (list_fmap_ext (λ k, execute_scan (site_full (env n) k) provider pr fs k) (execute_scan false provider pr fs))
      by (intros; by apply scan_full). split.
    + symmetry. etrans; [|apply list_fmap_id]. apply list_fmap_ext. intros _ [] _; done.
    + rewrite interleave_Permutation. apply Forall_concat, Forall_fmap, list.Forall_forall. intros k _.
      by apply scan_items_fit.
  - intros (Hi & Hes & Hn). destruct (IH Hi) as [Ex Hfit]. cbn [execute leaf_scans physical_schema].
    pose proof (emit_items (physical_schema i) (λ b, project_batch b es s) (λ st, execute_projection st es s)
      (execute env part n i) eq_refl (λ _ _, eq_refl) ltac:(intros; by eapply project_returns) Hfit) as E.
    cbn in E. rewrite E. split.
    + rewrite Ex, <-list_fmap_compose. apply list_fmap_ext. intros _ [] _; done.
    + eapply on_item_fits; [|intros; by eapply project_fits|done]. intros; by eapply project_returns.
  - intros (Hi & He & ->). destruct (IH Hi) as [Ex Hfit]. cbn [execute leaf_scans physical_schema].
    pose proof (emit_items (physical_schema i) (λ b, filter_batch b e) (λ st, execute_filter st e)
      (execute env part n i) eq_refl (λ _ _, eq_refl) ltac:(intros; by eapply filter_returns) Hfit) as E.
    cbn in E. rewrite E. split.
    + rewrite Ex, <-list_fmap_compose. apply list_fmap_ext. intros _ [] _; done.
    + eapply on_item_fits; [|intros; by eapply filter_fits|done]. intros; by eapply filter_returns.
Qed.

(** A whole scan interleaves the tasks of the partitions. *)
Lemma steady_whole env n p count :
  steady p → scan_partitions p = Some count →
  execute env None n p =
  interleave (site_schedule (env n)) ((λ k, execute env (Some k) n p) <$> seq 0 count).
Proof.
  intros Hp Hc. destruct (execute_steady env None n p Hp) as [-> _].
  assert (∀ q, steady q → scan_partitions q = Some count →
    leaf_scans (site_schedule (env n)) None q =
    interleave (site_schedule (env n)) ((λ k, leaf_scans (site_schedule (env n)) (Some k) q) <$> seq 0 count)) as Hleaf.
  { induction q; cbn [steady scan_partitions leaf_scans]; try done; try tauto.
    intros _ [= <-]. cbn. f_equal. apply list_fmap_ext. intros _ k _. cbn. by rewrite interleave_one. }
  rewrite (Hleaf p Hp Hc), <-interleave_fmap. f_equal. rewrite <-list_fmap_compose. apply list_fmap_ext.
  intros _ k _. cbn. by destruct (execute_steady env (Some k) n p Hp) as [-> _].
Qed.

(** A task of one partition does not depend on the schedule. *)
Lemma steady_task env env' n n' k p : steady p → execute env (Some k) n p = execute env' (Some k) n' p.
Proof.
  intros Hp. destruct (execute_steady env (Some k) n p Hp) as [-> _].
  destruct (execute_steady env' (Some k) n' p Hp) as [-> _]. f_equal.
  clear Hp. induction p; cbn [leaf_scans]; try done. cbn. by rewrite !interleave_one.
Qed.

Lemma ok_items_inj (bs bs' : list RecordBatch) : Ok <$> bs = Ok <$> bs' → bs = bs'.
Proof.
  revert bs'. induction bs as [|b bs IH]; intros [|b' bs'] E; try done. rewrite !fmap_cons in E.
  injection E as -> E. f_equal. by apply IH.
Qed.

Lemma collected_stream memory aside st bs own :
  collect_with_memory memory aside st = Ok (bs, own) → st = Ok <$> bs.
Proof.
  unfold collect_with_memory. intros (o & _ & Hf)%bind_ok.
  enough (∀ acc o bs own, fold_result (λ s item, b ← item; own ← try_grow memory aside s.2 (batch_bytes b);
    Ok (s.1 ++ [b], own)) (acc, o) st = Ok (bs, own) → ∃ rest, bs = acc ++ rest ∧ st = Ok <$> rest) as Hgo
    by (by destruct (Hgo _ _ _ _ Hf) as (rest & -> & ->)).
  clear. induction st as [|item st IH]; intros acc o bs own Hf; cbn in Hf.
  - injection Hf as <- _. exists []. by rewrite app_nil_r.
  - destruct item as [b| |]; [|done..]. cbn in Hf. destruct (try_grow _ _ _ _) as [o'| |]; [|done..]. cbn in Hf.
    destruct (IH _ _ _ _ Hf) as (rest & -> & ->). exists (b :: rest). by rewrite <-app_assoc.
Qed.
End rows.

(** ** Refinement *)

Section refinement.
Context `{Protobuf, FloatDisplay, ScalarDebug, K : Kernels, !KernelLaws K, !KernelsReturn K, B : BatchOps, !BatchLaws B, SortOps}.
Context `{C : RowConverter, !RowLaws C, !MergeLaws B C, Sizes, MergeSizes, ShuffleExchange}.
Context (catalog : Catalog) (memory_limit : N) (task_env : nat → nat → Site) (task_memory : nat → TaskMemory)
  (memory : TaskMemory).

(** The stage of a run decodes to its input. *)
Lemma local_stage_decodes n input stage :
  typed_plan catalog input → plan_named input = true → transports input → local_stage n input = Ok stage →
  decode_physical_plan stage catalog = Ok input.
Proof.
  intros Ht Hn Htr. unfold local_stage, from_physical_plan. intros (bytes & Hb & Hs)%bind_ok.
  apply bind_ok in Hs as ([] & Hv & [= <-]). unfold decode_physical_plan. rewrite Hv. cbn [mbind result_bind sp_plan_fragment].
  by destruct (fragment_round_trip catalog input bytes).
Qed.

(** What a task has collected and what it made of it. *)
Lemma task_collected input groups pe ps stage i pb :
  decode_physical_plan stage catalog = Ok input →
  partial_task catalog task_env task_memory groups pe ps stage i = Ok pb →
  ∃ bs m, execute (task_env i) (Some i) 0 input = Ok <$> bs ∧ hash_aggregate_with_memory m bs groups pe ps = Ok pb.
Proof.
  intros Hd. unfold partial_task. rewrite Hd. cbn [mbind result_bind]. intros ([bs own] & Hc & Ha)%bind_ok.
  exists bs. eexists. split; [by eapply collected_stream|done].
Qed.

Lemma tasks_collected input groups pe ps stage parts partials :
  decode_physical_plan stage catalog = Ok input →
  Forall2 (λ i b, partial_task catalog task_env task_memory groups pe ps stage i = Ok b) parts partials →
  ∃ bss, Forall2 (λ i bs, execute (task_env i) (Some i) 0 input = Ok <$> bs) parts bss ∧
    Forall2 (λ bs pb, ∃ m, hash_aggregate_with_memory m bs groups pe ps = Ok pb) bss partials.
Proof.
  intros Hd. induction 1 as [|i pb parts partials Hi _ (bss & Hb & Hp)]; [exists []; by repeat constructor|].
  destruct (task_collected _ _ _ _ _ _ _ Hd Hi) as (bs & m & Hx & Ha). exists (bs :: bss). split; constructor; eauto.
Qed.

Lemma collected_fit input env part n bs :
  steady input → execute env part n input = Ok <$> bs → Forall (fits (physical_schema input)) bs.
Proof.
  intros Hs Hx. destruct (execute_steady env part n input Hs) as [_ Hf]. rewrite Hx in Hf.
  rewrite Forall_fmap in Hf. exact Hf.
Qed.

(** The single-node run that delivers the partitions in the order of the tasks. *)
Lemma whole_in_order input n parts bss env :
  steady input → scan_partitions input = Some n → parts ≡ₚ seq 0 n →
  Forall2 (λ i bs, execute (task_env i) (Some i) 0 input = Ok <$> bs) parts bss →
  site_schedule (env 1) = schedule_of parts ((λ k, execute (task_env k) (Some k) 0 input) <$> seq 0 n) →
  execute env None 1 input = Ok <$> concat bss.
Proof.
  intros Hs Hn Hp Hb Henv. rewrite (steady_whole env 1 input n Hs Hn), Henv.
  rewrite (list_fmap_ext (λ k, execute env (Some k) 1 input) (λ k, execute (task_env k) (Some k) 0 input))
    by (intros; by apply steady_task).
  rewrite interleave_in_order by by rewrite length_fmap, length_seq.
  assert (Forall (λ i, i < n) parts) as Hlt.
  { rewrite Hp. apply list.Forall_forall. intros i ?%elem_of_seq. lia. }
  clear Hp Henv. unfold in_order. induction Hb as [|i bs parts bss Hi _ IH]; [done|].
  apply list.Forall_cons in Hlt as [Hi' Hlt]. rewrite fmap_cons. cbn [concat]. change (mjoin (?x :: ?l)) with (x ++ mjoin l). rewrite fmap_app, IH by done.
  f_equal. rewrite list_lookup_fmap, lookup_seq_lt by done. cbn. exact Hi.
Qed.

Lemma relabelled s bs : Forall (fits s) bs → Forall2 (same s) bs (relabel s <$> bs).
Proof.
  induction 1 as [|b bs Hb _ IH]; [constructor|]. rewrite fmap_cons. constructor; [|done].
  split; try done. split; [apply Hb|done].
Qed.

(** The merge of the partial aggregations is the aggregation of everything. *)
Lemma merged_whole s groups aggs specs pe ps schema bss partials mm ml merged whole :
  Forall (Forall (fits s)) bss → Forall (λ e, expr_ok s e e) groups →
  collect aggregate_spec aggs = Ok specs → Forall exact_spec specs → Forall (λ x, spec_ok s x x) specs →
  partial_aggregate_exprs aggs = Ok pe → aggregate_schema s groups pe = Ok ps → aggregate_schema s groups aggs = Ok schema →
  Forall2 (λ bs pb, ∃ m, hash_aggregate_with_memory m bs groups pe ps = Ok pb) bss partials →
  merge_partials mm partials (length groups) aggs schema = Ok merged →
  hash_aggregate_with_memory ml (concat bss) groups aggs schema = Ok whole →
  merged = whole.
Proof.
  intros Hf Hg Hs Hex Hok Hpe Hps Hsch Hp Hm Hw. pose proof (partial_specs _ _ _ Hpe Hs Hex) as Hs'.
  apply (distributed_aggregation_correct s groups specs aggs pe ps schema (fmap (M:=list) (relabel s) <$> bss) partials mm ml);
    try done.
  - apply Forall_fmap. eapply list.Forall_impl; [exact Hf|]. intros bs Hbs. apply Forall_fmap.
    eapply list.Forall_impl; [exact Hbs|]. intros b Hb. split; [apply Hb|done].
  - eapply list.Forall_impl; [exact Hg|]. intros e [(Hc & Ht & _) _ _]. unfold group_key. by rewrite Hc, Ht.
  - eapply list.Forall_impl; [exact Hok|]. intros x (_ & _ & [[-> _]|[_ [(Hc & Ht & _) _ _]]]); [by left|right].
    unfold group_key. by rewrite Hc, Ht.
  - apply Forall2_fmap_l. clear Hw Hm. induction Hp as [|bs pb bss partials (m & Hm) _ IH]; [constructor|].
    apply list.Forall_cons in Hf as [Hf Hfs]. constructor; [|by apply IH]. exists m.
    eapply hash_aggregate_same; [by apply relabelled|done..].
  - rewrite <-concat_map. eapply hash_aggregate_same; [|done..]. apply relabelled. by apply Forall_concat.
Qed.

Lemma run_partitions_input id input groups aggs schema n :
  local_strategy (PHashAggregate id input groups aggs schema) = RunPartitions n → scan_partitions input = Some n.
Proof.
  cbn. destruct (contains_join input); [done|]. destruct (existsb _ _); [done|].
  destruct (scan_partitions input) as [m|]; [|done]. destruct (m <=? 1); [done|]. by intros [= ->].
Qed.

(** An exchange that delivers a batch as that batch hands on the partial batches. *)
Lemma gathered_whole n stage task partials :
  (∀ i b out, task stage i = Ok b → exchange (b_schema b) [b] = Ok out → out = [b]) →
  gathered n stage task partials →
  ∃ parts, parts ≡ₚ seq 0 n ∧ Forall2 (λ i b, task stage i = Ok b) parts partials.
Proof.
  intros Hecho (parts & outs & _ & _ & Hd & -> & Hall).
  assert (∃ bs, outs = (λ b, [b]) <$> bs ∧ Forall2 (λ i b, task stage i = Ok b) parts bs) as (bs & -> & Hbs).
  { clear Hall. induction Hd as [|i out parts outs (b & Hb & Hx) _ (bs & -> & IH)]; [by exists []|].
    exists (b :: bs). rewrite (Hecho _ _ _ Hb Hx). split; [done|by constructor]. }
  exists parts. split; [apply Hall, Forall_fmap; by apply list.Forall_forall|].
  replace (concat _) with bs; [done|]. clear. induction bs as [|b bs IH]; [done|]. cbn. by rewrite <-IH.
Qed.

(** C36: a distributed aggregation is a single-node one.  Take a COUNT, MIN or MAX
    aggregation (without DISTINCT, its group and argument expressions evaluable on the
    input, [expr_ok]) over scans of honest tables, filters and projections ([steady]) that is typed over the catalog of the workers and survives Protobuf, and an
    exchange that delivers each partial batch of the query as that one batch.  Whatever
    answer [LocalCluster::execute] returns for it, whichever order its tasks finish in,
    there is a schedule of the scan tasks of one node under which the single-node executor,
    whenever it returns a record batch (its memory may not suffice), returns that one: the
    same groups in the same order with the same values. *)
Theorem cluster_refines_single_node workers events env id input groups aggs schema specs n answer :
  let plan := PHashAggregate id input groups aggs schema in
  local_strategy plan = RunPartitions n →
  typed_plan catalog plan → plan_named input = true → transports input → steady input →
  Forall (λ e, expr_ok (physical_schema input) e e) groups → collect aggregate_spec aggs = Ok specs →
  Forall exact_spec specs → Forall (λ x, spec_ok (physical_schema input) x x) specs →
  orderly_exchange →
  (∀ pe ps stage i b out, partial_task catalog task_env task_memory groups pe ps stage i = Ok b →
     exchange (b_schema b) [b] = Ok out → out = [b]) →
  LocalCluster_execute catalog memory_limit task_env task_memory memory (LocalCluster_new workers) events env None plan
    = Some (Ok answer) →
  ∃ schedule, ∀ env', site_schedule (env' 1) = schedule →
    ∀ batch, execute_plan env' None plan = Ok [batch] → cr_batches answer = [batch].
Proof.
  intros plan Hs [Htyped Hsch] Hnamed Htr Hsteady Hg Hspecs Hex Hok Hret Hecho Hrun.
  pose proof (local_cluster_run catalog memory_limit task_env task_memory memory workers events env None id input groups aggs
    schema n Hs Hret) as Hout. cbn zeta in Hout. fold plan in Hout. rewrite Hrun in Hout. unfold cluster_outcome in Hout.
  destruct (local_prepare _ _ _ _ _ _ _) as [[[[pe ps] c] own]| |] eqn:Eprep; [|done..].
  destruct Hout as (stage & Hst & [(partials & Hgath & Hfin)|(e & ? & _)]); [|done].
  destruct (gathered_whole _ _ _ _ (Hecho pe ps stage) Hgath) as (parts & Hparts & Htasks).
  unfold local_prepare in Eprep. apply bind_ok in Eprep as (pe' & Hpe & Eprep). apply bind_ok in Eprep as (ps' & Hps & Eprep).
  assert (pe' = pe ∧ ps' = ps) as [-> ->].
  { apply bind_ok in Eprep as (? & _ & Eprep). apply bind_ok in Eprep as (? & _ & Eprep).
    apply bind_ok in Eprep as (? & _ & [= -> -> _ _]). done. }
  unfold local_finish in Hfin. symmetry in Hfin. apply bind_ok in Hfin as (? & _ & Hfin).
  apply bind_ok in Hfin as (merged & Hm & [= <-]). cbn [cr_batches].
  pose proof (local_stage_decodes _ _ _ Htyped Hnamed Htr Hst) as Hdec.
  destruct (tasks_collected _ _ _ _ _ _ _ Hdec Htasks) as (bss & Hbss & Hpart).
  pose proof (run_partitions_input _ _ _ _ _ _ Hs) as Hcount.
  eexists. intros env' Henv batch Hx. unfold execute_plan, plan in Hx. cbn [execute] in Hx.
  rewrite (whole_in_order input n parts bss env' Hsteady Hcount Hparts Hbss Henv) in Hx.
  unfold execute_aggregate, send, emit in Hx.
  destruct (collect_with_memory _ _ _) as [[bs own']| |] eqn:Ec; cbn [mbind result_bind] in Hx; [|done..].
  pose proof (collected_stream _ _ _ _ _ Ec) as Ebs.
  apply ok_items_inj in Ebs as <-.
  destruct (hash_aggregate_with_memory _ _ _ _ _) as [whole| |] eqn:Ew; cbn in Hx; [|done..]. injection Hx as <-.
  f_equal. apply (merged_whole (physical_schema input) groups aggs specs pe ps schema bss partials memory
    (holding (site_memory (env' 0)) own')); try done.
  clear -Hbss Hsteady BatchLaws0 KernelLaws0 KernelsReturn0.
  induction Hbss as [|i bs parts bss Hi _ IH]; constructor; [by eapply collected_fit|exact IH].
Qed.
End refinement.
