(* ===== verification/LocalClusterDemo.v ===== *)
(** * A run of the in-process cluster

    Orders in two partitions, counted by customer on two workers, the second task
    first; and the same count over an exchange that delivers a batch in pieces. *)
From S2P Require Import Prelude Text Protocol Coordinator Float Expr ExprProps SchemaProps Logical Catalog Physical Memory Execution ExecutionDemo HashJoin Aggregate AggregateProps Executor ExecutorProps OperatorProps ScanProps OperatorDemo PlanCodec PlanCodecProps Distributed DistributedProps Stages LocalCluster LocalClusterProps ClusterRefines.

#[local] Instance no_float_digits : FloatDisplay := λ _, "0.0".
#[local] Instance no_debug_digits : ScalarDebug := λ _, "value".
#[local] Instance merge_entry : MergeSizes := 40%N.

Definition orders_schema : Schema := [MkField "id" DtInt64 true; MkField "customer" DtInt64 true].
Definition orders_of (ids customers : list (option cell)) : RecordBatch :=
  MkRecordBatch orders_schema [MkArray DtInt64 ids; MkArray DtInt64 customers] (length ids).
Definition orders_table : MemoryTable :=
  MkMemoryTable orders_schema
    [[orders_of [Some (IntCell 1); Some (IntCell 2); Some (IntCell 3)] [Some (IntCell 7); None; Some (IntCell 9)]];
     [orders_of [Some (IntCell 4); Some (IntCell 5)] [Some (IntCell 9); None]]] 0.
Definition orders_catalog : Catalog := register Catalog_default "orders" (memory_provider orders_table).
Definition orders_scan : PhysicalPlan :=
  PScan 1 "orders" (memory_provider orders_table) None [] (b_schema demo_orders).
Definition orders_plan : PhysicalPlan :=
  PHashAggregate 0 orders_scan [Column "o.customer"] demo_aggregates demo_output_schema.

(** A Protobuf that carries the message of the scan. *)
Definition orders_root : WirePlan := match encode_plan orders_scan 0 with Ok w => w | _ => MkWirePlan None end.
#[local] Instance orders_protobuf : Protobuf := {
  encode_to_vec _ := [8; 2; 18; 0]%N;
  decode_message _ := inl (MkWirePlanEnvelope 2 (Some orders_root));
}.

Definition roomy : TaskMemory := MkTaskMemory 100000 0.
Definition orders_env (_ _ : nat) : Site := MkSite [] (λ _, false) roomy.
Definition second_first : list LocalEvent :=
  [MkLocalEvent 1 roomy roomy; MkLocalEvent 0 roomy roomy; MkLocalEvent 0 roomy roomy].

Definition run_orders `{ShuffleExchange} : option (result ClusterResult) :=
  LocalCluster_execute orders_catalog 100000 orders_env (λ _, roomy) roomy (LocalCluster_new 2) second_first
    (orders_env 0) None orders_plan.

(** ** An exchange that delivers what it is given *)

Section echo.
#[local] Instance echo_exchange : ShuffleExchange := {
  exchange_start := Ok tt;
  exchange _ batches := Ok batches;
  exchange_close := Ok tt;
}.

Lemma echo_orderly : orderly_exchange.
Proof.
  intros b Hb. change (no_panic (sum_bytes_u64 [batch_bytes b])). unfold sum_bytes_u64. cbn [foldl]. rewrite N.add_0_l.
  by rewrite (proj2 (N.leb_le _ _) Hb).
Qed.


(** ** The same count on one node *)

Lemma orders_honest : honest (memory_provider orders_table).
Proof.
  apply memory_provider_honest; [by repeat constructor..|by apply (bool_decide_unpack _)|].
  repeat constructor; cbn; repeat constructor; cbn; intros x Hx; by simplify_eq.
Qed.

Lemma orders_steady : steady orders_scan.
Proof.
  split; [apply orders_honest|]. split; [by repeat constructor|]. split.
  { split; [by apply (bool_decide_unpack _)|]. exists true. by repeat constructor. }
  split; [|constructor]. repeat constructor; eexists; by repeat split.
Qed.

#[local] Instance checked_merge_laws : MergeLaws checked_batch_ops demo_converter.
Proof.
  split; [|apply demo_rows_back]. intros schema columns b (_ & Hc & Hne & Hok)%law_new. split; [done|]. split; [done|].
  clear -Hok. induction Hok as [|f a schema columns (_ & Hl & _) _ IH]; by constructor.
Qed.

Lemma orders_transports : transports orders_scan.
Proof. intros root Hr. vm_compute in Hr. injection Hr as <-. vm_compute. reflexivity. Qed.

Lemma cluster_refines_single_node_witness :
  ∃ answer, run_orders = Some (Ok answer) ∧
    ∃ schedule, ∀ env', site_schedule (env' 1) = schedule →
      ∀ batch, execute_plan env' None orders_plan = Ok [batch] → cr_batches answer = [batch].
Proof.
  eexists. split; [vm_compute; reflexivity|].
  eapply (cluster_refines_single_node orders_catalog 100000 orders_env (λ _, roomy) roomy 2 second_first (orders_env 0) 0
    orders_scan [Column "o.customer"] demo_aggregates demo_output_schema
    [(Count, Wildcard, false); (Max, Column "o.id", false)] 2).
  - vm_compute. reflexivity.
  - split; [|vm_compute; reflexivity]. split; [vm_compute; reflexivity|].
    exists orders_schema. split; [reflexivity|]. by repeat constructor.
  - vm_compute. reflexivity.
  - apply orders_transports.
  - apply orders_steady.
  - constructor; [|constructor]. split; [by repeat constructor|reflexivity|by left].
  - reflexivity.
  - by repeat constructor.
  - constructor; [by repeat split; left|]. constructor; [|constructor]. split; [done|]. split; [done|].
    right. split; [done|]. split; [by repeat constructor|reflexivity|by left].
  - apply echo_orderly.
  - intros pe ps stage i b out _ Hx. injection Hx as <-. reflexivity.
  - vm_compute. reflexivity.
Defined.

(** The schedule of that run: the second partition is delivered first. *)
Example orders_on_one_node :
  execute_plan (λ _, MkSite [1; 0] (λ _, false) roomy) None orders_plan = default (Err Cancelled) ((λ r, c ← r; Ok (cr_batches c)) <$> run_orders).
Proof. vm_compute. reflexivity. Qed.
End echo.

(** ** An exchange that delivers a batch in pieces

    The Flight encoder splits a batch above its message size.  The loop counts batches,
    so here the two pieces of one partition end it, and the answer has no order of the
    other partition. *)
Section split.
#[local] Instance split_exchange : ShuffleExchange := {
  exchange_start := Ok tt;
  exchange _ batches := Ok (b ← batches; [batch_slice b 0 1; batch_slice b 1 (b_rows b - 1)]);
  exchange_close := Ok tt;
}.

Example split_batches_lose_a_partition :
  (λ r, match r with Ok c => (λ b, a_cells <$> b_columns b) <$> cr_batches c | _ => [] end) <$> run_orders =
    Some [[[Some (IntCell 9); None]; [Some (IntCell 1); Some (IntCell 1)]; [Some (IntCell 4); Some (IntCell 5)]]].
Proof. vm_compute. reflexivity. Qed.
End split.
