(* ===== verification/Wire.v ===== *)
(** * Calls over Arrow Flight

    What the control and the data plane share: statuses and errors of a call, the JSON
    coding of messages, what a handler returns and what the network makes of it. *)
From Stdlib Require Import Ascii.
From S2P Require Import Prelude Text Protocol BlockStore.

(** ** Addresses *)

Inductive IpAddr := V4 (address : N) | V6 (address : N).
Record SocketAddr := MkSocketAddr { sa_ip : IpAddr; sa_port : N }.

(** 127.0.0.1 *)
Definition LOCALHOST : IpAddr := V4 (127 * 2 ^ 24 + 1).

(** ** UTF-8 *)

Definition in_range (lo hi b : N) : bool := (lo <=? b)%N && (b <=? hi)%N.
Definition continuation (b : N) : bool := in_range 128 191 b.

(** The check of [String::from_utf8]. *)
Fixpoint valid_utf8 (l : list N) : bool :=
  match l with
  | [] => true
  | b0 :: l0 =>
    if (b0 <? 128)%N then valid_utf8 l0 else
    match l0 with
    | [] => false
    | b1 :: l1 =>
      if in_range 194 223 b0 then continuation b1 && valid_utf8 l1 else
      match l1 with
      | [] => false
      | b2 :: l2 =>
        if in_range 224 239 b0
        then in_range (if (b0 =? 224)%N then 160 else 128) (if (b0 =? 237)%N then 159 else 191) b1
               && continuation b2 && valid_utf8 l2
        else
        match l2 with
        | [] => false
        | b3 :: l3 =>
          in_range 240 244 b0
            && in_range (if (b0 =? 240)%N then 144 else 128) (if (b0 =? 244)%N then 143 else 191) b1
            && continuation b2 && continuation b3 && valid_utf8 l3
        end
      end
    end
  end.

(** [serde_json] on one type; the left of a sum is its error. *)
Class Json (A : Type) := {
  json_to_string : A → string + string;
  json_from_slice : list N → string + A;
  json_round_trip x s : json_to_string x = inr s → json_from_slice (as_bytes s) = inr x;
  json_utf8 x s : json_to_string x = inr s → valid_utf8 (as_bytes s) = true;
}.

(** ** Statuses *)

Inductive Code := InvalidArgument | CodeNotFound | CodeResourceExhausted | CodeAborted | CodeCancelled | Internal | Unimplemented | OtherCode.
Record Status := MkStatus { st_code : Code; st_message : string }.

(** The other Flight errors by their text. *)
Inductive FlightError := Tonic (status : Status) | OtherFlight (text : string).

(** ** Handlers *)

(** What a handler returns: a response, a status or a panic. *)
Inductive reply (A : Type) := Reply (a : A) | Refused (s : Status) | Crashed (why : string).
Arguments Reply {A} a.
Arguments Refused {A} s.
Arguments Crashed {A} why.

#[export] Instance reply_bind : MBind reply := λ A B f r,
  match r with Reply a => f a | Refused s => Refused s | Crashed why => Crashed why end.

(** [option.ok_or_else(..)?] *)
Definition or_refuse {A} (o : option A) (s : Status) : reply A :=
  match o with Some a => Reply a | None => Refused s end.

(** What becomes of a call: it is answered, or fails with an error of the network or of
    the encoder, before or after the server has run it, at once or while the answer is
    read. *)
Inductive Delivery :=
| Delivered
| Lost (executed late : bool) (e : FlightError).
