(* ===== verification/DataPlane.v ===== *)
(** * The data plane ([src/cluster/data_plane.rs])

    The Flight service that serves a block store and its client.  A call of the
    client is one function that runs the handler of the server on the store, with
    what the network does to the call as an argument; a handler that locks the store
    twice takes the store it finds each time.  Arrow Flight and [serde_json] are
    parameters. *)
From S2P Require Import Prelude Text Protocol Memory Execution BlockStore BlockStoreProps Wire.

Definition from_utf8 (bytes : list N) : option string :=
  if valid_utf8 bytes then Some (of_bytes bytes) else None.

(** ** Messages *)

Record BlockTicket := MkBlockTicket {
  bt_version : N;
  bt_worker_id : WorkerId;
  bt_producer : TaskAttemptId;
  bt_output_partition : PartitionId;
}.

Record UploadAck := MkUploadAck {
  ua_rows : N;
  ua_bytes : N;
  ua_checksum : string;
  ua_ticket : string;
}.

(** Arrow Flight: the batches that arrive at the other side of an encoder, which
    splits large ones, and the text of a status. *)
Class FlightTransport `{BlockCodec} := {
  flight : Schema → list RecordBatch → list RecordBatch;
  status_display : Status → string;
}.

Definition ACTION_DELETE_BLOCK : string := "sparkx.data.delete-block".

Definition BlockTicket_validate (t : BlockTicket) : result unit :=
  if negb (bt_version t =? PROTOCOL_VERSION)%N
  then Err (Protocol ("unsupported data-plane protocol version " +:+ pretty (bt_version t) +:+
                      "; expected " +:+ pretty PROTOCOL_VERSION))
  else
    _ ← WorkerId_new (worker_text (bt_worker_id t));
    TaskAttemptId_validate (bt_producer t).

(** ** Errors over the wire *)

Definition map_status (e : SparkXError) : Status :=
  match e with
  | Protocol message | Planning message => MkStatus InvalidArgument message
  | NotFound message => MkStatus CodeNotFound message
  | ResourceExhausted message => MkStatus CodeResourceExhausted message
  | other => MkStatus Internal (display_error other)
  end.

Definition map_flight_error `{FlightTransport} (action : string) (e : FlightError) : SparkXError :=
  match e with
  | Tonic status =>
      match st_code status with
      | InvalidArgument => Protocol (st_message status)
      | CodeNotFound => NotFound (st_message status)
      | CodeResourceExhausted => ResourceExhausted (st_message status)
      | _ => Transport ("Flight data-plane " +:+ action +:+ ": " +:+ status_display status)
      end
  | OtherFlight text => Transport ("Flight data-plane " +:+ action +:+ ": " +:+ text)
  end.

(** [result.map_err(map_status)?] *)
Definition or_status {A} (r : result A) : reply A :=
  match r with Ok a => Reply a | Err e => Refused (map_status e) | Panic why => Crashed why end.
(** [DataPlaneFlightService::access]: a panic of the store ends its own task only. *)
Definition access {A} (r : result A) : result A :=
  match r with Panic why => Err (Execution ("block storage task failed: " +:+ why)) | r => r end.

Section service.
Context `{BlockCodec, !FlightTransport, Json BlockTicket, Json UploadAck}.

Definition decode_ticket (ticket : string) : result BlockTicket :=
  match json_from_slice (as_bytes ticket) with
  | inl error => Err (Protocol ("decode block ticket: " +:+ error))
  | inr ticket => _ ← BlockTicket_validate ticket; Ok ticket
  end.

(** ** The server *)

(** An upload as the server reads it: the descriptor of its first message, whether it
    is a command and its bytes, or how that message failed; the batches or the decoding
    error; the schema. *)
Record PutStream := MkPutStream {
  put_first : Status + option (option (bool * list N));
  put_items : list (string + RecordBatch);
  put_schema : option Schema;
}.

Definition put_ticket (p : PutStream) : reply string :=
  match put_first p with
  | inl status => Refused status
  | inr first =>
      first ← or_refuse first (MkStatus InvalidArgument "block upload must not be empty");
      descriptor ← or_refuse first (MkStatus InvalidArgument "block upload requires a descriptor");
      if negb descriptor.1
      then Refused (MkStatus InvalidArgument "block upload descriptor must use command bytes")
      else
        ticket ← or_refuse (from_utf8 descriptor.2)
                   (MkStatus InvalidArgument "block descriptor must be UTF-8 JSON");
        _ ← or_status (decode_ticket ticket);
        Reply ticket
  end.

(** The decoding loop. *)
Fixpoint put_batches (available decoded : N) (items : list (string + RecordBatch)) : reply (list RecordBatch) :=
  match items with
  | [] => Reply []
  | inl error :: _ => Refused (MkStatus InvalidArgument error)
  | inr batch :: items =>
      let decoded := saturating_add_u64 decoded (get_array_memory_size batch) in
      if (available <? N.max decoded 1)%N
      then Refused (MkStatus CodeResourceExhausted ("data-plane block needs more than the " +:+
             pretty available +:+ " available bytes"))
      else rest ← put_batches available decoded items; Reply (batch :: rest)
  end.

Context {S : Type} `{!BlockStorage S}.

(** The block an upload makes, on the store it finds when it asks for the budget. *)
Definition put_block (store : S) (p : PutStream) : reply (StoredBlock * UploadAck) :=
  ticket ← put_ticket p;
  let available := bs_upload_budget store ticket in
  if (available =? 0)%N
  then Refused (MkStatus CodeResourceExhausted "data-plane storage has no available capacity")
  else
    batches ← put_batches available 0 (put_items p);
    schema ← or_refuse (put_schema p) (MkStatus InvalidArgument "block upload requires an Arrow schema");
    '(rows, bytes, checksum) ← or_status (block_metadata schema batches);
    Reply (MkStoredBlock schema batches checksum (N.max bytes 1), MkUploadAck rows bytes checksum ticket).

(** [do_put] returns the stream of results; [budget] is the store when it reads the
    budget. *)
Definition do_put (budget : S) (p : PutStream) (store : S) : reply (list (list N)) * S :=
  match put_block budget p with
  | Refused s => (Refused s, store)
  | Crashed why => (Crashed why, store)
  | Reply (block, ack) =>
      let '(r, store) := bs_insert (ua_ticket ack) block store in
      (_ ← or_status (access r);
       match json_to_string ack with
       | inl error => Refused (MkStatus Internal ("encode upload response: " +:+ error))
       | inr metadata => Reply [as_bytes metadata]
       end, store)
  end.

Definition do_get (ticket : list N) (store : S) : reply (Schema * list RecordBatch) :=
  ticket ← or_refuse (from_utf8 ticket) (MkStatus InvalidArgument "data-plane ticket must be UTF-8");
  _ ← or_status (decode_ticket ticket);
  block ← or_status (access (bs_get ticket store));
  Reply (bl_schema block, bl_batches block).

Definition do_action (type : string) (body : list N) (store : S) : reply (list (list N)) * S :=
  if negb (bool_decide (type = ACTION_DELETE_BLOCK))
  then (Refused (MkStatus InvalidArgument ("unsupported SparkX data-plane action " +:+ type)), store)
  else
    match ticket ← or_refuse (from_utf8 body) (MkStatus InvalidArgument "data-plane ticket must be UTF-8");
          _ ← or_status (decode_ticket ticket); Reply ticket with
    | Refused s => (Refused s, store)
    | Crashed why => (Crashed why, store)
    | Reply ticket =>
        let '(r, store) := bs_remove ticket store in
        (_ ← or_status (access r); Reply [as_bytes "deleted"], store)
    end.

(** ** The client *)

(** The answer of a call under its delivery. *)
Definition answer {A} (d : Delivery) (open finish : string) (run : reply A * S) (store : S) : result A * S :=
  match d with
  | Lost executed late e =>
      (Err (map_flight_error (if late then finish else open) e), if executed then run.2 else store)
  | Delivered =>
      (match run.1 with
       | Reply a => Ok a
       | Refused s => Err (map_flight_error open (Tonic s))
       | Crashed why => Err (map_flight_error open (OtherFlight why))
       end, run.2)
  end.

Definition upload_stream (descriptor : string) (schema : Schema) (batches : list RecordBatch) : PutStream :=
  MkPutStream (inr (Some (Some (true, as_bytes descriptor)))) (inr <$> flight schema batches) (Some schema).

(** [upload] after the answer. *)
Definition read_ack (endpoint : string) (worker_id : WorkerId) (producer : TaskAttemptId)
    (output_partition : PartitionId) (expected_ticket : string) (results : list (list N)) : result ShuffleBlock :=
  match results with
  | [metadata] =>
      match json_from_slice metadata with
      | inl error => Err (Protocol ("decode upload response: " +:+ error))
      | inr ack =>
          if decide (ua_ticket ack = expected_ticket) then
            Ok (MkShuffleBlock producer output_partition (ua_rows ack) (ua_bytes ack) (ua_checksum ack)
                  (Flight worker_id endpoint (ua_ticket ack)))
          else Err (Protocol "data-plane upload acknowledgement returned a different ticket")
      end
  | _ => Err (Protocol ("data-plane upload returned " +:+ pretty (N.of_nat (length results)) +:+
                        " acknowledgements; expected one"))
  end.

Definition upload (delivery : Delivery) (endpoint : string) (worker_id : WorkerId) (producer : TaskAttemptId)
    (output_partition : PartitionId) (schema : Schema) (batches : list RecordBatch) (budget store : S)
    : result ShuffleBlock * S :=
  let ticket := MkBlockTicket PROTOCOL_VERSION worker_id producer output_partition in
  propagate _ := BlockTicket_validate ticket keeping store in
  match json_to_string ticket with
  | inl error => (Err (Protocol ("encode block ticket: " +:+ error)), store)
  | inr descriptor =>
      let p := upload_stream descriptor schema batches in
      call results, store' :=
        answer delivery "upload block" "finish block upload" (do_put budget p store) store in
      (read_ack endpoint worker_id producer output_partition descriptor results, store')
  end.

(** The location of a block at the client's endpoint, or the error of a call that
    cannot [verb] it. *)
Definition flight_location (verb endpoint : string) (block : ShuffleBlock) : result string :=
  match sb_location block with
  | Flight _ at_endpoint ticket =>
      if decide (at_endpoint = endpoint) then Ok ticket
      else Err (Protocol ("block belongs to " +:+ at_endpoint +:+ ", but client is connected to " +:+ endpoint))
  | _ => Err (Protocol ("cannot " +:+ verb +:+ " a non-Flight shuffle block with the Flight client"))
  end.

(** How a download fails: the request, or after some batches. *)
Record GetFaults := MkGetFaults {
  gf_request : option FlightError;
  gf_read : option (nat * FlightError);
}.

(** A download as the client reads it. *)
Record GetStream := MkGetStream {
  get_items : list (FlightError + RecordBatch);
  get_schema : option Schema;
}.

Definition open_download (faults : GetFaults) (ticket : string) (store : S) : result GetStream :=
  match gf_request faults with
  | Some e => Err (map_flight_error "download block" e)
  | None =>
      match do_get (as_bytes ticket) store with
      | Refused s => Err (map_flight_error "download block" (Tonic s))
      | Crashed why => Err (map_flight_error "download block" (OtherFlight why))
      | Reply (schema, batches) =>
          let items := inr <$> flight schema batches in
          Ok (MkGetStream
                (match gf_read faults with Some (k, e) => take k items ++ [inl e] | None => items end)
                (Some schema))
      end
  end.

Fixpoint read_batches (memory : TaskMemory) (own : N) (items : list (FlightError + RecordBatch))
    : result (list RecordBatch * N) :=
  match items with
  | [] => Ok ([], own)
  | inl e :: _ => Err (map_flight_error "read block" e)
  | inr batch :: items =>
      own ← try_grow memory 0 own (get_array_memory_size batch);
      '(rest, own) ← read_batches memory own items;
      Ok (batch :: rest, own)
  end.

Record DownloadedBlock := MkDownloadedBlock {
  db_schema : Schema;
  db_batches : list RecordBatch;
}.

Definition download_reserved (faults : GetFaults) (memory : TaskMemory) (own : N) (endpoint : string)
    (block : ShuffleBlock) (store : S) : result (DownloadedBlock * N) :=
  ticket ← flight_location "download" endpoint block;
  stream ← open_download faults ticket store;
  '(batches, own) ← read_batches memory own (get_items stream);
  schema ← ok_or (get_schema stream) (Protocol "downloaded block contained no Arrow schema");
  '(rows, bytes, checksum) ← block_metadata schema batches;
  if negb (rows =? sb_rows block)%N || negb (bytes =? sb_bytes block)%N
     || negb (bool_decide (checksum = sb_checksum block))
  then Err (Protocol ("downloaded block metadata mismatch: expected rows=" +:+ pretty (sb_rows block) +:+
              " bytes=" +:+ pretty (sb_bytes block) +:+ " checksum=" +:+ sb_checksum block +:+
              ", got rows=" +:+ pretty rows +:+ " bytes=" +:+ pretty bytes +:+ " checksum=" +:+ checksum))
  else Ok (MkDownloadedBlock schema batches, own).

Definition download_with_schema (faults : GetFaults) (endpoint : string) (block : ShuffleBlock) (store : S)
    : result DownloadedBlock :=
  let memory := MkTaskMemory U64_MAX 0 in
  own ← try_reserve memory 0 0;
  '(downloaded, _) ← download_reserved faults memory own endpoint block store;
  Ok downloaded.

Definition download (faults : GetFaults) (endpoint : string) (block : ShuffleBlock) (store : S)
    : result (list RecordBatch) :=
  downloaded ← download_with_schema faults endpoint block store;
  Ok (db_batches downloaded).

Definition delete_block (delivery : Delivery) (endpoint : string) (block : ShuffleBlock) (store : S)
    : result unit * S :=
  propagate ticket := flight_location "delete" endpoint block keeping store in
  call results, store' :=
    answer delivery "delete block" "finish block deletion" (do_action ACTION_DELETE_BLOCK (as_bytes ticket) store)
      store in
  (match results with [] => Err (Protocol "block deletion returned no response") | _ => Ok tt end, store').
End service.
