(* ===== verification/DataPlaneProps.v ===== *)
(** * What the data plane promises

    Everything is proved against [BlockStorage], so it holds over both stores. *)
From S2P Require Import Prelude Text Protocol Memory Execution BlockStore BlockStoreProps Wire DataPlane.

Lemma from_utf8_as_bytes s : valid_utf8 (as_bytes s) = true → from_utf8 (as_bytes s) = Some s.
Proof. intros Hv. unfold from_utf8. by rewrite Hv, of_as_bytes. Qed.

Lemma sum_u64_bound l total : sum_u64 l = Ok total → (total <= U64_MAX)%N.
Proof.
  destruct l as [|x l]; cbn; [intros [= <-]; unfold U64_MAX; lia|]. destruct (sum_u64 l); [|done..]. cbn.
  destruct (N.leb_spec (x + a) U64_MAX); [by intros [= <-]|done].
Qed.

Section data_plane.
Context `{BlockCodec, !FlightTransport, !Json BlockTicket, !Json UploadAck} {S : Type} `{!BlockStorage S}.
Implicit Types (s : S).

(** ** Errors *)

(** The client sees the kinds of errors it decides on: a retry is for transport
    errors and missing blocks. *)
Lemma status_round_trip action e :
  match e with
  | Protocol m | Planning m => map_flight_error action (Tonic (map_status e)) = Protocol m
  | NotFound m => map_flight_error action (Tonic (map_status e)) = NotFound m
  | ResourceExhausted m => map_flight_error action (Tonic (map_status e)) = ResourceExhausted m
  | _ => ∃ m, map_flight_error action (Tonic (map_status e)) = Transport m
  end.
Proof. destruct e; cbn; by eauto. Qed.

(** ** Uploads *)

Lemma put_batches_all available decoded (bs out : list RecordBatch) :
  put_batches available decoded (inr <$> bs) = Reply out → out = bs.
Proof.
  revert decoded out. induction bs as [|b bs IH]; intros decoded out; cbn; [by intros [= <-]|].
  destruct (_ <? _)%N; [done|]. destruct (put_batches _ _ (inr <$> bs)) as [rest| |] eqn:E; [|done..].
  cbn. intros [= <-]. by rewrite (IH _ _ E).
Qed.

(** The messages the client sends are the ones the server accepts. *)
Lemma put_ticket_upload ticket descriptor schema batches :
  BlockTicket_validate ticket = Ok tt → json_to_string ticket = inr descriptor →
  put_ticket (upload_stream descriptor schema batches) = Reply descriptor.
Proof.
  intros Hv Hj. unfold put_ticket, upload_stream. cbn.
  rewrite (from_utf8_as_bytes descriptor) by (by apply (json_utf8 ticket)). cbn. unfold decode_ticket.
  rewrite (json_round_trip _ _ Hj). by rewrite Hv.
Qed.

Lemma put_block_upload ticket descriptor schema batches s block ack :
  BlockTicket_validate ticket = Ok tt → json_to_string ticket = inr descriptor →
  put_block s (upload_stream descriptor schema batches) = Reply (block, ack) →
  ∃ rows bytes checksum, block_metadata schema (flight schema batches) = Ok (rows, bytes, checksum) ∧
    block = MkStoredBlock schema (flight schema batches) checksum (N.max bytes 1) ∧
    ack = MkUploadAck rows bytes checksum descriptor.
Proof.
  intros Hv Hj. unfold put_block. rewrite (put_ticket_upload ticket) by done. cbn [mbind reply_bind].
  destruct (_ =? 0)%N; [done|]. cbn [put_items put_schema upload_stream].
  destruct (put_batches _ _ _) as [out| |] eqn:E; [|done..]. cbn. apply put_batches_all in E as ->.
  destruct (block_metadata _ _) as [[[rows bytes] checksum]| |]; [|done..]. cbn. intros [= <- <-]. by eauto 10.
Qed.

(** The JSON header of a block file with a ticket of this client is within the limit
    of [read_block]. *)
Definition tickets_fit : Prop := ∀ ticket descriptor stream header,
  BlockTicket_validate ticket = Ok tt → json_to_string ticket = inr descriptor →
  header_to_vec PROTOCOL_VERSION descriptor ("crc32:" +:+ hex8 (crc32 stream)) = Ok header → (len header ≤ 4096)%N.

Lemma block_metadata_checksum schema batches rows bytes checksum :
  block_metadata schema batches = Ok (rows, bytes, checksum) → ∃ stream, checksum = "crc32:" +:+ hex8 (crc32 stream).
Proof.
  unfold block_metadata. intros (? & _ & Hm)%bind_ok. apply bind_ok in Hm as (? & _ & Hm).
  apply bind_ok in Hm as (stream & _ & Hm). injection Hm as _ _ <-. by exists stream.
Qed.

Context (Hfit : tickets_fit).

(** What a [do_put] of the client does to the store. *)
Lemma do_put_upload ticket descriptor schema batches budget s r s' :
  bs_inv s → BlockTicket_validate ticket = Ok tt → json_to_string ticket = inr descriptor →
  do_put budget (upload_stream descriptor schema batches) s = (r, s') →
  bs_inv s' ∧ (∀ t c, bs_view s t = Some c → bs_view s' t = Some c) ∧
  (∀ results, r = Reply results → ∃ rows bytes checksum metadata,
    block_metadata schema (flight schema batches) = Ok (rows, bytes, checksum) ∧
    json_to_string (MkUploadAck rows bytes checksum descriptor) = inr metadata ∧ results = [as_bytes metadata] ∧
    (∃ c, bs_view s' descriptor = Some c ∧ c.2 = checksum) ∧
    (bs_view s descriptor = None → bs_view s' descriptor = Some (schema, flight schema batches, checksum))).
Proof.
  intros Hs Hv Hj. unfold do_put.
  destruct (put_block _ _) as [[block ack]| |] eqn:E; [|by intros [= <- <-]..].
  destruct (put_block_upload _ _ _ _ _ _ _ Hv Hj E) as (rows & bytes & checksum & Hm & -> & ->). cbn [ua_ticket].
  set (block := MkStoredBlock _ _ _ _). destruct (bs_insert descriptor block s) as [r1 s1] eqn:Ei. intros [= Hr <-].
  assert (sound_block descriptor block) as Hsound.
  { split; [by exists rows, bytes|]. intros header. destruct (block_metadata_checksum _ _ _ _ _ Hm) as [stream ->].
    by apply (Hfit ticket). }
  assert (bs_inv s1 ∧ (∀ t c, bs_view s t = Some c → bs_view s1 t = Some c) ∧
    (r1 = Ok tt → (∃ c, bs_view s1 descriptor = Some c ∧ c.2 = checksum) ∧
      (bs_view s descriptor = None → bs_view s1 descriptor = Some (content block)))) as (Hs1 & Hkeep & Hnew).
  { destruct (bs_view s descriptor) as [c|] eqn:Ev.
    - destruct (wo_insert_again _ _ _ _ _ bs_contract _ _ _ _ _ _ Hs Ei Ev) as (-> & _ & Hiff).
      split_and!; [done|done|]. intros Hok. split; [|done]. exists c. split; [done|]. by apply Hiff.
    - destruct (wo_insert_new _ _ _ _ _ bs_contract _ _ _ _ _ Hs Hsound Ei Ev) as (Hs1 & Hc). split; [done|].
      destruct Hc as [(-> & Hview & Hother)|(e & -> & Hother)]; (split; [|by eauto]).
      + intros t c Ht. rewrite Hother; [done|congruence].
      + intros t c Ht. by rewrite Hother. }
  split_and!; [done|done|]. intros results ->. destruct r1 as [[]| |]; cbn in Hr; [|done..].
  destruct (json_to_string (MkUploadAck _ _ _ _)) as [|metadata] eqn:Ea; [done|]. injection Hr as <-.
  exists rows, bytes, checksum, metadata. destruct (Hnew eq_refl). by split_and!.
Qed.

(** ** Downloads *)

Lemma read_batches_all own batches total :
  sum_u64 (get_array_memory_size <$> batches) = Ok total → (own + total <= U64_MAX)%N →
  read_batches (MkTaskMemory U64_MAX 0) own (inr <$> batches) = Ok (batches, (own + total)%N).
Proof.
  revert own total. induction batches as [|b batches IH]; intros own total; cbn.
  { intros [= <-] _. by rewrite N.add_0_r. }
  destruct (sum_u64 _) as [rest| |]; [|done..]. cbn. destruct (_ <=? _)%N; [|done]. intros [= <-] Hle.
  unfold try_grow, grow_check, reserve_check, checked_add_u64. cbn [tm_limit tm_others].
  rewrite !N.add_0_l. rewrite (proj2 (N.leb_le _ _)) by lia. cbn. rewrite (proj2 (N.ltb_ge _ _)) by lia. cbn.
  rewrite (IH _ rest) by (done || lia). cbn. by rewrite N.add_assoc.
Qed.

(** A stored block whose batches the transport leaves alone is downloaded as it is. *)
Lemma download_stored endpoint worker_id producer output_partition ticket descriptor schema batches rows bytes checksum s :
  bs_inv s → BlockTicket_validate ticket = Ok tt → json_to_string ticket = inr descriptor →
  bs_view s descriptor = Some (schema, batches, checksum) → flight schema batches = batches →
  block_metadata schema batches = Ok (rows, bytes, checksum) →
  download_with_schema (MkGetFaults None None) endpoint
    (MkShuffleBlock producer output_partition rows bytes checksum (Flight worker_id endpoint descriptor)) s =
  Ok (MkDownloadedBlock schema batches).
Proof.
  intros Hs Hv Hj Hview Hfl Hm. unfold download_with_schema. change (try_reserve _ 0 0) with (Ok 0%N : result N). cbn [mbind result_bind].
  unfold download_reserved, flight_location. cbn [sb_location]. rewrite decide_True by done. cbn [mbind result_bind].
  unfold open_download, do_get. cbn [gf_request gf_read].
  rewrite (from_utf8_as_bytes descriptor) by (by apply (json_utf8 ticket)). cbn [or_refuse mbind reply_bind].
  unfold decode_ticket. rewrite (json_round_trip _ _ Hj), Hv. cbn [or_status mbind result_bind reply_bind].
  pose proof (wo_get _ _ _ _ _ bs_contract s descriptor Hs) as Hg. rewrite Hview in Hg. destruct Hg as (b & -> & Hb).
  injection Hb as Hb1 Hb2 Hb3. cbn [access or_status mbind reply_bind]. rewrite Hb1, Hb2, Hfl.
  pose proof Hm as Hm'. unfold block_metadata in Hm'. apply bind_ok in Hm' as (rows' & _ & Hm').
  apply bind_ok in Hm' as (bytes' & Hsum & _). cbn [mbind result_bind get_items].
  assert (bytes' <= U64_MAX)%N as Hle by (by eapply sum_u64_bound).
  rewrite (read_batches_all 0 batches bytes') by done. cbn [mbind result_bind get_schema ok_or]. rewrite Hm.
  cbn [mbind result_bind sb_rows sb_bytes sb_checksum]. rewrite !N.eqb_refl, bool_decide_eq_true_2 by done. done.
Qed.

Lemma read_batches_inv memory own items out own' :
  read_batches memory own items = Ok (out, own') → items = inr <$> out.
Proof.
  revert own out own'. induction items as [|[e|b] items IH]; intros own out own'; cbn; [by intros [= <- _]|done|].
  destruct (try_grow _ _ _ _) as [own1| |]; [|done..]. cbn. destruct (read_batches memory own1 items) as [[rest own2]| |] eqn:E; [|done..].
  cbn. intros [= <- _]. by rewrite (IH _ _ _ E).
Qed.

(** What a download returns, whatever faults it met. *)
Lemma download_reads faults endpoint worker_id producer output_partition ticket descriptor schema batches rows bytes checksum sum s d :
  bs_inv s → BlockTicket_validate ticket = Ok tt → json_to_string ticket = inr descriptor →
  bs_view s descriptor = Some (schema, batches, sum) →
  download_with_schema faults endpoint
    (MkShuffleBlock producer output_partition rows bytes checksum (Flight worker_id endpoint descriptor)) s = Ok d →
  d = MkDownloadedBlock schema (flight schema batches) ∧
  block_metadata schema (flight schema batches) = Ok (rows, bytes, checksum).
Proof.
  intros Hs Hv Hj Hview Hd. unfold download_with_schema in Hd. apply bind_ok in Hd as (own & _ & Hd).
  apply bind_ok in Hd as ([dl own'] & Hd & [= <-]). unfold download_reserved, flight_location in Hd. cbn [sb_location] in Hd.
  rewrite decide_True in Hd by done. cbn [mbind result_bind] in Hd. apply bind_ok in Hd as (stream & Hst & Hd).
  unfold open_download, do_get in Hst. destruct (gf_request faults); [done|].
  rewrite (from_utf8_as_bytes descriptor) in Hst by (by apply (json_utf8 ticket)). cbn [or_refuse mbind reply_bind] in Hst.
  unfold decode_ticket in Hst. rewrite (json_round_trip _ _ Hj), Hv in Hst. cbn [or_status mbind result_bind reply_bind] in Hst.
  pose proof (wo_get _ _ _ _ _ bs_contract s descriptor Hs) as Hg. rewrite Hview in Hg. destruct Hg as (b & Hb & Hc).
  rewrite Hb in Hst. injection Hc as Hb1 Hb2 _. cbn [access or_status mbind reply_bind] in Hst. rewrite Hb1, Hb2 in Hst. injection Hst as <-.
  apply bind_ok in Hd as ([out own1] & Hread & Hd). apply read_batches_inv in Hread. cbn [get_items get_schema ok_or mbind result_bind] in *.
  assert (out = flight schema batches) as ->.
  { destruct (gf_read faults) as [[k e]|].
    - assert (inl e ∈ ((inr <$> out) : list (FlightError + RecordBatch))) as Hin by (rewrite <-Hread; set_solver).
      by apply list_elem_of_fmap in Hin as (x & ? & _).
    - apply (inj (fmap inr)) in Hread. done. }
  apply bind_ok in Hd as ([[rows' bytes'] checksum'] & Hm & Hd). cbn [sb_rows sb_bytes sb_checksum] in Hd.
  destruct (N.eqb_spec rows' rows) as [->|]; [|done]. destruct (N.eqb_spec bytes' bytes) as [->|]; [|done].
  destruct (decide (checksum' = checksum)) as [->|Hne]; [|by rewrite bool_decide_eq_false_2 in Hd].
  rewrite bool_decide_eq_true_2 in Hd by done. by injection Hd as <- _.
Qed.

(** ** Calls of clients *)

Lemma upload_ok delivery endpoint w p o schema batches budget s block s' :
  bs_inv s → upload delivery endpoint w p o schema batches budget s = (Ok block, s') →
  let ticket := MkBlockTicket PROTOCOL_VERSION w p o in
  ∃ descriptor rows bytes checksum, BlockTicket_validate ticket = Ok tt ∧ json_to_string ticket = inr descriptor ∧
    block_metadata schema (flight schema batches) = Ok (rows, bytes, checksum) ∧
    block = MkShuffleBlock p o rows bytes checksum (Flight w endpoint descriptor) ∧
    (bs_view s descriptor = None → bs_view s' descriptor = Some (schema, flight schema batches, checksum)).
Proof.
  intros Hs Hu ticket. unfold upload in Hu. fold ticket in Hu.
  destruct (BlockTicket_validate ticket) as [[]| |] eqn:Hv; [|done..].
  destruct (json_to_string ticket) as [|descriptor] eqn:Hj; [done|].
  destruct (do_put budget _ s) as [r s1] eqn:Ep. destruct delivery; cbn [answer fst snd] in Hu; [|done].
  destruct (do_put_upload _ _ _ _ _ _ _ _ Hs Hv Hj Ep) as (_ & _ & Hr).
  destruct r as [results| |]; [|done..].
  destruct (Hr _ eq_refl) as (rows & bytes & checksum & metadata & Hm & Ha & -> & _ & Hview).
  unfold read_ack in Hu. rewrite (json_round_trip _ _ Ha) in Hu. cbn [ua_ticket] in Hu.
  rewrite decide_True in Hu by done. injection Hu as <- <-. by exists descriptor, rows, bytes, checksum.
Qed.

Lemma upload_keeps delivery endpoint w p o schema batches budget s r s' :
  bs_inv s → upload delivery endpoint w p o schema batches budget s = (r, s') →
  bs_inv s' ∧ ∀ t c, bs_view s t = Some c → bs_view s' t = Some c.
Proof.
  intros Hs Hu. unfold upload in Hu. destruct (BlockTicket_validate _) as [[]| |] eqn:Hv; [|by injection Hu as <- <-..].
  destruct (json_to_string _) as [|descriptor] eqn:Hj; [by injection Hu as <- <-|].
  destruct (do_put budget _ s) as [r1 s1] eqn:Ep.
  destruct (do_put_upload _ _ _ _ _ _ _ _ Hs Hv Hj Ep) as (Hs1 & Hk & _).
  destruct delivery as [|[] late e]; cbn [answer fst snd] in Hu; [|by injection Hu as _ <-..].
  destruct r1; by injection Hu as _ <-.
Qed.

Lemma delete_keeps delivery endpoint block s r s' t c :
  bs_inv s → (∀ w e, sb_location block ≠ Flight w e t) → delete_block delivery endpoint block s = (r, s') →
  bs_inv s' ∧ (bs_view s t = Some c → bs_view s' t = Some c).
Proof.
  intros Hs Hne Hd. unfold delete_block, flight_location in Hd.
  destruct (sb_location block) as [|w e d|] eqn:El; [by injection Hd as _ <-| |by injection Hd as _ <-].
  destruct (decide (e = endpoint)) as [->|]; [|by injection Hd as _ <-].
  assert (∀ r1 s1, do_action ACTION_DELETE_BLOCK (as_bytes d) s = (r1, s1) →
    bs_inv s1 ∧ (bs_view s t = Some c → bs_view s1 t = Some c)) as Hact.
  { intros r1 s1. unfold do_action. rewrite bool_decide_eq_true_2 by done. cbn [negb]. unfold from_utf8.
    destruct (valid_utf8 _); [|by intros [= _ <-]]. rewrite of_as_bytes. cbn [or_refuse mbind reply_bind].
    destruct (or_status _); [|by intros [= _ <-]..]. cbn [mbind reply_bind].
    destruct (bs_remove d s) as [r2 s2] eqn:Er. intros [= _ <-].
    destruct (wo_remove _ _ _ _ _ bs_contract _ _ _ _ Hs Er) as (Hs2 & _ & _ & _ & Hother).
    split; [done|]. rewrite Hother; [done|]. intros ->. by apply (Hne w endpoint). }
  destruct (do_action _ _ s) as [r1 s1] eqn:Ea. destruct (Hact _ _ eq_refl) as [Hs1 Hk].
  destruct delivery as [|[] late e]; cbn [answer fst snd] in Hd; [|by injection Hd as _ <-..].
  destruct r1; by injection Hd as _ <-.
Qed.

(** A call of any client, answered or lost, that does not delete the block of [t]. *)
Inductive client_call (t : string) : S → S → Prop :=
| call_upload delivery endpoint w p o schema batches budget s r s' :
    upload delivery endpoint w p o schema batches budget s = (r, s') → client_call t s s'
| call_delete delivery endpoint block s r s' :
    (∀ w e, sb_location block ≠ Flight w e t) →
    delete_block delivery endpoint block s = (r, s') → client_call t s s'.

Lemma client_calls_keep t c s s' :
  rtc (client_call t) s s' → bs_inv s → bs_view s t = Some c → bs_inv s' ∧ bs_view s' t = Some c.
Proof.
  induction 1 as [s|s s1 s' Hcall _ IH]; [done|]. intros Hs Hv.
  assert (bs_inv s1 ∧ bs_view s1 t = Some c) as [? ?]; [|by apply IH].
  destruct Hcall as [delivery endpoint w p o schema batches budget s r s1 Hu|delivery endpoint block s r s1 Hne Hd].
  - destruct (upload_keeps _ _ _ _ _ _ _ _ _ _ _ Hs Hu) as [? Hk]. split; [done|]. by apply Hk.
  - destruct (delete_keeps _ _ _ _ _ _ t c Hs Hne Hd) as [? Hk]. split; [done|]. by apply Hk.
Qed.

(** C25: what a task uploads is what its consumers download.  The block an answered
    upload of a new ticket returns names its producer, partition, worker and endpoint, and
    the rows, bytes and checksum of the batches that arrived.  After any calls of any
    clients (answered, lost before or after they ran, of the same ticket too) that do not
    delete that block, over either store, the store still holds what arrived.  A download
    that returns, whatever faults it met, returns the schema and what the transport makes
    of the stored batches, and only if that has the recorded rows, bytes and checksum; it
    does return, without a fault, when the transport does not split the stored batches
    again. *)
Theorem uploaded_block_downloads endpoint w p o schema batches budget s s1 s2 block t :
  bs_inv s → upload Delivered endpoint w p o schema batches budget s = (Ok block, s1) →
  sb_location block = Flight w endpoint t → bs_view s t = None → rtc (client_call t) s1 s2 →
  let arrived := flight schema batches in
  let returned := flight schema arrived in
  sb_producer block = p ∧ sb_output_partition block = o ∧
  block_metadata schema arrived = Ok (sb_rows block, sb_bytes block, sb_checksum block) ∧
  bs_view s2 t = Some (schema, arrived, sb_checksum block) ∧
  (∀ faults d, download_with_schema faults endpoint block s2 = Ok d →
     d = MkDownloadedBlock schema returned ∧
     block_metadata schema returned = Ok (sb_rows block, sb_bytes block, sb_checksum block)) ∧
  (returned = arrived →
     download_with_schema (MkGetFaults None None) endpoint block s2 = Ok (MkDownloadedBlock schema arrived)).
Proof.
  intros Hs Hu Hloc Hnew Hcalls arrived returned.
  destruct (upload_keeps _ _ _ _ _ _ _ _ _ _ _ Hs Hu) as [Hs1 _].
  destruct (upload_ok _ _ _ _ _ _ _ _ _ _ _ Hs Hu) as (d & rows & bytes & checksum & Hv & Hj & Hm & -> & Hview).
  cbn in Hloc. injection Hloc as <-. destruct (client_calls_keep _ _ _ _ Hcalls Hs1 (Hview Hnew)) as [Hs2 Hv2].
  split_and!; [done|done|done|done| |by intros; eapply download_stored].
  intros faults dl Hdl. by eapply download_reads in Hdl.
Qed.

(** *** Repeated uploads *)

Lemma put_batches_outcome available decoded (bs : list RecordBatch) :
  put_batches available decoded (inr <$> bs) = Reply bs ∨
  ∃ m, put_batches available decoded (inr <$> bs) = Refused (MkStatus CodeResourceExhausted m).
Proof.
  revert decoded. induction bs as [|b bs IH]; intros decoded; cbn; [by left|].
  destruct (_ <? _)%N; [by eauto|].
  destruct (IH (saturating_add_u64 decoded (get_array_memory_size b))) as [->|[m ->]]; cbn; eauto.
Qed.

Lemma do_put_again ticket descriptor schema batches budget s c rows bytes checksum metadata :
  bs_inv s → BlockTicket_validate ticket = Ok tt → json_to_string ticket = inr descriptor →
  block_metadata schema (flight schema batches) = Ok (rows, bytes, checksum) →
  json_to_string (MkUploadAck rows bytes checksum descriptor) = inr metadata →
  bs_view s descriptor = Some c → c.2 = checksum →
  do_put budget (upload_stream descriptor schema batches) s = (Reply [as_bytes metadata], s) ∨
  ∃ m, do_put budget (upload_stream descriptor schema batches) s = (Refused (MkStatus CodeResourceExhausted m), s).
Proof.
  intros Hs Hv Hj Hm Ha Hview Hc. unfold do_put, put_block. rewrite (put_ticket_upload ticket) by done.
  cbn [mbind reply_bind]. destruct (_ =? 0)%N; [by eauto|]. cbn [put_items put_schema upload_stream].
  destruct (put_batches_outcome (bs_upload_budget budget descriptor) 0 (flight schema batches)) as [->|[m ->]];
    cbn [mbind reply_bind or_refuse]; [|by eauto]. rewrite Hm. cbn [or_status ua_ticket mbind reply_bind].
  destruct (bs_insert _ _ s) as [r s1] eqn:Ei.
  destruct (wo_insert_again _ _ _ _ _ bs_contract _ _ _ _ _ _ Hs Ei Hview) as (-> & _ & Hiff).
  rewrite (proj2 Hiff) by done. cbn. rewrite Ha. by left.
Qed.

(** A lost answer is no loss: when an upload has run, repeating it leaves the store as
    it is and returns the block the lost answer named, unless the server has no room
    left to receive it. *)
Theorem upload_repeats endpoint w p o schema batches budget budget' s s1 block late e :
  bs_inv s → upload Delivered endpoint w p o schema batches budget s = (Ok block, s1) →
  let again := upload Delivered endpoint w p o schema batches budget'
    (upload (Lost true late e) endpoint w p o schema batches budget s).2 in
  again = (Ok block, s1) ∨ ∃ m, again = (Err (ResourceExhausted m), s1).
Proof.
  intros Hs Hu. unfold upload in *. set (ticket := MkBlockTicket _ _ _ _) in *.
  destruct (BlockTicket_validate ticket) as [[]| |] eqn:Hv; [|done..].
  destruct (json_to_string ticket) as [|descriptor] eqn:Hj; [done|].
  destruct (do_put budget _ s) as [r s'] eqn:Ep. cbn [answer fst snd] in *.
  destruct (do_put_upload _ _ _ _ _ _ _ _ Hs Hv Hj Ep) as (Hs' & _ & Hr).
  destruct r as [results| |]; [|done..].
  destruct (Hr _ eq_refl) as (rows & bytes & checksum & metadata & Hm & Ha & -> & (c & Hview & Hc) & _).
  pose proof (f_equal fst Hu) as Hack. pose proof (f_equal snd Hu) as Hst. cbn [fst snd] in Hack, Hst. subst s1.
  destruct (do_put_again ticket descriptor schema batches budget' s' c rows bytes checksum metadata) as [->|[m ->]];
    try done; cbn [fst snd]; [left; by rewrite Hack|right]. cbn. by eauto.
Qed.

(** *** Uploads that fail, and deletions *)

(** The acknowledgement of an upload can be encoded. *)
Definition acks_encode : Prop := ∀ ack : UploadAck, ∃ text, json_to_string ack = inr text.

(** The call is answered, or never arrives. *)
Definition undamaged (d : Delivery) : Prop := match d with Delivered => True | Lost executed _ _ => executed = false end.

(** What an upload may add to the store. *)
Lemma do_put_adds ticket descriptor schema batches budget s r s' :
  bs_inv s → BlockTicket_validate ticket = Ok tt → json_to_string ticket = inr descriptor → acks_encode →
  do_put budget (upload_stream descriptor schema batches) s = (r, s') →
  ∀ t, bs_view s t = None → bs_view s' t = None ∨ (t = descriptor ∧ ∃ ack text, r = Reply [as_bytes text] ∧
    json_to_string ack = inr text ∧ ua_ticket ack = descriptor).
Proof.
  intros Hs Hv Hj Hack. unfold do_put. destruct (put_block _ _) as [[block ack]| |] eqn:E; [|by intros [= <- <-]; auto..].
  destruct (put_block_upload _ _ _ _ _ _ _ Hv Hj E) as (rows & bytes & checksum & Hm & -> & ->). cbn [ua_ticket].
  set (block := MkStoredBlock _ _ _ _). destruct (bs_insert descriptor block s) as [r1 s1] eqn:Ei. intros [= Hr <-] t Ht.
  assert (sound_block descriptor block) as Hsound.
  { split; [by exists rows, bytes|]. intros header. destruct (block_metadata_checksum _ _ _ _ _ Hm) as [stream ->].
    by apply (Hfit ticket). }
  destruct (bs_view s descriptor) as [c|] eqn:Ev.
  - destruct (wo_insert_again _ _ _ _ _ bs_contract _ _ _ _ _ _ Hs Ei Ev) as (-> & _). by left.
  - destruct (wo_insert_new _ _ _ _ _ bs_contract _ _ _ _ _ Hs Hsound Ei Ev) as (_ & [(-> & _ & Hother)|(e & -> & Hother)]).
    2:{ left. by rewrite Hother. }
    destruct (decide (t = descriptor)) as [->|Hne]; [right|left; by rewrite Hother].
    destruct (Hack (MkUploadAck rows bytes checksum descriptor)) as [text Htext]. cbn in Hr. rewrite Htext in Hr.
    split; [done|]. by exists (MkUploadAck rows bytes checksum descriptor), text.
Qed.

(** An undamaged upload adds nothing but the block it returns. *)
Lemma upload_adds delivery endpoint w p o schema batches budget s r s' t :
  bs_inv s → acks_encode → undamaged delivery →
  upload delivery endpoint w p o schema batches budget s = (r, s') → bs_view s t = None →
  bs_view s' t = None ∨ ∃ block, r = Ok block ∧ sb_location block = Flight w endpoint t.
Proof.
  intros Hs Hack Hd Hu Ht. unfold upload in Hu. set (ticket := MkBlockTicket _ _ _ _) in *.
  destruct (BlockTicket_validate ticket) as [[]| |] eqn:Hv; [|injection Hu as <- <-; by left..].
  destruct (json_to_string ticket) as [|descriptor] eqn:Hj; [injection Hu as <- <-; by left|].
  destruct (do_put budget _ s) as [r1 s1] eqn:Ep.
  destruct delivery as [|executed late e]; cbn [answer fst snd] in Hu.
  2:{ simpl in Hd. subst executed. injection Hu as <- <-. by left. }
  destruct (do_put_adds _ _ _ _ _ _ _ _ Hs Hv Hj Hack Ep t Ht) as [Hn|(-> & ack & text & -> & Ha & Hu')].
  { left. by destruct r1; injection Hu as <- <-. }
  unfold read_ack in Hu. rewrite (json_round_trip _ _ Ha), decide_True in Hu by done. injection Hu as <- <-.
  right. eexists. split; [done|]. simpl. by rewrite Hu'.
Qed.

(** A delivered deletion removes its block and adds none. *)
Lemma delete_removes w endpoint block s r s' ticket d :
  bs_inv s → BlockTicket_validate ticket = Ok tt → json_to_string ticket = inr d → sb_location block = Flight w endpoint d →
  delete_block Delivered endpoint block s = (r, s') →
  bs_inv s' ∧ bs_view s' d = None ∧ ∀ t, bs_view s t = None → bs_view s' t = None.
Proof.
  intros Hs Hv Hj Hl. unfold delete_block, flight_location. rewrite Hl, decide_True by done. unfold do_action.
  rewrite bool_decide_eq_true_2 by done. cbn [negb]. rewrite (from_utf8_as_bytes d) by by apply (json_utf8 ticket).
  cbn [or_refuse mbind reply_bind]. unfold decode_ticket. rewrite (json_round_trip _ _ Hj). rewrite Hv. cbn [mbind result_bind or_status reply_bind].
  destruct (bs_remove d s) as [r1 s1] eqn:Er.
  destruct (wo_remove _ _ _ _ _ bs_contract _ _ _ _ Hs Er) as (Hs1 & _ & _ & Hd & Hother). cbn [answer fst snd].
  intros Hx. assert (s' = s1) as ->.
  { destruct (or_status (access r1)); cbn in Hx; by injection Hx as _ <-. }
  split_and!; [done|done|]. intros t Ht. destruct (decide (t = d)) as [->|Hne]; [done|]. by rewrite Hother.
Qed.
End data_plane.

(** ** A transfer *)

#[local] Existing Instance demo_codec.

#[export] Instance BlockTicket_eq_dec : EqDecision BlockTicket.
Proof. solve_decision. Defined.
#[export] Instance UploadAck_eq_dec : EqDecision UploadAck.
Proof. solve_decision. Defined.

Definition shuffle_task : TaskAttemptId := MkTaskAttemptId (MkQueryId "q") (MkStageId 0) (MkPartitionId 0) 0.
Definition shuffle_ticket : BlockTicket := MkBlockTicket PROTOCOL_VERSION (MkWorkerId "w") shuffle_task (MkPartitionId 0).
Definition shuffle_ack : UploadAck := MkUploadAck 2 16 "crc32:0000000a" "t1".

(** A coding of one value. *)
Definition json_of {A} `{EqDecision A} (x : A) (s : string) (Hs : valid_utf8 (as_bytes s) = true) : Json A.
Proof.
  refine {| json_to_string y := if decide (y = x) then inr s else inl "unknown"; json_from_slice _ := inr x |}.
  - intros y s'. destruct (decide (y = x)) as [->|]; [done|discriminate].
  - intros y s'. destruct (decide (y = x)); [by intros [= <-]|discriminate].
Defined.
#[local] Instance ticket_json : Json BlockTicket := json_of shuffle_ticket "t1" eq_refl.
#[local] Instance ack_json : Json UploadAck := json_of shuffle_ack "ack" eq_refl.

Section whole.
#[local] Instance whole_batches : FlightTransport := {| flight _ batches := batches; status_display := st_message |}.

Definition shuffle_store : MemoryBlockStore := MkMemoryBlockStore 100 0 ∅.
Definition shuffle_upload (d : Delivery) (s : MemoryBlockStore) : result ShuffleBlock * MemoryBlockStore :=
  upload (S:=MemoryBlockStore) d "http://a:1" (MkWorkerId "w") shuffle_task (MkPartitionId 0) 7%N [1; 2]%N s s.
Definition shuffle_block : ShuffleBlock :=
  MkShuffleBlock shuffle_task (MkPartitionId 0) 2 16 "crc32:0000000a" (Flight (MkWorkerId "w") "http://a:1" "t1").

Lemma shuffle_tickets_fit : tickets_fit.
Proof.
  intros ticket descriptor stream header _ Hj Hh. cbn [json_to_string ticket_json json_of] in Hj.
  destruct (decide (ticket = shuffle_ticket)); [|done]. injection Hj as <-.
  assert (Ok (len header) = Ok 18%N) as E; [|injection E as ->; lia].
  change (len <$> Ok header = Ok 18%N). rewrite <-Hh. reflexivity.
Qed.

Lemma shuffle_store_wf : ms_wf shuffle_store.
Proof. split; cbn; [unfold U64_MAX; lia|by rewrite map_total_empty|lia]. Qed.

Lemma uploaded_block_downloads_witness :
  shuffle_upload Delivered shuffle_store = (Ok shuffle_block, (shuffle_upload Delivered shuffle_store).2) ∧
  download_with_schema (S:=MemoryBlockStore) (MkGetFaults None None) "http://a:1" shuffle_block
    (shuffle_upload (Lost true true (OtherFlight "reset")) (shuffle_upload Delivered shuffle_store).2).2 =
  Ok (MkDownloadedBlock 7%N [1; 2]%N).
Proof.
  split; [vm_cast_no_check (eq_refl (shuffle_upload Delivered shuffle_store))|].
  refine (proj2 (proj2 (proj2 (proj2 (proj2 (uploaded_block_downloads (S:=MemoryBlockStore) shuffle_tickets_fit "http://a:1" (MkWorkerId "w") shuffle_task (MkPartitionId 0) 7%N [1; 2]%N
    shuffle_store shuffle_store (shuffle_upload Delivered shuffle_store).2 _ shuffle_block "t1" _ _ _ _ _))))) _).
  - exact shuffle_store_wf.
  - vm_cast_no_check (eq_refl (shuffle_upload Delivered shuffle_store)).
  - reflexivity.
  - reflexivity.
  - apply rtc_once. eapply call_upload. apply surjective_pairing.
  - reflexivity.
Defined.
End whole.

(** ** A transport that splits again

    Batches as the sizes of their rows, and an encoder that cuts a large batch into
    pieces of equally many rows, without a look at their sizes.  A piece with the
    large rows is cut again on its way back, so a block that is intact fails the
    check of the download. *)
Section uneven.
#[local] Instance rows_codec : BlockCodec.
Proof.
  refine {| Schema := N; RecordBatch := list N; num_rows b := len b; get_array_memory_size b := foldr N.add 0%N b;
    ipc_write s bs := Ok [Npos (countable.encode (s, bs))];
    ipc_read l := match l with
      | [Npos p] => match countable.decode p with Some x => Ok x | None => Err (Arrow "stream") end
      | _ => Err (Arrow "stream")
      end;
    header_to_vec := demo_header_to_vec; header_from_slice := demo_header_from_slice;
    crc32 l := (foldr N.add 0 l mod 4294967291)%N; header_roundtrip := demo_header_roundtrip |}; try done.
  - intros [|[|p] []]; try done. by destruct (countable.decode p).
  - by intros [|? []].
  - intros s bs l [= <-]. by rewrite countable.decode_encode.
Defined.

(** As many pieces as [limit] fits into the size. *)
Definition split_batch (limit : nat) (b : list N) : list (list N) :=
  let size := N.to_nat (foldr N.add 0%N b) in
  let pieces := (size + limit - 1) / limit in
  let rows := Nat.max 1 (length b / Nat.max 1 pieces) in
  (λ i, take rows (drop (i * rows) b)) <$> seq 0 ((length b + rows - 1) / rows).
#[local] Instance splitting : FlightTransport :=
  {| flight _ batches := b ← batches; split_batch 10 b; status_display := st_message |}.

Definition uneven_batches : list (list N) := [[1; 1; 9; 9]]%N.
#[local] Instance uneven_json : Json UploadAck := json_of (MkUploadAck 4 20 "crc32:139d4964" "t1") "ack" eq_refl.

Example intact_block_rejected :
  match upload (S:=MemoryBlockStore) Delivered "http://a:1" (MkWorkerId "w") shuffle_task (MkPartitionId 0) 7%N
          uneven_batches (MkMemoryBlockStore 100 0 ∅) (MkMemoryBlockStore 100 0 ∅) with
  | (Ok block, s) =>
      bl_batches <$> bs_get "t1" s = Ok [[1; 1]; [9; 9]]%N ∧
      match download_with_schema (MkGetFaults None None) "http://a:1" block s with
      | Err (Protocol why) => String.prefix "downloaded block metadata mismatch: expected rows=4 bytes=20" why = true
      | _ => False
      end
  | _ => False
  end.
Proof. vm_compute. done. Qed.
End uneven.
