(* ===== verification/ControlPlane.v ===== *)
(** * The control plane ([src/cluster/control_plane.rs])

    The Flight service around one coordinator and the queues of messages for its
    workers, and the typed client of workers and drivers.  Every action is one
    operation on that state between a JSON request and a JSON response.

    The service has two locks.  An action takes each at most once, so what it does to
    the coordinator and to the queues are separate definitions ([poll_pending],
    [poll_coordinator], [cancel_coordinator], [notify]) that others may run between. *)
From S2P Require Import Prelude Text Protocol Coordinator BlockStore Wire.

(** ** Messages *)

Record PollAssignmentRequest := MkPollAssignmentRequest {
  par_worker_id : WorkerId;
  par_accept_tasks : bool;
}.
Record PollAssignmentResponse := MkPollAssignmentResponse {
  par_assignment : option CoordinatorMessage;
}.
Record CancelQueryRequest := MkCancelQueryRequest {
  cqr_query_id : QueryId;
  cqr_reason : string;
}.
Record StageOutputBlocksRequest := MkStageOutputBlocksRequest {
  sor_query_id : QueryId;
  sor_stage_id : StageId;
}.
Record PartitionStatusRequest := MkPartitionStatusRequest {
  psr_query_id : QueryId;
  psr_stage_id : StageId;
  psr_partition_id : PartitionId;
}.
Record ControlAck := MkControlAck { ack_accepted : bool }.

(** [serde_json] for every message of the control plane. *)
Class ControlJson := {
  stage_json :: Json StagePlan;
  message_json :: Json WorkerMessage;
  poll_json :: Json PollAssignmentRequest;
  assignment_json :: Json PollAssignmentResponse;
  cancel_json :: Json CancelQueryRequest;
  cancelled_json :: Json CoordinatorMessage;
  stage_request_json :: Json StageOutputBlocksRequest;
  partition_request_json :: Json PartitionStatusRequest;
  blocks_json :: Json (list ShuffleBlock);
  stage_status_json :: Json StageStatus;
  partition_status_json :: Json PartitionStatus;
  control_ack_json :: Json ControlAck;
}.

Definition ACTION_SUBMIT_STAGE : string := "sparkx.control.submit_stage".
Definition ACTION_WORKER_MESSAGE : string := "sparkx.control.worker_message".
Definition ACTION_POLL_ASSIGNMENT : string := "sparkx.control.poll_assignment".
Definition ACTION_CANCEL_QUERY : string := "sparkx.control.cancel_query".
Definition ACTION_STAGE_OUTPUT_BLOCKS : string := "sparkx.control.stage_output_blocks".
Definition ACTION_STAGE_STATUS : string := "sparkx.control.stage_status".
Definition ACTION_PARTITION_STATUS : string := "sparkx.control.partition_status".

Definition MAX_CONTROL_MESSAGE_BYTES : N := 96 * 1024 * 1024.

(** ** Errors over the wire *)

Definition control_map_status (e : SparkXError) : Status :=
  match e with
  | Protocol message | Planning message => MkStatus InvalidArgument message
  | NotFound message => MkStatus CodeNotFound message
  | ResourceExhausted message => MkStatus CodeResourceExhausted message
  | TaskSuperseded => MkStatus CodeAborted "task attempt was superseded"
  | Cancelled => MkStatus CodeCancelled "query was cancelled"
  | other => MkStatus Internal (display_error other)
  end.

Definition control_map_flight_error (action : string) (e : FlightError) : SparkXError :=
  match e with
  | Tonic status =>
      match st_code status with
      | InvalidArgument => Protocol (st_message status)
      | CodeNotFound => NotFound (st_message status)
      | CodeResourceExhausted => ResourceExhausted (st_message status)
      | CodeCancelled => Cancelled
      | CodeAborted => TaskSuperseded
      | _ => Execution ("control action " +:+ action +:+ " failed: " +:+ st_message status)
      end
  | OtherFlight text => Execution ("control action " +:+ action +:+ " failed: " +:+ text)
  end.

Definition check_message_size (size : N) : result unit :=
  if (MAX_CONTROL_MESSAGE_BYTES <? size)%N
  then Err (ResourceExhausted ("control message is " +:+ pretty size +:+ " bytes; maximum is " +:+
              pretty MAX_CONTROL_MESSAGE_BYTES))
  else Ok tt.

Definition control_or_status {A} (r : result A) : reply A :=
  match r with Ok a => Reply a | Err e => Refused (control_map_status e) | Panic why => Crashed why end.

Definition decode_request `{Json A} (body : list N) (action : string) : reply A :=
  match json_from_slice body with
  | inl error => Refused (MkStatus InvalidArgument ("invalid payload for control action " +:+ action +:+ ": " +:+ error))
  | inr request => Reply request
  end.

Definition encode_response `{Json A} (value : A) : reply (list N) :=
  match json_to_string value with
  | inl error => Refused (MkStatus Internal ("encode control response: " +:+ error))
  | inr text =>
      let bytes := as_bytes text in
      if (MAX_CONTROL_MESSAGE_BYTES <? len bytes)%N
      then Refused (MkStatus CodeResourceExhausted ("control response is " +:+ pretty (len bytes) +:+
             " bytes; maximum is " +:+ pretty MAX_CONTROL_MESSAGE_BYTES))
      else Reply bytes
  end.

(** ** The service *)

Abbreviation Queues := (gmap WorkerId (list CoordinatorMessage)).

Record ControlPlane := MkControlPlane {
  cp_coordinator : Coordinator;
  cp_pending : Queues;
}.

Definition on_coordinator {A} (f : Coordinator → result A * Coordinator) (cp : ControlPlane)
    : result A * ControlPlane :=
  let '(r, c) := f (cp_coordinator cp) in (r, MkControlPlane c (cp_pending cp)).

(** [pending.get_mut(&worker_id).and_then(VecDeque::pop_front)] *)
Definition poll_pending (worker_id : WorkerId) (q : Queues) : option CoordinatorMessage * Queues :=
  match q !! worker_id with
  | Some (message :: rest) => (Some message, <[worker_id := rest]> q)
  | _ => (None, q)
  end.

(** [pending.entry(worker_id).or_default().push_back(message)] *)
Definition push_pending (message : CoordinatorMessage) (q : Queues) (worker_id : WorkerId) : Queues :=
  <[worker_id := default [] (q !! worker_id) ++ [message]]> q.

Definition notify (message : CoordinatorMessage) (workers : list WorkerId) (q : Queues) : Queues :=
  foldl (push_pending message) q workers.

Section service.
Context `{PlanFragments}.

Definition submit_action (stage : StagePlan) (cp : ControlPlane) : result ControlAck * ControlPlane :=
  let '(r, cp) := on_coordinator (submit_stage stage) cp in (_ ← r; Ok (MkControlAck true), cp).

Definition message_action (now : N) (message : WorkerMessage) (cp : ControlPlane)
    : result ControlAck * ControlPlane :=
  let '(r, cp) := on_coordinator (handle_worker_message message now) cp in (_ ← r; Ok (MkControlAck true), cp).

(** What a poll without a queued message asks of the coordinator. *)
Definition poll_coordinator (now : N) (request : PollAssignmentRequest) (c : Coordinator)
    : result (option CoordinatorMessage) * Coordinator :=
  if par_accept_tasks request then next_assignment_for (par_worker_id request) now c else (Ok None, c).

Definition poll_action (now : N) (request : PollAssignmentRequest) (cp : ControlPlane)
    : result PollAssignmentResponse * ControlPlane :=
  let '(pending, q) := poll_pending (par_worker_id request) (cp_pending cp) in
  let cp := MkControlPlane (cp_coordinator cp) q in
  match pending with
  | Some message => (Ok (MkPollAssignmentResponse (Some message)), cp)
  | None =>
      let '(r, cp) := on_coordinator (poll_coordinator now request) cp in
      (assignment ← r; Ok (MkPollAssignmentResponse assignment), cp)
  end.

(** Under the lock of the coordinator: the message, and the workers it is for. *)
Definition cancel_coordinator (request : CancelQueryRequest) (c : Coordinator)
    : result (CoordinatorMessage * list WorkerId) * Coordinator :=
  propagate workers := active_workers_for_query c (cqr_query_id request) keeping c in
  call message, c := cancel_query (cqr_query_id request) (cqr_reason request) c in
  (Ok (message, workers), c).

Definition cancel_action (request : CancelQueryRequest) (cp : ControlPlane)
    : result CoordinatorMessage * ControlPlane :=
  call cancelled, cp := on_coordinator (cancel_coordinator request) cp in
  (Ok cancelled.1, MkControlPlane (cp_coordinator cp) (notify cancelled.1 cancelled.2 (cp_pending cp))).

Definition output_blocks_action (request : StageOutputBlocksRequest) (cp : ControlPlane)
    : result (list ShuffleBlock) * ControlPlane :=
  (stage_output_blocks (cp_coordinator cp) (sor_query_id request) (sor_stage_id request), cp).

Definition stage_status_action (request : StageOutputBlocksRequest) (cp : ControlPlane)
    : result StageStatus * ControlPlane :=
  (stage_status (cp_coordinator cp) (sor_query_id request) (sor_stage_id request), cp).

Definition partition_status_action (request : PartitionStatusRequest) (cp : ControlPlane)
    : result PartitionStatus * ControlPlane :=
  (partition_status (cp_coordinator cp) (psr_query_id request) (psr_stage_id request) (psr_partition_id request), cp).

Context `{ControlJson}.

(** An arm of [do_action]. *)
Definition arm `{Json A, Json B} (action : string) (f : A → ControlPlane → result B * ControlPlane)
    (body : list N) (cp : ControlPlane) : reply (list (list N)) * ControlPlane :=
  match decode_request body action with
  | Refused s => (Refused s, cp)
  | Crashed why => (Crashed why, cp)
  | Reply request =>
      let '(r, cp) := f request cp in
      (value ← control_or_status r; response ← encode_response value; Reply [response], cp)
  end.

(** [do_action] of the service, at the server's time [now]. *)
Definition control_do_action (now : N) (type : string) (body : list N) (cp : ControlPlane)
    : reply (list (list N)) * ControlPlane :=
  if (MAX_CONTROL_MESSAGE_BYTES <? len body)%N
  then (Refused (MkStatus CodeResourceExhausted ("control message is " +:+ pretty (len body) +:+
          " bytes; maximum is " +:+ pretty MAX_CONTROL_MESSAGE_BYTES)), cp)
  else if decide (type = ACTION_SUBMIT_STAGE) then arm type submit_action body cp
  else if decide (type = ACTION_WORKER_MESSAGE) then arm type (message_action now) body cp
  else if decide (type = ACTION_POLL_ASSIGNMENT) then arm type (poll_action now) body cp
  else if decide (type = ACTION_CANCEL_QUERY) then arm type cancel_action body cp
  else if decide (type = ACTION_STAGE_OUTPUT_BLOCKS) then arm type output_blocks_action body cp
  else if decide (type = ACTION_STAGE_STATUS) then arm type stage_status_action body cp
  else if decide (type = ACTION_PARTITION_STATUS) then arm type partition_status_action body cp
  else (Refused (MkStatus InvalidArgument ("unsupported SparkX control action " +:+ type)), cp).

(** What [list_actions] advertises. *)
Definition control_list_actions : list (string * string) :=
  [(ACTION_SUBMIT_STAGE, "Submit a validated stage plan");
   (ACTION_WORKER_MESSAGE, "Register, heartbeat, or update a task");
   (ACTION_POLL_ASSIGNMENT, "Poll a worker-specific task assignment");
   (ACTION_CANCEL_QUERY, "Cancel all unfinished work for a query");
   (ACTION_STAGE_OUTPUT_BLOCKS, "Read the output manifests for a successful stage");
   (ACTION_STAGE_STATUS, "Read one stage's lifecycle status");
   (ACTION_PARTITION_STATUS, "Read one partition's lifecycle status")].

(** ** The client *)

(** The answer of [do_action] under its delivery. *)
Definition control_answer {A} (d : Delivery) (action : string) (run : reply A * ControlPlane) (cp : ControlPlane)
    : result A * ControlPlane :=
  match d with
  | Lost executed _ e => (Err (control_map_flight_error action e), if executed then run.2 else cp)
  | Delivered =>
      (match run.1 with
       | Reply a => Ok a
       | Refused s => Err (control_map_flight_error action (Tonic s))
       | Crashed why => Err (control_map_flight_error action (OtherFlight why))
       end, run.2)
  end.

Definition read_response `{Json B} (action : string) (results : list (list N)) : result B :=
  match results with
  | [] => Err (Protocol ("control action " +:+ action +:+ " returned no response"))
  | body :: more =>
      _ ← check_message_size (len body);
      match more with
      | _ :: _ => Err (Protocol ("control action " +:+ action +:+ " returned multiple responses"))
      | [] =>
          match json_from_slice body with
          | inl error => Err (Protocol ("decode control response for " +:+ action +:+ ": " +:+ error))
          | inr response => Ok response
          end
      end
  end.

(** [ControlPlaneClient::call] *)
Definition control_call `{Json A, Json B} (d : Delivery) (now : N) (action : string) (request : A)
    (cp : ControlPlane) : result B * ControlPlane :=
  match json_to_string request with
  | inl error => (Err (Protocol ("encode control request: " +:+ error)), cp)
  | inr payload =>
      propagate _ := check_message_size (len (as_bytes payload)) keeping cp in
      call results, cp' := control_answer d action (control_do_action now action (as_bytes payload) cp) cp in
      (read_response action results, cp')
  end.

Definition validate_ack (ack : ControlAck) : result unit :=
  if ack_accepted ack then Ok tt
  else Err (Protocol "control service returned a negative acknowledgement").

Definition client_submit_stage (d : Delivery) (now : N) (stage : StagePlan) (cp : ControlPlane)
    : result unit * ControlPlane :=
  call ack, cp := control_call d now ACTION_SUBMIT_STAGE stage cp in (validate_ack ack, cp).

Definition send_worker_message (d : Delivery) (now : N) (message : WorkerMessage) (cp : ControlPlane)
    : result unit * ControlPlane :=
  call ack, cp := control_call d now ACTION_WORKER_MESSAGE message cp in (validate_ack ack, cp).

Definition client_register (d : Delivery) (now : N) (registration : WorkerRegistration) (cp : ControlPlane)
    : result unit * ControlPlane :=
  send_worker_message d now (Register PROTOCOL_VERSION registration) cp.

Definition client_heartbeat (d : Delivery) (now : N) (heartbeat : WorkerHeartbeat) (cp : ControlPlane)
    : result unit * ControlPlane :=
  send_worker_message d now (Heartbeat PROTOCOL_VERSION heartbeat) cp.

Definition validate_assignment (assignment : option CoordinatorMessage) : result unit :=
  match assignment with Some message => CoordinatorMessage_validate message | None => Ok tt end.

Definition poll_assignment_with_capacity (d : Delivery) (now : N) (worker_id : WorkerId) (accept_tasks : bool)
    (cp : ControlPlane) : result (option CoordinatorMessage) * ControlPlane :=
  call response, cp := control_call d now ACTION_POLL_ASSIGNMENT (MkPollAssignmentRequest worker_id accept_tasks) cp in
  (_ ← validate_assignment (par_assignment response); Ok (par_assignment response), cp).

Definition poll_assignment (d : Delivery) (now : N) (worker_id : WorkerId) (cp : ControlPlane)
    : result (option CoordinatorMessage) * ControlPlane :=
  poll_assignment_with_capacity d now worker_id true cp.

Definition client_cancel_query (d : Delivery) (now : N) (query_id : QueryId) (reason : string) (cp : ControlPlane)
    : result CoordinatorMessage * ControlPlane :=
  call message, cp := control_call d now ACTION_CANCEL_QUERY (MkCancelQueryRequest query_id reason) cp in
  (_ ← CoordinatorMessage_validate message; Ok message, cp).

Definition client_stage_output_blocks (d : Delivery) (now : N) (query_id : QueryId) (stage_id : StageId)
    (cp : ControlPlane) : result (list ShuffleBlock) * ControlPlane :=
  control_call d now ACTION_STAGE_OUTPUT_BLOCKS (MkStageOutputBlocksRequest query_id stage_id) cp.

Definition client_stage_status (d : Delivery) (now : N) (query_id : QueryId) (stage_id : StageId)
    (cp : ControlPlane) : result StageStatus * ControlPlane :=
  control_call d now ACTION_STAGE_STATUS (MkStageOutputBlocksRequest query_id stage_id) cp.

Definition client_partition_status (d : Delivery) (now : N) (query_id : QueryId) (stage_id : StageId)
    (partition_id : PartitionId) (cp : ControlPlane) : result PartitionStatus * ControlPlane :=
  control_call d now ACTION_PARTITION_STATUS (MkPartitionStatusRequest query_id stage_id partition_id) cp.
End service.
