(* ===== verification/ControlPlaneProps.v ===== *)
(** * Calls of the control plane are calls of the coordinator

    A client that goes through JSON, Flight and the dispatch of the service sees the
    typed operation, or a loss. *)
From S2P Require Import Prelude Text Protocol Coordinator CoordinatorDemo BlockStore Wire DataPlaneProps ControlPlane.

(** What a typed call comes to: an answer, or an error of the way there or back. *)
Inductive Channel :=
| Answered
| Dropped (executed : bool) (e : SparkXError).

(** An error of the coordinator as the client sees it. *)
Definition wire_error (action : string) (e : SparkXError) : SparkXError :=
  control_map_flight_error action (Tonic (control_map_status e)).

Definition received {B} (action : string) (r : result B) : result B :=
  match r with
  | Ok b => Ok b
  | Err e => Err (wire_error action e)
  | Panic why => Err (control_map_flight_error action (OtherFlight why))
  end.

Definition carried {B} (ch : Channel) (action : string) (run : result B * ControlPlane) (cp : ControlPlane)
    : result B * ControlPlane :=
  match ch with
  | Answered => (received action run.1, run.2)
  | Dropped executed e => (Err e, if executed then run.2 else cp)
  end.

(** The decisions a client takes on an error survive the wire. *)
Lemma wire_error_spec action e :
  match e with
  | Protocol m | Planning m => wire_error action e = Protocol m
  | NotFound m => wire_error action e = NotFound m
  | ResourceExhausted m => wire_error action e = ResourceExhausted m
  | TaskSuperseded => wire_error action e = TaskSuperseded
  | Cancelled => wire_error action e = Cancelled
  | _ => ∃ m, wire_error action e = Execution m
  end.
Proof. destruct e; cbn; by eauto. Qed.

Section refines.
Context `{PlanFragments, ControlJson} (now : N).

(** The operation behind each action. *)
Inductive served : ∀ {A B} `{Json A, Json B}, string → (A → ControlPlane → result B * ControlPlane) → Prop :=
| served_submit : served ACTION_SUBMIT_STAGE submit_action
| served_message : served ACTION_WORKER_MESSAGE (message_action now)
| served_poll : served ACTION_POLL_ASSIGNMENT (poll_action now)
| served_cancel : served ACTION_CANCEL_QUERY cancel_action
| served_blocks : served ACTION_STAGE_OUTPUT_BLOCKS output_blocks_action
| served_stage : served ACTION_STAGE_STATUS stage_status_action
| served_partition : served ACTION_PARTITION_STATUS partition_status_action.

Lemma served_arm {A B} `{Json A, Json B} action (f : A → ControlPlane → result B * ControlPlane) body cp :
  served action f → (len body ≤ MAX_CONTROL_MESSAGE_BYTES)%N → control_do_action now action body cp = arm action f body cp.
Proof.
  intros Hf Hb. unfold control_do_action. rewrite (proj2 (N.ltb_ge _ _) Hb). by destruct Hf.
Qed.

(** Nothing but the advertised actions is served. *)
Lemma unlisted_action_refused action body cp :
  (len body ≤ MAX_CONTROL_MESSAGE_BYTES)%N → action ∉ control_list_actions.*1 →
  control_do_action now action body cp =
    (Refused (MkStatus InvalidArgument ("unsupported SparkX control action " +:+ action)), cp).
Proof.
  intros Hb Ha. unfold control_do_action. rewrite (proj2 (N.ltb_ge _ _) Hb). cbn in Ha.
  repeat (rewrite decide_False by set_solver). done.
Qed.

(** A value that is encoded within the limit. *)
Definition encodes `{Json A} (x : A) : Prop :=
  ∃ text, json_to_string x = inr text ∧ (len (as_bytes text) ≤ MAX_CONTROL_MESSAGE_BYTES)%N.

Lemma check_size_ok n : (n ≤ MAX_CONTROL_MESSAGE_BYTES)%N → check_message_size n = Ok tt.
Proof. intros Hn. unfold check_message_size. by rewrite (proj2 (N.ltb_ge _ _) Hn). Qed.

Lemma encode_response_outcome `{Json B} (b : B) :
  (∃ text, json_to_string b = inr text ∧ (len (as_bytes text) ≤ MAX_CONTROL_MESSAGE_BYTES)%N ∧
    encode_response b = Reply (as_bytes text)) ∨
  (∃ s, encode_response b = Refused s ∧ ¬ encodes b).
Proof.
  unfold encode_response, encodes. destruct (json_to_string b) as [error|text] eqn:E.
  - right. eexists. split; [done|]. by intros (t & Ht & _).
  - destruct (N.ltb_spec MAX_CONTROL_MESSAGE_BYTES (len (as_bytes text))) as [Hlt|Hle]; [right|left; by eauto].
    eexists. split; [done|]. intros (t & [= <-] & Ht). lia.
Qed.

(** The call, whatever becomes of its bytes. *)
Lemma control_call_carried {A B} `{Json A, Json B} d action (f : A → ControlPlane → result B * ControlPlane)
    request cp :
  served action f →
  ∃ ch, control_call d now action request cp = carried ch action (f request cp) cp ∧
    (d = Delivered → encodes request → (∀ b, (f request cp).1 = Ok b → encodes b) → ch = Answered).
Proof.
  intros Hf. unfold control_call. destruct (json_to_string request) as [error|payload] eqn:Ej.
  { exists (Dropped false (Protocol ("encode control request: " +:+ error))). split; [done|].
    intros _ (t & Ht & _). congruence. }
  unfold check_message_size at 1. destruct (N.ltb_spec MAX_CONTROL_MESSAGE_BYTES (len (as_bytes payload))) as [Hlt|Hle].
  { eexists (Dropped false _). split; [done|]. intros _ (t & Ht & Hl). rewrite Ej in Ht. injection Ht as <-. lia. }
  rewrite (served_arm action f) by done. unfold arm, decode_request. rewrite (json_round_trip _ _ Ej).
  destruct (f request cp) as [r cp'] eqn:Ef. destruct d as [|executed late e]; cbn [control_answer snd].
  2:{ eexists (Dropped executed _). by split. }
  destruct r as [b|e|why]; cbn [control_or_status mbind reply_bind fst snd].
  2,3: by exists Answered.
  destruct (encode_response_outcome b) as [(text & Hj & Hl & ->)|(s & -> & Hno)]; cbn [mbind reply_bind].
  - exists Answered. split; [|done]. cbn [carried fst snd received]. unfold read_response.
    rewrite check_size_ok by done. cbn [mbind result_bind]. by rewrite (json_round_trip _ _ Hj).
  - eexists (Dropped true _). split; [done|]. intros _ _ Hb. by destruct Hno; apply Hb.
Qed.

(** C16: whatever happens to the bytes, a call of the control plane is the typed
    operation on the coordinator and its queues, answered with the client's view of its
    result, or a loss before or after it ran; when nothing is lost on the network and
    request and response fit a message, it is answered. *)
Theorem control_call_refines {A B} `{Json A, Json B} d action (f : A → ControlPlane → result B * ControlPlane)
    request cp :
  served action f →
  ∃ ch, control_call d now action request cp = carried ch action (f request cp) cp ∧
    (d = Delivered → encodes request → (∀ b, (f request cp).1 = Ok b → encodes b) → ch = Answered).
Proof. apply control_call_carried. Qed.
End refines.

(** ** A call of the control plane

    A driver asks for the status of the running map stage of [CoordinatorDemo.v]. *)

(** A serializer that refuses. *)
Definition json_refuses {A} : Json A.
Proof. by refine {| json_to_string _ := inl "not in the exchange"; json_from_slice _ := inl "unknown" |}. Defined.

Definition status_request : StageOutputBlocksRequest := MkStageOutputBlocksRequest demo_query (MkStageId 0).

#[local] Instance request_eq_dec : EqDecision StageOutputBlocksRequest.
Proof. solve_decision. Defined.
#[local] Instance status_eq_dec : EqDecision StageStatus.
Proof. solve_decision. Defined.

#[local] Instance status_json : ControlJson := {|
  stage_json := json_refuses; message_json := json_refuses; poll_json := json_refuses;
  assignment_json := json_refuses; cancel_json := json_refuses; cancelled_json := json_refuses;
  stage_request_json := json_of status_request "{'query_id':'q1','stage_id':0}" eq_refl;
  partition_request_json := json_refuses; blocks_json := json_refuses;
  stage_status_json := json_of StageRunning "'running'" eq_refl;
  partition_status_json := json_refuses; control_ack_json := json_refuses;
|}.

(** The map stage is running, and the driver is told so. *)
Lemma control_call_refines_witness :
  control_call Delivered 40 ACTION_STAGE_STATUS status_request (MkControlPlane demo_running ∅)
  = (Ok StageRunning, MkControlPlane demo_running ∅).
Proof.
  destruct (control_call_refines 40 Delivered ACTION_STAGE_STATUS stage_status_action status_request
    (MkControlPlane demo_running ∅) (served_stage 40)) as (ch & -> & Hch).
  assert ((stage_status_action status_request (MkControlPlane demo_running ∅)).1 = Ok StageRunning) as Hs
    by (vm_compute; reflexivity).
  rewrite Hch; [|done|..].
  - cbn [carried]. rewrite Hs. reflexivity.
  - eexists. split; [done|]. vm_compute. discriminate.
  - intros b Hb. rewrite Hs in Hb. injection Hb as <-. eexists. split; [done|]. vm_compute. discriminate.
Defined.
