(* ===== verification/Worker.v ===== *)
(** * The worker loop ([src/cluster/worker.rs])

    [RemoteWorker::run_until] as a machine between its waits: an event selects an arm,
    the arm makes a call of the control plane and goes on with its answer.  [Phase] says
    which answer the worker waits for; the calls themselves and the tasks it spawns are
    not part of the machine.  Blocks it discards are an output. *)
From S2P Require Import Prelude Text Protocol Coordinator Memory BlockStore Wire ControlPlane.

(** ** Configuration *)

(** Durations in milliseconds. *)
Record WorkerConfig := MkWorkerConfig {
  wc_coordinator_endpoint : string;
  wc_worker_id : WorkerId;
  wc_slots : N;
  wc_memory_bytes : N;
  wc_batch_size : N;
  wc_channel_capacity : N;
  wc_heartbeat_interval : N;
  wc_poll_interval : N;
  wc_data_bind_address : SocketAddr;
  wc_data_advertised_host : option string;
  wc_data_storage_bytes : N;
  wc_data_directory : option string;
  wc_max_terminal_tasks : option N;
}.

Definition WorkerConfig_new (coordinator_endpoint : string) (worker_id : WorkerId) : WorkerConfig :=
  MkWorkerConfig coordinator_endpoint worker_id 1 DEFAULT_MEMORY_LIMIT_BYTES 8192 2 5000 100
    (MkSocketAddr LOCALHOST 0) None DEFAULT_MEMORY_LIMIT_BYTES None None.

Definition WorkerConfig_validate (c : WorkerConfig) : result unit :=
  if trim_is_empty (wc_coordinator_endpoint c)
  then Err (Planning "worker coordinator endpoint must not be empty")
  else if (wc_slots c =? 0)%N
  then Err (Planning "worker must have at least one execution slot")
  else if (wc_memory_bytes c =? 0)%N
  then Err (Planning "worker memory limit must be greater than zero")
  else if (wc_batch_size c =? 0)%N || (wc_channel_capacity c =? 0)%N
  then Err (Planning "worker batch size and channel capacity must be greater than zero")
  else if (wc_heartbeat_interval c =? 0)%N || (wc_poll_interval c =? 0)%N
  then Err (Planning "worker heartbeat and poll intervals must be greater than zero")
  else if (wc_data_storage_bytes c =? 0)%N
  then Err (Planning "worker data-plane storage must be greater than zero")
  else if decide (wc_max_terminal_tasks c = Some 0%N)
  then Err (Planning "worker maximum terminal tasks must be greater than zero")
  else Ok tt.

(** The first message of a worker. *)
Definition worker_registration (c : WorkerConfig) : WorkerRegistration :=
  MkWorkerRegistration (wc_worker_id c) (wc_slots c) (wc_memory_bytes c).

(** ** State *)

#[export] Instance TaskAttemptId_countable : Countable TaskAttemptId.
Proof.
  refine (inj_countable' (λ t, (ta_query_id t, ta_stage_id t, partition_num (ta_partition_id t), ta_attempt t))
    (λ '(q, s, p, a), MkTaskAttemptId q s (MkPartitionId p) a) _).
  by intros [q s [p] a].
Defined.

Record WorkerSummary := MkWorkerSummary {
  completed_tasks : N;
  failed_tasks : N;
  cancelled_tasks : N;
  output_rows : N;
  output_bytes : N;
}.

Definition terminal_tasks (s : WorkerSummary) : N :=
  saturating_add_u64 (saturating_add_u64 (completed_tasks s) (failed_tasks s)) (cancelled_tasks s).

(** What a worker is told to run. *)
Record Assignment := MkAssignment {
  as_stage : StagePlan;
  as_task : TaskAttemptId;
  as_lease : TaskLease;
  as_inputs : list ShuffleBlock;
}.

Record TaskOutput := MkTaskOutput {
  to_rows : N;
  to_bytes : N;
  to_blocks : list ShuffleBlock;
}.

(** The answer a worker waits for: none, that of a start report, or that of a final
    report of a task. *)
Inductive Phase :=
| Waiting
| Starting (a : Assignment)
| Reporting (a : Assignment) (state : TaskState).

(** [active] maps an attempt to whether its token is cancelled. *)
Record RemoteWorker := MkRemoteWorker {
  rw_active : gmap TaskAttemptId bool;
  rw_tasks : list Assignment;
  rw_cancelled : gmap QueryId string;
  rw_summary : WorkerSummary;
  rw_stopping : bool;
  rw_phase : Phase;
}.

Definition RemoteWorker_start : RemoteWorker := MkRemoteWorker ∅ [] ∅ (MkWorkerSummary 0 0 0 0 0) false Waiting.

(** The loop has ended. *)
Definition finished (w : RemoteWorker) : bool := rw_stopping w && bool_decide (rw_tasks w = []).

Definition cancel_all (active : gmap TaskAttemptId bool) : gmap TaskAttemptId bool := (λ _, true) <$> active.

Definition is_retryable (e : SparkXError) : bool :=
  match e with Io _ | Parquet _ | Transport _ => true | _ => false end.

Section loop.
Context `{PlanFragments} (cfg : WorkerConfig).

(** ** Shutdown *)

Definition on_shutdown (w : RemoteWorker) : RemoteWorker :=
  MkRemoteWorker (cancel_all (rw_active w)) (rw_tasks w) (rw_cancelled w) (rw_summary w) true (rw_phase w).

(** ** Heartbeats *)

(** At the worker's time, with the bytes its tasks have reserved. *)
Definition heartbeat_of (w : RemoteWorker) (now reserved_bytes : N) : WorkerHeartbeat :=
  MkWorkerHeartbeat (wc_worker_id cfg) now
    (saturating_sub (wc_slots cfg) (N.of_nat (size (rw_active w)) mod 2 ^ 32))
    (saturating_sub (wc_memory_bytes cfg) reserved_bytes).

Definition on_heartbeat (answer : result unit) (w : RemoteWorker) : result RemoteWorker :=
  _ ← answer; Ok w.

(** ** Polls *)

Definition poll_request (w : RemoteWorker) : PollAssignmentRequest :=
  MkPollAssignmentRequest (wc_worker_id cfg) (N.of_nat (size (rw_active w)) <? wc_slots cfg)%N.

Definition with_phase (w : RemoteWorker) (p : Phase) : RemoteWorker :=
  MkRemoteWorker (rw_active w) (rw_tasks w) (rw_cancelled w) (rw_summary w) (rw_stopping w) p.

Definition on_poll (answer : result (option CoordinatorMessage)) (w : RemoteWorker) : result RemoteWorker :=
  message ← answer;
  match message with
  | None => Ok w
  | Some (AssignTask _ stage task lease input_blocks) =>
      let me := worker_text (wc_worker_id cfg) in
      if decide (tl_worker_id lease = wc_worker_id cfg) then
        if (wc_slots cfg <=? N.of_nat (size (rw_active w)))%N
        then Err (Protocol ("worker " +:+ me +:+ " received more assignments than its " +:+
                            pretty (wc_slots cfg) +:+ " slots"))
        else Ok (with_phase w (Starting (MkAssignment stage task lease input_blocks)))
      else Err (Protocol ("worker " +:+ me +:+ " received a lease owned by " +:+ worker_text (tl_worker_id lease)))
  | Some (CancelQuery _ query_id reason) =>
      Ok (MkRemoteWorker
            (map_imap (λ task cancelled, Some (cancelled || bool_decide (ta_query_id task = query_id))) (rw_active w))
            (rw_tasks w) (<[query_id := reason]> (rw_cancelled w)) (rw_summary w) (rw_stopping w) (rw_phase w))
  end.

(** The report that starts a task, and what follows its answer. *)
Definition start_report (a : Assignment) : TaskState := TaskRunning (tl_issued_at_ms (as_lease a)).

Definition on_started (a : Assignment) (answer : result unit) (w : RemoteWorker) : result RemoteWorker :=
  match answer with
  | Ok _ => Ok (MkRemoteWorker (<[as_task a := false]> (rw_active w)) (rw_tasks w ++ [a]) (rw_cancelled w)
                  (rw_summary w) (rw_stopping w) Waiting)
  | Err TaskSuperseded => Ok (with_phase w Waiting)
  | Err e => Err e
  | Panic why => Panic why
  end.

(** ** Completions *)

Definition count_completed (s : WorkerSummary) (rows bytes : N) : WorkerSummary :=
  MkWorkerSummary (completed_tasks s + 1) (failed_tasks s) (cancelled_tasks s)
    (saturating_add_u64 (output_rows s) rows) (saturating_add_u64 (output_bytes s) bytes).
Definition count_failed (s : WorkerSummary) : WorkerSummary :=
  MkWorkerSummary (completed_tasks s) (failed_tasks s + 1) (cancelled_tasks s) (output_rows s) (output_bytes s).
Definition count_cancelled (s : WorkerSummary) : WorkerSummary :=
  MkWorkerSummary (completed_tasks s) (failed_tasks s) (cancelled_tasks s + 1) (output_rows s) (output_bytes s).

(** The final report of a task, the new counts, and the blocks to discard before it is
    sent. *)
Definition final_report (w : RemoteWorker) (a : Assignment) (outcome : result TaskOutput)
    : result (TaskState * WorkerSummary * list ShuffleBlock) :=
  let at_ms := tl_issued_at_ms (as_lease a) in
  let s := rw_summary w in
  let cancellation := rw_cancelled w !! ta_query_id (as_task a) in
  match outcome with
  | Panic why => Err (Execution ("worker task join failed: " +:+ why))
  | Ok output => Ok
      match cancellation with
      | Some reason => (TaskCancelled at_ms reason, count_cancelled s, to_blocks output)
      | None => (TaskSucceeded at_ms (to_blocks output), count_completed s (to_rows output) (to_bytes output), [])
      end
  | Err e => Ok
      match cancellation with
      | Some reason => (TaskCancelled at_ms reason, count_cancelled s, [])
      | None =>
          if decide (e = Cancelled) then
            if rw_stopping w
            then (TaskFailed at_ms "worker shut down before the task completed" true, count_failed s, [])
            else (TaskCancelled at_ms "task execution was cancelled", count_cancelled s, [])
          else (TaskFailed at_ms (display_error e) (is_retryable e), count_failed s, [])
      end
  end.

(** A task has ended: the [k]-th of the running ones. *)
Definition on_completion (k : nat) (outcome : result TaskOutput) (w : RemoteWorker)
    : result (RemoteWorker * list ShuffleBlock) :=
  a ← expect (rw_tasks w !! k) "non-empty worker task set must yield a completion";
  '(state, summary, discarded) ← final_report w a outcome;
  Ok (MkRemoteWorker (delete (as_task a) (rw_active w)) (delete k (rw_tasks w)) (rw_cancelled w) summary
        (rw_stopping w) (Reporting a state), discarded).

Definition uncommitted_blocks (state : TaskState) : list ShuffleBlock :=
  match state with TaskSucceeded _ blocks => blocks | _ => [] end.

(** A completed task turns out to be superseded. *)
Definition uncount (s : WorkerSummary) (blocks : list ShuffleBlock) : result WorkerSummary :=
  rows ← sum_u64 (sb_rows <$> blocks);
  bytes ← sum_u64 (sb_bytes <$> blocks);
  if (completed_tasks s =? 0)%N then Panic "attempt to subtract with overflow"
  else Ok (MkWorkerSummary (completed_tasks s - 1) (failed_tasks s + 1) (cancelled_tasks s)
             (saturating_sub (output_rows s) rows) (saturating_sub (output_bytes s) bytes)).

(** The end of the arm: a worker that has run enough tasks stops. *)
Definition after_report (w : RemoteWorker) (s : WorkerSummary) : RemoteWorker :=
  let enough := match wc_max_terminal_tasks cfg with Some maximum => (maximum <=? terminal_tasks s)%N | None => false end in
  MkRemoteWorker (if enough then cancel_all (rw_active w) else rw_active w) (rw_tasks w) (rw_cancelled w) s
    (rw_stopping w || enough) Waiting.

(** What follows the answer of a final report; the blocks it discards come out of
    failures too. *)
Definition on_reported (state : TaskState) (answer : result unit) (w : RemoteWorker)
    : result RemoteWorker * list ShuffleBlock :=
  match answer with
  | Ok _ => (Ok (after_report w (rw_summary w)), [])
  | Err TaskSuperseded =>
      (s ← match state with TaskSucceeded _ blocks => uncount (rw_summary w) blocks | _ => Ok (rw_summary w) end;
       Ok (after_report w s), uncommitted_blocks state)
  | Err e => (Err e, uncommitted_blocks state)
  | Panic why => (Panic why, [])
  end.
End loop.

(** The defaults make a valid worker of any endpoint. *)
Lemma WorkerConfig_new_valid endpoint worker_id :
  WorkerConfig_validate (WorkerConfig_new endpoint worker_id) = Ok tt ↔ trim_is_empty endpoint = false.
Proof. unfold WorkerConfig_validate. cbn. by destruct (trim_is_empty endpoint). Qed.
