(* ===== verification/Task.v ===== *)
(** * Tasks of a remote worker ([src/cluster/worker.rs])

    [execute_assignment]: a task downloads the outputs of the stages it depends on into
    tables, decodes and runs its fragment over them, routes the rows to their
    destinations and uploads one block per destination to the data plane of its worker.

    What the runtime and the network decide is an argument: what every download and
    upload meets ([Fetch], [Upload]), the memory the rest of the worker holds, and where
    the cancellation of the task or the end of its lease cuts it off. *)
From S2P Require Import Prelude Text Protocol Memory BlockStore BlockStoreProps Wire DataPlane Float Expr Logical Catalog Physical Execution Aggregate Executor HashExchange PlanCodec PlanCodecProps Distributed Stages Worker.

(** [arrow]'s stream format for record batches, the header of block files and the
    checksum of blocks. *)
Class ArrowIpc := {
  arrow_write : Schema → list RecordBatch → result (list N);
  arrow_read : list N → result (Schema * list RecordBatch);
  arrow_header_to_vec : N → string → string → result (list N);
  arrow_header_from_slice : list N → result (N * string * string);
  arrow_crc32 : list N → N;
  arrow_write_no_panic schema batches : no_panic (arrow_write schema batches);
  arrow_read_no_panic bytes : no_panic (arrow_read bytes);
  arrow_header_to_vec_no_panic v t c : no_panic (arrow_header_to_vec v t c);
  arrow_header_from_slice_no_panic bytes : no_panic (arrow_header_from_slice bytes);
  arrow_roundtrip schema batches bytes : arrow_write schema batches = Ok bytes → arrow_read bytes = Ok (schema, batches);
  arrow_header_roundtrip v t c bytes :
    arrow_header_to_vec v t c = Ok bytes → arrow_header_from_slice bytes = Ok (v, t, c);
}.

(** Blocks of the engine's own batches. *)
#[export] Instance arrow_codec `{BatchOps, ArrowIpc} : BlockCodec := {|
  BlockStore.Schema := Expr.Schema; BlockStore.RecordBatch := Expr.RecordBatch;
  num_rows b := N.of_nat (b_rows b); get_array_memory_size := batch_bytes;
  ipc_write := arrow_write; ipc_read := arrow_read;
  header_to_vec := arrow_header_to_vec; header_from_slice := arrow_header_from_slice;
  BlockStore.crc32 := arrow_crc32;
  ipc_write_no_panic := arrow_write_no_panic; ipc_read_no_panic := arrow_read_no_panic;
  header_to_vec_no_panic := arrow_header_to_vec_no_panic; header_from_slice_no_panic := arrow_header_from_slice_no_panic;
  ipc_roundtrip := arrow_roundtrip; header_roundtrip := arrow_header_roundtrip |}.

(** What a download brings, as batches of the engine. *)
Definition received_schema `{BatchOps, ArrowIpc} (d : @DownloadedBlock arrow_codec) : Expr.Schema := @db_schema arrow_codec d.
Definition received_batches `{BatchOps, ArrowIpc} (d : @DownloadedBlock arrow_codec) : list Expr.RecordBatch := @db_batches arrow_codec d.

(** ** Inputs *)

(** [connect_error] is consulted when the endpoint has no client yet. *)
Record Fetch (S : Type) := MkFetch {
  fe_connect_error : option SparkXError;
  fe_faults : GetFaults;
  fe_memory : TaskMemory;
  fe_store : S;
}.
Arguments MkFetch {S}.
Arguments fe_connect_error {S}.
Arguments fe_faults {S}.
Arguments fe_memory {S}.
Arguments fe_store {S}.

Record MaterializedStageInput := MkMaterializedStageInput {
  mi_schema : option Schema;
  mi_batches : list RecordBatch;
}.

(** The loop over the blocks: the inputs by stage, the endpoints that have a client and
    the reservation. *)
Record Inputs := MkInputs {
  in_materialized : gmap StageId MaterializedStageInput;
  in_clients : gset string;
  in_reservation : N;
}.

(** [FlightDataPlaneClient::connect(endpoint).await], by its error. *)
Definition connect (error : option SparkXError) : result unit :=
  match error with Some e => Err e | None => Ok tt end.

(** A missing block is a transport error: another attempt may find it. *)
Definition upstream_error (e : SparkXError) : SparkXError :=
  match e with NotFound message => Transport ("upstream block unavailable: " +:+ message) | other => other end.

Definition map_err {A} (f : SparkXError → SparkXError) (r : result A) : result A :=
  match r with Err e => Err (f e) | r => r end.

Definition input_endpoint (block : ShuffleBlock) : result string :=
  match sb_location block with
  | Flight _ endpoint _ => Ok endpoint
  | Worker _ => Err (Unsupported "remote workers cannot fetch worker-local input blocks")
  | ObjectStore _ => Err (Unsupported "remote workers cannot fetch object-store input blocks yet")
  end.

Section inputs.
Context `{BatchOps, ArrowIpc, !FlightTransport, !Json BlockTicket, !Json UploadAck} {S : Type} `{!BlockStorage S}.

Definition materialize_block (inputs : Inputs) (x : Fetch S * ShuffleBlock) : result Inputs :=
  let '(fetch, block) := x in
  let stage_id := ta_stage_id (sb_producer block) in
  input ← ok_or (in_materialized inputs !! stage_id)
    (Protocol ("worker received a block from undeclared stage " +:+ pretty (stage_num stage_id)));
  endpoint ← input_endpoint block;
  _ ← (if decide (endpoint ∈ in_clients inputs) then Ok tt
       else connect (fe_connect_error fetch));
  '(downloaded, own) ← map_err upstream_error
    (download_reserved (fe_faults fetch) (fe_memory fetch) (in_reservation inputs) endpoint block (fe_store fetch));
  if match mi_schema input with Some schema => negb (bool_decide (schema = received_schema downloaded)) | None => false end
  then Err (Protocol ("stage " +:+ pretty (stage_num stage_id) +:+ " input blocks contain different Arrow schemas"))
  else Ok (MkInputs
    (<[stage_id := MkMaterializedStageInput (Some (default (received_schema downloaded) (mi_schema input)))
                     (mi_batches input ++ received_batches downloaded)]> (in_materialized inputs))
    ({[endpoint]} ∪ in_clients inputs) own).

(** The tables of the inputs, stage by stage. *)
Definition register_input (s : Catalog * gmap StageId MaterializedStageInput) (stage_id : StageId)
    : result (Catalog * gmap StageId MaterializedStageInput) :=
  let '(catalog, materialized) := s in
  input ← expect (materialized !! stage_id) "declared input stage was initialized";
  schema ← ok_or (mi_schema input)
    (Protocol ("stage " +:+ pretty (stage_num stage_id) +:+ " dependency produced no input block manifest"));
  t ← MemoryTable_new schema [mi_batches input];
  Ok (register catalog (stage_input_table_name stage_id) (memory_provider t), delete stage_id materialized).

(** [memory] is what the worker holds when the task starts; [fetches] is what the
    downloads meet. *)
Definition materialize_stage_inputs (base_catalog : Catalog) (input_stages : list StageId)
    (input_blocks : list ShuffleBlock) (memory : TaskMemory) (fetches : nat → Fetch S) : result (Catalog * N) :=
  let task_catalog := snapshot base_catalog in
  reservation ← try_reserve memory 0 0;
  if decide (input_stages = []) then
    if decide (input_blocks = []) then Ok (task_catalog, reservation)
    else Err (Protocol "task without stage dependencies received input blocks")
  else
    let materialized := list_to_map ((λ s, (s, MkMaterializedStageInput None [])) <$> input_stages) in
    inputs ← fold_result materialize_block (MkInputs materialized ∅ reservation)
               (imap (λ k block, (fetches k, block)) input_blocks);
    '(catalog, _) ← fold_result register_input (task_catalog, in_materialized inputs) input_stages;
    Ok (catalog, in_reservation inputs).
End inputs.

(** ** Execution *)

(** What ends a task early. *)
Inductive Stop := ByCancellation | ByDeadline.

Definition stop_error (s : Stop) : SparkXError :=
  match s with ByCancellation => Cancelled | ByDeadline => Transport "task lease expired during execution" end.

(** [cancellation.check()] *)
Definition check_cancelled (cancelled : bool) : result unit := if cancelled then Err Cancelled else Ok tt.

(** An upload: what others do to the store before it, whether the task is cancelled by
    then, the store when the server reads the budget, the fate of the call, and the stop
    that cuts it off. *)
Record Upload (S : Type) := MkUpload {
  up_others : S → S;
  up_cancelled : bool;
  up_budget : S;
  up_delivery : Delivery;
  up_cut : option Stop;
}.
Arguments MkUpload {S}.
Arguments up_others {S}.
Arguments up_cancelled {S}.
Arguments up_budget {S}.
Arguments up_delivery {S}.
Arguments up_cut {S}.

(** A deletion that is tried on the way out; [None] when it did not get through in its
    second. *)
Record Discard (S : Type) := MkDiscard {
  di_others : S → S;
  di_delivery : option Delivery;
}.
Arguments MkDiscard {S}.
Arguments di_others {S}.
Arguments di_delivery {S}.

(** What a task meets, in order: [te_cut] is a stop before the first upload. *)
Record TaskEnv (S : Type) := MkTaskEnv {
  te_cut : option Stop;
  te_cancelled : bool;
  te_memory : TaskMemory;
  te_fetches : nat → Fetch S;
  te_sites : nat → Site;
  te_collect_memory : TaskMemory;
  te_cancelled_after : bool;
  te_connect_error : option SparkXError;
  te_exchange_memory : TaskMemory;
  te_uploads : nat → Upload S;
  te_discards : nat → Discard S;
}.
Arguments MkTaskEnv {S}.
Arguments te_cut {S}.
Arguments te_cancelled {S}.
Arguments te_memory {S}.
Arguments te_fetches {S}.
Arguments te_sites {S}.
Arguments te_collect_memory {S}.
Arguments te_cancelled_after {S}.
Arguments te_connect_error {S}.
Arguments te_exchange_memory {S}.
Arguments te_uploads {S}.
Arguments te_discards {S}.

Section task.
Context `{Protobuf, FloatDisplay, ScalarDebug, Kernels, BatchOps, SortOps, RowConverter, Sizes, ExchangeOps}.
Context `{ArrowIpc, !FlightTransport, !Json BlockTicket, !Json UploadAck} {S : Type} `{!BlockStorage S}.
Context (catalog : Catalog) (worker_id : WorkerId) (data_endpoint : string).

(** The destinations of the output. *)
Definition destination (o : PartitionOutput) : PartitionId * list Expr.RecordBatch :=
  (MkPartitionId (po_partition o), po_batches o).

Definition route_outputs (memory : TaskMemory) (held : N) (a : Assignment) (schema : Expr.Schema)
    (batches : list Expr.RecordBatch) : result (list (PartitionId * list Expr.RecordBatch)) :=
  match sp_output_exchange (as_stage a) with
  | Some exchange =>
      outputs ← repartition (holding memory held) schema batches exchange;
      Ok (fmap (M:=list) destination outputs)
  | None =>
      _ ← try_reserve memory held 0;
      Ok [(ta_partition_id (as_task a), batches)]
  end.

(** Everything before the uploads: the schema of the output and its destinations. *)
Definition prepare_outputs (env : TaskEnv S) (a : Assignment)
    : result (Expr.Schema * list (PartitionId * list Expr.RecordBatch)) :=
  let stage := as_stage a in
  _ ← check_cancelled (te_cancelled env);
  '(task_catalog, input_own) ←
    materialize_stage_inputs catalog (sp_input_stages stage) (as_inputs a) (te_memory env) (te_fetches env);
  let partition := if decide (sp_input_stages stage = [])
                   then N.to_nat (partition_num (ta_partition_id (as_task a))) else 0 in
  plan ← decode_physical_plan stage task_catalog;
  let schema := physical_schema plan in
  '(batches, own) ← collect_with_memory (te_collect_memory env) input_own
                      (execute (te_sites env) (Some partition) 0 plan);
  _ ← check_cancelled (te_cancelled_after env);
  _ ← connect (te_connect_error env);
  outputs ← route_outputs (te_exchange_memory env) (input_own + own)%N a schema batches;
  Ok (schema, outputs).

(** The loop of uploads, with the blocks that were pushed. *)
Fixpoint upload_outputs (uploads : nat → Upload S) (k : nat) (task : TaskAttemptId) (schema : Expr.Schema)
    (outputs : list (PartitionId * list Expr.RecordBatch)) (store : S) : result unit * list ShuffleBlock * S :=
  match outputs with
  | [] => (Ok tt, [], store)
  | (partition, batches) :: outputs =>
      let u := uploads k in
      let store := up_others u store in
      if up_cancelled u then (Err Cancelled, [], store)
      else
        let '(r, store) := upload (up_delivery u) data_endpoint worker_id task partition schema batches (up_budget u) store in
        match up_cut u with
        | Some stop => (Err (stop_error stop), [], store)
        | None =>
            match r with
            | Ok block =>
                let '(r, blocks, store) := upload_outputs uploads (k + 1) task schema outputs store in
                (r, block :: blocks, store)
            | Err e => (Err e, [], store)
            | Panic why => (Panic why, [], store)
            end
        end
  end.

(** [blocks] after the [select]: the output takes them when the work is done. *)
Definition run_work (env : TaskEnv S) (a : Assignment) (store : S) : result TaskOutput * list ShuffleBlock * S :=
  match te_cut env with
  | Some stop => (Err (stop_error stop), [], store)
  | None =>
      match prepare_outputs env a with
      | Err e => (Err e, [], store)
      | Panic why => (Panic why, [], store)
      | Ok (schema, outputs) =>
          let '(r, blocks, store) := upload_outputs (te_uploads env) 0 (as_task a) schema outputs store in
          match r with
          | Ok _ =>
              (rows ← sum_u64 (sb_rows <$> blocks);
               bytes ← sum_u64 (sb_bytes <$> blocks);
               Ok (MkTaskOutput rows bytes blocks), [], store)
          | Err e => (Err e, blocks, store)
          | Panic why => (Panic why, blocks, store)
          end
      end
  end.

(** The blocks of the worker's own data plane, one after the other. *)
Fixpoint discard_output_blocks (discards : nat → Discard S) (k : nat) (blocks : list ShuffleBlock) (store : S) : S :=
  match blocks with
  | [] => store
  | block :: blocks =>
      let store := di_others (discards k) store in
      let store := match sb_location block, di_delivery (discards k) with
                   | Flight _ endpoint _, Some delivery => (delete_block delivery endpoint block store).2
                   | _, _ => store
                   end in
      discard_output_blocks discards (k + 1) blocks store
  end.

(** A panic ends the task at once. *)
Definition execute_assignment (env : TaskEnv S) (a : Assignment) (store : S) : result TaskOutput * S :=
  let '(r, blocks, store) := run_work env a store in
  match r with
  | Err e => (Err e, discard_output_blocks (te_discards env) 0 blocks store)
  | r => (r, store)
  end.
End task.
