(* ===== verification/WorkerOwns.v ===== *)
(** * The attempts a worker has open

    [owns] relates the assignments a worker has not reported yet to the coordinator:
    each is still held under its lease or superseded, and the coordinator counts none
    that the worker does not know.  The calls of the worker and of everybody else keep
    it, and the worker's reports are accepted or superseded. *)
From S2P Require Import Prelude Text Protocol Coordinator CoordinatorClock CoordinatorInv CoordinatorSpec CoordinatorSteps CoordinatorAssign CoordinatorRun CoordinatorProps Worker.

Definition task_key (t : TaskAttemptId) : StageKey := (ta_query_id t, ta_stage_id t).
Definition task_index (t : TaskAttemptId) : nat := N.to_nat (partition_num (ta_partition_id t)).

Lemma names_position key i t : names_partition key i t → key = task_key t ∧ i = task_index t.
Proof. destruct key. unfold names_partition, task_key, task_index. simpl. intros (<- & <- & ->). by rewrite Nat2N.id. Qed.

Section owns.
Context `{PlanFragments} (w : WorkerId).

Record tracked (c : Coordinator) (now : N) (a : Assignment) : Prop := {
  tr_worker : tl_worker_id (as_lease a) = w;
  tr_issued : (tl_issued_at_ms (as_lease a) ≤ now)%N;
  tr_lease : (tl_issued_at_ms (as_lease a) < tl_expires_at_ms (as_lease a))%N;
  tr_part : ∃ st p, stages c !! task_key (as_task a) = Some st ∧ plan st = as_stage a ∧
    partitions st !! task_index (as_task a) = Some p ∧
    (holds (as_task a) w (as_lease a) p ∨ superseded (as_task a) p = true);
}.

Record owns (c : Coordinator) (now : N) (open : list Assignment) : Prop := {
  ow_tracked a : a ∈ open → tracked c now a;
  ow_occupied key i p : part c key i = Some p → occupies w p = true →
    ∃ a, a ∈ open ∧ holds (as_task a) w (as_lease a) p;
  ow_distinct : NoDup (as_task <$> open);
}.

Lemma holds_at c key i p t l :
  wf c → part c key i = Some p → holds t w l p → key = task_key t ∧ i = task_index t.
Proof.
  intros Hc Hp Hh. pose proof (wf_part _ Hc _ _ _ Hp) as Hw.
  destruct p; try done; destruct Hh as (-> & _), Hw as (Hn & _); by apply names_position.
Qed.

(** ** Calls of others *)

Lemma tracked_frame c c' now now' a :
  frame w c c' → extends c c' → (now ≤ now')%N → tracked c now a → tracked c' now' a.
Proof.
  intros Hf He Hn [W I L (st & p & Hst & Hpl & Hp & Hor)]. split; [done|lia|done|].
  destruct (et_plan _ _ He _ _ Hst) as (st' & Hst' & Hpl' & _).
  destruct (fr_part _ _ _ Hf (task_key (as_task a)) (task_index (as_task a)) p) as (p' & Hp' & K).
  { apply part_Some. eauto. }
  apply part_Some in Hp' as (st'' & Hst'' & Hp'). simplify_eq.
  exists st', p'. split_and!; [done|congruence|done|].
  destruct Hor as [Hh|Hs]; [by apply (kp_holds _ _ _ _ K)|].
  right. eapply lifecycle_superseded_rtc; [apply K|done].
Qed.

Lemma owns_frame c c' now now' open :
  frame w c c' → extends c c' → (now ≤ now')%N → owns c now open → owns c' now' open.
Proof.
  intros Hf He Hn [T O D]. split; [|..|done].
  - intros a Ha. eapply tracked_frame; eauto.
  - intros key i p' Hp' Ho. destruct (part c key i) as [p|] eqn:Ep.
    + destruct (fr_part _ _ _ Hf _ _ _ Ep) as (p'' & Hp'' & K). simplify_eq.
      destruct (kp_stays _ _ _ _ K Ho) as [Hop Hk]. destruct (O _ _ _ Ep Hop) as (a & Ha & Hh). eauto.
    + by rewrite (fr_new _ _ _ Hf _ _ _ Hp' Ep) in Ho.
Qed.

Lemma owns_later c now now' open : (now ≤ now')%N → owns c now open → owns c now' open.
Proof. intros. eapply owns_frame; eauto using frame_refl. reflexivity. Qed.

Lemma owns_perm c now open open' : open ≡ₚ open' → owns c now open → owns c now open'.
Proof.
  intros Hp [T O D]. split.
  - intros a. rewrite <-Hp. apply T.
  - intros key i p Hpart Ho. destruct (O _ _ _ Hpart Ho) as (a & Ha & Hh). exists a. by rewrite <-Hp.
  - by rewrite <-Hp.
Qed.

(** An attempt that is superseded need not be tracked any more. *)
Lemma owns_drop c now a open p :
  wf c → owns c now (a :: open) → part c (task_key (as_task a)) (task_index (as_task a)) = Some p →
  superseded (as_task a) p = true → owns c now open.
Proof.
  intros Hc [T O D] Hp Hs. rewrite fmap_cons in D. apply list.NoDup_cons in D as [_ D]. split; [|..|done].
  - intros b Hb. apply T. by right.
  - intros key i p' Hp' Ho. destruct (O _ _ _ Hp' Ho) as (b & [->|Hb]%elem_of_cons & Hh); [|eauto].
    destruct (holds_at _ _ _ _ _ _ Hc Hp' Hh) as [-> ->]. simplify_eq.
    by rewrite (holds_not_superseded _ _ _ _ Hh) in Hs.
Qed.

(** ** Counting *)

Lemma filter_out_length {A} `{EqDecision A} (x : A) (l : list A) :
  x ∈ l → length (base.filter (λ y, y ≠ x) l) < length l.
Proof.
  induction 1 as [x l|x y l _ IH]; rewrite filter_cons.
  - rewrite decide_False by (intros Hx; by apply Hx). pose proof (length_filter (λ y, y ≠ x) l). simpl. lia.
  - pose proof (length_filter (λ z, z ≠ x) l). case_decide; simpl; lia.
Qed.

Lemma count_bound {A} (f : A → bool) (l : list A) n (L : list nat) :
  (∀ i x, l !! i = Some x → f x = true → n + i ∈ L) → count f l ≤ length L.
Proof.
  revert n L. induction l as [|x l IH]; intros n L HL; [rewrite count_nil; lia|]. rewrite count_cons.
  destruct (f x) eqn:Ef.
  - assert (n ∈ L) as Hn by (rewrite <-(Nat.add_0_r n); by apply (HL 0 x)).
    pose proof (filter_out_length n L Hn).
    assert (count f l ≤ length (base.filter (λ y, y ≠ n) L)); [|lia].
    apply (IH (S n)). intros i y Hy Hf. apply list_elem_of_filter. split; [lia|].
    replace (S n + i) with (n + S i) by lia. by apply (HL (S i) y).
  - apply (IH (S n)). intros i y Hy Hf. replace (S n + i) with (n + S i) by lia. by apply (HL (S i) y).
Qed.

Lemma filter_split_length {A} (P : A → Prop) `{∀ x, Decision (P x)} (l : list A) :
  length (base.filter P l) + length (base.filter (λ x, ¬ P x) l) = length l.
Proof. induction l as [|x l IH]; [done|]. rewrite !filter_cons. repeat case_decide; simpl in *; try done; lia. Qed.

Lemma occupied_bound (m : gmap StageKey StageRuntime) (L : list (StageKey * nat)) :
  (∀ key st i p, m !! key = Some st → partitions st !! i = Some p → occupies w p = true → (key, i) ∈ L) →
  map_sum (λ st, count (occupies w) (partitions st)) m ≤ length L.
Proof.
  revert L. induction m as [|k st m Hk IH] using map_ind; intros L HL.
  { unfold map_sum. rewrite map_fold_empty. lia. }
  rewrite map_sum_insert_None by done. rewrite <-(filter_split_length (λ x, x.1 = k) L).
  apply Nat.add_le_mono.
  - rewrite <-(length_fmap snd). apply (count_bound _ _ 0). intros i p Hp Ho. apply list_elem_of_fmap.
    exists (k, i). split; [done|]. apply list_elem_of_filter. split; [done|].
    eapply HL; [apply lookup_insert_eq|done|done].
  - apply IH. intros key st' i p Hst Hp Ho. apply list_elem_of_filter. split; [cbn; congruence|].
    eapply HL; [|done|done]. by rewrite lookup_insert_ne by congruence.
Qed.

Lemma owns_busy c now open : wf c → owns c now open → busy c w ≤ length open.
Proof.
  intros Hc Ho. rewrite <-(length_fmap (λ a, (task_key (as_task a), task_index (as_task a)))).
  apply occupied_bound. intros key st i p Hst Hp Hocc.
  assert (part c key i = Some p) as Hpart by (apply part_Some; eauto).
  destruct (ow_occupied _ _ _ Ho _ _ _ Hpart Hocc) as (a & Ha & Hh).
  destruct (holds_at _ _ _ _ _ _ Hc Hpart Hh) as [-> ->]. apply list_elem_of_fmap. by exists a.
Qed.

(** ** One partition changes *)

Lemma part_replaced_cases c key i q ws st key' j p :
  stages c !! key = Some st → part (replaced c key i q ws st) key' j = Some p →
  (key' = key ∧ j = i ∧ p = q) ∨ ((key', j) ≠ (key, i) ∧ part c key' j = Some p).
Proof.
  intros Hst Hp. destruct (decide ((key', j) = (key, i))) as [[= -> ->]|Hne].
  - left. split_and!; [done..|]. unfold part in Hp. simpl in Hp. rewrite lookup_insert_eq in Hp. simpl in Hp.
    apply list_lookup_insert_Some in Hp as [(_ & <- & _)|[Hn _]]; congruence.
  - right. split; [done|]. apply part_replaced in Hp as [(-> & -> & _)|Hp]; done.
Qed.

Lemma tracked_replaced c now key i p q ws st a :
  tracked c now a → stages c !! key = Some st → partitions st !! i = Some p →
  lifecycle (max_task_attempts (config c)) p q →
  (holds (as_task a) w (as_lease a) p → holds (as_task a) w (as_lease a) q ∨ superseded (as_task a) q = true) →
  tracked (replaced c key i q ws st) now a.
Proof.
  intros [W I L (st' & p' & Hst' & Hpl & Hp' & Hor)] Hst Hp Hl Hq. split; [done..|]. simpl.
  destruct (decide (key = task_key (as_task a))) as [->|Hk].
  2:{ exists st', p'. by rewrite lookup_insert_ne. }
  rewrite Hst in Hst'. injection Hst' as <-. rewrite lookup_insert_eq.
  exists (MkStageRuntime (plan st) (<[i := q]> (partitions st))). destruct (decide (i = task_index (as_task a))) as [->|Hi].
  - exists q. simplify_eq. split_and!; [done..| |]; simpl.
    { apply list_lookup_insert_eq. by eapply lookup_lt_Some. }
    destruct Hor as [Hh|Hs]; [auto|]. right. by eapply lifecycle_superseded.
  - exists p'. split_and!; [done..| |done]. simpl. by rewrite list_lookup_insert_ne.
Qed.

(** The open attempt at a partition stays: it has started. *)
Lemma owns_kept c now open key i p q ws st :
  owns c now open → stages c !! key = Some st → partitions st !! i = Some p →
  lifecycle (max_task_attempts (config c)) p q → occupies w p = true →
  (∀ t l, holds t w l p → holds t w l q) → owns (replaced c key i q ws st) now open.
Proof.
  intros [T O D] Hst Hp Hl Ho Hq. split; [|..|done].
  - intros a Ha. eapply tracked_replaced; eauto.
  - intros key' j p' [(-> & -> & ->)|[_ Hpart]]%part_replaced_cases Ho'; [|by eauto|done].
    destruct (O key i p) as (a & Ha & Hh); [apply part_Some; eauto|done|]. eauto.
Qed.

(** The open attempt at a partition ends. *)
Lemma owns_finished c now a open p q ws st :
  wf c → owns c now (a :: open) → stages c !! task_key (as_task a) = Some st →
  partitions st !! task_index (as_task a) = Some p → holds (as_task a) w (as_lease a) p →
  lifecycle (max_task_attempts (config c)) p q → occupies w q = false →
  owns (replaced c (task_key (as_task a)) (task_index (as_task a)) q ws st) now open.
Proof.
  intros Hc [T O D] Hst Hp Hh Hl Hq. rewrite fmap_cons in D. apply list.NoDup_cons in D as [Hnew D].
  split; [|..|done].
  - intros b Hb. eapply tracked_replaced; eauto; [apply T; by right|]. intros Hb'. destruct Hnew.
    apply list_elem_of_fmap. exists b. split; [|done].
    destruct p; try done; destruct Hh as (<- & _), Hb' as (<- & _); done.
  - intros key' j p' [(-> & -> & ->)|[Hne Hpart]]%part_replaced_cases Ho'; [congruence| |done].
    destruct (O _ _ _ Hpart Ho') as (b & [->|Hb]%elem_of_cons & Hh'); [|eauto].
    destruct (holds_at _ _ _ _ _ _ Hc Hpart Hh') as [-> ->]. done.
Qed.

(** A pending partition is given to the worker. *)
Lemma owns_assigned c now a open ws st :
  wf c → owns c now open → stages c !! task_key (as_task a) = Some st → plan st = as_stage a →
  partitions st !! task_index (as_task a) = Some (Pending (ta_attempt (as_task a))) →
  tl_worker_id (as_lease a) = w → tl_issued_at_ms (as_lease a) = now →
  (now < tl_expires_at_ms (as_lease a))%N →
  owns (replaced c (task_key (as_task a)) (task_index (as_task a))
          (Active (as_task a) w (as_lease a) None) ws st) now (a :: open).
Proof.
  intros Hc [T O D] Hst Hpl Hp Hw Hi He. split.
  - intros b [->|Hb]%elem_of_cons; [|eapply tracked_replaced; eauto; by constructor].
    split; [done|lia|lia|]. eexists _, (Active (as_task a) w (as_lease a) None). simpl.
    split_and!; [apply lookup_insert_eq|done| |left; cbn; by auto].
    apply list_lookup_insert_eq. by eapply lookup_lt_Some.
  - intros key j p [(-> & -> & ->)|[_ Hpart]]%part_replaced_cases Ho; [| |done].
    + exists a. split; [by left|cbn; by auto].
    + destruct (O _ _ _ Hpart Ho) as (b & Hb & Hh). exists b. split; [by right|done].
  - rewrite fmap_cons. apply list.NoDup_cons. split; [|done]. intros (b & Ht & Hb)%list_elem_of_fmap.
    destruct (tr_part _ _ _ (T b Hb)) as (st' & p' & Hst' & _ & Hp' & [Hh|Hs]); rewrite <-Ht in *; simplify_eq.
    + done.
    + simpl in Hs. rewrite N.ltb_irrefl in Hs. done.
Qed.
End owns.

(** ** The worker's calls

    Reports, heartbeats and requests for work of a worker whose open attempts the
    coordinator tracks ([owns]): each is accepted, or tells the worker that its attempt
    is superseded, and each keeps the tracking. *)

Definition report_time (s : TaskState) : N :=
  match s with TaskRunning t | TaskSucceeded t _ | TaskFailed t _ _ | TaskCancelled t _ => t end.

(** The report ends its task. *)
Definition ends (s : TaskState) : bool := match s with TaskRunning _ => false | _ => true end.

Section calls.
Context `{PlanFragments} (w : WorkerId).

Lemma reported_time_ok event l now :
  (tl_issued_at_ms l ≤ now)%N → (tl_issued_at_ms l < tl_expires_at_ms l)%N →
  validate_reported_time event (tl_issued_at_ms l) l now = Ok tt.
Proof.
  intros Hn Hl. unfold validate_reported_time. rewrite N.ltb_irrefl.
  by rewrite (proj2 (N.leb_gt _ _) Hl), (proj2 (N.ltb_ge _ _) Hn).
Qed.

Lemma finish_eq key i q c st :
  stages c !! key = Some st → i < length (partitions st) →
  (propagate c1 := set_partition key i q c keeping c in (Ok tt, release_worker_slot w c1)) =
  (Ok tt, replaced c key i q (alter release_slot w (workers c)) st).
Proof. intros Hst Hi. rewrite (set_partition_ok _ _ _ _ st) by done. by rewrite release_worker_slot_alter. Qed.

(** A report at the time its lease was issued is accepted while the attempt is held. *)
Lemma apply_report_own t l s s0 now key i c st :
  stages c !! key = Some st → partitions st !! i = Some (Active t w l s0) →
  (tl_issued_at_ms l ≤ now)%N → (tl_issued_at_ms l < tl_expires_at_ms l)%N →
  (s0 = None ∨ s0 = Some (tl_issued_at_ms l)) → report_time s = tl_issued_at_ms l →
  apply_report w t s now key i t w l s0 c =
  (Ok tt, if ends s then replaced c key i (reported (config c) t s) (alter release_slot w (workers c)) st
          else if s0 then c else replaced c key i (Active t w l (Some (tl_issued_at_ms l))) (workers c) st).
Proof.
  intros Hst Hp Hn Hl Hs0 Ht. pose proof (lookup_lt_Some _ _ _ Hp) as Hi.
  destruct s as [ts|ts bs|ts e rt|ts why]; simpl in Ht; subst ts; unfold apply_report; cbn [ends];
    rewrite reported_time_ok by done.
  - destruct Hs0 as [->| ->].
    + rewrite (set_partition_ok _ _ _ _ st) by done. done.
    + by rewrite decide_True.
  - by apply finish_eq.
  - replace (if rt then _ else _) with (reported (config c) t (TaskFailed (tl_issued_at_ms l) e rt)) by by destruct rt.
    by apply finish_eq.
  - by apply finish_eq.
Qed.

Lemma update_cancelling_own t l s now key i c st :
  stages c !! key = Some st → partitions st !! i = Some (Cancelling t w l) → tl_worker_id l = w →
  (tl_issued_at_ms l ≤ now)%N → (tl_issued_at_ms l < tl_expires_at_ms l)%N → report_time s = tl_issued_at_ms l →
  update_cancelling w t s now key i t w l c =
  (Ok tt, if ends s then replaced c key i PartitionCancelled (alter release_slot w (workers c)) st else c).
Proof.
  intros Hst Hp Hw Hn Hl Ht. pose proof (lookup_lt_Some _ _ _ Hp) as Hi.
  unfold update_cancelling. rewrite !decide_True by done.
  destruct s as [ts|ts bs|ts e rt|ts why]; simpl in Ht; subst ts; cbn [ends];
    rewrite reported_time_ok by done; [done|by apply finish_eq..].
Qed.

(** What a report of an open attempt does once the clock has advanced. *)
Inductive report_outcome (c : Coordinator) (now : N) (a : Assignment) (open : list Assignment) (s : TaskState)
    : result unit → Coordinator → Prop :=
| report_superseded p :
    part c (task_key (as_task a)) (task_index (as_task a)) = Some p → superseded (as_task a) p = true →
    owns w c now open → report_outcome c now a open s (Err TaskSuperseded) c
| report_started c' :
    ends s = false → workers c' = workers c → owns w c' now (a :: open) → report_outcome c now a open s (Ok tt) c'
| report_ended c' q :
    ends s = true → workers c' = alter release_slot w (workers c) → owns w c' now open →
    part c' (task_key (as_task a)) (task_index (as_task a)) = Some q →
    (q = PartitionCancelled ∨ q = reported (config c) (as_task a) s) →
    report_outcome c now a open s (Ok tt) c'.

Lemma part_of_replaced c key i q ws st :
  i < length (partitions st) → part (replaced c key i q ws st) key i = Some q.
Proof. intros Hi. unfold part. simpl. rewrite lookup_insert_eq. simpl. by apply list_lookup_insert_eq. Qed.

Lemma update_own c now a open s r c' :
  wf c → is_Some (workers c !! w) → owns w c now (a :: open) →
  (∀ st' l s0, part c (task_key (as_task a)) (task_index (as_task a)) = Some (Active st' w l s0) → (now < tl_expires_at_ms l)%N) →
  TaskState_validate_for s (as_task a) w = Ok tt → exchange_mismatch (as_stage a) s = false →
  report_time s = tl_issued_at_ms (as_lease a) →
  record_task_update w (as_task a) s now c = (r, c') → report_outcome c now a open s r c'.
Proof.
  intros Hc Hw Ho Hfresh Hs Hx Ht. destruct (ow_tracked _ _ _ _ Ho a) as [Ww I L (st & p & Hst & Hpl & Hp & Hor)]; [by left|].
  assert (part c (task_key (as_task a)) (task_index (as_task a)) = Some p) as Hpart by (apply part_Some; eauto).
  unfold record_task_update. rewrite (proj2 (contains_key_spec _ _) Hw). cbn [negb].
  change (ta_query_id (as_task a), ta_stage_id (as_task a)) with (task_key (as_task a)).
  fold (task_index (as_task a)). rewrite Hst. cbn [ok_or].
  destruct (wf_stage _ Hc _ _ Hst) as [K V Len _ _].
  replace (TaskAttemptId_validate_for (as_task a) (plan st)) with (Ok tt : result unit).
  2:{ symmetry. apply TaskAttemptId_validate_for_ok. injection K as Kq Ks. pose proof (vs_query _ V) as Vq.
      apply lookup_lt_Some in Hp. unfold task_index in Hp. rewrite Len in Hp. rewrite Kq in Vq. split_and!; [done..|lia]. }
  rewrite Hp. cbn [expect]. destruct (superseded (as_task a) p) eqn:Es.
  { intros [= <- <-]. eapply report_superseded; [done..|]. by eapply owns_drop. }
  destruct Hor as [Hh|?]; [|congruence]. rewrite Hpl, Hx. pose proof (lookup_lt_Some _ _ _ Hp) as Hi.
  destruct p as [n|t' v l s0|t' v l|t' bs|e1 e2 e3|]; try done.
  - destruct Hh as (-> & -> & -> & Hs0). unfold update_active. rewrite !decide_True by done.
    rewrite (proj2 (N.leb_gt _ _)) by by eapply Hfresh.
    rewrite (apply_report_own _ _ _ _ _ _ _ _ st) by done.
    destruct (reported_wf c (task_key (as_task a)) (task_index (as_task a)) st (as_task a) w (as_lease a) s0 s) as [_ Hlife];
      [done|done|by apply Hc|done|by rewrite Hpl|].
    intros [= <- <-]. destruct (ends s) eqn:Ee.
    + eapply report_ended; [done|done| |by apply part_of_replaced|by right].
      eapply owns_finished; [done..| |done|apply reported_free]. cbn; auto.
    + destruct s0 as [s0|]; [by apply report_started|]. apply report_started; [done..|].
      eapply owns_kept; [done..|constructor|by eapply (holds_occupies (as_task a) w (as_lease a)); cbn; auto|].
      intros t l (-> & _ & -> & _). cbn; auto.
  - destruct Hh as (-> & -> & ->). rewrite (update_cancelling_own _ _ _ _ _ _ _ st) by done.
    intros [= <- <-]. destruct (ends s) eqn:Ee; [|by apply report_started].
    eapply report_ended; [done|done| |by apply part_of_replaced|by left].
    eapply owns_finished; [done..| |constructor|done]. cbn; auto.
Qed.

(** *** The worker's entry *)

Definition enrolled (c : Coordinator) (reg : WorkerRegistration) (observed : N) : Prop :=
  ∃ wr, workers c !! w = Some wr ∧ registration wr = reg ∧ (last_observed_at_ms wr ≤ observed)%N.

Lemma enrolled_frame c c' reg observed : frame w c c' → enrolled c reg observed → enrolled c' reg observed.
Proof. intros Hf (wr & Hwr & Hr & Ho). destruct (fr_worker _ _ _ Hf _ Hwr) as (wr' & ? & ? & ?). exists wr'. split_and!; congruence || lia. Qed.

Lemma enrolled_released c c' reg observed :
  workers c' = alter release_slot w (workers c) → enrolled c reg observed → enrolled c' reg observed.
Proof.
  intros Hws (wr & Hwr & Hr & Ho). exists (release_slot wr). rewrite Hws, lookup_alter_eq, Hwr.
  by rewrite release_slot_registration, release_slot_observed.
Qed.

Lemma enrolled_is_Some c reg observed : enrolled c reg observed → is_Some (workers c !! w).
Proof. intros (wr & -> & _). by eexists. Qed.

(** *** Calls, with the clock *)

Lemma owns_advanced c t0 now open : wf c → (t0 ≤ now)%N → owns w c t0 open → owns w (advanced now c) now open.
Proof. intros Hc Hn. eapply owns_frame; [by apply frame_advanced|apply extends_advanced|done]. Qed.

Lemma good_worker c : wf c → is_Some (workers c !! w) → WorkerId_validate w = Ok tt.
Proof. intros Hc [wr Hwr]. apply validate_text_id_ok. eapply ww_good. by apply Hc. Qed.

Lemma report_own c t0 now a open s r c' :
  wf c → is_Some (workers c !! w) → owns w c t0 (a :: open) → (t0 ≤ now)%N →
  TaskState_validate_for s (as_task a) w = Ok tt → exchange_mismatch (as_stage a) s = false →
  report_time s = tl_issued_at_ms (as_lease a) →
  handle_worker_message (TaskUpdate PROTOCOL_VERSION w (as_task a) s) now c = (r, c') →
  report_outcome (advanced now c) now a open s r c'.
Proof.
  intros Hc Hw Ho Hn Hs Hx Ht. unfold handle_worker_message.
  assert (WorkerMessage_validate (TaskUpdate PROTOCOL_VERSION w (as_task a) s) = Ok tt) as ->.
  { unfold WorkerMessage_validate. rewrite (proj2 (validate_version_ok _)) by done. cbn [mbind result_bind].
    rewrite (good_worker c) by done. cbn [mbind result_bind].
    destruct (tr_part _ _ _ _ (ow_tracked _ _ _ _ Ho a ltac:(by left))) as (st & p & Hst & _).
    destruct (wf_stage _ Hc _ _ Hst) as [K V _ _ _]. injection K as Kq _. pose proof (vs_query _ V) as Vq. rewrite Kq in Vq.
    unfold QueryId_validate. by rewrite (proj2 (validate_text_id_ok _ _) Vq). }
  rewrite advance_time_advanced. apply update_own; try done.
  - by apply wf_advanced.
  - destruct Hw as [wr Hwr]. destruct (et_worker _ _ (extends_advanced now c) _ _ Hwr) as (wr' & ? & _). eauto.
  - by eapply owns_advanced.
  - intros t l s0 Hp. eapply held_lease_fresh; eauto.
Qed.

(** A heartbeat that counts the open attempts. *)
Lemma heartbeat_own c t0 now observed reg open h :
  wf c → enrolled c reg observed → owns w c t0 open → (t0 ≤ now)%N →
  wh_worker_id h = w → (observed ≤ wh_observed_at_ms h)%N →
  (wh_available_slots h ≤ wr_slots reg - N.of_nat (length open))%N →
  (wh_available_memory_bytes h ≤ wr_memory_bytes reg)%N →
  ∃ c', handle_worker_message (Heartbeat PROTOCOL_VERSION h) now c = (Ok tt, c') ∧
    stages c' = stages (advanced now c) ∧ enrolled c' reg (wh_observed_at_ms h) ∧ owns w c' now open.
Proof.
  intros Hc He Ho Hn Hw Hobs Hslots Hmem. unfold handle_worker_message.
  assert (WorkerMessage_validate (Heartbeat PROTOCOL_VERSION h) = Ok tt) as ->.
  { unfold WorkerMessage_validate. rewrite (proj2 (validate_version_ok _)) by done. cbn [mbind result_bind].
    rewrite Hw. eapply good_worker, enrolled_is_Some; done. }
  rewrite advance_time_advanced. pose proof (wf_advanced now c Hc) as Hc1.
  pose proof (owns_advanced _ _ _ _ Hc Hn Ho) as Ho1.
  destruct (enrolled_frame _ _ _ _ (frame_advanced w now c Hc) He) as (wr & Hwr & Hreg & Hlast).
  unfold record_heartbeat. rewrite Hw, Hwr, active_tasks_busy. cbn [ok_or]. rewrite Hreg.
  pose proof (owns_busy _ _ _ _ Hc1 Ho1). rewrite (proj2 (N.ltb_ge _ _)) by lia.
  rewrite (proj2 (N.ltb_ge _ _)) by (unfold saturating_sub; lia). rewrite (proj2 (N.ltb_ge _ _)) by done.
  eexists. split_and!; [done..| |].
  - eexists. split; [apply lookup_insert_eq|]. simpl. done.
  - by destruct Ho1 as [T O D]; split; [intros a Ha; destruct (T a Ha); by split| |].
Qed.

(** What a request for work brings. *)
Inductive ask_outcome (c : Coordinator) (now : N) (open : list Assignment)
    : result (option CoordinatorMessage) → Coordinator → Prop :=
| ask_nothing : ask_outcome c now open (Ok None) c
| ask_assigned a c' :
    let m := AssignTask PROTOCOL_VERSION (as_stage a) (as_task a) (as_lease a) (as_inputs a) in
    CoordinatorMessage_validate m = Ok tt → tl_worker_id (as_lease a) = w →
    (∀ reg observed, enrolled c reg observed → enrolled c' reg observed) →
    owns w c' now (a :: open) → ask_outcome c now open (Ok (Some m)) c'.

Lemma ask_own c t0 now open r c' :
  wf c → is_Some (workers c !! w) → owns w c t0 open → (t0 ≤ now)%N →
  (now + lease_duration_ms (config c) ≤ U64_MAX)%N →
  next_assignment_for w now c = (r, c') → ask_outcome (advanced now c) now open r c'.
Proof.
  intros Hc Hw Ho Hn Hclock. unfold next_assignment_for. rewrite advance_time_advanced.
  pose proof (wf_advanced now c Hc) as Hc1. pose proof (owns_advanced _ _ _ _ Hc Hn Ho) as Ho1.
  destruct Hw as [wr0 Hwr0]. destruct (et_worker _ _ (extends_advanced now c) _ _ Hwr0) as (wr & Hwr & _).
  change (config c) with (config (advanced now c)) in Hclock. revert Hc1 Ho1 Hclock Hwr.
  generalize (advanced now c) as c1. intros c1 Hc1 Ho1 Hclock Hwr.
  rewrite Hwr. cbn [ok_or]. destruct (alive wr) eqn:Ea; cbn [negb orb].
  2:{ intros [= <- <-]. constructor. }
  destruct (N.eqb_spec (available_slots wr) 0) as [|Hz]. { intros [= <- <-]. constructor. }
  pose proof (assign_to_worker_spec c1 w wr now Hc1 Hwr Ea ltac:(lia)) as Hs.
  destruct (next_pending_partition c1) as [[[key i] n]|] eqn:En.
  2:{ rewrite Hs. intros [= <- <-]. constructor. }
  destruct Hs as [[? _]|(st & c2 & _ & Hst & Has & Hv & _ & _)]; [lia|]. rewrite Has. intros [= <- <-].
  destruct (assign_to_worker_state _ _ _ _ _ _ _ _ En Has) as (? & task & lease & ? & c3 & Hm & Hset & Htake).
  injection Hm as _ <- <- _.
  destruct (next_pending_Some _ _ _ _ En) as (st' & Hst' & _ & _ & Hp). simplify_eq.
  rewrite (set_partition_ok _ _ _ _ st) in Hset by (done || by eapply lookup_lt_Some). injection Hset as <-.
  rewrite (take_worker_slot_ok w wr) in Htake by (done || lia). injection Htake as <-.
  set (a := MkAssignment (plan st) (assigned_task key i n) (MkTaskLease w now (now + lease_duration_ms (config c1)))
              (expected_inputs c1 (plan st) (MkPartitionId (N.of_nat i)))).
  assert (task_key (as_task a) = key ∧ task_index (as_task a) = i) as [Hk Hi].
  { unfold task_key, task_index; simpl. rewrite Nat2N.id. by destruct key. }
  pose proof (vc_lease _ (wf_config _ Hc1)) as Hlease.
  apply (ask_assigned c1 now open a); [done..| |].
  - intros reg observed (wr' & Hwr' & Hr & Hobs). simplify_eq. eexists. simpl. split; [apply lookup_insert_eq|]. done.
  - pose proof (owns_assigned w c1 now a open (<[w := set_slots wr (available_slots wr - 1)]> (workers c1)) st Hc1 Ho1) as Hown.
    rewrite Hk, Hi in Hown. apply Hown; try done. simpl. lia.
Qed.
End calls.
