(* ===== verification/WorkerSystem.v ===== *)
(** * A worker and its coordinator

    One worker runs against the coordinator while everybody else goes on: other workers,
    drivers that submit and cancel, and the queues of the control plane.  Calls of the
    worker are answered; [sys_now] is the clock of the server, which never steps back,
    and [sys_observed] the worker's own clock at its last heartbeat. *)
From S2P Require Import Prelude Text Protocol Coordinator CoordinatorClock CoordinatorInv CoordinatorSpec CoordinatorSteps CoordinatorAssign CoordinatorRun BlockStore Wire ControlPlane ControlPlaneProps Worker.

Record System := MkSystem {
  sys_coordinator : Coordinator;
  sys_queues : Queues;
  sys_worker : RemoteWorker;
  sys_asking : bool;
  sys_discarded : list ShuffleBlock;
  sys_now : N;
  sys_observed : N;
}.

(** The arms of the worker's loop, cut at the locks of the control plane: a poll first
    takes the lock of the queues and then asks the coordinator. *)
Inductive Action :=
| ActShutdown
| ActHeartbeat (observed_at_ms reserved_bytes : N)
| ActPoll
| ActAsk
| ActStart
| ActComplete (k : nat) (outcome : result TaskOutput)
| ActReport.

Section system.
Context `{PlanFragments} (cfg : WorkerConfig).

Definition me : WorkerId := wc_worker_id cfg.

Definition with_worker (s : System) (w : RemoteWorker) : System :=
  MkSystem (sys_coordinator s) (sys_queues s) w (sys_asking s) (sys_discarded s) (sys_now s) (sys_observed s).

(** After an answered call at [now]. *)
Definition after_call (s : System) (now : N) (c : Coordinator) (w : RemoteWorker) : System :=
  MkSystem c (sys_queues s) w false (sys_discarded s) now (sys_observed s).

Definition send (now : N) (m : WorkerMessage) (s : System) : result unit * Coordinator :=
  let '(r, c) := handle_worker_message m now (sys_coordinator s) in (received ACTION_WORKER_MESSAGE r, c).

(** [validate] on the client's side of a poll *)
Definition checked (m : option CoordinatorMessage) : result (option CoordinatorMessage) :=
  _ ← validate_assignment m; Ok m.

(** One action of the worker; [None] when its loop is somewhere else. *)
Definition act (now : N) (a : Action) (s : System) : option (result System) :=
  let w := sys_worker s in
  match a, rw_phase w, sys_asking s with
  | ActShutdown, Waiting, false =>
      if rw_stopping w then None else Some (Ok (with_worker s (on_shutdown w)))
  | ActHeartbeat observed reserved, Waiting, false =>
      if finished w then None else
      let '(r, c) := send now (Heartbeat PROTOCOL_VERSION (heartbeat_of cfg w observed reserved)) s in
      Some (w ← on_heartbeat r w; Ok (MkSystem c (sys_queues s) w false (sys_discarded s) now observed))
  | ActPoll, Waiting, false =>
      if rw_stopping w then None else
      match poll_pending me (sys_queues s) with
      | (Some m, q) =>
          Some (w ← on_poll cfg (checked (Some m)) w;
                Ok (MkSystem (sys_coordinator s) q w false (sys_discarded s) (sys_now s) (sys_observed s)))
      | (None, q) => Some (Ok (MkSystem (sys_coordinator s) q w true (sys_discarded s) (sys_now s) (sys_observed s)))
      end
  | ActAsk, Waiting, true =>
      let '(r, c) := poll_coordinator now (poll_request cfg w) (sys_coordinator s) in
      Some (w ← on_poll cfg (m ← received ACTION_POLL_ASSIGNMENT r; checked m) w; Ok (after_call s now c w))
  | ActStart, Starting a, false =>
      let '(r, c) := send now (TaskUpdate PROTOCOL_VERSION me (as_task a) (start_report a)) s in
      Some (w ← on_started a r w; Ok (after_call s now c w))
  | ActComplete k outcome, Waiting, false =>
      match rw_tasks w !! k with
      | None => None
      | Some _ => Some ('(w, discarded) ← on_completion k outcome w;
          Ok (MkSystem (sys_coordinator s) (sys_queues s) w false (sys_discarded s ++ discarded) (sys_now s) (sys_observed s)))
      end
  | ActReport, Reporting a state, false =>
      let '(r, c) := send now (TaskUpdate PROTOCOL_VERSION me (as_task a) state) s in
      let '(r, discarded) := on_reported cfg state r w in
      Some (w ← r; Ok (MkSystem c (sys_queues s) w false (sys_discarded s ++ discarded) now (sys_observed s)))
  | _, _, _ => None
  end.

(** ** What the worker may rely on *)

(** A queued message is a valid cancellation. *)
Definition cancellation (m : CoordinatorMessage) : Prop :=
  match m with CancelQuery _ _ _ => CoordinatorMessage_validate m = Ok tt | _ => False end.

(** Tasks do not panic, and their output is one block per destination, produced by the
    task on this worker, and counted. *)
Definition good_outcome (a : Assignment) (outcome : result TaskOutput) : Prop :=
  match outcome with
  | Ok output =>
      let state := TaskSucceeded (tl_issued_at_ms (as_lease a)) (to_blocks output) in
      TaskState_validate_for state (as_task a) me = Ok tt ∧ exchange_mismatch (as_stage a) state = false ∧
      sum_u64 (sb_rows <$> to_blocks output) = Ok (to_rows output) ∧
      sum_u64 (sb_bytes <$> to_blocks output) = Ok (to_bytes output)
  | Err _ => True
  | Panic _ => False
  end.

Definition admissible (s : System) (a : Action) : Prop :=
  match a with
  | ActHeartbeat observed _ => (sys_observed s ≤ observed)%N
  | ActComplete k outcome => ∀ a, rw_tasks (sys_worker s) !! k = Some a → good_outcome a outcome
  | _ => True
  end.

(** The server's clock has not stepped back, and leases do not overflow it. *)
Definition clock_ok (s : System) (now : N) : Prop :=
  (sys_now s ≤ now)%N ∧ (now + lease_duration_ms (config (sys_coordinator s)) ≤ U64_MAX)%N.

Inductive sys_step (s : System) : System → Prop :=
| step_worker a now s' :
    clock_ok s now → admissible s a → act now a s = Some (Ok s') → sys_step s s'
| step_foreign cmd r c :
    foreign me cmd → typed_command cmd → (∀ t, clock cmd = Some t → (sys_now s ≤ t)%N) →
    execute cmd (sys_coordinator s) = (r, c) →
    sys_step s (MkSystem c (sys_queues s) (sys_worker s) (sys_asking s) (sys_discarded s)
                  (default (sys_now s) (clock cmd)) (sys_observed s))
| step_queues q :
    (q !! me = sys_queues s !! me ∨
     ∃ m, cancellation m ∧ q !! me = Some (default [] (sys_queues s !! me) ++ [m])) →
    sys_step s (MkSystem (sys_coordinator s) q (sys_worker s) (sys_asking s) (sys_discarded s) (sys_now s)
                  (sys_observed s)).

(** The worker has just registered. *)
Definition sys_start (s : System) : Prop :=
  ∃ c0 now c q, wf c0 ∧ q !! me = None ∧
    handle_worker_message (Register PROTOCOL_VERSION (worker_registration cfg)) now c0 = (Ok tt, c) ∧
    s = MkSystem c q RemoteWorker_start false [] now 0.

Definition sys_reachable (s : System) : Prop := ∃ s0, sys_start s0 ∧ rtc sys_step s0 s.
End system.
