(* ===== verification/WorkerSystemProps.v ===== *)
(** * A worker is never refused

    An invariant of a worker and its coordinator ([sys_inv]), kept by every step of
    [WorkerSystem.v], and what follows from it: no call of the worker fails, and no block
    it discards is committed. *)
From S2P Require Import Prelude Text Protocol Coordinator CoordinatorClock CoordinatorInv CoordinatorSpec CoordinatorSteps CoordinatorAssign CoordinatorRun BlockStore Wire ControlPlane ControlPlaneProps Worker WorkerOwns WorkerSystem.

Definition in_phase (p : Phase) : list Assignment :=
  match p with Waiting => [] | Starting a | Reporting a _ => [a] end.

(** The assignments the worker has not reported the end of. *)
Definition open_tasks (w : RemoteWorker) : list Assignment := in_phase (rw_phase w) ++ rw_tasks w.

(** The partition a task is about. *)
Definition task_part (c : Coordinator) (t : TaskAttemptId) : option PartitionRuntime :=
  part c (task_key t) (task_index t).

Lemma display_error_text e : trim_is_empty (display_error e) = false.
Proof. by destruct e. Qed.

Section props.
Context `{PlanFragments} (cfg : WorkerConfig).
Implicit Types (s : System) (w : RemoteWorker).
Abbreviation me := (me cfg).

(** A report the coordinator will not reject. *)
Record reportable (a : Assignment) (state : TaskState) : Prop := {
  rp_valid : TaskState_validate_for state (as_task a) me = Ok tt;
  rp_exchange : exchange_mismatch (as_stage a) state = false;
  rp_time : report_time state = tl_issued_at_ms (as_lease a);
}.

Lemma unmatched stage state : (∀ t blocks, state ≠ TaskSucceeded t blocks) →
  exchange_mismatch stage state = false.
Proof. intros Hs. unfold exchange_mismatch. case_match; [|done]. destruct state; try done. by destruct (Hs finished_at_ms output_blocks). Qed.

(** The end of a task, and that a success has been counted. *)
Record ending (w : RemoteWorker) (a : Assignment) (state : TaskState) : Prop := {
  en_report : reportable a state;
  en_ends : ends state = true;
  en_counted t blocks : state = TaskSucceeded t blocks →
    (0 < completed_tasks (rw_summary w))%N ∧ is_ok (sum_u64 (sb_rows <$> blocks)) ∧
    is_ok (sum_u64 (sb_bytes <$> blocks));
}.

Record worker_inv (w : RemoteWorker) : Prop := {
  wi_active : dom (rw_active w) = list_to_set (as_task <$> rw_tasks w);
  wi_room : (N.of_nat (length (rw_tasks w)) ≤ wc_slots cfg)%N;
  wi_starting a : rw_phase w = Starting a → (N.of_nat (length (rw_tasks w)) < wc_slots cfg)%N;
  wi_reason q r : rw_cancelled w !! q = Some r → trim_is_empty r = false;
  wi_reporting a state : rw_phase w = Reporting a state → ending w a state;
}.

(** The block cannot be committed any more: its task is superseded, or about to be
    reported as cancelled. *)
Definition gone (c : Coordinator) (p : Phase) (b : ShuffleBlock) : Prop :=
  (∃ q, task_part c (sb_producer b) = Some q ∧ superseded (sb_producer b) q = true) ∨
  (∃ a t why, p = Reporting a (TaskCancelled t why) ∧ as_task a = sb_producer b).

Record sys_inv (s : System) : Prop := {
  si_wf : wf (sys_coordinator s);
  si_enrolled : enrolled me (sys_coordinator s) (worker_registration cfg) (sys_observed s);
  si_owns : owns me (sys_coordinator s) (sys_now s) (open_tasks (sys_worker s));
  si_worker : worker_inv (sys_worker s);
  si_queue : Forall cancellation (default [] (sys_queues s !! me));
  si_gone b : b ∈ sys_discarded s → gone (sys_coordinator s) (rw_phase (sys_worker s)) b;
}.

(** ** Basic facts *)

Lemma moved_superseded c c' t p :
  moves c c' → task_part c t = Some p → superseded t p = true →
  ∃ p', task_part c' t = Some p' ∧ superseded t p' = true.
Proof. intros Hm Hp Hs. destruct (Hm _ _ _ Hp) as (p' & Hp' & Hl). exists p'. split; [done|]. by eapply lifecycle_superseded_rtc. Qed.

Lemma gone_moves c c' p b : moves c c' → gone c p b → gone c' p b.
Proof. intros Hm [(q & Hq & Hs)|Hr]; [left|by right]. by eapply moved_superseded. Qed.

Lemma size_active w : worker_inv w → NoDup (as_task <$> rw_tasks w) → size (rw_active w) = length (rw_tasks w).
Proof.
  intros Hw Hd. rewrite <-size_dom, (wi_active _ Hw), size_list_to_set by done. apply length_fmap.
Qed.

Lemma open_distinct s : sys_inv s → NoDup (as_task <$> rw_tasks (sys_worker s)).
Proof.
  intros Hi. pose proof (ow_distinct _ _ _ _ (si_owns _ Hi)) as Hd. unfold open_tasks in Hd.
  rewrite fmap_app in Hd. by apply list.NoDup_app in Hd as (_ & _ & Hd).
Qed.

Lemma inv_size s : sys_inv s → size (rw_active (sys_worker s)) = length (rw_tasks (sys_worker s)).
Proof. intros Hi. apply size_active; [apply Hi|by apply open_distinct]. Qed.

(** ** Steps of the others *)

Lemma inv_foreign s cmd r c :
  sys_inv s → foreign me cmd → typed_command cmd → (∀ t, clock cmd = Some t → (sys_now s ≤ t)%N) →
  execute cmd (sys_coordinator s) = (r, c) →
  sys_inv (MkSystem c (sys_queues s) (sys_worker s) (sys_asking s) (sys_discarded s)
             (default (sys_now s) (clock cmd)) (sys_observed s)).
Proof.
  intros [W E O I Q G] Hf Ht Hclock Hx. destruct (execute_step _ _ _ _ W Ht Hx) as (Hg & _).
  pose proof (frame_foreign _ _ _ _ _ W Hf Hx) as Hframe. split; simpl; [apply Hg| | |done..|].
  - by eapply enrolled_frame.
  - eapply owns_frame; [done|apply Hg| |done]. destruct (clock cmd) as [t|]; simpl; [by apply Hclock|lia].
  - intros b Hb. eapply gone_moves; [apply Hg|by apply G].
Qed.

Lemma inv_queues s q :
  sys_inv s →
  (q !! me = sys_queues s !! me ∨ ∃ m, cancellation m ∧ q !! me = Some (default [] (sys_queues s !! me) ++ [m])) →
  sys_inv (MkSystem (sys_coordinator s) q (sys_worker s) (sys_asking s) (sys_discarded s) (sys_now s) (sys_observed s)).
Proof.
  intros [W E O I Q G] Hq. split; simpl; try done.
  destruct Hq as [->|(m & Hm & ->)]; [done|]. simpl. apply list.Forall_app. split; [done|]. by apply Forall_singleton.
Qed.

Lemma inv_start s : (wc_slots cfg ≤ U32_MAX)%N → sys_start cfg s → sys_inv s.
Proof.
  intros Hslots (c0 & now & c & q & Hc0 & Hq & Hx & ->).
  destruct (handle_worker_message_step (Register PROTOCOL_VERSION (worker_registration cfg)) _ _ _ _ Hc0 Hslots Hx) as (Hg & _).
  unfold handle_worker_message in Hx. destruct (WorkerMessage_validate _) as [[]| |] eqn:Ev; [|done..].
  rewrite advance_time_advanced in Hx. pose proof (wf_advanced now c0 Hc0) as Hc1. unfold register_worker in Hx.
  destruct (contains_key _ _) eqn:Ek; [done|]. apply contains_key_false in Ek. injection Hx as <-.
  split; simpl; [apply Hg| | | | |by intros b ?%elem_of_nil].
  - eexists. simpl. split; [apply lookup_insert_eq|]. simpl. split; [done|lia].
  - split; simpl; [by intros a ?%elem_of_nil| |constructor]. intros key i p Hp Ho. exfalso.
    change (part (advanced now c0) key i = Some p) in Hp.
    assert (is_Some (workers (advanced now c0) !! me)) as [wr Hwr].
    { pose proof (wf_part _ Hc1 _ _ _ Hp) as Hpw. destruct p; try done; apply bool_decide_eq_true in Ho as <-; apply Hpw. }
    change (wr_worker_id (worker_registration cfg)) with me in Ek. congruence.
  - split; simpl; [by rewrite dom_empty_L|lia|done|by intros q' r'; rewrite lookup_empty|done].
  - rewrite Hq. constructor.
Qed.

(** ** The worker's own state *)

Lemma worker_inv_shutdown w : worker_inv w → worker_inv (on_shutdown w).
Proof.
  intros [A R S C P]. split; simpl; try done; [unfold cancel_all; by rewrite dom_fmap_L|]. intros a state Hp. destruct (P _ _ Hp). by split.
Qed.

Lemma worker_inv_cancel w q reason :
  worker_inv w → trim_is_empty reason = false → rw_phase w = Waiting →
  ∃ w', on_poll cfg (Ok (Some (CancelQuery PROTOCOL_VERSION q reason))) w = Ok w' ∧ worker_inv w' ∧
    rw_phase w' = Waiting ∧ rw_tasks w' = rw_tasks w.
Proof.
  intros [A R S C P] Hr Hw. eexists. split; [done|]. split; [|done]. split; simpl.
  - rewrite <-A. apply set_eq. intros t. rewrite !elem_of_dom, map_lookup_imap.
    destruct (rw_active w !! t); simpl; [|done]. by split; eexists.
  - done.
  - done.
  - intros q' r' [[_ <-]|[_ Hc]]%lookup_insert_Some; [done|by eapply C].
  - congruence.
Qed.

Lemma worker_inv_waiting w : worker_inv w → worker_inv (with_phase w Waiting).
Proof. intros [A R S C P]. by split. Qed.

Lemma worker_inv_started w a :
  worker_inv w → rw_phase w = Starting a → worker_inv
    (MkRemoteWorker (<[as_task a := false]> (rw_active w)) (rw_tasks w ++ [a]) (rw_cancelled w) (rw_summary w)
       (rw_stopping w) Waiting).
Proof.
  intros [A R S C P] Hp. split; simpl; try done.
  - rewrite dom_insert_L, A, fmap_app, list_to_set_app_L. simpl. set_solver.
  - rewrite length_app. simpl. specialize (S _ Hp). lia.
Qed.

(** ** Steps of the worker *)

Implicit Types (r : result System).
Definition allowed (r : result System) : Prop := ∃ s', r = Ok s' ∧ sys_inv s'.

Lemma ok_shutdown s now r : sys_inv s → act cfg now ActShutdown s = Some r → allowed r.
Proof.
  intros Hi. cbn [act]. destruct (rw_phase _) eqn:Ep; [|done..]. destruct (sys_asking s) eqn:Ea; [done|].
  destruct (rw_stopping _); [done|]. intros [= <-]. eexists. split; [done|].
  destruct Hi as [W E O I Q G]. split; simpl; try done. by apply worker_inv_shutdown.
Qed.

Lemma ok_heartbeat s now observed reserved r :
  sys_inv s → clock_ok s now → (sys_observed s ≤ observed)%N →
  act cfg now (ActHeartbeat observed reserved) s = Some r → allowed r.
Proof.
  intros Hi [Hn _] Ho. cbn [act]. destruct (rw_phase _) eqn:Ep; [|done..]. destruct (sys_asking s) eqn:Ea; [done|].
  destruct (finished _); [done|]. unfold send. set (h := heartbeat_of cfg (sys_worker s) observed reserved).
  pose proof (inv_size s Hi) as Hsize. destruct Hi as [W E O I Q G].
  destruct (heartbeat_own me (sys_coordinator s) (sys_now s) now (sys_observed s) (worker_registration cfg)
    (open_tasks (sys_worker s)) h) as (c & Hx & Hst & E' & O'); try done.
  { unfold open_tasks. rewrite Ep. simpl. unfold saturating_sub. rewrite Hsize.
    pose proof (wi_room _ I). destruct (decide (N.of_nat (length (rw_tasks (sys_worker s))) < 2 ^ 32)%N).
    - rewrite N.mod_small by done. lia.
    - exfalso. destruct E as (wr & Hwr & Hreg & _). destruct (wf_worker _ W _ _ Hwr) as [_ _ Hu _].
      rewrite Hreg in Hu. simpl in Hu. unfold U32_MAX in Hu. lia. }
  { simpl. unfold saturating_sub. lia. }
  destruct (handle_worker_message_step (Heartbeat PROTOCOL_VERSION h) now _ _ _ W Logic.I Hx) as (Hg & _).
  rewrite Hx. cbn. intros [= <-]. eexists. split; [done|].
  split; simpl; try done; [apply Hg|]. intros b Hb. eapply gone_moves; [apply Hg|by apply G].
Qed.

Lemma ok_poll s now r : sys_inv s → act cfg now ActPoll s = Some r → allowed r.
Proof.
  intros Hi. cbn [act]. destruct (rw_phase _) eqn:Ep; [|done..]. destruct (sys_asking s) eqn:Ea; [done|].
  destruct (rw_stopping _); [done|]. destruct Hi as [W E O I Q G]. unfold poll_pending.
  destruct (sys_queues s !! me) as [[|m rest]|] eqn:Eq.
  1,3: intros [= <-]; eexists; (split; [done|]); split; simpl; try done; by rewrite Eq.
  cbn [default] in Q. apply list.Forall_cons in Q as [Hm Q]. destruct m as [|v q reason]; [done|]. simpl in Hm.
  unfold checked, validate_assignment. cbn [CoordinatorMessage_validate]. rewrite Hm. cbn [mbind result_bind].
  apply bind_unit_ok in Hm as [Hv Hm]. apply validate_version_ok in Hv as ->. apply bind_unit_ok in Hm as [_ Hm].
  destruct (trim_is_empty reason) eqn:Et; [done|].
  destruct (worker_inv_cancel _ q reason I Et Ep) as (w' & -> & I' & Ep' & Et').
  cbn [mbind result_bind]. intros [= <-]. eexists. split; [done|]. split; simpl; try done.
  - unfold open_tasks in *. by rewrite Ep', Et'; rewrite Ep in O.
  - by rewrite lookup_insert_eq.
  - rewrite Ep', <-Ep. done.
Qed.

Lemma ok_ask s now r : sys_inv s → clock_ok s now → act cfg now ActAsk s = Some r → allowed r.
Proof.
  intros Hi [Hn Hclock]. cbn [act]. destruct (rw_phase _) eqn:Ep; [|done..]. destruct (sys_asking s) eqn:Ea; [|done].
  pose proof (inv_size s Hi) as Hsize. destruct Hi as [W E O I Q G].
  unfold poll_coordinator, poll_request. cbn [par_accept_tasks par_worker_id].
  destruct (N.ltb_spec (N.of_nat (size (rw_active (sys_worker s)))) (wc_slots cfg)) as [Hlt|Hge].
  2:{ cbn. intros [= <-]. eexists. split; [done|]. split; simpl; try done. by eapply owns_later. }
  fold me. destruct (next_assignment_for me now (sys_coordinator s)) as [r0 c] eqn:Ex.
  destruct (next_assignment_for_step _ _ _ _ _ W Ex) as (Hg & _).
  pose proof (ask_own me _ _ _ _ _ _ W (enrolled_is_Some _ _ _ _ E) O Hn Hclock Ex) as Hout.
  pose proof (frame_advanced me now _ W) as Hf.
  destruct Hout as [|a c m Hv Hl He Ho].
  - cbn. intros [= <-]. eexists. split; [done|]. split; simpl; try done; [apply Hg|by eapply enrolled_frame|by eapply owns_advanced|].
    intros b Hb. eapply gone_moves; [apply Hg|by apply G].
  - cbn [received mbind result_bind]. unfold checked, validate_assignment. rewrite Hv. cbn [mbind result_bind]. unfold on_poll, m.
    cbn [mbind result_bind]. rewrite decide_True by done. rewrite (proj2 (N.leb_gt _ _) Hlt). cbn [mbind result_bind].
    intros [= <-]. eexists. split; [done|]. destruct a as [st t l ins]. split; simpl; try done; [apply Hg| | | |].
    + apply He. by eapply enrolled_frame.
    + unfold open_tasks in Ho. by rewrite Ep in Ho.
    + destruct I as [A R S C P]. split; simpl; try done. intros a _. rewrite <-Hsize. done.
    + intros b Hb. destruct (G b Hb) as [Hp|(a & t' & why & Hp & _)]; [|congruence]. eapply gone_moves; [apply Hg|by left].
Qed.

(** A report of the open attempt [a] goes through. *)
Lemma send_report s now a state answer c :
  sys_inv s → clock_ok s now → in_phase (rw_phase (sys_worker s)) = [a] → reportable a state →
  send now (TaskUpdate PROTOCOL_VERSION me (as_task a) state) s = (answer, c) →
  good_step (sys_coordinator s) c ∧ enrolled me c (worker_registration cfg) (sys_observed s) ∧
  report_outcome me (advanced now (sys_coordinator s)) now a (rw_tasks (sys_worker s)) state answer c.
Proof.
  intros [W E O I Q G] [Hn _] Hp [Hv Hx Ht]. unfold send.
  destruct (handle_worker_message _ now _) as [r0 c0] eqn:Eh. intros [= <- <-].
  destruct (handle_worker_message_step (TaskUpdate PROTOCOL_VERSION me (as_task a) state) now _ _ _ W Logic.I Eh) as (Hg & _).
  unfold open_tasks in O. rewrite Hp in O.
  pose proof (report_own me _ _ _ _ _ _ _ _ W (enrolled_is_Some _ _ _ _ E) O Hn Hv Hx Ht Eh) as Hout.
  split; [done|]. pose proof (enrolled_frame _ _ _ _ _ (frame_advanced me now _ W) E) as E1.
  destruct Hout as [p Hpart Hs Hown|c' He Hw Hown|c' q He Hw Hown Hpart Hq].
  - split; [done|]. by eapply report_superseded.
  - split; [|by apply report_started]. destruct E1 as (wr & Hwr & ?). exists wr. by rewrite Hw.
  - split; [by eapply enrolled_released|]. by eapply report_ended.
Qed.

Lemma ok_start s now r : sys_inv s → clock_ok s now → act cfg now ActStart s = Some r → allowed r.
Proof.
  intros Hi Hc. cbn [act]. destruct (rw_phase _) as [|a|] eqn:Ep; [done| |done]. destruct (sys_asking s) eqn:Ea; [done|].
  fold me. destruct (send _ _ _) as [r0 c] eqn:Es. 
  destruct (send_report s now a (start_report a) r0 c Hi Hc) as (Hg & E & Hout); [by rewrite Ep|by split; [|apply unmatched|]|done|].
  destruct Hi as [W E0 O I Q G].
  assert (∀ b, b ∈ sys_discarded s → gone c Waiting b) as G'.
  { intros b Hb. destruct (G b Hb) as [Hp|(? & ? & ? & Hp & _)]; [|congruence]. eapply gone_moves; [apply Hg|by left]. }
  destruct Hout as [p Hpart Hs Hown|c' He Hw Hown|c' q He Hw Hown Hpart Hq]; [| |done]; cbn; intros [= <-]; eexists; (split; [done|]);
    split; simpl; try done; try apply Hg.
  - by apply worker_inv_waiting.
  - unfold open_tasks. simpl. eapply owns_perm; [|done]. by rewrite Permutation_app_comm.
  - by apply worker_inv_started.
Qed.

(** ** The end of a task *)

Lemma final_report_ok w a outcome :
  worker_inv w → good_outcome cfg a outcome →
  ∃ state summary discarded, final_report w a outcome = Ok (state, summary, discarded) ∧
    ending (MkRemoteWorker (rw_active w) (rw_tasks w) (rw_cancelled w) summary (rw_stopping w) (rw_phase w)) a state ∧
    (∀ b, b ∈ discarded → sb_producer b = as_task a ∧ ∃ t why, state = TaskCancelled t why).
Proof.
  intros [A R S C P] Ho. unfold final_report. pose proof (C (ta_query_id (as_task a))) as Hc.
  destruct outcome as [output|e|]; [| |done].
  - destruct Ho as (Hv & Hx & Hrows & Hbytes). destruct (rw_cancelled w !! _) as [why|] eqn:Ec; eexists _, _, _; (split; [done|]).
    + split; [split; [split| |]; try done; [|by apply unmatched]|].
      { simpl. by rewrite (Hc _ eq_refl). }
      intros b Hb. simpl in Hv. apply for_each_ok in Hv. rewrite list.Forall_forall in Hv. specialize (Hv b Hb).
      split; [|by eauto]. unfold ShuffleBlock_validate_for in Hv. apply bind_unit_ok in Hv as [_ Hv]. by case_decide.
    + split; [split; [split| |]; try done|by intros b ?%elem_of_nil].
      intros t blocks [= <- <-]. simpl. rewrite Hrows, Hbytes. split_and!; [lia|done..].
  - destruct (rw_cancelled w !! _) as [why|] eqn:Ec; [|repeat (case_decide || case_match)];
      eexists _, _, _; (split; [done|]); (split; [|by intros b ?%elem_of_nil]);
      (split; [split| |]); try done; try by apply unmatched.
    + simpl. by rewrite (Hc _ eq_refl).
    + simpl. by rewrite display_error_text.
Qed.

Lemma ok_complete s now k outcome r :
  sys_inv s → (∀ a, rw_tasks (sys_worker s) !! k = Some a → good_outcome cfg a outcome) →
  act cfg now (ActComplete k outcome) s = Some r → allowed r.
Proof.
  intros Hi Ho. cbn [act]. destruct (rw_phase _) eqn:Ep; [|done..]. destruct (sys_asking s) eqn:Ea; [done|].
  destruct (rw_tasks (sys_worker s) !! k) as [a|] eqn:Ek; [|done]. unfold on_completion. rewrite Ek. cbn [expect mbind result_bind].
  pose proof (open_distinct s Hi) as Hd. destruct Hi as [W E O I Q G].
  destruct (final_report_ok _ _ _ I (Ho _ eq_refl)) as (state & summary & discarded & -> & Hend & Hdisc).
  cbn [mbind result_bind]. intros [= <-]. eexists. split; [done|].
  pose proof (delete_Permutation _ _ _ Ek) as Hperm. split; simpl; try done.
  - unfold open_tasks in *. rewrite Ep in O. simpl in *. eapply owns_perm; [|done]. done.
  - destruct I as [A R S C P]. split; simpl; try done.
    + rewrite dom_delete_L, A, (list_to_set_perm_L _ _ (fmap_Permutation as_task _ _ Hperm)), fmap_cons, list_to_set_cons.
      rewrite Hperm, fmap_cons, list.NoDup_cons in Hd. destruct Hd as [Hd _]. set_solver.
    + rewrite Hperm in R. simpl in R. lia.
    + intros a' st [= <- <-]. destruct Hend as [Hr He Hc]. by split.
  - intros b [Hb|Hb]%elem_of_app.
    + destruct (G b Hb) as [Hp|(? & ? & ? & Hp & _)]; [by left|congruence].
    + destruct (Hdisc b Hb) as (Hprod & t & why & ->). right. by exists a, t, why.
Qed.

Lemma after_report_inv w summary : worker_inv w → worker_inv (after_report cfg w summary).
Proof.
  intros [A R S C P]. unfold after_report. split; simpl; try done.
  destruct (match wc_max_terminal_tasks cfg with Some _ => _ | None => _ end); [|done].
  unfold cancel_all. by rewrite dom_fmap_L.
Qed.

Lemma uncount_ok w a t blocks : ending w a (TaskSucceeded t blocks) → ∃ summary, uncount (rw_summary w) blocks = Ok summary.
Proof.
  intros [_ _ Hc]. destruct (Hc _ _ eq_refl) as (Hn & Hr & Hb). unfold uncount.
  destruct (sum_u64 (sb_rows <$> blocks)); [|done..]. destruct (sum_u64 (sb_bytes <$> blocks)); [|done..]. cbn.
  destruct (N.eqb_spec (completed_tasks (rw_summary w)) 0); [lia|]. eauto.
Qed.

Lemma uncommitted_producer w a state b : ending w a state → b ∈ uncommitted_blocks state → sb_producer b = as_task a.
Proof.
  intros [[Hv _ _] _ _] Hb. destruct state as [|t blocks| |]; try by apply elem_of_nil in Hb. simpl in *.
  apply for_each_ok in Hv. rewrite list.Forall_forall in Hv. specialize (Hv b Hb).
  unfold ShuffleBlock_validate_for in Hv. apply bind_unit_ok in Hv as [_ Hv]. by case_decide.
Qed.

Lemma ok_report s now r : sys_inv s → clock_ok s now → act cfg now ActReport s = Some r → allowed r.
Proof.
  intros Hi Hc. cbn [act]. destruct (rw_phase _) as [| |a state] eqn:Ep; [done..|]. destruct (sys_asking s) eqn:Ea; [done|].
  fold me. destruct (send _ _ _) as [answer c] eqn:Es. pose proof (wi_reporting _ (si_worker _ Hi) _ _ Ep) as Hend.
  destruct (send_report s now a state answer c Hi Hc) as (Hg & E & Hout); [by rewrite Ep|apply Hend|done|].
  destruct Hi as [W E0 O I Q G]. destruct Hout as [p Hpart Hs Hown|c' He _ _|c' q He Hw Hown Hpart Hq].
  2:{ by rewrite (en_ends _ _ _ Hend) in He. }
  - assert (∃ summary, (match state with TaskSucceeded _ blocks => uncount (rw_summary (sys_worker s)) blocks | _ => Ok (rw_summary (sys_worker s)) end) = Ok summary) as [summary Hsum].
    { destruct state; eauto using uncount_ok. }
    cbn [on_reported]. rewrite Hsum. cbn [mbind result_bind]. intros [= <-].
    eexists. split; [done|]. split; simpl; try done; [apply Hg|by apply after_report_inv|].
    intros b [Hb|Hb]%elem_of_app; left.
    + destruct (G b Hb) as [(q & Hq & Hsup)|(a' & t & why & Hp & Ha')].
      * eapply moved_superseded; [apply Hg|done|done].
      * rewrite Ep in Hp. injection Hp as <- ->. rewrite <-Ha'. by exists p.
    + rewrite (uncommitted_producer _ _ _ _ Hend Hb). by exists p.
  - cbn [on_reported mbind result_bind]. intros [= <-]. eexists. split; [done|].
    split; simpl; try done; [apply Hg|by apply after_report_inv|]. rewrite app_nil_r. intros b Hb. left.
    destruct (G b Hb) as [(q' & Hq' & Hsup)|(a' & t & why & Hp & Ha')].
    + eapply moved_superseded; [apply Hg|done|done].
    + rewrite Ep in Hp. injection Hp as <- ->. rewrite <-Ha'. exists q. split; [done|]. by destruct Hq as [->| ->].
Qed.

(** ** Every step *)

Lemma act_allowed s now a r : sys_inv s → clock_ok s now → admissible cfg s a → act cfg now a s = Some r → allowed r.
Proof.
  intros Hi Hc Ha Hx. destruct a; cbn [admissible] in Ha;
    eauto using ok_shutdown, ok_heartbeat, ok_poll, ok_ask, ok_start, ok_complete, ok_report.
Qed.

Lemma sys_step_inv s s' : sys_inv s → sys_step cfg s s' → sys_inv s'.
Proof.
  intros Hi [a now s1 Hc Ha Hx|cmd r c Hf Ht Hclock Hx|q Hq].
  - destruct (act_allowed _ _ _ _ Hi Hc Ha Hx) as (s2 & [= <-] & ?). done.
  - by eapply inv_foreign.
  - by apply inv_queues.
Qed.

Lemma reachable_inv s : (wc_slots cfg ≤ U32_MAX)%N → sys_reachable cfg s → sys_inv s.
Proof.
  intros Hslots (s0 & Hs0 & Hr). pose proof (inv_start _ Hslots Hs0) as Hi. clear Hs0. induction Hr; eauto using sys_step_inv.
Qed.

(** What is discarded stays discarded. *)
Lemma sys_step_discarded s s' b : sys_step cfg s s' → b ∈ sys_discarded s → b ∈ sys_discarded s'.
Proof.
  intros [a now s1 _ _ Hx|cmd r c _ _ _ _|q _] Hb; [|done..]. revert Hx.
  unfold act, send, after_call, with_worker. destruct a; repeat case_match; try done; intros Hx; simplify_eq; try done;
    repeat match goal with Hr : context [mbind _ ?r] |- _ => destruct r as [[]| |]; simplify_eq/=; try done end.
  all: rewrite elem_of_app; by left.
Qed.

(** ** The guarantees *)

(** C17: a worker that registered is never refused: as long as clocks do not step back
    and its tasks do not panic, every heartbeat, request for work, start report and final
    report it makes is accepted, or answered by "superseded", which it survives; whatever
    other workers, drivers and cancellations do in between. *)
Theorem worker_never_refused s now a r :
  (wc_slots cfg ≤ U32_MAX)%N → sys_reachable cfg s → clock_ok s now → admissible cfg s a →
  act cfg now a s = Some r → ∃ s', r = Ok s'.
Proof.
  intros Hslots Hs Hc Ha Hx. destruct (act_allowed s now a r) as (s' & -> & _); eauto using reachable_inv.
Qed.

(** C14: the blocks a worker discards, because their query is cancelled or their task is
    superseded, are never the committed output of a partition, now or later. *)
Theorem discarded_blocks_uncommitted s s' b key i t blocks :
  (wc_slots cfg ≤ U32_MAX)%N → sys_reachable cfg s → b ∈ sys_discarded s → rtc (sys_step cfg) s s' →
  part (sys_coordinator s') key i = Some (Succeeded t blocks) → b ∉ blocks.
Proof.
  intros Hslots Hs Hb Hr Hp Hin. assert (b ∈ sys_discarded s') as Hb'.
  { clear Hp. induction Hr as [|s s1 s2 H1 _ IH]; [done|]. apply IH.
    - destruct Hs as (s0 & ? & ?). exists s0. split; [done|]. by eapply rtc_r.
    - by eapply sys_step_discarded. }
  assert (sys_reachable cfg s') as Hs' by (destruct Hs as (s0 & ? & ?); exists s0; split; [done|by etrans]).
  pose proof (reachable_inv _ Hslots Hs') as [W E O I Q G].
  destruct (wf_part _ W _ _ _ Hp) as (Hn & _ & Hblocks & _). rewrite list.Forall_forall in Hblocks.
  destruct (Hblocks b Hin) as [_ Hprod]. apply names_position in Hn as [-> ->]. subst t.
  destruct (G b Hb') as [(q & Hq & Hsup)|(a & t & why & Hph & Ha)].
  - unfold task_part in Hq. rewrite Hp in Hq. injection Hq as <-. simpl in Hsup. by rewrite N.ltb_irrefl in Hsup.
  - destruct (tr_part _ _ _ _ (ow_tracked _ _ _ _ O a ltac:(unfold open_tasks; rewrite Hph; by left))) as (st & p & Hst & _ & Hpp & Hor).
    assert (part (sys_coordinator s') (task_key (as_task a)) (task_index (as_task a)) = Some p) as Hpa by (apply part_Some; eauto).
    rewrite Ha in *. rewrite Hp in Hpa. injection Hpa as <-. destruct Hor as [|Hsup]; [done|].
    simpl in Hsup. by rewrite N.ltb_irrefl in Hsup.
Qed.
End props.
