(* ===== verification/WorkerDemo.v ===== *)
(** * A worker that loses a lease

    The map stage of [CoordinatorDemo.v] on one worker: its first attempt outlives its
    lease, so its blocks are discarded, and the second attempt commits. *)
From S2P Require Import Prelude Text Protocol Coordinator CoordinatorClock CoordinatorInv CoordinatorSpec CoordinatorSteps CoordinatorAssign CoordinatorRun CoordinatorDemo BlockStore Wire ControlPlane ControlPlaneProps Worker WorkerOwns WorkerSystem WorkerSystemProps.

Definition demo_cfg : WorkerConfig := MkWorkerConfig "http://127.0.0.1:50051" demo_worker 2 1000 1024 4 100 50
  (MkSocketAddr LOCALHOST 0) None 1000000 None None.

(** ** Scripts *)

Inductive Event :=
| ByWorker (now : N) (a : Action)
| ByOthers (cmd : command).

Definition is_done (r : result unit) : bool := match r with Ok _ => true | _ => false end.
Definition sums_to (l : list N) (n : N) : bool := match sum_u64 l with Ok m => (m =? n)%N | _ => false end.

Definition good_outcomeb (a : Assignment) (outcome : result TaskOutput) : bool :=
  match outcome with
  | Ok output =>
      let state := TaskSucceeded (tl_issued_at_ms (as_lease a)) (to_blocks output) in
      is_done (TaskState_validate_for state (as_task a) demo_worker) && negb (exchange_mismatch (as_stage a) state) &&
      sums_to (sb_rows <$> to_blocks output) (to_rows output) && sums_to (sb_bytes <$> to_blocks output) (to_bytes output)
  | Err _ => true
  | Panic _ => false
  end.

Definition admissibleb (s : System) (a : Action) : bool :=
  match a with
  | ActHeartbeat observed _ => (sys_observed s <=? observed)%N
  | ActComplete k outcome => match rw_tasks (sys_worker s) !! k with Some a => good_outcomeb a outcome | None => true end
  | _ => true
  end.

Definition foreignb (cmd : command) : bool :=
  match cmd with
  | DoSubmit _ | DoCancel _ _ | DoAdvance _ => true
  | _ => false
  end.

Definition play1 (e : Event) (s : System) : option System :=
  match e with
  | ByWorker now a =>
      if (sys_now s <=? now)%N && (now + lease_duration_ms (config (sys_coordinator s)) <=? U64_MAX)%N && admissibleb s a
      then match act demo_cfg now a s with Some (Ok s') => Some s' | _ => None end else None
  | ByOthers cmd =>
      if foreignb cmd && match clock cmd with Some t => (sys_now s <=? t)%N | None => true end then
        let '(_, c) := execute cmd (sys_coordinator s) in
        Some (MkSystem c (sys_queues s) (sys_worker s) (sys_asking s) (sys_discarded s)
                (default (sys_now s) (clock cmd)) (sys_observed s))
      else None
  end.

Fixpoint play (es : list Event) (s : System) : option System :=
  match es with [] => Some s | e :: es => match play1 e s with Some s => play es s | None => None end end.

Lemma sums_to_ok l n : sums_to l n = true → sum_u64 l = Ok n.
Proof. unfold sums_to. destruct (sum_u64 l); [|done..]. by intros ->%N.eqb_eq. Qed.

Lemma good_outcomeb_ok a outcome : good_outcomeb a outcome = true → good_outcome demo_cfg a outcome.
Proof.
  destruct outcome as [output| |]; [|done..]. cbn [good_outcomeb good_outcome]. rewrite !andb_true_iff, negb_true_iff.
  intros [[[Hv Hx] Hr%sums_to_ok] Hb%sums_to_ok]. split_and!; try done. revert Hv. unfold is_done, me. simpl.
  by destruct (for_each _ _) as [[]| |].
Qed.

Lemma play1_step e s s' : play1 e s = Some s' → sys_step demo_cfg s s'.
Proof.
  destruct e as [now a|cmd]; cbn [play1].
  - destruct (_ && _ && _) eqn:Eb; [|done]. rewrite !andb_true_iff, !N.leb_le in Eb. destruct Eb as [[Hn Hl] Ha].
    destruct (act demo_cfg now a s) as [[s1| |]|] eqn:Ex; try done. intros [= <-]. apply (step_worker _ _ a now); [done| |done].
    destruct a; try done; simpl in *; [by apply N.leb_le|]. intros a Hk. rewrite Hk in Ha. by apply good_outcomeb_ok.
  - destruct (_ && _) eqn:Eb; [|done]. apply andb_true_iff in Eb as [Hf Hc]. destruct (execute cmd _) as [r c] eqn:Ex. intros [= <-].
    eapply step_foreign; [| | |done].
    + by destruct cmd.
    + by destruct cmd.
    + intros t Ht. rewrite Ht in Hc. by apply N.leb_le.
Qed.

Lemma play_steps es s s' : play es s = Some s' → rtc (sys_step demo_cfg) s s'.
Proof.
  revert s. induction es as [|e es IH]; intros s; cbn [play]; [by intros [= <-]|].
  destruct (play1 e s) as [s1|] eqn:E1; [|done]. intros Hp. eapply rtc_l; [by apply play1_step in E1|by apply IH].
Qed.

(** ** The run *)

Definition demo_submitted : Coordinator := (run [DoSubmit demo_map; DoSubmit demo_reduce] demo_new).2.

Definition demo_begin : System :=
  MkSystem (handle_worker_message (Register PROTOCOL_VERSION (worker_registration demo_cfg)) 10 demo_submitted).2
    ∅ RemoteWorker_start false [] 10 0.

Lemma demo_submitted_wf : wf demo_submitted.
Proof.
  apply (reachable_wf demo_config); [by apply demo_config_typed|]. apply reachable_run; [by apply reachable_new|].
  by repeat constructor.
Qed.

Lemma demo_begin_start : sys_start demo_cfg demo_begin.
Proof.
  exists demo_submitted, 10%N, (sys_coordinator demo_begin), ∅. split_and!; [apply demo_submitted_wf|done| |done].
  unfold demo_begin. cbn [sys_coordinator].
  assert ((handle_worker_message (Register PROTOCOL_VERSION (worker_registration demo_cfg)) 10 demo_submitted).1 = Ok tt)
    as Hok by (vm_compute; reflexivity).
  rewrite <-Hok. apply surjective_pairing.
Qed.

Definition demo_output (attempt : N) : TaskOutput :=
  let t := demo_task 0 0 attempt in MkTaskOutput 20 200 [demo_block t 0; demo_block t 1].

(** The lease of the first attempt runs out; the worker learns it from its report. *)
Definition demo_late : list Event :=
  [ ByWorker 10 ActPoll; ByWorker 20 ActAsk; ByWorker 21 ActStart; ByOthers (DoAdvance 1100);
    ByWorker 1100 (ActComplete 0 (Ok (demo_output 0))) ].

(** Then it runs the second attempt. *)
Definition demo_retry : list Event :=
  [ ByWorker 1110 ActReport; ByWorker 1120 (ActHeartbeat 1119 0); ByWorker 1120 ActPoll; ByWorker 1130 ActAsk;
    ByWorker 1131 ActStart; ByWorker 1131 (ActComplete 0 (Ok (demo_output 1))); ByWorker 1140 ActReport ].

Definition demo_lost : System := default demo_begin (play demo_late demo_begin).
Definition demo_first : System := default demo_begin (play (demo_late ++ take 1 demo_retry) demo_begin).
Definition demo_after : System := default demo_begin (play (demo_late ++ demo_retry) demo_begin).

Lemma played_reachable es : is_Some (play es demo_begin) → sys_reachable demo_cfg (default demo_begin (play es demo_begin)).
Proof. intros [s Hs]. rewrite Hs. exists demo_begin. split; [apply demo_begin_start|by eapply play_steps]. Qed.

Example demo_discards :
  sys_discarded demo_after = to_blocks (demo_output 0) ∧
  part (sys_coordinator demo_after) (demo_query, MkStageId 0) 0 = Some (Succeeded (demo_task 0 0 1) (to_blocks (demo_output 1))).
Proof. vm_compute. done. Qed.

(** A worker whose answer to a success is lost on the way back discards blocks that the
    coordinator has committed. *)
Definition demo_committing : System := default demo_begin (play (demo_late ++ take 6 demo_retry) demo_begin).

Example lost_answer_discards_committed :
  let state := TaskSucceeded 1130 (to_blocks (demo_output 1)) in
  let answer := Err (Execution "control action sparkx.control.worker_message failed: connection reset") in
  rw_phase (sys_worker demo_committing) =
    Reporting (MkAssignment demo_map (demo_task 0 0 1) (MkTaskLease demo_worker 1130 2130) []) state ∧
  part (handle_worker_message (TaskUpdate PROTOCOL_VERSION demo_worker (demo_task 0 0 1) state) 1140
          (sys_coordinator demo_committing)).2 (demo_query, MkStageId 0) 0
    = Some (Succeeded (demo_task 0 0 1) (to_blocks (demo_output 1))) ∧
  (on_reported demo_cfg state answer (sys_worker demo_committing)).2 = to_blocks (demo_output 1).
Proof. vm_compute. done. Qed.

(** The late report is answered. *)
Lemma worker_never_refused_witness : ∃ s', act demo_cfg 1110 ActReport demo_lost = Some (Ok s').
Proof.
  destruct (act demo_cfg 1110 ActReport demo_lost) as [r|] eqn:Ex; [|exfalso; revert Ex; vm_compute; discriminate].
  destruct (worker_never_refused demo_cfg demo_lost 1110 ActReport r) as [s' ->]; [..|by exists s'].
  - vm_compute. discriminate.
  - apply played_reachable. vm_compute. by eexists.
  - split; vm_compute; discriminate.
  - exact I.
  - exact Ex.
Defined.

(** The blocks of the first attempt are not among those of the second. *)
Lemma discarded_blocks_uncommitted_witness : demo_block (demo_task 0 0 0) 0 ∉ to_blocks (demo_output 1).
Proof.
  apply (discarded_blocks_uncommitted demo_cfg demo_first demo_after _ (demo_query, MkStageId 0) 0 (demo_task 0 0 1)).
  - vm_compute. discriminate.
  - apply played_reachable. vm_compute. by eexists.
  - apply list_elem_of_In. vm_compute. by left.
  - apply (play_steps (drop 1 demo_retry)). vm_compute. reflexivity.
  - apply demo_discards.
Defined.
