(* ===== verification/TaskProps.v ===== *)
(** * What a task of a remote worker produces

    The output of a task is what the coordinator accepts: one valid block per
    destination.  Its input tables are the blocks of the stages it depends on.  A task
    that fails removes what it has uploaded. *)
From S2P Require Import Prelude Text Protocol Coordinator Memory BlockStore BlockStoreProps Float Expr Logical Catalog Physical Execution Aggregate Executor HashExchange PlanCodec PlanCodecProps Distributed Stages Wire DataPlane DataPlaneProps ControlPlane Worker Task WorkerSystem.

(** ** The input tables of a task

    [materialize_stage_inputs] turns the blocks of an assignment into one table per
    dependency, with one partition that holds the batches of that stage's blocks in the
    order of the assignment. *)

(** *** Names of stage inputs *)

Lemma lower_app s t : to_ascii_lowercase (s +:+ t) = to_ascii_lowercase s +:+ to_ascii_lowercase t.
Proof. induction s as [|c s IH]; [done|]. change (String c s +:+ t) with (String c (s +:+ t)). simpl. by rewrite IH. Qed.

Lemma lower_digits x s : to_ascii_lowercase (pretty_N_go x s) = pretty_N_go x (to_ascii_lowercase s).
Proof.
  revert s. induction (N.lt_wf_0 x) as [x _ IH]; intros s. destruct (decide (0 < x)%N) as [Hx|Hx].
  - rewrite !(pretty_N_go_step x) by done. rewrite IH by (apply N.div_lt; lia). f_equal. simpl. f_equal.
    assert (x `mod` 10 < 10)%N as Hm by (apply N.mod_lt; lia). revert Hm. generalize (x `mod` 10)%N. intros d Hd.
    unfold pretty_N_char. by repeat case_match.
  - assert (x = 0%N) as -> by lia. by rewrite !pretty_N_go_0.
Qed.

Lemma stage_input_names s1 s2 :
  to_ascii_lowercase (stage_input_table_name s1) = to_ascii_lowercase (stage_input_table_name s2) → s1 = s2.
Proof.
  unfold stage_input_table_name. rewrite !lower_app. intros Heq%(inj (String.app _)).
  assert (∀ n : N, to_ascii_lowercase (pretty n) = pretty n) as Hp.
  { intros n. unfold pretty, pretty_N. case_decide; [done|]. by rewrite lower_digits. }
  rewrite !Hp in Heq. apply (inj pretty) in Heq. destruct s1, s2. simpl in Heq. by subst.
Qed.

Section inputs.
Context `{BatchOps, ArrowIpc, !FlightTransport, !Json BlockTicket, !Json UploadAck} {S : Type} `{!BlockStorage S}.

(** The download of a block. *)
Definition arrives (x : Fetch S * ShuffleBlock) (d : DownloadedBlock) : Prop :=
  ∃ endpoint own own', input_endpoint x.2 = Ok endpoint ∧
    download_reserved (fe_faults x.1) (fe_memory x.1) own endpoint x.2 (fe_store x.1) = Ok (d, own').

Definition block_stage (b : ShuffleBlock) : StageId := ta_stage_id (sb_producer b).

(** What arrived from one stage. *)
Fixpoint from_stage (stage_id : StageId) (blocks : list ShuffleBlock) (ds : list DownloadedBlock) : list DownloadedBlock :=
  match blocks, ds with
  | b :: blocks, d :: ds =>
      if decide (block_stage b = stage_id) then d :: from_stage stage_id blocks ds else from_stage stage_id blocks ds
  | _, _ => []
  end.

(** [m'] is [m] with the blocks [ds]. *)
Record collected (m m' : MaterializedStageInput) (ds : list DownloadedBlock) : Prop := {
  co_batches : mi_batches m' = mi_batches m ++ mjoin (received_batches <$> ds);
  co_schema : mi_schema m' = match mi_schema m with Some s => Some s | None => received_schema <$> head ds end;
  co_agree : Forall (λ d, mi_schema m' = Some (received_schema d)) ds;
}.

Lemma collected_nil m : collected m m [].
Proof. split; [by rewrite app_nil_r|by destruct (mi_schema m)|constructor]. Qed.

Lemma collected_cons m m1 m2 d ds : collected m m1 [d] → collected m1 m2 ds → collected m m2 (d :: ds).
Proof.
  intros [B1 S1 A1] [B2 S2 A2]. apply list.Forall_cons in A1 as [A1 _]. rewrite A1 in S1, S2. split.
  - rewrite B2, B1, fmap_cons. simpl. by rewrite app_nil_r, app_assoc.
  - rewrite S2. destruct (mi_schema m); done.
  - constructor; [by rewrite S2|done].
Qed.

Lemma materialize_block_ok inputs x inputs' :
  materialize_block inputs x = Ok inputs' →
  ∃ d m, arrives x d ∧ in_materialized inputs !! block_stage x.2 = Some m ∧
    ∃ m', in_materialized inputs' = <[block_stage x.2 := m']> (in_materialized inputs) ∧ collected m m' [d].
Proof.
  destruct x as [fetch block]. unfold materialize_block. intros (m & Hm & Hr)%bind_ok.
  apply bind_ok in Hr as (endpoint & He & Hr). apply bind_ok in Hr as ([] & _ & Hr). apply bind_ok in Hr as ([d own] & Hd & Hr).
  exists d, m. destruct (download_reserved _ _ _ _ _ _) as [[d' own']| |] eqn:Ed; cbn in Hd; [|done..]. injection Hd as -> ->.
  fold (block_stage block) in Hm, Hr. simpl. destruct (in_materialized inputs !! block_stage block) as [m0|]; [|done]. injection Hm as ->.
  split; [by exists endpoint, (in_reservation inputs), own|]. split; [done|].
  destruct (match mi_schema m with Some _ => _ | None => _ end) eqn:Es; [done|]. injection Hr as <-. eexists. split; [done|].
  split; simpl.
  - by rewrite app_nil_r.
  - by destruct (mi_schema m).
  - constructor; [|constructor]. f_equal. destruct (mi_schema m); [|done]. simpl.
    by apply negb_false_iff, bool_decide_eq_true in Es.
Qed.

Lemma materialize_blocks_ok inputs xs inputs' :
  fold_result materialize_block inputs xs = Ok inputs' →
  ∃ ds, Forall2 arrives xs ds ∧ Forall (λ x, is_Some (in_materialized inputs !! block_stage x.2)) xs ∧
    ∀ sid m, in_materialized inputs !! sid = Some m →
      ∃ m', in_materialized inputs' !! sid = Some m' ∧ collected m m' (from_stage sid xs.*2 ds).
Proof.
  revert inputs. induction xs as [|x xs IH]; intros inputs; cbn.
  { intros [= <-]. exists []. split_and!; [constructor..|]. intros sid m Hm. exists m. split; [done|apply collected_nil]. }
  intros (i1 & Hx & Hr)%bind_ok. destruct (materialize_block_ok _ _ _ Hx) as (d & m & Ha & Hm & m1 & Hi1 & Hc).
  destruct (IH _ Hr) as (ds & Hds & Hin & Hall). exists (d :: ds). split_and!.
  - by constructor.
  - constructor; [by eexists|]. eapply list.Forall_impl; [exact Hin|]. simpl. intros y. rewrite Hi1.
    intros [my Hy]. apply lookup_insert_Some in Hy as [[<- _]|[_ Hy]]; by eexists.
  - intros sid my Hy. destruct (decide (block_stage x.2 = sid)) as [<-|Hne].
    + simplify_eq. destruct (Hall (block_stage x.2) m1) as (m2 & Hm2 & Hc2); [rewrite Hi1; apply lookup_insert_eq|].
      exists m2. split; [done|]. by eapply collected_cons.
    + destruct (Hall sid my) as (m2 & Hm2 & Hc2); [rewrite Hi1; by rewrite lookup_insert_ne|]. eauto.
Qed.

(** The tables, stage by stage. *)
Lemma register_inputs_ok stages cat mats cat' mats' :
  NoDup stages → fold_result register_input (cat, mats) stages = Ok (cat', mats') →
  (∀ sid, sid ∈ stages → ∃ m t, mats !! sid = Some m ∧ mi_schema m = Some (mt_schema t) ∧
     mt_partitions t = [mi_batches m] ∧ table cat' (stage_input_table_name sid) = Ok (memory_provider t)) ∧
  (∀ name, (∀ sid, sid ∈ stages → to_ascii_lowercase (stage_input_table_name sid) ≠ to_ascii_lowercase name) →
     table cat' name = table cat name).
Proof.
  intros Hd. revert cat mats. induction Hd as [|sid stages Hnew Hd IH]; intros cat mats; cbn.
  { intros [= <- <-]. split; [by intros sid ?%elem_of_nil|done]. }
  intros ([cat1 mats1] & Hx & Hr)%bind_ok. apply bind_ok in Hx as (m & Hm & Hx). apply bind_ok in Hx as (schema & Hs & Hx).
  apply bind_ok in Hx as (t & Ht & [= <- <-]). destruct (mats !! sid) as [m0|] eqn:Em; [|done]. injection Hm as ->.
  destruct (mi_schema m) as [schema0|] eqn:Es; [|done]. injection Hs as ->.
  destruct (IH _ _ Hr) as [Htab Hother]. split.
  - intros sid' [->|Hin]%elem_of_cons.
    + exists m, t. unfold MemoryTable_new in Ht. destruct (existsb _ _); [done|]. apply bind_ok in Ht as (bytes & _ & [= <-]).
      split_and!; [done|done|done|]. rewrite Hother; [by rewrite table_register, decide_True|].
      intros sid' Hin Heq. apply stage_input_names in Heq as ->. done.
    + destruct (Htab sid' Hin) as (m' & t' & Hm' & ? & ? & ?). exists m', t'. split_and!; try done.
      apply lookup_delete_Some in Hm' as [_ ?]. done.
  - intros name Hn. rewrite Hother by (intros; apply Hn; by right). rewrite table_register, decide_False; [done|].
    apply Hn. by left.
Qed.

Lemma initial_inputs (stages : list StageId) sid (m : MaterializedStageInput) :
  (list_to_map ((λ s, (s, MkMaterializedStageInput None [])) <$> stages) : gmap StageId MaterializedStageInput) !! sid = Some m ↔
  sid ∈ stages ∧ m = MkMaterializedStageInput None [].
Proof.
  induction stages as [|s stages IH]; simpl.
  - rewrite lookup_empty. split; [done|]. by intros [?%elem_of_nil _].
  - rewrite lookup_insert_Some, IH, elem_of_cons. destruct (decide (s = sid)); naive_solver.
Qed.

(** C5: a task reads exactly the outputs of the stages it depends on.  When its inputs
    are materialized, every block of the assignment was downloaded and belongs to a
    declared dependency; the table of a dependency has one partition with the batches of
    that stage's blocks, in the order of the assignment, under the schema they all have;
    and every other table is the worker's own. *)
Theorem stage_inputs_materialized base stages blocks memory (fetches : nat → Fetch S) cat own :
  stages ≠ [] → NoDup stages →
  materialize_stage_inputs base stages blocks memory fetches = Ok (cat, own) →
  ∃ ds, Forall2 arrives (imap (λ k b, (fetches k, b)) blocks) ds ∧ Forall (λ b, block_stage b ∈ stages) blocks ∧
    (∀ sid, sid ∈ stages → ∃ t, table cat (stage_input_table_name sid) = Ok (memory_provider t) ∧
       from_stage sid blocks ds ≠ [] ∧ Forall (λ d, received_schema d = mt_schema t) (from_stage sid blocks ds) ∧
       mt_partitions t = [mjoin (received_batches <$> from_stage sid blocks ds)]) ∧
    (∀ name, (∀ sid, sid ∈ stages → to_ascii_lowercase (stage_input_table_name sid) ≠ to_ascii_lowercase name) →
       table cat name = table base name).
Proof.
  intros Hne Hd. unfold materialize_stage_inputs. intros (reservation & _ & Hr)%bind_ok. rewrite decide_False in Hr by done.
  apply bind_ok in Hr as (inputs & Hi & Hr). apply bind_ok in Hr as ([cat' mats] & Hc & [= <- <-]).
  destruct (materialize_blocks_ok _ _ _ Hi) as (ds & Hds & Hin & Hall). cbn [in_materialized] in *.
  destruct (register_inputs_ok _ _ _ _ _ Hd Hc) as [Htab Hother]. exists ds.
  assert ((imap (λ k b, (fetches k, b)) blocks).*2 = blocks) as Hsnd.
  { rewrite fmap_imap. unfold compose. simpl. apply list_eq. intros i. rewrite list_lookup_imap. by destruct (blocks !! i). }
  rewrite Hsnd in Hall. split_and!; [done| | |done].
  - rewrite <-Hsnd, list.Forall_fmap. eapply list.Forall_impl; [exact Hin|]. intros x [m Hm%initial_inputs]. apply Hm.
  - intros sid Hsid. destruct (Htab sid Hsid) as (m & t & Hm & Hs & Hp & Ht). exists t. split; [done|].
    destruct (Hall sid (MkMaterializedStageInput None [])) as (m' & Hm' & [B Sc A]); [by apply initial_inputs|]. simplify_eq.
    rewrite Hs in Sc, A. simpl in *. split_and!.
    + by destruct (from_stage sid blocks ds).
    + eapply list.Forall_impl; [exact A|]. simpl. congruence.
    + by rewrite Hp, B.
Qed.
End inputs.

(** ** Destinations *)

Section destinations.
Context `{BatchOps, RowConverter, Sizes, ExchangeOps} (memory : TaskMemory).

Lemma fold_result_keeps {A T B} (f : T → A → result T) (g : T → B) (l : list A) (s s' : T) :
  (∀ s x s', f s x = Ok s' → g s' = g s) → fold_result f s l = Ok s' → g s' = g s.
Proof.
  intros Hf. revert s. induction l as [|x l IH]; intros s; cbn; [by intros [= <-]|].
  intros (s1 & Hx & Hr)%bind_ok. rewrite (IH _ Hr). by eapply Hf.
Qed.

Lemma push_output_numbers schema b aside outs x outs' :
  push_output memory schema b aside outs x = Ok outs' → po_partition <$> outs' = po_partition <$> outs.
Proof.
  unfold push_output. case_decide; [by intros [= <-]|]. intros (arrays & _ & Hr)%bind_ok.
  apply bind_ok in Hr as (out & _ & Hr). apply bind_ok in Hr as (o & Ho & Hr). apply bind_ok in Hr as (own & _ & [= <-]).
  apply list_eq. intros i. rewrite !list_lookup_fmap. destruct (decide (i = x.1)) as [->|Hi].
  - destruct (outs !! x.1) as [o'|] eqn:E; [|done]. simpl in Ho. injection Ho as ->.
    rewrite list_lookup_insert_eq by by eapply lookup_lt_Some. done.
  - by rewrite list_lookup_insert_ne.
Qed.

Lemma repartition_numbers schema batches e outs :
  repartition memory schema batches e = Ok outs → po_partition <$> outs = N.of_nat <$> seq 0 (N.to_nat (he_partition_count e)).
Proof.
  unfold repartition. destruct (invalid_exchange schema e); [done|]. intros (types & _ & Hr)%bind_ok.
  apply bind_ok in Hr as (k & _ & Hr). apply bind_ok in Hr as (init & Hi & Hr).
  assert (po_partition <$> outs = po_partition <$> init) as ->; [eapply fold_result_keeps; [|exact Hr]|].
  - intros s b s'. unfold repartition_batch. intros (cols & _ & Hb)%bind_ok. apply bind_ok in Hb as (keys & _ & Hb).
    apply bind_ok in Hb as (kb & _ & Hb). apply bind_ok in Hb as (ib & _ & Hb).
    eapply fold_result_keeps; [|exact Hb]. intros ???. apply push_output_numbers.
  - apply collect_ok in Hi. clear Hr. revert Hi. generalize (N.of_nat <$> seq 0 (N.to_nat (he_partition_count e))).
    induction 1 as [|p o ps os Ho _ IH]; [done|]. rewrite fmap_cons, IH. f_equal.
    apply bind_ok in Ho as (own & _ & [= <-]). done.
Qed.
End destinations.

(** One block for every destination of the exchange. *)
Lemma destinations_match stage e t blocks :
  sp_output_exchange stage = Some e →
  (partition_num ∘ sb_output_partition) <$> blocks = N.of_nat <$> seq 0 (N.to_nat (he_partition_count e)) →
  exchange_mismatch stage (TaskSucceeded t blocks) = false.
Proof.
  intros He Hb. unfold exchange_mismatch. rewrite He.
  change ((λ b, partition_num (sb_output_partition b)) <$> blocks) with ((partition_num ∘ sb_output_partition) <$> blocks).
  rewrite Hb. assert (length blocks = N.to_nat (he_partition_count e)) as Hl.
  { apply (f_equal length) in Hb. by rewrite !length_fmap, length_seq in Hb. }
  assert (NoDup (N.of_nat <$> seq 0 (N.to_nat (he_partition_count e)))) as Hd.
  { apply NoDup_fmap_2; [intros ???; lia|]. apply NoDup_seq. }
  rewrite size_list_to_set by done. rewrite length_fmap, length_seq, Hl, N2Nat.id, N.eqb_refl. simpl.
  apply not_true_iff_false. rewrite existsb_exists. intros (p & Hp & Hle).
  apply list_elem_of_In, elem_of_elements, elem_of_list_to_set, list_elem_of_fmap in Hp as (i & -> & Hi).
  apply elem_of_seq in Hi. apply N.leb_le in Hle. lia.
Qed.

(** A sum panics or is a number. *)
Lemma sum_u64_no_err l e : sum_u64 l ≠ Err e.
Proof. revert e. induction l as [|x l IH]; intros e; cbn; [done|]. destruct (sum_u64 l) as [n|e'|]; cbn; [by case_match|congruence|done]. Qed.

(** ** Uploads *)

Section task.
Context `{Protobuf, FloatDisplay, ScalarDebug, Kernels, BatchOps, SortOps, RowConverter, Sizes, ExchangeOps}.
Context `{ArrowIpc, !FlightTransport, !Json BlockTicket, !Json UploadAck} {S : Type} `{!BlockStorage S}.
Context (Hfit : tickets_fit).
Context (catalog : Catalog) (worker_id : WorkerId) (data_endpoint : string).

(** An endpoint that a block may name. *)
Definition usable_endpoint : Prop :=
  ∃ authority, endpoint_authority data_endpoint = Some authority ∧ trim_is_empty authority = false ∧ has_whitespace authority = false.

(** JSON is never blank. *)
Definition tickets_visible : Prop :=
  ∀ (ticket : BlockTicket) text, json_to_string ticket = inr text → trim_is_empty text = false.

Context (Hendpoint : usable_endpoint) (Hvisible : tickets_visible).

(** A block that is what was uploaded for a destination. *)
Definition block_for (task : TaskAttemptId) (schema : Expr.Schema) (o : PartitionId * list Expr.RecordBatch) (b : ShuffleBlock)
    : Prop :=
  ShuffleBlock_validate_for b task worker_id = Ok tt ∧ sb_output_partition b = o.1 ∧
  block_metadata schema (flight schema o.2) = Ok (sb_rows b, sb_bytes b, sb_checksum b).

Lemma uploaded_block_for delivery task o schema budget s block s' :
  bs_inv s → upload delivery data_endpoint worker_id task o.1 schema o.2 budget s = (Ok block, s') →
  block_for task schema o block.
Proof.
  intros Hs Hu. destruct (upload_ok Hfit _ _ _ _ _ _ _ _ _ _ _ Hs Hu) as (d & rows & bytes & checksum & Hv & Hj & Hm & -> & _).
  split; [|done]. unfold BlockTicket_validate in Hv. cbn in Hv. apply bind_ok in Hv as (w & Hw & Ht).
  unfold WorkerId_new in Hw. apply bind_unit_ok in Hw as [Hw _].
  destruct (block_metadata_checksum _ _ _ _ _ Hm) as [stream ->].
  destruct Hendpoint as (authority & Ha & Hne & Hws).
  unfold ShuffleBlock_validate_for, ShuffleBlock_validate. cbn [sb_producer sb_checksum sb_location].
  rewrite Ht. cbn [mbind result_bind]. change (trim_is_empty ("crc32:" +:+ _)) with false. cbn [mbind result_bind].
  unfold WorkerId_validate. rewrite Hw. cbn [mbind result_bind]. rewrite Ha, Hne, Hws. cbn [negb andb].
  rewrite (Hvisible _ _ Hj). cbn [mbind result_bind]. by rewrite !decide_True.
Qed.

Lemma uploaded_outputs uploads k task schema outputs store blocks store' :
  bs_inv store → (∀ k s, bs_inv s → bs_inv (up_others (uploads k) s)) →
  upload_outputs worker_id data_endpoint uploads k task schema outputs store = (Ok tt, blocks, store') →
  Forall2 (block_for task schema) outputs blocks.
Proof.
  intros Hs Ho. revert k store blocks Hs. induction outputs as [|o outputs IH]; intros k store blocks Hs; cbn.
  { intros [= <- _]. constructor. }
  destruct o as [partition batches]. destruct (up_cancelled _); [done|].
  destruct (upload _ _ _ _ _ _ _ _ _) as [r s1] eqn:Eu. destruct (up_cut _); [done|].
  destruct r as [block| |]; [|done..]. destruct (upload_outputs _ _ _ _ _ _ _ s1) as [[r bs] s2] eqn:Er.
  intros [= -> <- <-]. constructor.
  - eapply (uploaded_block_for _ _ (partition, batches)); [|exact Eu]. by apply Ho.
  - eapply IH; [|exact Er]. eapply (upload_keeps Hfit); [|exact Eu]. by apply Ho.
Qed.

(** ** The output of a task *)

Lemma routed_destinations memory held a schema batches outputs :
  route_outputs memory held a schema batches = Ok outputs →
  match sp_output_exchange (as_stage a) with
  | Some e => partition_num <$> outputs.*1 = N.of_nat <$> seq 0 (N.to_nat (he_partition_count e))
  | None => outputs.*1 = [ta_partition_id (as_task a)]
  end.
Proof.
  unfold route_outputs. destruct (sp_output_exchange _) as [e|].
  - intros (outs & Hr & [= <-])%bind_ok. rewrite <-(repartition_numbers _ _ _ _ _ Hr), <-!list_fmap_compose. done.
  - by intros (own & _ & [= <-])%bind_ok.
Qed.

Lemma prepared_destinations env a schema outputs :
  prepare_outputs catalog env a = Ok (schema, outputs) →
  ∃ memory held batches, route_outputs memory held a schema batches = Ok outputs.
Proof.
  unfold prepare_outputs. intros ([] & _ & Hr)%bind_ok. apply bind_ok in Hr as ([cat own] & _ & Hr).
  apply bind_ok in Hr as (plan & _ & Hr). apply bind_ok in Hr as ([batches held] & _ & Hr).
  apply bind_ok in Hr as ([] & _ & Hr). apply bind_ok in Hr as ([] & _ & Hr).
  apply bind_ok in Hr as (outs & Hr & [= <- <-]). eauto.
Qed.

Lemma blocks_destinations task schema outputs blocks :
  Forall2 (block_for task schema) outputs blocks → outputs.*1 = sb_output_partition <$> blocks.
Proof. induction 1 as [|o b os bs (_ & Ho & _) _ IH]; [done|]. rewrite !fmap_cons, IH. by f_equal. Qed.

Lemma work_done env a store output blocks store' :
  run_work catalog worker_id data_endpoint env a store = (Ok output, blocks, store') →
  ∃ schema outputs, prepare_outputs catalog env a = Ok (schema, outputs) ∧
    upload_outputs worker_id data_endpoint (te_uploads env) 0 (as_task a) schema outputs store = (Ok tt, to_blocks output, store') ∧
    sum_u64 (sb_rows <$> to_blocks output) = Ok (to_rows output) ∧ sum_u64 (sb_bytes <$> to_blocks output) = Ok (to_bytes output).
Proof.
  unfold run_work. destruct (te_cut env); [done|].
  destruct (prepare_outputs catalog env a) as [[schema outputs]| |]; [|done..].
  destruct (upload_outputs _ _ _ _ _ _ _ _) as [[r bs] s1] eqn:Eu. destruct r as [[]| |]; [|done..].
  intros [= Hr <- <-]. apply bind_ok in Hr as (rows & Hrows & Hr). apply bind_ok in Hr as (bytes & Hbytes & [= <-]).
  exists schema, outputs. by split_and!.
Qed.

(** C18: what a task reports is what the coordinator accepts: when a task of a worker
    ends well, its output is one block for every destination of its stage, in their
    order (the one of its partition without an exchange), each with the rows, bytes and
    checksum of the batches that were routed there, valid, of this attempt and worker;
    and the counts are their sums. *)
Theorem task_output_accepted cfg env a store output store' :
  wc_worker_id cfg = worker_id → bs_inv store → (∀ k s, bs_inv s → bs_inv (up_others (te_uploads env k) s)) →
  execute_assignment catalog worker_id data_endpoint env a store = (Ok output, store') →
  good_outcome cfg a (Ok output) ∧
  ∃ schema outputs, prepare_outputs catalog env a = Ok (schema, outputs) ∧
    Forall2 (block_for (as_task a) schema) outputs (to_blocks output).
Proof.
  intros Hcfg Hs Ho Hx. unfold execute_assignment in Hx.
  destruct (run_work _ _ _ env a store) as [[r blocks] s1] eqn:Ew. destruct r as [out| |]; [|done..]. injection Hx as <- <-.
  destruct (work_done _ _ _ _ _ _ Ew) as (schema & outputs & Hp & Hu & Hrows & Hbytes).
  pose proof (uploaded_outputs _ _ _ _ _ _ _ _ Hs Ho Hu) as Hblocks. split; [|eauto].
  split_and!; [| |done|done].
  - cbn [TaskState_validate_for]. apply for_each_ok. unfold me. rewrite Hcfg. clear -Hblocks.
    induction Hblocks as [|o b os bs (Hv & _) _ IH]; by constructor.
  - destruct (prepared_destinations _ _ _ _ Hp) as (memory & held & batches & Hr).
    apply routed_destinations in Hr. destruct (sp_output_exchange (as_stage a)) as [e|] eqn:Ee.
    + eapply destinations_match; [done|]. by rewrite list_fmap_compose, <-(blocks_destinations _ _ _ _ Hblocks).
    + unfold exchange_mismatch. by rewrite Ee.
Qed.

(** ** Cleaning up *)

Section cleanup.
Context (Hack : acks_encode) (task : TaskAttemptId).

(** A ticket of the attempt. *)
Definition own_ticket (d : string) : Prop :=
  ∃ o, let ticket := MkBlockTicket PROTOCOL_VERSION worker_id task o in
    BlockTicket_validate ticket = Ok tt ∧ json_to_string ticket = inr d.

Definition own_block (b : ShuffleBlock) : Prop := ∃ d, own_ticket d ∧ sb_location b = Flight worker_id data_endpoint d.

(** Others store no blocks of the attempt. *)
Definition quiet (f : S → S) : Prop :=
  ∀ s, bs_inv s → bs_inv (f s) ∧ ∀ d, own_ticket d → bs_view s d = None → bs_view (f s) d = None.

(** What the store holds of the attempt is in [blocks]. *)
Definition held_in (blocks : list ShuffleBlock) (s : S) : Prop :=
  ∀ d, own_ticket d → bs_view s d = None ∨ ∃ b, b ∈ blocks ∧ sb_location b = Flight worker_id data_endpoint d.

Lemma held_in_quiet f blocks s : quiet f → bs_inv s → held_in blocks s → held_in blocks (f s).
Proof. intros Hf Hs Hh d Hd. destruct (Hf s Hs) as [_ Hq]. destruct (Hh d Hd) as [?|?]; auto. Qed.

(** No upload runs without its answer arriving. *)
Definition answered (u : Upload S) : Prop :=
  undamaged (up_delivery u) ∧ (up_cut u = None ∨ up_delivery u ≠ Delivered).

Lemma upload_outputs_held uploads k schema outputs store before r blocks store' :
  (∀ k, quiet (up_others (uploads k)) ∧ answered (uploads k)) → bs_inv store → held_in before store →
  upload_outputs worker_id data_endpoint uploads k task schema outputs store = (r, blocks, store') →
  bs_inv store' ∧ held_in (before ++ blocks) store' ∧ Forall own_block blocks.
Proof.
  intros Hu. revert k store before r blocks. induction outputs as [|[partition batches] outputs IH]; intros k store before r blocks Hs Hb; cbn.
  { intros [= <- <- <-]. by rewrite app_nil_r. }
  destruct (Hu k) as [Hq [Hundamaged Hcut]]. pose proof (held_in_quiet _ _ _ Hq Hs Hb) as Hb1. destruct (Hq _ Hs) as [Hs1 _].
  destruct (up_cancelled _). { intros [= <- <- <-]. by rewrite app_nil_r. }
  destruct (upload _ _ _ _ _ _ _ _ _) as [ru s1] eqn:Eu.
  destruct (upload_keeps Hfit _ _ _ _ _ _ _ _ _ _ _ Hs1 Eu) as [Hs2 _].
  assert ((∀ block, ru ≠ Ok block) → held_in before s1) as Hfailed.
  { intros Hn d Hd. destruct (Hb1 d Hd) as [Hv|?]; [|by right].
    destruct (upload_adds Hfit _ _ _ _ _ _ _ _ _ _ _ _ Hs1 Hack Hundamaged Eu Hv) as [?|(block & -> & _)]; [by left|by destruct (Hn block)]. }
  destruct (up_cut (uploads k)) as [stop|] eqn:Ecut.
  { intros [= <- <- <-]. rewrite app_nil_r. split_and!; [done| |done]. apply Hfailed. intros block ->.
    destruct Hcut as [?|Hcut]; [done|]. revert Eu. unfold upload. destruct (BlockTicket_validate _); [|done..].
    destruct (json_to_string _); [done|]. destruct (up_delivery (uploads k)); [done|]. by destruct (do_put _ _ _). }
  destruct ru as [block|e|why]; [|intros [= <- <- <-]; rewrite app_nil_r; split_and!; [done|by apply Hfailed|done]..].
  destruct (upload_outputs _ _ _ _ _ _ _ s1) as [[r1 bs] s2] eqn:Er. intros [= <- <- <-].
  destruct (upload_ok Hfit _ _ _ _ _ _ _ _ _ _ _ Hs1 Eu) as (d & rows & bytes & checksum & Hv & Hj & _ & Hblock & _).
  rewrite (cons_middle block before bs), app_assoc.
  destruct (IH (k + 1) s1 (before ++ [block]) r1 bs) as (Hs3 & Hh3 & Ho3); [done| |done|].
  { intros d' Hd'. destruct (Hb1 d' Hd') as [Hn|(b & Hin & Hloc)]; [|right; exists b; split; [|done]; apply elem_of_app; by left].
    destruct (upload_adds Hfit _ _ _ _ _ _ _ _ _ _ _ _ Hs1 Hack Hundamaged Eu Hn) as [?|(block' & [= <-] & Hloc)]; [by left|].
    right. exists block. split; [|done]. apply elem_of_app. right. by left. }
  split_and!; [done|done|]. constructor; [|done]. exists d. subst block. split; [|done]. by exists partition.
Qed.

Lemma discard_clears discards k blocks store :
  (∀ k, quiet (di_others (discards k)) ∧ di_delivery (discards k) = Some Delivered) → bs_inv store →
  held_in blocks store → Forall own_block blocks → held_in [] (discard_output_blocks discards k blocks store).
Proof.
  intros Hd. revert k store. induction blocks as [|b blocks IH]; intros k store Hs Hh Ho; [done|]. cbn.
  apply list.Forall_cons in Ho as [(d & (o & Hv & Hj) & Hloc) Ho]. destruct (Hd k) as [Hq Hdel].
  destruct (Hq _ Hs) as [Hs1 _]. pose proof (held_in_quiet _ _ _ Hq Hs Hh) as Hh1.
  rewrite Hloc, Hdel. destruct (delete_block _ _ _ _) as [r s1] eqn:Ed.
  destruct (delete_removes _ _ _ _ _ _ _ _ Hs1 Hv Hj Hloc Ed) as (Hs2 & Hgone & Hkeep).
  apply IH; [done| |done]. intros d' Hd'. destruct (Hh1 d' Hd') as [Hn|(b' & [->|Hin]%elem_of_cons & Hloc')]; [left; by apply Hkeep| |by eauto].
  left. rewrite Hloc in Hloc'. by injection Hloc' as <-.
Qed.
End cleanup.

(** C12: a task that fails, is cancelled or outlives its lease leaves nothing behind:
    when the answers of its uploads and deletions arrive, its store holds no block of the
    attempt, however many it had uploaded. *)
Theorem failed_task_leaves_nothing env a store e store' :
  acks_encode →
  (∀ k, quiet (as_task a) (up_others (te_uploads env k)) ∧ answered (te_uploads env k)) →
  (∀ k, quiet (as_task a) (di_others (te_discards env k)) ∧ di_delivery (te_discards env k) = Some Delivered) →
  bs_inv store → (∀ d, own_ticket (as_task a) d → bs_view store d = None) →
  execute_assignment catalog worker_id data_endpoint env a store = (Err e, store') →
  ∀ d, own_ticket (as_task a) d → bs_view store' d = None.
Proof.
  intros Hack Hup Hdi Hs Hnew Hx. assert (held_in (as_task a) [] store) as Hh by (left; auto).
  assert (∀ s, held_in (as_task a) [] s → ∀ d, own_ticket (as_task a) d → bs_view s d = None) as Hnil.
  { intros s Hn d Hd. by destruct (Hn d Hd) as [?|(b & ?%elem_of_nil & _)]. }
  unfold execute_assignment in Hx. destruct (run_work _ _ _ env a store) as [[r blocks] s1] eqn:Ew.
  destruct r as [|e'|]; [done| |done]. injection Hx as <- <-. apply Hnil. revert Ew. unfold run_work.
  destruct (te_cut env). { intros [= <- <- <-]. by apply discard_clears. }
  destruct (prepare_outputs catalog env a) as [[schema outputs]|e1|]; [|intros [= <- <- <-]; by apply discard_clears|done].
  destruct (upload_outputs _ _ _ _ _ _ _ _) as [[r bs] s2] eqn:Eu.
  destruct (upload_outputs_held Hack _ _ _ _ _ _ _ _ _ _ Hup Hs Hh Eu) as (Hs2 & Hh2 & Ho2). simpl in Hh2.
  destruct r as [[]|e1|]; [|intros [= <- <- <-]; by apply discard_clears|done].
  intros [= Hr <- <-]. destruct (sum_u64 (sb_rows <$> bs)) eqn:E1; cbn in Hr; [|by exfalso; eapply sum_u64_no_err|done].
  destruct (sum_u64 (sb_bytes <$> bs)) eqn:E2; cbn in Hr; [done|by exfalso; eapply sum_u64_no_err|done].
Qed.
End task.
