(* ===== verification/TaskDemo.v ===== *)
(** * Runs of a task

    Orders of [LocalClusterDemo.v] routed to two destinations by customer: a task that
    ends well, the table its consumer reads, a task that is cancelled between its
    uploads, and one that is cut off during an upload. *)
From Stdlib Require Import Ascii.
From S2P Require Import Prelude Text Protocol Coordinator Memory BlockStore BlockStoreProps Float Expr ExprProps Logical Catalog Physical Execution ExecutionDemo HashJoin Aggregate Executor OperatorDemo HashExchange HashExchangeProps PlanCodec PlanCodecProps Distributed DistributedProps Stages LocalCluster LocalClusterProps LocalClusterDemo Wire DataPlane DataPlaneProps ControlPlane Worker Task WorkerSystem TaskProps.

#[local] Existing Instance no_float_digits.
#[local] Existing Instance no_debug_digits.
#[local] Existing Instance orders_protobuf.

(** ** A text for every value of a countable type *)

Fixpoint bits (p : positive) : string :=
  match p with xH => "." | xO p => String "0"%char (bits p) | xI p => String "1"%char (bits p) end.
Fixpoint of_bits (s : string) : option positive :=
  match s with
  | String c s =>
      if decide (c = "."%char) then Some xH
      else if decide (c = "0"%char) then xO <$> of_bits s
      else xI <$> of_bits s
  | EmptyString => None
  end.

Lemma of_bits_bits p : of_bits (bits p) = Some p.
Proof. induction p as [p IH|p IH|]; simpl; [by rewrite IH..|done]. Qed.

Lemma bits_utf8 p : valid_utf8 (as_bytes (bits p)) = true.
Proof. induction p as [p IH|p IH|]; [exact IH..|done]. Qed.

#[local] Instance bits_json `{Countable A} : Json A.
Proof.
  refine {| json_to_string x := inr (bits (countable.encode x));
    json_from_slice l := match of_bits (of_bytes l) ≫= countable.decode with Some x => inr x | None => inl "unknown" end |}.
  - intros x s Hx. injection Hx as <-. by rewrite of_as_bytes, of_bits_bits; simpl; rewrite countable.decode_encode.
  - intros x s Hx. injection Hx as <-. apply bits_utf8.
Defined.

#[local] Instance UploadAck_countable : Countable UploadAck.
Proof.
  refine (inj_countable' (λ a, (ua_rows a, ua_bytes a, ua_checksum a, ua_ticket a)) (λ '(r, b, c, t), MkUploadAck r b c t) _).
  by intros [].
Defined.
#[local] Instance BlockTicket_countable : Countable BlockTicket.
Proof.
  refine (inj_countable' (λ t, (bt_version t, worker_text (bt_worker_id t), bt_producer t, partition_num (bt_output_partition t)))
    (λ '(v, w, p, o), MkBlockTicket v (MkWorkerId w) p (MkPartitionId o)) _).
  by intros [? [] ? []].
Defined.

(** ** Blocks of orders *)

#[local] Instance array_eq_dec : EqDecision array.
Proof. solve_decision. Defined.
#[local] Instance batch_eq_dec : EqDecision RecordBatch.
Proof. solve_decision. Defined.

(** The batches of this file, in a stream format that numbers them. *)
Definition routed_orders : RecordBatch :=
  MkRecordBatch (b_schema demo_orders)
    [MkArray DtInt64 [Some (IntCell 4); Some (IntCell 5)]; MkArray DtInt64 [Some (IntCell 9); None]] 2.
Definition shipped : list (Schema * list RecordBatch) :=
  [(b_schema demo_orders, [routed_orders]); (b_schema demo_orders, [])].

Definition small_header (v : N) (t c : string) : result (list N) :=
  match demo_header_to_vec v t c with
  | Ok h => if (len h <=? 4096)%N then Ok h else Err (Execution "header")
  | r => r
  end.

#[local] Instance orders_ipc : ArrowIpc.
Proof.
  refine {|
    arrow_write schema batches :=
      match list_find (λ x, x = (schema, batches)) shipped with
      | Some (i, _) => Ok [N.of_nat i]
      | None => Err (Arrow "stream")
      end;
    arrow_read l := match l with
                    | [i] => match shipped !! N.to_nat i with Some x => Ok x | None => Err (Arrow "stream") end
                    | _ => Err (Arrow "stream")
                    end;
    arrow_header_to_vec := small_header; arrow_header_from_slice := demo_header_from_slice; arrow_crc32 l := foldr N.add 7%N l |}.
  - intros schema batches. by destruct (list_find _ _) as [[]|].
  - intros [|i []]; try done. by destruct (shipped !! _).
  - intros v t c. unfold small_header. simpl. by case_match.
  - intros l. by unfold demo_header_from_slice; repeat case_match.
  - intros schema batches bytes. destruct (list_find _ _) as [[i x]|] eqn:E; [|done]. intros [= <-].
    apply list_find_Some in E as (Hi & -> & _). by rewrite Nat2N.id, Hi.
  - intros v t c bytes. unfold small_header. destruct (demo_header_to_vec v t c) eqn:E; [|done..].
    case_match; [|done]. intros [= <-]. by apply demo_header_roundtrip.
Defined.

#[local] Instance whole_flight : FlightTransport := {| flight _ batches := batches; status_display := st_message |}.

(** ** The task of the second partition *)

Definition orders_stage : StagePlan :=
  MkStagePlan (MkQueryId "q") (MkStageId 0) [] 2 [8; 2; 18; 0]%N (Some (MkHashExchange [1%N] 2)) false.
Definition orders_attempt : TaskAttemptId := MkTaskAttemptId (MkQueryId "q") (MkStageId 0) (MkPartitionId 1) 0.
Definition orders_assignment : Assignment :=
  MkAssignment orders_stage orders_attempt (MkTaskLease (MkWorkerId "w") 10 1010) [].
Definition orders_store : MemoryBlockStore := MkMemoryBlockStore 100000 0 ∅.

(** Uploads that go through, up to the one at which the task is cancelled or cut off. *)
Definition orders_upload (cancelled : bool) (cut : option Stop) : Upload MemoryBlockStore :=
  MkUpload (λ s, s) cancelled orders_store Delivered cut.
Definition orders_task_env (uploads : nat → Upload MemoryBlockStore) : TaskEnv MemoryBlockStore :=
  MkTaskEnv None false roomy (λ _, MkFetch None (MkGetFaults None None) roomy orders_store) (λ _, MkSite [] (λ _, false) roomy)
    roomy false None roomy uploads (λ _, MkDiscard (λ s, s) (Some Delivered)).
Definition orders_run (uploads : nat → Upload MemoryBlockStore) : result TaskOutput * MemoryBlockStore :=
  execute_assignment orders_catalog (MkWorkerId "w") "http://a:1" (orders_task_env uploads) orders_assignment orders_store.

Lemma orders_tickets_fit : tickets_fit.
Proof.
  intros ticket descriptor stream header _ _ Hh. change (small_header PROTOCOL_VERSION descriptor ("crc32:" +:+ hex8 (arrow_crc32 stream)) = Ok header) in Hh.
  unfold small_header in Hh. destruct (demo_header_to_vec _ _ _) as [h| |]; [|done..]. destruct (len h <=? 4096)%N eqn:E; [|done].
  injection Hh as <-. by apply N.leb_le.
Qed.

Lemma orders_tickets_visible : tickets_visible.
Proof. intros ticket text Hj. injection Hj as <-. by destruct (countable.encode ticket) as [[[p|p|]|[p|p|]|]|[[p|p|]|[p|p|]|]|]. Qed.

Lemma orders_endpoint_usable : usable_endpoint "http://a:1".
Proof. by exists "a:1". Qed.

Lemma orders_acks_encode : acks_encode.
Proof. intros ack. by eexists. Qed.

Lemma orders_store_wf : ms_wf orders_store.
Proof. split; cbn; [unfold U64_MAX; lia|by rewrite map_total_empty|lia]. Qed.

Definition orders_cfg : WorkerConfig := MkWorkerConfig "http://c:1" (MkWorkerId "w") 1 100000 1024 4 100 50
  (MkSocketAddr LOCALHOST 0) None 100000 None None.
Definition orders_done : TaskOutput :=
  match (orders_run (λ _, orders_upload false None)).1 with Ok output => output | _ => MkTaskOutput 0 0 [] end.

(** Both destinations have their block. *)
Lemma task_output_accepted_witness :
  (sb_output_partition <$> to_blocks orders_done) = [MkPartitionId 0; MkPartitionId 1] ∧
  good_outcome orders_cfg orders_assignment (Ok orders_done).
Proof.
  split; [vm_compute; reflexivity|].
  apply (task_output_accepted orders_tickets_fit orders_catalog (MkWorkerId "w") "http://a:1" orders_endpoint_usable
    orders_tickets_visible orders_cfg (orders_task_env (λ _, orders_upload false None)) orders_assignment orders_store orders_done
    (orders_run (λ _, orders_upload false None)).2).
  - reflexivity.
  - exact orders_store_wf.
  - intros k s Hs. exact Hs.
  - vm_cast_no_check (eq_refl (orders_run (λ _, orders_upload false None))).
Defined.

Definition first_ticket : BlockTicket := MkBlockTicket PROTOCOL_VERSION (MkWorkerId "w") orders_attempt (MkPartitionId 0).
Definition first_descriptor : string := bits (countable.encode first_ticket).

(** Cancelled after its first upload, the task deletes that block. *)
Lemma failed_task_leaves_nothing_witness :
  (orders_run (λ k, orders_upload (bool_decide (k = 1)) None)).1 = Err Cancelled ∧
  ms_view (orders_run (λ k, orders_upload (bool_decide (k = 1)) None)).2 first_descriptor = None.
Proof.
  split; [vm_compute; reflexivity|].
  destruct (orders_run (λ k, orders_upload (bool_decide (k = 1)) None)) as [r s'] eqn:Er.
  assert (r = Err Cancelled) as -> by (change r with (fst (r, s')); rewrite <-Er; vm_compute; reflexivity).
  change (bs_view s' first_descriptor = None).
  apply (failed_task_leaves_nothing orders_tickets_fit orders_catalog (MkWorkerId "w") "http://a:1"
    (orders_task_env (λ k, orders_upload (bool_decide (k = 1)) None)) orders_assignment orders_store Cancelled s').
  - exact orders_acks_encode.
  - intros k. split; [|by split; [|left]]. intros s Hs. by split.
  - intros k. split; [|done]. intros s Hs. by split.
  - exact orders_store_wf.
  - intros d _. reflexivity.
  - exact Er.
  - exists (MkPartitionId 0). by split.
Defined.

(** An upload that is cut off after it ran leaves its block in the store for good. *)
Example cut_upload_leaks :
  let '(r, s) := orders_run (λ k, orders_upload false (if decide (k = 0) then Some ByDeadline else None)) in
  r = Err (Transport "task lease expired during execution") ∧ is_Some (ms_view s first_descriptor).
Proof. vm_compute. split; [reflexivity|by eexists]. Qed.

(** ** The consumer *)

Definition orders_fetch (_ : nat) : Fetch MemoryBlockStore :=
  MkFetch None (MkGetFaults None None) roomy (orders_run (λ _, orders_upload false None)).2.
Definition consumer_inputs : result (Catalog * N) :=
  materialize_stage_inputs orders_catalog [MkStageId 0] (to_blocks orders_done) roomy orders_fetch.

Definition input_scan (r : result (Catalog * N)) : result (list RecordBatch) :=
  '(cat, _) ← r;
  provider ← table cat "__sparkx_stage_input_0";
  tp_scan_partition provider 0 None.

(** Its only partition has the routed orders. *)
Lemma stage_inputs_materialized_witness :
  input_scan consumer_inputs = Ok [routed_orders] ∧
  ∃ cat own t, consumer_inputs = Ok (cat, own) ∧ table cat "__sparkx_stage_input_0" = Ok (memory_provider t) ∧
    length (mt_partitions t) = 1.
Proof.
  split; [vm_compute; reflexivity|]. destruct consumer_inputs as [[cat own]|e|why] eqn:Ec.
  2,3: exfalso; apply (f_equal is_ok) in Ec; revert Ec; vm_compute; discriminate.
  destruct (stage_inputs_materialized orders_catalog [MkStageId 0] (to_blocks orders_done) roomy orders_fetch cat own)
    as (ds & Hds & _ & Htab & _); [discriminate|apply NoDup_singleton|exact Ec|].
  destruct (Htab (MkStageId 0)) as (t & Ht & _ & _ & Hp); [by left|].
  exists cat, own, t. split; [reflexivity|]. split; [exact Ht|]. by rewrite Hp.
Defined.
