(* ===== verification/Servers.v ===== *)
(** * The Flight servers ([src/cluster/flight_exchange.rs], [data_plane.rs], [control_plane.rs])

    The three gRPC services of a cluster, call by call; how their servers are bound,
    advertised and stopped; and the loopback exchange of the in-process cluster, an
    implementation of [LocalCluster.ShuffleExchange].

    What the network and the operating system report is an argument, an error being its
    text. *)
From Stdlib Require Import Ascii.
From S2P Require Import Prelude Text Protocol Coordinator Float Expr Logical Catalog Physical Memory Metrics Execution Aggregate Executor PlanCodec PlanCodecProps Distributed Stages LocalCluster BlockStore BlockStoreProps Wire DataPlane ControlPlane HashExchange Worker Task.

(** ** Services *)

(** The calls of [trait FlightService]; requests that no service here looks at are left
    out. *)
Inductive FlightCall (Put Data : Type) :=
| Handshake
| ListFlights
| GetFlightInfo
| PollFlightInfo
| GetSchema
| DoGet (ticket : list N)
| DoPut (stream : Put)
| DoExchange (stream : list Data)
| DoAction (type : string) (body : list N)
| ListActions.
Arguments Handshake {Put Data}.
Arguments ListFlights {Put Data}.
Arguments GetFlightInfo {Put Data}.
Arguments PollFlightInfo {Put Data}.
Arguments GetSchema {Put Data}.
Arguments DoGet {Put Data}.
Arguments DoPut {Put Data}.
Arguments DoExchange {Put Data}.
Arguments DoAction {Put Data}.
Arguments ListActions {Put Data}.

(** What a call streams back. *)
Inductive FlightAnswer (Blocks Data : Type) :=
| AnswerBlocks (blocks : Blocks)
| AnswerBytes (results : list (list N))
| AnswerData (stream : list Data)
| AnswerActions (actions : list (string * string)).
Arguments AnswerBlocks {Blocks Data}.
Arguments AnswerBytes {Blocks Data}.
Arguments AnswerData {Blocks Data}.
Arguments AnswerActions {Blocks Data}.

(** [LoopbackFlightService] returns the stream it is sent. *)
Definition loopback_service {Put Blocks Data} (request : FlightCall Put Data) : reply (FlightAnswer Blocks Data) :=
  match request with
  | DoExchange stream => Reply (AnswerData stream)
  | _ => Refused (MkStatus Unimplemented "loopback shuffle only supports DoExchange")
  end.

Definition data_unsupported : Status :=
  MkStatus Unimplemented "SparkX data plane supports DoPut, DoGet, and block deletion".

Definition control_unsupported : Status :=
  MkStatus Unimplemented "SparkX control plane only supports Flight actions".

Definition data_list_actions : list (string * string) :=
  [(ACTION_DELETE_BLOCK, "Delete one consumed output block")].

Definition answered {A B} (f : A → B) (r : reply A) : reply B := a ← r; Reply (f a).

Section services.
Context `{BlockCodec, !FlightTransport, !Json BlockTicket, !Json UploadAck} {S : Type} `{!BlockStorage S}.

(** [DataPlaneFlightService]; [budget] is the store as the upload budget of a put sees
    it. *)
Definition data_service {Data} (budget : S) (request : FlightCall PutStream Data) (store : S)
    : reply (FlightAnswer (Schema * list RecordBatch) Data) * S :=
  match request with
  | DoGet ticket => (answered AnswerBlocks (do_get ticket store), store)
  | DoPut stream => let '(r, store) := do_put budget stream store in (answered AnswerBytes r, store)
  | DoAction type body => let '(r, store) := do_action type body store in (answered AnswerBytes r, store)
  | ListActions => (Reply (AnswerActions data_list_actions), store)
  | _ => (Refused data_unsupported, store)
  end.
End services.

(** [ControlPlaneFlightService] *)
Definition control_service `{PlanFragments, ControlJson} {Put Blocks Data} (now : N) (request : FlightCall Put Data)
    (cp : ControlPlane) : reply (FlightAnswer Blocks Data) * ControlPlane :=
  match request with
  | DoAction type body => let '(r, cp) := control_do_action now type body cp in (answered AnswerBytes r, cp)
  | ListActions => (Reply (AnswerActions control_list_actions), cp)
  | _ => (Refused control_unsupported, cp)
  end.

(** The milliseconds since the epoch, or none when the clock is before it. *)
Definition current_time_ms (since_epoch : option N) : N :=
  match since_epoch with Some ms => N.min ms U64_MAX | None => 0 end.

(** ** Addresses *)

Definition is_unspecified (ip : IpAddr) : bool := match ip with V4 a | V6 a => (a =? 0)%N end.

(** The characters of an IPv6 address: hexadecimal digits, colons and the dots of an
    embedded IPv4 address. *)
Definition ipv6_char (c : ascii) : bool :=
  let n := N_of_ascii c in ((46 <=? n) && negb (n =? 47) && (n <=? 58) || (97 <=? n) && (n <=? 102))%N.

Fixpoint all_chars (p : ascii → bool) (s : string) : bool :=
  match s with EmptyString => true | String c s => p c && all_chars p s end.

(** [Ipv6Addr]'s [Display] and [FromStr] *)
Class Ipv6Text := {
  ipv6_display : N → string;
  ipv6_parse : string → option N;
  ipv6_round_trip a : (a < 2 ^ 128)%N → ipv6_parse (ipv6_display a) = Some a;
  ipv6_colon a : contains_char ":" (ipv6_display a) = true;
  ipv6_chars a : all_chars ipv6_char (ipv6_display a) = true;
}.

Definition ipv4_display (a : N) : string :=
  pretty (a / 2 ^ 24)%N +:+ "." +:+ pretty (a / 2 ^ 16 mod 256)%N +:+ "." +:+ pretty (a / 2 ^ 8 mod 256)%N +:+ "." +:+
  pretty (a mod 256)%N.

Section addresses.
Context `{Ipv6Text}.

(** An IPv6 address is bracketed in front of a port. *)
Definition ip_host (ip : IpAddr) : string :=
  match ip with V4 a => ipv4_display a | V6 a => "[" +:+ ipv6_display a +:+ "]" end.

Definition starts_with_bracket (s : string) : bool := match s with String "[" _ => true | _ => false end.

(** [host.trim()] is [host], which has no white space there. *)
Definition advertised_endpoint (bound : SocketAddr) (advertised_host : option string) : result string :=
  host ← match advertised_host with
         | Some host =>
             if trim_is_empty host then Err (Planning "data-plane advertised host must not be empty")
             else if has_whitespace host || contains_char "/" host || contains_char "?" host
             then Err (Planning "data-plane advertised host must be a hostname or IP without a scheme or path")
             else Ok host
         | None =>
             if is_unspecified (sa_ip bound)
             then Err (Planning "data-plane bind address is unspecified; provide an advertised host")
             else Ok (ip_host (sa_ip bound))
         end;
  host ← (if contains_char ":" host && negb (starts_with_bracket host)
          then address ← ok_or (ipv6_parse host)
                 (Planning "data-plane advertised host must not include a port; configure the port in --data-bind");
               Ok ("[" +:+ ipv6_display address +:+ "]")
          else Ok host);
  Ok ("http://" +:+ host +:+ ":" +:+ pretty (sa_port bound)).

(** [ControlPlaneServer::endpoint] *)
Definition control_endpoint (address : SocketAddr) : string :=
  "http://" +:+ ip_host (sa_ip address) +:+ ":" +:+ pretty (sa_port address).

Lemma ipv6_char_ascii c : ipv6_char c = true → whitespace1 c = false ∧ (N_of_ascii c < 128)%N.
Proof. unfold ipv6_char, whitespace1. by destruct c as [[] [] [] [] [] [] [] []]. Qed.

Lemma ascii_whitespace c d e : (N_of_ascii c < 128)%N → whitespace2 c d = false ∧ whitespace3 c d e = false.
Proof.
  intros Hlt. unfold whitespace2, whitespace3.
  assert (∀ m, 128 <= m → (N_of_ascii c =? m) = false)%N as Hm by (intros m ?; apply N.eqb_neq; lia).
  by rewrite !Hm.
Qed.

Lemma all_chars_whitespace s : all_chars ipv6_char s = true → has_whitespace s = false.
Proof.
  induction s as [|c s IH]; [done|]. cbn [all_chars has_whitespace]. intros [Hc Hs]%andb_true_iff. rewrite IH by done.
  destruct (ipv6_char_ascii c Hc) as [-> Hlt]. destruct s as [|d s]; [done|].
  rewrite (proj1 (ascii_whitespace c d d Hlt)). destruct s as [|e s]; [done|]. by rewrite (proj2 (ascii_whitespace c d e Hlt)).
Qed.

Lemma all_chars_not_blank c s : ipv6_char c = true → trim_is_empty (String c s) = false.
Proof.
  intros [Hw Hlt]%ipv6_char_ascii. cbn. rewrite Hw. destruct s as [|d s]; [done|].
  rewrite (proj1 (ascii_whitespace c d d Hlt)). destruct s as [|e s]; [done|]. by rewrite (proj2 (ascii_whitespace c d e Hlt)).
Qed.

Lemma all_chars_lacks c s : ipv6_char c = false → all_chars ipv6_char s = true → contains_char c s = false.
Proof.
  intros Hc. induction s as [|d s IH]; [done|]. cbn. intros [Hd Hs]%andb_true_iff. rewrite IH by done.
  rewrite orb_false_r. apply bool_decide_eq_false_2. congruence.
Qed.

(** A server bound to an IPv6 address is advertised as one that is told to advertise that
    address, with its brackets. *)
Theorem advertised_ipv6 bound port a :
  (a < 2 ^ 128)%N → a ≠ 0%N → sa_port bound = port →
  advertised_endpoint bound (Some (ipv6_display a)) = Ok (control_endpoint (MkSocketAddr (V6 a) port)) ∧
  advertised_endpoint (MkSocketAddr (V6 a) port) None = Ok (control_endpoint (MkSocketAddr (V6 a) port)).
Proof.
  intros Ha H0 <-. pose proof (ipv6_chars a) as Hc. pose proof (ipv6_colon a) as Hcol.
  unfold advertised_endpoint, control_endpoint. cbn [sa_ip sa_port is_unspecified ip_host]. split.
  - rewrite (all_chars_whitespace _ Hc), (all_chars_lacks "/"), (all_chars_lacks "?") by done. cbn [orb].
    assert (trim_is_empty (ipv6_display a) = false ∧ starts_with_bracket (ipv6_display a) = false) as [-> E].
    { revert Hc Hcol. generalize (ipv6_display a). intros [|c s]; [done|]. cbn [all_chars]. intros [Hc _]%andb_true_iff _. 
      split; [by apply all_chars_not_blank|]. revert Hc. by destruct c as [[] [] [] [] [] [] [] []]. }
    cbn. rewrite Hcol, E. cbn. rewrite ipv6_round_trip by done. done.
  - apply N.eqb_neq in H0. rewrite H0. cbn. by rewrite andb_false_r.
Qed.
End addresses.

(** ** Servers *)

(** What binding a socket reports. *)
Record BindReport := MkBindReport { br_bind : option string; br_local_addr : string + SocketAddr }.

Definition listen (error_at : string → string → SparkXError) (binding reading : string) (report : BindReport)
    : result SocketAddr :=
  match br_bind report, br_local_addr report with
  | Some error, _ => Err (error_at binding error)
  | None, inl error => Err (error_at reading error)
  | None, inr address => Ok address
  end.

(** [shutdown: Option<Sender>] and [server: Option<JoinHandle>]: which are there. *)
Record ServerHandle := MkServerHandle { sh_shutdown : bool; sh_server : bool }.

Definition spawned : ServerHandle := MkServerHandle true true.

(** [Drop]: the signals sent, and what is left. *)
Definition drop_server (h : ServerHandle) : nat * ServerHandle :=
  (if sh_shutdown h then 1 else 0, MkServerHandle false (sh_server h)).

(** How a server task ends: by itself, with an error of its transport or as a task that
    cannot be joined. *)
Inductive ServerEnd := ServerStopped | ServerFailed (error : string) | ServerLost (error : string).

(** [close(mut self)]: its result, the signals sent and what is left to drop. *)
Definition close_server (error_at : string → string → SparkXError) (joining stopping : string) (finish : ServerEnd)
    (h : ServerHandle) : result unit * nat * ServerHandle :=
  let '(signals, h) := drop_server h in
  (if sh_server h then
     match finish with
     | ServerStopped => Ok tt
     | ServerFailed error => Err (error_at stopping error)
     | ServerLost error => Err (error_at joining error)
     end
   else Ok tt, signals, MkServerHandle (sh_shutdown h) false).

(** [Channel::from_shared(..).connect()] *)
Record ConnectReport := MkConnectReport { cn_uri : option string; cn_connect : option string }.

Definition connect_channel (error_at : string → string → SparkXError) (building connecting : string)
    (report : ConnectReport) : result unit :=
  match cn_uri report, cn_connect report with
  | Some error, _ => Err (error_at building error)
  | None, Some error => Err (error_at connecting error)
  | None, None => Ok tt
  end.

(** However it goes, a server that was started is told to stop once: by [close], or when
    it is dropped; and [close] is [Ok] exactly when the server stopped by itself. *)
Theorem server_stopped_once error_at joining stopping finish :
  let '(r, signals, h) := close_server error_at joining stopping finish spawned in
  (r = Ok tt ↔ finish = ServerStopped) ∧ no_panic r ∧ signals + (drop_server h).1 = 1 ∧ (drop_server spawned).1 = 1.
Proof. by destruct finish. Qed.

(** *** The data plane *)

Definition data_error (action error : string) : SparkXError :=
  Transport ("Flight data-plane " +:+ action +:+ ": " +:+ error).

Definition data_close : ServerEnd → ServerHandle → result unit * nat * ServerHandle :=
  close_server data_error "join data-plane server" "stop data-plane server".

Definition data_connect : ConnectReport → result unit :=
  connect_channel data_error "build data-plane endpoint" "connect to data-plane server".

(** *** The control plane *)

Definition server_error (action error : string) : SparkXError :=
  Execution ("control-plane server " +:+ action +:+ " failed: " +:+ error).

Definition client_error (action error : string) : SparkXError :=
  Execution ("control-plane client " +:+ action +:+ " failed: " +:+ error).

(** The state the service starts with, its address and its server. *)
Definition control_bind (report : BindReport) (coordinator : Coordinator) : result (ControlPlane * SocketAddr * ServerHandle) :=
  address ← listen server_error "bind" "read listener address" report;
  Ok (MkControlPlane coordinator ∅, address, spawned).

Definition control_close : ServerEnd → ServerHandle → result unit * nat * ServerHandle :=
  close_server server_error "join server task" "stop server".

Definition control_connect : ConnectReport → result unit := connect_channel client_error "build endpoint" "connect".

(** *** The store of a data plane *)

Section backends.
Context `{BlockCodec, Ipv6Text}.

Inductive Backend :=
| MemoryBackend (store : MemoryBlockStore)
| DiskBackend (store : DiskBlockStore) (directory : Directory).

(** A directory to open: its lock, the faults of reading its files, their names, and what
    it holds. *)
Record DiskReport := MkDiskReport {
  di_lock : result unit;
  di_faults : string → Faults;
  di_names : list string;
  di_directory : Directory;
}.

Definition open_backend (directory : option DiskReport) (capacity_bytes : N) : result Backend :=
  match directory with
  | Some d =>
      let '(r, files) := DiskBlockStore_open (di_lock d) (di_faults d) (di_names d) capacity_bytes (di_directory d) in
      store ← r; Ok (DiskBackend store files)
  | None => store ← MemoryBlockStore_new capacity_bytes; Ok (MemoryBackend store)
  end.

(** The backend is opened on another thread, whose panic is an error here. *)
Definition bind_with_storage (report : BindReport) (advertised_host : option string) (capacity_bytes : N)
    (directory : option DiskReport) : result (Backend * string * ServerHandle) :=
  store ← match open_backend directory capacity_bytes with Panic why => Err (Execution why) | r => r end;
  bound ← listen data_error "bind data-plane server" "read data-plane listener address" report;
  endpoint ← advertised_endpoint bound advertised_host;
  Ok (store, endpoint, spawned).

(** *** A worker *)

(** What [run_until] has when it enters its loop. *)
Record RunningWorker := MkRunningWorker {
  wr_store : Backend;
  wr_data_endpoint : string;
  wr_data_plane : ServerHandle;
  wr_metrics : QueryMetrics;
  wr_memory : QueryMemory;
  wr_loop : RemoteWorker;
}.

(** Up to the loop: [registered] is what the coordinator answers to
    [worker_registration].  A worker that fails here drops its data plane: the signals
    sent. *)
Definition worker_start (c : WorkerConfig) (bind : BindReport) (directory : option DiskReport) (connecting : ConnectReport)
    (registered : WorkerRegistration → result unit) : result RunningWorker * nat :=
  match bind_with_storage bind (wc_data_advertised_host c) (wc_data_storage_bytes c) directory with
  | Ok (store, endpoint, data_plane) =>
      match _ ← control_connect connecting; registered (worker_registration c) with
      | Ok _ => (Ok (MkRunningWorker store endpoint data_plane QueryMetrics_default (QueryMemory_new (wc_memory_bytes c))
                       RemoteWorker_start), 0)
      | Err e => (Err e, (drop_server data_plane).1)
      | Panic why => (Panic why, (drop_server data_plane).1)
      end
  | Err e => (Err e, 0)
  | Panic why => (Panic why, 0)
  end.

Record WorkerRunSummary := MkWorkerRunSummary { ws_counts : WorkerSummary; ws_metrics : MetricsSnapshot }.

(** After the loop. *)
Definition worker_end (finish : ServerEnd) (w : RunningWorker) : result WorkerRunSummary * nat * ServerHandle :=
  let metrics := set_memory_usage (wr_metrics w) (reserved_bytes (wr_memory w)) (peak_bytes (wr_memory w)) in
  let summary := MkWorkerRunSummary (rw_summary (wr_loop w)) (metrics_snapshot metrics) in
  let '(closed, signals, data_plane) := data_close finish (wr_data_plane w) in
  (_ ← closed; Ok summary, signals, data_plane).

(** A worker that comes up serves an empty store, or the blocks of its directory, has
    nothing running and no memory reserved, and the coordinator knows it; a worker that
    does not has stopped the server it started, if it got that far. *)
Theorem worker_start_clean c bind directory connecting registered :
  match worker_start c bind directory connecting registered with
  | (Ok w, signals) =>
      open_backend directory (wc_data_storage_bytes c) = Ok (wr_store w) ∧
      registered (worker_registration c) = Ok tt ∧ rw_tasks (wr_loop w) = [] ∧ rw_active (wr_loop w) = ∅ ∧
      mem_reachable (wc_memory_bytes c) (wr_memory w) ∧ signals = 0 ∧ wr_data_plane w = spawned
  | (_, signals) =>
      signals = match bind_with_storage bind (wc_data_advertised_host c) (wc_data_storage_bytes c) directory with
                | Ok _ => 1 | _ => 0 end
  end.
Proof.
  unfold worker_start. destruct (bind_with_storage _ _ _ _) as [[[store endpoint] h]|e|why] eqn:E; [|done..].
  unfold bind_with_storage in E. destruct (open_backend _ _) as [b|e|why]; [cbn in E|done..].
  apply bind_ok in E as (bound & _ & (advertised & _ & [= -> -> <-])%bind_ok).
  destruct (_ ≫= _) as [u|e|why] eqn:Er; [|done..]. apply bind_ok in Er as (u' & _ & Er). destruct u.
  repeat split; try done. apply rtc_refl.
Qed.
End backends.

(** ** The loopback exchange *)

Definition loopback_error (action error : string) : SparkXError :=
  Execution ("loopback Flight " +:+ action +:+ " failed: " +:+ error).

Record LoopbackFlightExchange := MkLoopbackFlightExchange { lf_client : bool; lf_server : ServerHandle }.

Definition loopback_start (bind : BindReport) (connecting : ConnectReport) : result LoopbackFlightExchange :=
  _ ← listen loopback_error "bind" "read listener address" bind;
  _ ← connect_channel loopback_error "build client endpoint" "connect" connecting;
  Ok (MkLoopbackFlightExchange true spawned).

Definition loopback_close (finish : ServerEnd) (self : LoopbackFlightExchange)
    : result unit * nat * LoopbackFlightExchange :=
  let '(r, signals, server) := close_server loopback_error "join server task" "stop server" finish (lf_server self) in
  (r, signals, MkLoopbackFlightExchange false server).

Section loopback.
Context `{BatchOps, ArrowIpc, !FlightTransport}.

(** What the encoder makes of the batches goes to the service and comes back; [opening]
    and [receiving] are errors of the transport. *)
Definition loopback_exchange (opening receiving : option string) (self : LoopbackFlightExchange) (schema : Expr.Schema)
    (batches : list Expr.RecordBatch) : result (list Expr.RecordBatch) :=
  if lf_client self then
    match opening, loopback_service (Put:=unit) (Blocks:=unit) (DoExchange (flight schema batches)) with
    | None, Reply (AnswerData stream) =>
        match receiving with None => Ok stream | Some error => Err (loopback_error "receive DoExchange" error) end
    | Some error, _ => Err (loopback_error "open DoExchange" error)
    | None, Refused s => Err (loopback_error "open DoExchange" (status_display s))
    | None, Crashed why => Err (loopback_error "open DoExchange" why)
    | None, Reply _ => Ok []
    end
  else Err (Execution "loopback Flight exchange is closed").

Definition started_loopback : LoopbackFlightExchange := MkLoopbackFlightExchange true spawned.

(** The exchange of one query, whose errors may depend on what is sent. *)
Definition loopback_shuffle (bind : BindReport) (connecting : ConnectReport)
    (opening receiving : Expr.Schema → list Expr.RecordBatch → option string) (finish : ServerEnd) : ShuffleExchange := {|
  exchange_start := _ ← loopback_start bind connecting; Ok tt;
  exchange schema batches := loopback_exchange (opening schema batches) (receiving schema batches) started_loopback schema batches;
  exchange_close := (loopback_close finish started_loopback).1.1;
|}.

(** What [LocalCluster] asks of an exchange: it does not panic, and where the encoder does
    not split a batch, it delivers that batch or an error. *)
Theorem loopback_delivers bind connecting opening receiving finish schema b :
  let E := loopback_shuffle bind connecting opening receiving finish in
  no_panic (exchange schema [b]) ∧
  (flight schema [b] = [b] → ∀ out, exchange schema [b] = Ok out → out = [b]).
Proof.
  cbn. unfold loopback_exchange. cbn. destruct (opening schema [b]), (receiving schema [b]); cbn; try done.
  split; [done|]. intros -> out. by intros [= <-].
Qed.
End loopback.
