(* ===== verification/Remote.v ===== *)
(** * Remote queries ([src/cluster/remote.rs])

    The driver's side of a query on standalone workers: it submits the stages to the
    control plane, polls until they have succeeded, fetches the output of the final one
    and starts over under a new query when that can help.

    A driver is a program over the world it talks to ([prog]): every call of the control
    plane or of a data plane and every look at its cancellation consumes one [Moment],
    which says what the others did in the meantime, what becomes of the call and how long
    it takes.  Time passes where the driver waits.  The [select] around a run and the
    timeouts of a cleanup are the [Scope] of the driver: a wait that would go past its end
    is cut off there. *)
From S2P Require Import Prelude Text Protocol Coordinator Memory Execution BlockStore BlockStoreProps Wire DataPlane ControlPlane.

(** Durations in milliseconds. *)
Record RemoteStageConfig := MkRemoteStageConfig {
  rc_coordinator_endpoint : string;
  rc_poll_interval : N;
  rc_timeout : N;
  rc_delete_output_after_fetch : bool;
  rc_max_query_retries : N;
}.

Definition RemoteStageConfig_new (coordinator_endpoint : string) : RemoteStageConfig :=
  MkRemoteStageConfig coordinator_endpoint 50 300000 true 0.

Definition RemoteStageConfig_validate (c : RemoteStageConfig) : result unit :=
  if trim_is_empty (rc_coordinator_endpoint c)
  then Err (Planning "remote-stage coordinator endpoint must not be empty")
  else if (rc_poll_interval c =? 0)%N || (rc_timeout c =? 0)%N
  then Err (Planning "remote-stage poll interval and timeout must be greater than zero")
  else Ok tt.

(** [{:?}] of a duration that is a number of milliseconds: a parameter of the driver. *)
Class DurationDebug := duration_text : N → string.

(** ** The graph *)

Fixpoint check_stages `{PlanFragments} (query_id : QueryId) (submitted : gset StageId) (stages : list StagePlan)
    : result (gset StageId) :=
  match stages with
  | [] => Ok submitted
  | stage :: stages =>
      _ ← StagePlan_validate stage;
      if decide (sp_query_id stage = query_id) then
        if existsb (λ dependency, negb (bool_decide (dependency ∈ submitted))) (sp_input_stages stage)
        then Err (Planning ("remote stage " +:+ pretty (stage_num (sp_stage_id stage)) +:+
                            " appears before one of its dependencies"))
        else if decide (sp_stage_id stage ∈ submitted)
        then Err (Planning ("remote stage graph contains duplicate stage " +:+ pretty (stage_num (sp_stage_id stage))))
        else check_stages query_id ({[sp_stage_id stage]} ∪ submitted) stages
      else Err (Planning "remote stage graph contains more than one query ID")
  end.

(** The query of a graph that is fit to be submitted. *)
Definition check_graph `{PlanFragments} (stages : list StagePlan) (final_stage_id : StageId) : result QueryId :=
  first ← ok_or (head stages) (Planning "remote stage graph must not be empty");
  let query_id := sp_query_id first in
  submitted ← check_stages query_id ∅ stages;
  if decide (final_stage_id ∈ submitted) then Ok query_id
  else Err (Planning ("remote final stage " +:+ pretty (stage_num final_stage_id) +:+ " is not present in the graph")).

Definition flight_endpoint (block : ShuffleBlock) : result string :=
  match sb_location block with
  | Flight _ endpoint _ => Ok endpoint
  | Worker _ => Err (Unsupported "remote stage output uses a worker-local location without a Flight endpoint")
  | ObjectStore _ => Err (Unsupported "object-store remote stage output is not implemented")
  end.

(** ** Programs *)

(** The coordinator's side and the data planes by endpoint. *)
Record World (S : Type) := MkWorld {
  w_control : ControlPlane;
  w_stores : string → S;
}.
Arguments MkWorld {S}.
Arguments w_control {S}.
Arguments w_stores {S}.

(** The arm of a [select] that wins when others are ready as well. *)
Inductive Arm := CancellationArm | DeadlineArm.
#[export] Instance Arm_eq_dec : EqDecision Arm.
Proof. solve_decision. Defined.

(** [mo_arm] is [Some CancellationArm] when the token is cancelled during the wait;
    [mo_clock] is the system clock in nanoseconds or its error, [mo_drawn] how often
    others have counted in the process meanwhile. *)
Record Moment (S : Type) := MkMoment {
  mo_others : World S → World S;
  mo_server_time : N;
  mo_elapsed : N;
  mo_delivery : Delivery;
  mo_connect_error : option SparkXError;
  mo_faults : GetFaults;
  mo_cancelled : bool;
  mo_arm : option Arm;
  mo_clock : string + N;
  mo_drawn : N;
}.
Arguments MkMoment {S}.
Arguments mo_others {S}.
Arguments mo_server_time {S}.
Arguments mo_elapsed {S}.
Arguments mo_delivery {S}.
Arguments mo_connect_error {S}.
Arguments mo_faults {S}.
Arguments mo_cancelled {S}.
Arguments mo_arm {S}.
Arguments mo_clock {S}.
Arguments mo_drawn {S}.

(** What surrounds a wait: nothing, the [select] of a run with its cancellation and its
    deadline, or a [timeout] of the cleanup. *)
Inductive Scope := Unlimited | InRun (deadline : N) | InCleanup (limit : N).

Definition scope_limit (s : Scope) : option N :=
  match s with Unlimited => None | InRun limit | InCleanup limit => Some limit end.

(** The error of a wait until [finish] that is cut off. *)
Definition cut_by (scope : Scope) (arm : option Arm) (finish : N) : option SparkXError :=
  let passed limit := (limit <? finish)%N || (limit =? finish)%N && bool_decide (arm = Some DeadlineArm) in
  match scope with
  | Unlimited => None
  | InRun deadline =>
      if decide (arm = Some CancellationArm) then Some Cancelled
      else if passed deadline then Some (Execution "remote query exceeded its timeout") else None
  | InCleanup limit => if passed limit then Some (Execution "deadline has elapsed") else None
  end.

(** When it is cut off. *)
Definition cut_time (scope : Scope) (now finish : N) : N :=
  match scope_limit scope with None => finish | Some limit => N.min finish (N.max now limit) end.

(** The world, the time, how many moments have passed, the scope, and the process-wide
    counter of recovery identities. *)
Record Driver (S : Type) := MkDriver {
  dr_world : World S;
  dr_time : N;
  dr_moment : nat;
  dr_scope : Scope;
  dr_sequence : N;
}.
Arguments MkDriver {S}.
Arguments dr_world {S}.
Arguments dr_time {S}.
Arguments dr_moment {S}.
Arguments dr_scope {S}.
Arguments dr_sequence {S}.

Definition with_scope {S} (scope : Scope) (d : Driver S) : Driver S :=
  MkDriver (dr_world d) (dr_time d) (dr_moment d) scope (dr_sequence d).

Inductive outcome (A : Type) :=
| Returns (r : result A)
| CutOff (e : SparkXError)
| OutOfFuel.
Arguments Returns {A}.
Arguments CutOff {A}.
Arguments OutOfFuel {A}.

Definition prog (S A : Type) : Type := Driver S → outcome A * Driver S.

#[export] Instance prog_ret {S} : MRet (prog S) := λ A a d, (Returns (Ok a), d).
#[export] Instance prog_bind {S} : MBind (prog S) := λ A B f p d,
  match p d with
  | (Returns (Ok a), d) => f a d
  | (Returns (Err e), d) => (Returns (Err e), d)
  | (Returns (Panic why), d) => (Returns (Panic why), d)
  | (CutOff e, d) => (CutOff e, d)
  | (OutOfFuel, d) => (OutOfFuel, d)
  end.

Definition lift {S A} (r : result A) : prog S A := λ d, (Returns r, d).

(** [p.await] where the code looks at the result. *)
Definition awaited {S A} (p : prog S A) : prog S (result A) := λ d,
  match p d with
  | (Returns (Ok a), d) => (Returns (Ok (Ok a)), d)
  | (Returns (Err e), d) => (Returns (Ok (Err e)), d)
  | (Returns (Panic why), d) => (Returns (Panic why), d)
  | (CutOff e, d) => (CutOff e, d)
  | (OutOfFuel, d) => (OutOfFuel, d)
  end.

(** [p] inside another [select] or [timeout]. *)
Definition within {S A} (scope : Scope) (p : prog S A) : prog S A := λ d,
  let '(o, d1) := p (with_scope scope d) in (o, with_scope (dr_scope d) d1).

Record RemoteStageResult `{BlockCodec} := MkRemoteStageResult {
  rr_schema : option Schema;
  rr_batches : list RecordBatch;
  rr_output_blocks : list ShuffleBlock;
  rr_intermediate_blocks : list ShuffleBlock;
  rr_cleanup_errors : list string;
  rr_recovery_attempts : N;
}.

Arguments MkRemoteStageResult {_}.

Definition row_count `{BlockCodec} (r : RemoteStageResult) : result N := sum_u64 (num_rows <$> rr_batches r).

Section driver.
Context `{PlanFragments, ControlJson, DurationDebug, BlockCodec, !FlightTransport, !Json BlockTicket, !Json UploadAck}.
Context {S : Type} `{!BlockStorage S} `{EqDecision Schema} (moments : nat → Moment S).

(** A wait of some length: what [f] does to the world, unless the driver is cut off.  What
    a call that is cut off does is up to its delivery. *)
Definition await {A} (length : Moment S → N) (f : Moment S → World S → result A * World S) : prog S A := λ d,
  let m := moments (dr_moment d) in
  let '(r, w) := f m (mo_others m (dr_world d)) in
  let finish := (dr_time d + length m)%N in
  let after time := MkDriver w time (dr_moment d + 1) (dr_scope d) (dr_sequence d + mo_drawn m) in
  match cut_by (dr_scope d) (mo_arm m) finish with
  | Some e => (CutOff e, after (cut_time (dr_scope d) (dr_time d) finish))
  | None => (Returns r, after finish)
  end.

Definition moment {A} (f : Moment S → World S → result A * World S) : prog S A := await mo_elapsed f.

Definition control {A} (f : Delivery → N → ControlPlane → result A * ControlPlane) : prog S A :=
  moment (λ m w, let '(r, cp) := f (mo_delivery m) (mo_server_time m) (w_control w) in (r, MkWorld cp (w_stores w))).

(** A new client, of the control plane or of a data plane. *)
Definition connect : prog S unit :=
  moment (λ m w, (match mo_connect_error m with Some e => Err e | None => Ok tt end, w)).

Definition download_from (endpoint : string) (block : ShuffleBlock) : prog S DownloadedBlock :=
  moment (λ m w, (download_with_schema (mo_faults m) endpoint block (w_stores w endpoint), w)).

Definition delete_from (endpoint : string) (block : ShuffleBlock) : prog S unit :=
  moment (λ m w,
    let '(r, s) := delete_block (mo_delivery m) endpoint block (w_stores w endpoint) in
    (r, MkWorld (w_control w) (λ e, if decide (e = endpoint) then s else w_stores w e))).

(** [cancellation.is_cancelled()], which does not wait. *)
Definition is_cancelled : prog S bool := λ d,
  let m := moments (dr_moment d) in
  (Returns (Ok (mo_cancelled m)),
   MkDriver (mo_others m (dr_world d)) (dr_time d) (dr_moment d + 1) (dr_scope d) (dr_sequence d + mo_drawn m)).

(** [Instant::now()] *)
Definition instant : prog S N := λ d, (Returns (Ok (dr_time d)), d).

(** The [select] of cancellation and sleep: a sleep takes at least as long, unless it is
    cancelled. *)
Definition sleep (duration : N) : prog S bool :=
  await (λ m, if mo_cancelled m then N.min (mo_elapsed m) duration else (duration + mo_elapsed m)%N)
    (λ m w, (Ok (mo_cancelled m), w)).

(** ** Failures *)

Fixpoint failed_partitions (query_id : QueryId) (stage_id : StageId) (partitions : list N)
    : prog S (list (N * N * string * bool)) :=
  match partitions with
  | [] => mret []
  | partition :: partitions =>
      status ← control (λ d now, client_partition_status d now query_id stage_id (MkPartitionId partition));
      failures ← failed_partitions query_id stage_id partitions;
      mret (match status with
            | StatusFailed attempt error retryable => (partition, attempt, error, retryable) :: failures
            | _ => failures
            end)
  end.

Definition failure_text (f : N * N * string * bool) : string :=
  let '(partition, attempt, error, _) := f in
  "partition " +:+ pretty partition +:+ " attempt " +:+ pretty attempt +:+ ": " +:+ error.

Definition failed_partition_details (query_id : QueryId) (stage_id : StageId) (partition_count : N)
    : prog S (string * bool) :=
  failures ← failed_partitions query_id stage_id (N.of_nat <$> seq 0 (N.to_nat partition_count));
  let retryable_failure := existsb (λ f : N * N * string * bool, f.2) failures in
  let nonretryable_failure := existsb (λ f : N * N * string * bool, negb f.2) failures in
  mret (if decide (failures = []) then (EmptyString, false)
        else (": " +:+ String.concat "; " (failure_text <$> failures), retryable_failure && negb nonretryable_failure)).

(** ** Output *)

Definition merge_download (schema : option Schema) (batches : list RecordBatch) (downloaded : DownloadedBlock)
    : result (option Schema * list RecordBatch) :=
  schema ← match schema with
           | Some expected =>
               if decide (expected = db_schema downloaded) then Ok (Some expected)
               else Err (Protocol "remote stage output blocks contain different Arrow schemas")
           | None => Ok (Some (db_schema downloaded))
           end;
  Ok (schema, batches ++ db_batches downloaded).

(** Connects to an endpoint that has no client yet. *)
Definition client_for (clients : gset string) (endpoint : string) : prog S (gset string) :=
  if decide (endpoint ∈ clients) then mret clients
  else _ ← connect; mret ({[endpoint]} ∪ clients).

Fixpoint fetch_blocks (clients : gset string) (schema : option Schema) (batches : list RecordBatch)
    (blocks : list ShuffleBlock) : prog S (gset string * option Schema * list RecordBatch) :=
  match blocks with
  | [] => mret (clients, schema, batches)
  | block :: blocks =>
      endpoint ← lift (flight_endpoint block);
      clients ← client_for clients endpoint;
      downloaded ← download_from endpoint block;
      '(schema, batches) ← lift (merge_download schema batches downloaded);
      fetch_blocks clients schema batches blocks
  end.

(** The deletions after a fetch: their errors. *)
Fixpoint cleanup (clients : gset string) (blocks : list ShuffleBlock) : prog S (list string) :=
  match blocks with
  | [] => mret []
  | block :: blocks =>
      endpoint ← lift (flight_endpoint block);
      connected ← awaited (client_for clients endpoint);
      match connected with
      | Ok clients =>
          deleted ← awaited (delete_from endpoint block);
          errors ← cleanup clients blocks;
          mret (match deleted with Err error => display_error error :: errors | _ => errors end)
      | Err error => errors ← cleanup clients blocks; mret (display_error error :: errors)
      | Panic why => lift (Panic why)
      end
  end.

Definition fetch_output (cfg : RemoteStageConfig) (blocks intermediate_blocks cleanup_blocks : list ShuffleBlock)
    : prog S RemoteStageResult :=
  '(clients, schema, batches) ← fetch_blocks ∅ None [] blocks;
  errors ← (if rc_delete_output_after_fetch cfg then cleanup clients cleanup_blocks else mret []);
  mret (MkRemoteStageResult schema batches blocks intermediate_blocks errors 0).

(** ** One run of the graph *)

Fixpoint submit_stages (stages : list StagePlan) : prog S unit :=
  match stages with
  | [] => mret tt
  | stage :: stages =>
      _ ← control (λ d now, client_submit_stage d now stage);
      submit_stages stages
  end.

(** The stages, one after the other: whether all have succeeded. *)
Fixpoint poll_stages (query_id : QueryId) (stages : list StagePlan) : prog S bool :=
  match stages with
  | [] => mret true
  | stage :: stages =>
      status ← control (λ d now, client_stage_status d now query_id (sp_stage_id stage));
      match status with
      | StageSucceeded => poll_stages query_id stages
      | StageFailed =>
          '(details, retryable) ← failed_partition_details query_id (sp_stage_id stage) (sp_partition_count stage);
          let message := "remote query " +:+ query_text query_id +:+ " stage " +:+
                         pretty (stage_num (sp_stage_id stage)) +:+ " failed" +:+ details in
          lift (Err (if (retryable : bool) then Transport message else Execution message))
      | StageCancelled => lift (Err Cancelled)
      | StageBlocked | StageReady | StageRunning => _ ← poll_stages query_id stages; mret false
      end
  end.

(** The blocks of the final stage, and of the others. *)
Fixpoint collect_outputs (query_id : QueryId) (final_stage_id : StageId) (stages : list StagePlan)
    (output_blocks intermediate_blocks : list ShuffleBlock) : prog S (list ShuffleBlock * list ShuffleBlock) :=
  match stages with
  | [] => mret (output_blocks, intermediate_blocks)
  | stage :: stages =>
      blocks ← control (λ d now, client_stage_output_blocks d now query_id (sp_stage_id stage));
      if decide (sp_stage_id stage = final_stage_id)
      then collect_outputs query_id final_stage_id stages blocks intermediate_blocks
      else collect_outputs query_id final_stage_id stages output_blocks (intermediate_blocks ++ blocks)
  end.

Definition cancel_by_driver (query_id : QueryId) (reason : string) : prog S unit :=
  _ ← awaited (control (λ d now, client_cancel_query d now query_id reason)); mret tt.

(** The loop; a round ends in a result or in a sleep. *)
Fixpoint poll_graph (cfg : RemoteStageConfig) (fuel : nat) (query_id : QueryId) (final_stage_id : StageId)
    (stages : list StagePlan) (started : N) : prog S RemoteStageResult :=
  match fuel with
  | 0 => λ d, (OutOfFuel, d)
  | Datatypes.S fuel =>
      cancelled ← is_cancelled;
      if (cancelled : bool)
      then _ ← cancel_by_driver query_id "remote stage cancelled by client"; lift (Err Cancelled)
      else
        all_succeeded ← poll_stages query_id stages;
        if (all_succeeded : bool) then
          '(output_blocks, intermediate_blocks) ← collect_outputs query_id final_stage_id stages [] [];
          fetch_output cfg output_blocks intermediate_blocks (intermediate_blocks ++ output_blocks)
        else
          now ← instant;
          if (rc_timeout cfg <=? now - started)%N
          then _ ← cancel_by_driver query_id "remote stage timed out";
               lift (Err (Execution ("remote query " +:+ query_text query_id +:+ " graph ending at stage " +:+
                 pretty (stage_num final_stage_id) +:+ " exceeded its " +:+ duration_text (rc_timeout cfg) +:+ " timeout")))
          else
            cancelled ← sleep (rc_poll_interval cfg);
            if (cancelled : bool)
            then _ ← cancel_by_driver query_id "remote stage cancelled by client"; lift (Err Cancelled)
            else poll_graph cfg fuel query_id final_stage_id stages started
  end.

(** Rounds until the timeout at the latest. *)
Definition poll_rounds (cfg : RemoteStageConfig) : nat := N.to_nat (rc_timeout cfg / rc_poll_interval cfg) + 2.

Definition execute_graph_once (cfg : RemoteStageConfig) (stages : list StagePlan) (final_stage_id : StageId)
    : prog S RemoteStageResult :=
  cancelled ← is_cancelled;
  if (cancelled : bool) then lift (Err Cancelled)
  else
    query_id ← lift (check_graph stages final_stage_id);
    _ ← connect;
    _ ← submit_stages stages;
    started ← instant;
    poll_graph cfg (poll_rounds cfg) query_id final_stage_id stages started.

(** ** Retries *)

(** [timeout(200 ms)] inside the timeout of the cleanup: the end of the inner one is the
    end of [p] only. *)
Definition briefly (p : prog S unit) : prog S unit := λ d,
  let inner := (dr_time d + 200)%N in
  if match scope_limit (dr_scope d) with Some limit => (inner <? limit)%N | None => true end
  then match within (InCleanup inner) p d with (CutOff _, d) => (Returns (Ok tt), d) | r => r end
  else p d.

Fixpoint discard_blocks (blocks : list ShuffleBlock) : prog S unit :=
  match blocks with
  | [] => mret tt
  | block :: blocks =>
      _ ← match flight_endpoint block with
          | Ok endpoint => briefly (_ ← awaited (_ ← connect; delete_from endpoint block); mret tt)
          | _ => mret tt
          end;
      discard_blocks blocks
  end.

Fixpoint discard_stages (query_id : QueryId) (stages : list StagePlan) : prog S unit :=
  match stages with
  | [] => mret tt
  | stage :: stages =>
      blocks ← awaited (control (λ d now, client_stage_output_blocks d now query_id (sp_stage_id stage)));
      _ ← match blocks with Ok blocks => discard_blocks blocks | _ => mret tt end;
      discard_stages query_id stages
  end.

Definition stop_query (first : StagePlan) (stages : list StagePlan) : prog S unit :=
  connected ← awaited connect;
  match connected with
  | Ok _ => _ ← cancel_by_driver (sp_query_id first) "remote query failed or stopped";
            discard_stages (sp_query_id first) stages
  | _ => mret tt
  end.

(** Best effort, within two seconds: a cut is the end of the cleanup only. *)
Definition cancel_and_cleanup (stages : list StagePlan) : prog S unit :=
  match head stages with
  | None => mret tt
  | Some first => λ d,
      match within (InCleanup (dr_time d + 2000)) (stop_query first stages) d with
      | (CutOff _, d) => (Returns (Ok tt), d)
      | r => r
      end
  end.

(** Another run may succeed after these. *)
Definition recoverable (e : SparkXError) : bool :=
  match e with Transport _ | NotFound _ => true | _ => false end.

(** The system clock in nanoseconds or its error, the process and the value of the
    process-wide counter. *)
Definition recovery_query_id (timestamp : string + N) (process sequence : N) : result QueryId :=
  match timestamp with
  | inl error => Err (Execution error)
  | inr timestamp => QueryId_new ("recovery-" +:+ pretty process +:+ "-" +:+ pretty timestamp +:+ "-" +:+ pretty sequence)
  end.

(** The identity of a retry: the clock is read before the counter. *)
Definition new_identity (process : N) : prog S QueryId := λ d,
  let m := moments (dr_moment d) in
  let sequence := (dr_sequence d + mo_drawn m)%N in
  (Returns (recovery_query_id (mo_clock m) process (sequence mod 2 ^ 64)),
   MkDriver (mo_others m (dr_world d)) (dr_time d) (dr_moment d + 1) (dr_scope d)
     (match mo_clock m with inl _ => sequence | inr _ => sequence + 1 end)).

Definition with_query (query : QueryId) (s : StagePlan) : StagePlan :=
  MkStagePlan query (sp_stage_id s) (sp_input_stages s) (sp_partition_count s) (sp_plan_fragment s)
    (sp_output_exchange s) (sp_partitioned_input s).

Definition with_recovery (attempts : N) (r : RemoteStageResult) : RemoteStageResult :=
  MkRemoteStageResult (rr_schema r) (rr_batches r) (rr_output_blocks r) (rr_intermediate_blocks r)
    (rr_cleanup_errors r) attempts.

(** The [select] around a run: a cut is its error. *)
Definition selected {A} (o : outcome A) : outcome A :=
  match o with CutOff e => Returns (Err e) | o => o end.

Fixpoint run_attempts (cfg : RemoteStageConfig) (process : N) (deadline : N)
    (final_stage_id : StageId) (attempts : list N) (stages : list StagePlan) : prog S RemoteStageResult :=
  match attempts with
  | [] => lift (Panic "internal error: entered unreachable code: retry loop always returns")
  | attempt :: attempts => λ d,
      let '(o, d) := within (InRun deadline) (execute_graph_once cfg stages final_stage_id) d in
      match selected o with
      | Returns (Ok output) => (Returns (Ok (with_recovery attempt output)), d)
      | Returns (Err error) =>
          (_ ← cancel_and_cleanup stages;
           now ← instant;
           cancelled ← is_cancelled;
           if (attempt =? rc_max_query_retries cfg)%N || (deadline <=? now)%N || (cancelled : bool) || negb (recoverable error)
           then lift (Err error)
           else query ← new_identity process;
                run_attempts cfg process deadline final_stage_id attempts (with_query query <$> stages)) d
      | o => (o, d)
      end
  end.

(** [process] is the identity of the driver's process. *)
Definition execute_graph (cfg : RemoteStageConfig) (process : N) (stages : list StagePlan)
    (final_stage_id : StageId) : prog S RemoteStageResult :=
  now ← instant;
  run_attempts cfg process (now + rc_timeout cfg) final_stage_id
    (N.of_nat <$> seq 0 (N.to_nat (rc_max_query_retries cfg) + 1)) stages.

(** [RemoteStageRunner::execute] *)
Definition execute_stage (cfg : RemoteStageConfig) (process : N) (stage : StagePlan) : prog S RemoteStageResult :=
  execute_graph cfg process [stage] (sp_stage_id stage).
End driver.
