(* ===== verification/RemoteProps.v ===== *)
(** * What a remote query returns

    A driver against a world in which others go on ([good_step]s of the coordinator): it
    always comes to an end, and what it returns is the committed output of its final
    stage. *)
From S2P Require Import Prelude Text Protocol Coordinator CoordinatorClock CoordinatorInv CoordinatorSpec CoordinatorSteps CoordinatorAssign CoordinatorRun Memory Execution BlockStore BlockStoreProps Wire DataPlane ControlPlane ControlPlaneProps Remote.

(** ** Ends and clocks *)

Section steady.
Context {S : Type}.
Implicit Types (d : Driver S).

(** What holds of the outcome and of the driver afterwards. *)
Definition runs {A} (p : prog S A) (Q : outcome A → Driver S → Prop) (d : Driver S) : Prop := Q (p d).1 (p d).2.

Lemma runs_bind {A B} (p : prog S A) (f : A → prog S B) Q d :
  runs p (λ o d1, match o with
                  | Returns (Ok a) => runs (f a) Q d1
                  | Returns (Err e) => Q (Returns (Err e)) d1
                  | Returns (Panic why) => Q (Returns (Panic why)) d1
                  | CutOff e => Q (CutOff e) d1
                  | OutOfFuel => Q OutOfFuel d1
                  end) d → runs (p ≫= f) Q d.
Proof. unfold runs, mbind, prog_bind. by destruct (p d) as [[[a|e|why]|e|] d1]. Qed.

Lemma bind_returns {A B} (p : prog S A) (f : A → prog S B) d a d1 :
  p d = (Returns (Ok a), d1) → (p ≫= f) d = f a d1.
Proof. intros Hp. unfold mbind, prog_bind. by rewrite Hp. Qed.

Lemma runs_mono {A} (p : prog S A) (P Q : outcome A → Driver S → Prop) d :
  runs p P d → (∀ o d1, P o d1 → Q o d1) → runs p Q d.
Proof. intros Hp HQ. by apply HQ. Qed.

(** Time and the counter do not run back, the scope is the same, and time does not pass
    its end. *)
Record later d d' : Prop := {
  later_time : (dr_time d ≤ dr_time d')%N;
  later_scope : dr_scope d' = dr_scope d;
  later_sequence : (dr_sequence d ≤ dr_sequence d')%N;
  later_limit l : scope_limit (dr_scope d) = Some l → (dr_time d ≤ l)%N → (dr_time d' ≤ l)%N;
}.

#[export] Instance later_preorder : PreOrder later.
Proof.
  split; [by intros d; split|]. intros d1 d2 d3 [T1 S1 Q1 L1] [T2 S2 Q2 L2].
  split; [lia|congruence|lia|]. intros l Hl H1. apply L2; [by rewrite S1|by apply L1].
Qed.

(** The program comes to an end. *)
Definition steady {A} (p : prog S A) : Prop := ∀ d, (p d).1 ≠ OutOfFuel ∧ later d (p d).2.

Lemma steady_lift {A} (r : result A) : steady (lift r).
Proof. by intros d. Qed.
Lemma steady_ret {A} (a : A) : steady (mret a).
Proof. by intros d. Qed.

Lemma steady_bind {A B} (p : prog S A) (f : A → prog S B) :
  steady p → (∀ a, steady (f a)) → steady (p ≫= f).
Proof.
  intros Hp Hf d. unfold mbind, prog_bind. destruct (Hp d) as [H1 H2]. destruct (p d) as [[[a|e|why]|e|] d1]; simpl in *; try done.
  destruct (Hf a d1) as [H3 H4]. split; [done|]. by etrans.
Qed.

Lemma steady_settle {A} (p : prog S A) : steady p → steady (awaited p).
Proof. intros Hp d. unfold awaited. destruct (Hp d) as [H1 H2]. by destruct (p d) as [[[a|e|why]|e|] d1]. Qed.

(** An inner scope only has to end: time passes up to its own end. *)
Lemma steady_within {A} scope (p : prog S A) d :
  steady p →
  let '(o, d1) := within scope p d in
  o ≠ OutOfFuel ∧ (dr_time d ≤ dr_time d1)%N ∧ dr_scope d1 = dr_scope d ∧ (dr_sequence d ≤ dr_sequence d1)%N ∧
  ∀ l, scope_limit scope = Some l → (dr_time d ≤ l)%N → (dr_time d1 ≤ l)%N.
Proof.
  intros Hp. unfold within. destruct (Hp (with_scope scope d)) as [He [T _ Q L]].
  destruct (p (with_scope scope d)) as [o d1]. by split_and!.
Qed.
End steady.

Create HintDb steady.
#[export] Hint Resolve steady_lift steady_ret steady_bind steady_settle : steady.

Section driver.
Context `{PlanFragments, ControlJson, DurationDebug, BlockCodec, !FlightTransport, !Json BlockTicket, !Json UploadAck}.
Context {S : Type} `{!BlockStorage S} `{EqDecision Schema} (moments : nat → Moment S).
Implicit Types (d : Driver S).

(** A wait that is not cut off ends in its scope. *)
Lemma cut_by_limit scope arm finish l :
  scope_limit scope = Some l → cut_by scope arm finish = None → (finish ≤ l)%N.
Proof.
  destruct scope as [|l'|l']; cbn; [done| |]; intros [= ->].
  - case_decide; [done|]. destruct (N.ltb_spec l finish); cbn; [done|lia].
  - destruct (N.ltb_spec l finish); cbn; [done|lia].
Qed.

Lemma steady_await {A} len (f : Moment S → World S → result A * World S) : steady (await moments len f).
Proof.
  intros d. unfold await. destruct (f _ _) as [r w]. destruct (cut_by _ _ _) as [e|] eqn:E; (split; [done|]).
  - split; cbn; [| done|lia|]; unfold cut_time.
    + destruct (scope_limit _); lia.
    + intros l -> Hl. lia.
  - split; cbn; [lia|done|lia|]. intros l Hl _. by eapply cut_by_limit.
Qed.
Hint Resolve steady_await : steady.
Lemma steady_moment {A} (f : Moment S → World S → result A * World S) : steady (moment moments f).
Proof. apply steady_await. Qed.
Hint Resolve steady_moment : steady.

Lemma steady_cancelled : steady (is_cancelled moments).
Proof. intros d. split; [done|]. split; cbn; [lia|done|lia|done]. Qed.
Lemma steady_instant : steady (S:=S) instant.
Proof. by intros d. Qed.
Lemma steady_sleep n : steady (sleep moments n).
Proof. apply steady_await. Qed.
Lemma steady_identity process : steady (new_identity moments process).
Proof. intros d. split; [done|]. split; cbn; [lia|done|case_match; lia|done]. Qed.

(** A sleep that was not cancelled lasted. *)
Lemma sleep_lasts n d d' : sleep moments n d = (Returns (Ok false), d') → (dr_time d + n ≤ dr_time d')%N.
Proof. unfold sleep, await. destruct (cut_by _ _ _); [done|]. intros [= E <-]. cbn. rewrite E. lia. Qed.
Hint Resolve steady_cancelled steady_instant steady_sleep : steady.

Ltac steady := repeat first
  [ apply steady_moment | apply steady_bind; [|intros ?] | apply steady_settle | apply steady_lift | apply steady_ret
  | progress auto with steady | case_match ].

Lemma steady_failed_partitions q s ps : steady (failed_partitions moments q s ps).
Proof. induction ps; cbn; steady. Qed.
Lemma steady_details q s n : steady (failed_partition_details moments q s n).
Proof. unfold failed_partition_details. apply steady_bind; [apply steady_failed_partitions|]. steady. Qed.
Lemma steady_client_for cl e : steady (client_for moments cl e).
Proof. unfold client_for. case_decide; steady. Qed.
Hint Resolve steady_failed_partitions steady_details steady_client_for : steady.

Lemma steady_fetch_blocks cl sc bs blocks : steady (fetch_blocks moments cl sc bs blocks).
Proof. revert cl sc bs. induction blocks; intros cl sc bs; cbn; steady. Qed.
Lemma steady_cleanup cl blocks : steady (cleanup moments cl blocks).
Proof. revert cl. induction blocks; intros cl; cbn; steady. Qed.
Hint Resolve steady_fetch_blocks steady_cleanup : steady.
Lemma steady_fetch_output cfg b i c : steady (fetch_output moments cfg b i c).
Proof. unfold fetch_output. steady. Qed.
Lemma steady_submit stages : steady (submit_stages moments stages).
Proof. induction stages; cbn; steady. Qed.
Lemma steady_poll q stages : steady (poll_stages moments q stages).
Proof. induction stages; cbn; steady. Qed.
Lemma steady_collect q f stages o i : steady (collect_outputs moments q f stages o i).
Proof. revert o i. induction stages; intros o i; cbn; steady. Qed.
Lemma steady_cancel q why : steady (cancel_by_driver moments q why).
Proof. unfold cancel_by_driver. steady. Qed.
Hint Resolve steady_fetch_output steady_submit steady_poll steady_collect steady_cancel : steady.
(** Two timeouts: time passes no end of either. *)
Lemma steady_briefly (p : prog S unit) : steady p → steady (briefly p).
Proof.
  intros Hp d. unfold briefly. destruct (match scope_limit _ with Some _ => _ | None => _ end) eqn:El; [|apply Hp].
  pose proof (steady_within (InCleanup (dr_time d + 200)) p d Hp) as Hw. destruct (within _ p d) as [o d1].
  destruct Hw as (He & Ht & Hs & Hq & Hlim). specialize (Hlim _ eq_refl ltac:(lia)).
  assert (later d d1) as Hlater.
  { split; [done..|]. intros l E _. rewrite E in El. apply N.ltb_lt in El. lia. }
  by destruct o.
Qed.
Lemma steady_discard_blocks blocks : steady (discard_blocks moments blocks).
Proof.
  induction blocks as [|b blocks IH]; cbn; [steady|]. apply steady_bind; [|done].
  destruct (flight_endpoint b); [apply steady_briefly|..]; steady.
Qed.
Hint Resolve steady_discard_blocks : steady.
Lemma steady_discard_stages q stages : steady (discard_stages moments q stages).
Proof. induction stages; cbn; steady. Qed.
Hint Resolve steady_discard_stages : steady.
Lemma steady_stop_query first stages : steady (stop_query moments first stages).
Proof. unfold stop_query. steady. Qed.
Lemma steady_cleanup_within stages d :
  let '(o, d1) := cancel_and_cleanup moments stages d in
  o ≠ OutOfFuel ∧ (dr_time d ≤ dr_time d1 ≤ dr_time d + 2000)%N ∧ dr_scope d1 = dr_scope d ∧ (dr_sequence d ≤ dr_sequence d1)%N.
Proof.
  unfold cancel_and_cleanup. destruct (head stages) as [first|]; [|split_and!; cbn; [done|lia|lia|done|lia]].
  pose proof (steady_within (InCleanup (dr_time d + 2000)) _ d (steady_stop_query first stages)) as Hw.
  destruct (within _ _ d) as [o d1]. destruct Hw as (He & Ht & Hs & Hq & Hlim).
  specialize (Hlim _ eq_refl ltac:(lia)). destruct o; by split_and!.
Qed.

(** The outcome of a program that ends, after [d0]. *)
Definition ended {A} (d0 : Driver S) (o : outcome A) (d : Driver S) : Prop := o ≠ OutOfFuel ∧ later d0 d.

Lemma runs_steady {A} (p : prog S A) d0 d : steady p → later d0 d → runs p (ended d0) d.
Proof. intros Hp Ht. destruct (Hp d) as [Hend Htime]. split; [done|]. by etrans. Qed.

(** Every round that does not end the loop brings the timeout nearer. *)
Lemma poll_graph_ends cfg fuel q final stages started d0 d :
  (0 < rc_poll_interval cfg)%N → fuel ≠ 0 → later d0 d → (started ≤ dr_time d)%N →
  (rc_timeout cfg ≤ N.of_nat (fuel - 1) * rc_poll_interval cfg + (dr_time d - started))%N →
  runs (poll_graph moments cfg fuel q final stages started) (ended d0) d.
Proof.
  intros Hi. revert d. induction fuel as [|fuel IH]; intros d Hne Ht Hst Hf; [done|]. cbn [poll_graph].
  apply runs_bind. eapply runs_mono; [by apply (runs_steady _ d d steady_cancelled)|]. intros o d1 [Hend Ht1].
  assert (later d0 d1) as L1 by by etrans. pose proof (later_time _ _ Ht1) as T1.
  destruct o as [[[]| |]| |]; try (by split); try done. { apply runs_steady; [steady|done]. }
  apply runs_bind. eapply runs_mono; [by apply (runs_steady _ d1 d1 (steady_poll q stages))|]. intros o d2 [Hend2 Ht2].
  assert (later d0 d2) as L2 by by etrans. pose proof (later_time _ _ Ht2) as T2.
  destruct o as [[[]| |]| |]; try (by split); try done. { apply runs_steady; [steady|done]. }
  apply runs_bind. unfold runs at 1. cbn [instant fst snd].
  destruct (N.leb_spec (rc_timeout cfg) (dr_time d2 - started)) as [|Hlt]; [apply runs_steady; [steady|done]|].
  apply runs_bind. unfold runs at 1. destruct (steady_sleep (rc_poll_interval cfg) d2) as [Hend3 Ht3].
  pose proof (sleep_lasts (rc_poll_interval cfg) d2) as Hlast. destruct (sleep _ _ d2) as [o d3]. cbn [fst snd] in *.
  assert (later d0 d3) as L3 by by etrans.
  destruct o as [[[]| |]| |]; try (by split); try done. { apply runs_steady; [steady|done]. }
  specialize (Hlast d3 eq_refl). pose proof (later_time _ _ Ht3) as T3.
  apply IH; [|done|lia|].
  - intros ->. simpl in Hf. lia.
  - destruct fuel as [|fuel]; [simpl in Hf; lia|]. rewrite !Nat.sub_succ, !Nat.sub_0_r in *.
    rewrite Nat2N.inj_succ, N.mul_succ_l in Hf. lia.
Qed.

Lemma poll_rounds_enough cfg : (0 < rc_poll_interval cfg)%N →
  (rc_timeout cfg ≤ N.of_nat (poll_rounds cfg - 1) * rc_poll_interval cfg)%N.
Proof.
  intros Hi. unfold poll_rounds. set (k := (rc_timeout cfg / rc_poll_interval cfg)%N).
  replace (N.of_nat (N.to_nat k + 2 - 1)) with (k + 1)%N by lia.
  pose proof (N.mod_lt (rc_timeout cfg) (rc_poll_interval cfg)). pose proof (N.div_mod' (rc_timeout cfg) (rc_poll_interval cfg)) as Hd.
  fold k in Hd. lia.
Qed.

Lemma once_ends cfg stages final d : (0 < rc_poll_interval cfg)%N →
  runs (execute_graph_once moments cfg stages final) (ended d) d.
Proof.
  intros Hi. unfold execute_graph_once. apply runs_bind. eapply runs_mono; [by apply (runs_steady _ d d steady_cancelled)|].
  intros o d1 [Hend Ht1]. destruct o as [[[]| |]| |]; try (by split); try done.
  apply runs_bind. unfold runs at 1, lift. cbn [fst snd]. destruct (check_graph stages final) as [q| |]; try (by split).
  apply runs_bind. eapply runs_mono; [by apply (runs_steady _ d d1); [apply steady_moment|]|]. intros o d2 [? Ht2].
  destruct o as [[[]| |]| |]; try (by split); try done.
  apply runs_bind. eapply runs_mono; [by apply (runs_steady _ d d2 (steady_submit stages))|]. intros o d3 [? Ht3].
  destruct o as [[[]| |]| |]; try (by split); try done.
  apply runs_bind. unfold runs at 1. cbn [instant fst snd].
  apply poll_graph_ends; [done|unfold poll_rounds; rewrite Nat.add_comm; done|done|lia|]. pose proof (poll_rounds_enough cfg Hi). lia.
Qed.

Lemma steady_once cfg stages final : (0 < rc_poll_interval cfg)%N → steady (execute_graph_once moments cfg stages final).
Proof. intros Hi d. by apply once_ends. Qed.

(** ** Cleaning up does not panic *)

Definition calm {A} (p : prog S A) : Prop := ∀ d why, (p d).1 ≠ Returns (Panic why).

Lemma calm_bind {A B} (p : prog S A) (f : A → prog S B) : calm p → (∀ a, calm (f a)) → calm (p ≫= f).
Proof.
  intros Hp Hf d why. unfold mbind, prog_bind. specialize (Hp d). destruct (p d) as [[[a|e|why']|e|] d1]; try done.
  - apply Hf.
  - by destruct (Hp why').
Qed.
Lemma calm_settle {A} (p : prog S A) : calm p → calm (awaited p).
Proof. intros Hp d why. unfold awaited. specialize (Hp d). destruct (p d) as [[[a|e|why']|e|] d1]; try done. by destruct (Hp why'). Qed.
Lemma calm_moment {A} (f : Moment S → World S → result A * World S) :
  (∀ m w, no_panic (f m w).1) → calm (moment moments f).
Proof.
  intros Hf d why. unfold moment, await. specialize (Hf (moments (dr_moment d)) (mo_others (moments (dr_moment d)) (dr_world d))).
  destruct (f _ _) as [r w]. destruct (cut_by _ _ _); [done|]. simpl in *. intros [= ->]. done.
Qed.

Lemma control_call_no_panic {A B} `{Json A, Json B} dl now action (f : A → ControlPlane → result B * ControlPlane)
    (request : A) cp :
  served now action f → no_panic (control_call dl now action request cp).1.
Proof.
  intros Hf. destruct (control_call_carried now dl action f request cp Hf) as (ch & -> & _).
  destruct ch; [|done]. cbn [carried fst]. by destruct (f request cp).1.
Qed.

Lemma CoordinatorMessage_validate_no_panic m : no_panic (CoordinatorMessage_validate m).
Proof.
  destruct m as [v stage task lease blocks|v q r]; [|apply CancelQuery_validate_no_panic]. cbn [CoordinatorMessage_validate].
  assert (∀ (r k : result unit), no_panic r → no_panic k → no_panic (_ ← r; k)) as Hbind by (intros [] ? ??; done).
  apply Hbind; [apply validate_version_no_panic|]. apply Hbind; [apply StagePlan_validate_no_panic|].
  apply Hbind; [apply TaskAttemptId_validate_for_no_panic|]. apply Hbind.
  - unfold TaskLease_validate. apply Hbind; [apply validate_text_id_no_panic|]. by case_match.
  - apply for_each_no_panic. intros b _. unfold validate_input_block. apply Hbind; [apply ShuffleBlock_validate_no_panic|].
    by repeat (case_decide || case_match).
Qed.

(** A program that ignores its errors. *)
Definition lenient {A} (p : prog S A) : Prop := ∀ d r, (p d).1 = Returns r → ∃ a, r = Ok a.

Lemma lenient_ret {A} (a : A) : lenient (mret a).
Proof. intros d r [= <-]. eauto. Qed.
Lemma lenient_settle {A} (p : prog S A) : calm p → lenient (awaited p).
Proof. intros Hp d r. unfold awaited. specialize (Hp d). destruct (p d) as [[[a|e|why]|e|] d1]; intros [= <-]; eauto. by destruct (Hp why). Qed.
Lemma lenient_bind {A B} (p : prog S A) (f : A → prog S B) : lenient p → (∀ a, lenient (f a)) → lenient (p ≫= f).
Proof.
  intros Hp Hf d r. unfold mbind, prog_bind. specialize (Hp d). destruct (p d) as [[r1|e|] d1]; try done.
  destruct (Hp r1 eq_refl) as [a ->]. apply Hf.
Qed.

Lemma lenient_within {A} scope (p : prog S A) : lenient p → lenient (within scope p).
Proof. intros Hp d r. unfold within. destruct (p (with_scope scope d)) as [o d1] eqn:E. cbn. intros ->. apply (Hp (with_scope scope d)). by rewrite E. Qed.
Lemma lenient_briefly (p : prog S unit) : lenient p → lenient (briefly p).
Proof.
  intros Hp d r. unfold briefly. case_match; [|apply Hp]. pose proof (lenient_within (InCleanup (dr_time d + 200)) p Hp d) as Hl.
  destruct (within _ p d) as [[r'|e|] d1]; intros [= <-]; eauto.
Qed.

Lemma lenient_cancel q why : lenient (cancel_by_driver moments q why).
Proof.
  unfold cancel_by_driver. apply lenient_bind; [|intros _; apply lenient_ret]. apply lenient_settle, calm_moment. intros m w.
  pose proof (control_call_no_panic (mo_delivery m) (mo_server_time m) ACTION_CANCEL_QUERY cancel_action
    (MkCancelQueryRequest q why) (w_control w) (served_cancel _)) as Hn. unfold client_cancel_query.
  destruct (control_call _ _ _ _ _) as [[msg|e|]cp]; [|done..]. simpl.
  pose proof (CoordinatorMessage_validate_no_panic msg). by destruct (CoordinatorMessage_validate msg).
Qed.

Lemma delete_block_no_panic dl endpoint block (s : S) : no_panic (delete_block dl endpoint block s).1.
Proof.
  unfold delete_block, flight_location. destruct (sb_location block); try done. case_decide; [|done].
  destruct (answer _ _ _ _ _) as [r s'] eqn:Ea. assert (no_panic r) as Hr.
  { revert Ea. unfold answer. destruct dl; [|by intros [= <- <-]]. destruct (do_action _ _ _) as [[]?]; by intros [= <- <-]. }
  destruct r as [results| |]; [|done..]. simpl. by destruct results.
Qed.

Lemma lenient_discard_blocks blocks : lenient (discard_blocks moments blocks).
Proof.
  induction blocks as [|b blocks IH]; [apply lenient_ret|]. cbn. apply lenient_bind; [|done].
  destruct (flight_endpoint b) as [endpoint| |]; [|apply lenient_ret..].
  apply lenient_briefly, lenient_bind; [|intros _; apply lenient_ret]. apply lenient_settle, calm_bind.
  - apply calm_moment. intros m w. by destruct (mo_connect_error m).
  - intros _. apply calm_moment. intros m w. pose proof (delete_block_no_panic (mo_delivery m) endpoint b (w_stores w endpoint)) as Hn.
    by destruct (delete_block _ _ _ _).
Qed.

Lemma lenient_discard_stages q stages : lenient (discard_stages moments q stages).
Proof.
  induction stages as [|stage stages IH]; [apply lenient_ret|]. cbn. apply lenient_bind.
  - apply lenient_settle, calm_moment. intros m w.
    pose proof (control_call_no_panic (mo_delivery m) (mo_server_time m) ACTION_STAGE_OUTPUT_BLOCKS output_blocks_action
      (MkStageOutputBlocksRequest q (sp_stage_id stage)) (w_control w) (served_blocks _)) as Hn.
    unfold client_stage_output_blocks. by destruct (control_call _ _ _ _ _).
  - intros r. apply lenient_bind; [|done]. destruct r; [apply lenient_discard_blocks|apply lenient_ret..].
Qed.

Lemma lenient_stop_query first stages : lenient (stop_query moments first stages).
Proof.
  unfold stop_query. apply lenient_bind; [apply lenient_settle, calm_moment; intros m w; by destruct (mo_connect_error m)|].
  intros r. destruct r; [apply lenient_bind; [apply lenient_cancel|intros _; apply lenient_discard_stages]|apply lenient_ret..].
Qed.

Lemma cleanup_returns stages d : ∃ d', cancel_and_cleanup moments stages d = (Returns (Ok tt), d').
Proof.
  unfold cancel_and_cleanup. destruct (head stages) as [first|]; [|by eexists].
  pose proof (steady_within (InCleanup (dr_time d + 2000)) _ d (steady_stop_query first stages)) as Hw.
  pose proof (lenient_within (InCleanup (dr_time d + 2000)) _ (lenient_stop_query first stages) d) as Hl.
  destruct (within _ _ d) as [[r|e|] d1]; [|by eexists|by destruct Hw]. destruct (Hl r eq_refl) as [[] ->]. by eexists.
Qed.

(** ** Identities of retries *)

Lemma append_cons x (a b : string) : String x a +:+ b = String x (a +:+ b).
Proof. done. Qed.

Definition no_dash (s : string) : Prop := ∀ s1 s2, s ≠ s1 +:+ "-" +:+ s2.

Lemma no_dash_cons a s : String a EmptyString ≠ "-" → no_dash s → no_dash (String a s).
Proof. intros Ha Hs [|b s1] s2; cbn; [by intros [= ->]|]. intros [= -> E]. by destruct (Hs s1 s2). Qed.

Lemma no_dash_digits x s : no_dash s → no_dash (pretty_N_go x s).
Proof.
  revert s. induction (N.lt_wf_0 x) as [x _ IH]; intros s Hs. destruct (decide (0 < x)%N) as [Hx|]; [|replace x with 0%N by lia; by rewrite pretty_N_go_0].
  rewrite pretty_N_go_step by done. apply IH; [by apply N.div_lt|]. apply no_dash_cons; [|done].
  unfold pretty_N_char. by repeat case_match.
Qed.

Lemma no_dash_pretty (n : N) : no_dash (pretty n).
Proof.
  assert (no_dash EmptyString) by by intros [] ?.
  unfold pretty, pretty_N. case_decide; [by apply no_dash_cons|by apply no_dash_digits].
Qed.

Lemma append_assoc (a b c : string) : (a +:+ b) +:+ c = a +:+ b +:+ c.
Proof. induction a as [|x a IH]; [done|]. change (String x ((a +:+ b) +:+ c) = String x (a +:+ b +:+ c)). by rewrite IH. Qed.

Lemma last_part_inj (a b c c' : string) : no_dash c → no_dash c' → a +:+ "-" +:+ c = b +:+ "-" +:+ c' → c = c'.
Proof.
  intros Hc Hd. revert b. induction a as [|x a IH]; intros [|y b]; rewrite ?append_cons.
  - intros E. by injection E.
  - intros E. injection E as _ E. by destruct (Hc b c').
  - intros E. injection E as _ E. by destruct (Hd a c).
  - intros E. injection E as _ E. by apply (IH b).
Qed.

(** The [sequence]-th identity the process has drawn. *)
Definition identity_number (process : N) (q : QueryId) (sequence : N) : Prop :=
  ∃ timestamp : N, query_text q = "recovery-" +:+ pretty process +:+ "-" +:+ pretty timestamp +:+ "-" +:+ pretty (sequence mod 2 ^ 64)%N.

Lemma identity_number_inj process q s s' :
  (s < 2 ^ 64)%N → (s' < 2 ^ 64)%N → identity_number process q s → identity_number process q s' → s = s'.
Proof.
  intros Hs Hs' [t Ht] [t' Ht']. rewrite Ht in Ht'. rewrite !N.mod_small in Ht' by done.
  apply (inj pretty).
  apply (last_part_inj ("recovery-" +:+ pretty process +:+ "-" +:+ pretty t) ("recovery-" +:+ pretty process +:+ "-" +:+ pretty t'));
    [apply no_dash_pretty..|]. by rewrite !append_assoc.
Qed.

Lemma new_identity_number process d q d' : new_identity moments process d = (Returns (Ok q), d') →
  identity_number process q (dr_sequence d' - 1) ∧ (dr_sequence d < dr_sequence d')%N ∧ dr_time d' = dr_time d.
Proof.
  unfold new_identity. destruct (mo_clock _) as [e|t]; [done|]. intros [= Hq <-]. cbn [dr_sequence dr_time].
  split_and!; [|lia|done]. exists t. apply bind_ok in Hq as (? & _ & [= <-]). cbn. by rewrite N.add_sub.
Qed.

(** ** Retries *)

(** A run of the query with this deadline. *)
Definition run_once (cfg : RemoteStageConfig) (deadline : N) (stages : list StagePlan) (final : StageId)
    : prog S RemoteStageResult :=
  within (InRun deadline) (execute_graph_once moments cfg stages final).

(** After failures under all but the last of these identities (the last is the first of
    the list), the query is run again with these stages: every run before failed in a way
    that another run may mend, was cancelled and cleaned up before the deadline, and
    nobody had cancelled. *)
Inductive started_run (cfg : RemoteStageConfig) (process : N) (final : StageId)
    (stages0 : list StagePlan) (d0 : Driver S) : list QueryId → list StagePlan → Driver S → Prop :=
| first_run : started_run cfg process final stages0 d0 [] stages0 d0
| next_run qs stages d o e d1 d2 q d3 :
    started_run cfg process final stages0 d0 qs stages d →
    run_once cfg (dr_time d0 + rc_timeout cfg) stages final d = (o, d1) → selected o = Returns (Err e) → recoverable e = true →
    cancel_and_cleanup moments stages d1 = (Returns (Ok tt), d2) → (dr_time d2 < dr_time d0 + rc_timeout cfg)%N →
    (is_cancelled moments d2).1 = Returns (Ok false) →
    new_identity moments process (is_cancelled moments d2).2 = (Returns (Ok q), d3) →
    started_run cfg process final stages0 d0 (q :: qs) (with_query q <$> stages) d3.

(** What the last run makes of the query: its result, or its error once it is cleaned up
    and there is a reason not to try again; that no identity can be drawn is an error of
    its own. *)
Definition last_outcome (cfg : RemoteStageConfig) (process deadline : N) (n : N) (stages : list StagePlan)
    (o : outcome RemoteStageResult) (d2 : Driver S) (r : result RemoteStageResult) (d' : Driver S) : Prop :=
  match selected o with
  | Returns (Ok output) => r = Ok (with_recovery n output) ∧ d' = d2
  | Returns (Err e) => ∃ d3, cancel_and_cleanup moments stages d2 = (Returns (Ok tt), d3) ∧
      let d4 := (is_cancelled moments d3).2 in
      (r = Err e ∧ d' = d4 ∧
        (n = rc_max_query_retries cfg ∨ (deadline ≤ dr_time d3)%N ∨ (is_cancelled moments d3).1 = Returns (Ok true) ∨
         recoverable e = false))
      ∨ (recoverable e = true ∧ (n < rc_max_query_retries cfg)%N ∧
         match new_identity moments process d4 with
         | (Returns (Err e'), d5) => r = Err e' ∧ d' = d5
         | (Returns (Panic why), d5) => r = Panic why ∧ d' = d5
         | _ => False
         end)
  | Returns (Panic why) => r = Panic why ∧ d' = d2
  | _ => False
  end.

Lemma validate_positive cfg : RemoteStageConfig_validate cfg = Ok tt → (0 < rc_poll_interval cfg)%N ∧ (0 < rc_timeout cfg)%N.
Proof.
  unfold RemoteStageConfig_validate. case_match; [done|]. destruct (N.eqb_spec (rc_poll_interval cfg) 0); [done|].
  destruct (N.eqb_spec (rc_timeout cfg) 0); [done|]. lia.
Qed.

(** A run is over at the deadline. *)
Lemma run_once_ends cfg deadline stages final d o d' :
  (0 < rc_poll_interval cfg)%N → (dr_time d ≤ deadline)%N → run_once cfg deadline stages final d = (o, d') →
  o ≠ OutOfFuel ∧ (dr_time d' ≤ deadline)%N ∧ (dr_sequence d ≤ dr_sequence d')%N.
Proof.
  intros Hi Hd Ho. pose proof (steady_within (InRun deadline) _ d (steady_once cfg stages final Hi)) as Hw.
  unfold run_once in Ho. rewrite Ho in Hw. destruct Hw as (? & _ & _ & ? & Hl). split_and!; [done| |done]. by apply Hl.
Qed.

(** The runs begin before the deadline, under identities that are numbered. *)
Lemma started_run_fresh cfg process final stages0 d0 qs stages d :
  (0 < rc_poll_interval cfg)%N → started_run cfg process final stages0 d0 qs stages d →
  (dr_time d ≤ dr_time d0 + rc_timeout cfg)%N ∧ (dr_sequence d0 ≤ dr_sequence d)%N ∧
  (∀ q, q ∈ qs → ∃ s, (s < dr_sequence d)%N ∧ identity_number process q s) ∧
  ((dr_sequence d ≤ 2 ^ 64)%N → NoDup qs).
Proof.
  intros Hi. induction 1 as [|qs stages d o e d1 d2 q d3 Hrun (Ht & Hs & Hq & Hnd) Ho _ _ Hc Hdl _ Hid].
  { split_and!; [lia|lia|set_solver|constructor]. }
  destruct (run_once_ends _ _ _ _ _ _ _ Hi Ht Ho) as (_ & _ & Hs1). pose proof (steady_cleanup_within stages d1) as Hw.
  rewrite Hc in Hw. destruct Hw as (_ & _ & _ & Hs2). apply new_identity_number in Hid as (Hnum & Hs3 & Ht3).
  cbn [is_cancelled snd dr_sequence dr_time] in Hs3, Ht3. split_and!; [lia|lia| |].
  - intros q' [->|Hin]%elem_of_cons; [exists (dr_sequence d3 - 1)%N; split; [lia|done]|].
    destruct (Hq _ Hin) as (s & ? & ?). exists s. split; [lia|done].
  - intros Hlim. constructor; [|apply Hnd; lia]. intros Hin. destruct (Hq _ Hin) as (s & Hlt & Hn').
    assert (s = dr_sequence d3 - 1)%N by (apply (identity_number_inj process q); [lia|lia|done..]). lia.
Qed.

(** The cleanup of the last run takes at most two seconds. *)
Lemma last_outcome_time cfg process deadline n stages o d2 r d' :
  last_outcome cfg process deadline n stages o d2 r d' → (dr_time d' ≤ dr_time d2 + 2000)%N.
Proof.
  unfold last_outcome. destruct (selected o) as [[output|e|why]|e|]; [|..|done|done].
  1,3: intros [_ ->]; lia.
  intros (d3 & Hc & Hr). pose proof (steady_cleanup_within stages d2) as Hw. rewrite Hc in Hw. destruct Hw as (_ & [_ Hw] & _).
  destruct Hr as [(_ & -> & _)|(_ & _ & Hr)]; [done|].
  assert (dr_time (new_identity moments process (is_cancelled moments d3).2).2 = dr_time d3) as Et by done.
  destruct (new_identity _ _ _) as [[[]| |] d5]; try done; destruct Hr as [_ ->]; cbn in Et; lia.
Qed.

Lemma last_outcome_ok cfg process deadline n stages o d2 out d' :
  last_outcome cfg process deadline n stages o d2 (Ok out) d' →
  ∃ output, o = Returns (Ok output) ∧ Ok out = Ok (with_recovery n output) ∧ d' = d2.
Proof.
  unfold last_outcome. destruct o as [[output|e|why]|e|]; cbn [selected]; [intros [? ?]; eauto|..|done].
  2: by intros [? ?].
  all: intros (d3 & _ & [(? & _)|(_ & _ & Hr)]); [done|]; by destruct (new_identity _ _ _) as [[[]| |] d5]; try destruct Hr.
Qed.

(** A query that ends after the run under the first of these identities. *)
Definition concluded (cfg : RemoteStageConfig) (process : N) (final : StageId) (stages0 : list StagePlan) (d0 : Driver S)
    (r : result RemoteStageResult) (d' : Driver S) : Prop :=
  let deadline := (dr_time d0 + rc_timeout cfg)%N in
  ∃ qs stages d1 o d2, started_run cfg process final stages0 d0 qs stages d1 ∧
    (N.of_nat (length qs) ≤ rc_max_query_retries cfg)%N ∧ run_once cfg deadline stages final d1 = (o, d2) ∧
    last_outcome cfg process deadline (N.of_nat (length qs)) stages o d2 r d'.

(** The end of a run that failed: the error, or the next run. *)
Lemma run_attempts_spec cfg process final stages0 d0 k qs stages d :
  (0 < rc_poll_interval cfg)%N → length qs + k = N.to_nat (rc_max_query_retries cfg) + 1 → k ≠ 0 →
  started_run cfg process final stages0 d0 qs stages d →
  ∃ r d', run_attempts moments cfg process (dr_time d0 + rc_timeout cfg) final (N.of_nat <$> seq (length qs) k) stages d = (Returns r, d') ∧
    concluded cfg process final stages0 d0 r d'.
Proof.
  intros Hi. revert qs stages d. induction k as [|k IH]; intros qs stages d Hk Hne Hrun; [done|]. clear Hne.
  pose proof (started_run_fresh _ _ _ _ _ _ _ _ Hi Hrun) as (Ht & _).
  cbn [seq fmap list_fmap run_attempts]. destruct (within (InRun _) _ d) as [o d1] eqn:Eo.
  destruct (run_once_ends _ _ _ _ _ _ _ Hi Ht Eo) as (Hend & _).
  assert (∀ r d', last_outcome cfg process (dr_time d0 + rc_timeout cfg) (N.of_nat (length qs)) stages o d1 r d' →
    concluded cfg process final stages0 d0 r d') as Hlast.
  { intros r d' Hr. exists qs, stages, d, o, d1. split_and!; [done|lia|done|done]. }
  unfold last_outcome in Hlast. destruct (selected o) as [[output|e|why]|e|] eqn:Es; [| | |by destruct o|by destruct o].
  1,3: eexists _, _; (split; [done|]); by apply Hlast.
  destruct (cleanup_returns stages d1) as [d2 Ec]. rewrite (bind_returns _ _ _ _ _ Ec).
  rewrite (bind_returns instant _ d2 (dr_time d2) d2) by done. rewrite (bind_returns (is_cancelled moments) _ d2 _ _ eq_refl).
  specialize (λ r d' Hr, Hlast r d' (ex_intro _ d2 (conj Ec Hr))). cbn [is_cancelled fst snd] in Hlast.
  destruct (N.eqb_spec (N.of_nat (length qs)) (rc_max_query_retries cfg)) as [|Hn]; cbn [orb].
  { eexists _, _. split; [done|]. apply Hlast. left. split_and!; auto. }
  destruct (N.leb_spec (dr_time d0 + rc_timeout cfg) (dr_time d2)) as [|Hdead]; cbn [orb].
  { eexists _, _. split; [done|]. apply Hlast. left. split_and!; auto. }
  destruct (mo_cancelled _) eqn:Ecan; cbn [orb]. { eexists _, _. split; [done|]. apply Hlast. left. split_and!; auto. }
  destruct (recoverable e) eqn:Er; cbn [negb]; [|eexists _, _; split; [done|]; apply Hlast; left; split_and!; auto].
  change (MkDriver _ _ _ _ _) with (is_cancelled moments d2).2 in *.
  destruct (new_identity moments process (is_cancelled moments d2).2) as [[[q|e'|why]|e'|] d3] eqn:Eq; [|..|done|done].
  2,3: unfold mbind at 1, prog_bind at 1; rewrite Eq; eexists _, _; (split; [done|]); apply Hlast; right; split_and!; [done|lia|done..].
  rewrite (bind_returns _ _ _ _ _ Eq). apply (IH (q :: qs)); [cbn; lia|cbn; lia|].
  eapply (next_run cfg process final stages0 d0 qs stages d o e d1 d2 q d3); try done. cbn. by rewrite Ecan.
Qed.

(** C24: a remote query comes to an end.  For any behaviour of the network, the
    coordinator and the workers, and however long each call takes, it returns at the
    latest two seconds (the cleanup) after its timeout.  It runs its graph at most
    [max_query_retries + 1] times; the runs together are over when the timeout is, the one
    that is then going on being cut off.  A run is repeated only after an error that
    another run may mend, once the failed one is cancelled and cleaned up, before the
    deadline and unless cancelled, and under a new query identity: a "recovery-" text with
    the value of a process-wide counter, different from those of the other retries as long
    as the process has drawn at most 2^64 of them.  What the query returns is the result of the
    last run, or its error once there is a reason not to try again. *)
Theorem remote_query_ends cfg process graph final d :
  RemoteStageConfig_validate cfg = Ok tt →
  let deadline := (dr_time d + rc_timeout cfg)%N in
  ∃ r d', execute_graph moments cfg process graph final d = (Returns r, d') ∧ (dr_time d' ≤ deadline + 2000)%N ∧
    ∃ qs graph' d1 o d2, started_run cfg process final graph d qs graph' d1 ∧
      (N.of_nat (length qs) ≤ rc_max_query_retries cfg)%N ∧
      (∀ q, q ∈ qs → ∃ s, (s < dr_sequence d1)%N ∧ identity_number process q s) ∧
      ((dr_sequence d1 ≤ 2 ^ 64)%N → NoDup qs) ∧
      run_once cfg deadline graph' final d1 = (o, d2) ∧ (dr_time d2 ≤ deadline)%N ∧
      last_outcome cfg process deadline (N.of_nat (length qs)) graph' o d2 r d'.
Proof.
  intros [Hi Htm]%validate_positive. cbn zeta. unfold execute_graph. rewrite (bind_returns instant _ d (dr_time d) d) by done.
  destruct (run_attempts_spec cfg process final graph d (N.to_nat (rc_max_query_retries cfg) + 1) [] graph d)
    as (r & d' & Hx & qs & graph' & d1 & o & d2 & Hrun & Hn & Ho & Hlast); [done|done|lia|constructor|].
  destruct (started_run_fresh _ _ _ _ _ _ _ _ Hi Hrun) as (Ht & _ & Hq & Hnd).
  destruct (run_once_ends _ _ _ _ _ _ _ Hi Ht Ho) as (_ & Ht2 & _).
  exists r, d'. split_and!; [done| |by exists qs, graph', d1, o, d2]. pose proof (last_outcome_time _ _ _ _ _ _ _ _ _ Hlast). lia.
Qed.
End driver.
