(* ===== verification/RemoteResult.v ===== *)
(** * The output a remote query returns

    A run of the graph that returns has seen every stage succeed, and what it returns is
    the committed output of the final stage: success is for good, so the blocks it was
    told are those the coordinator has when it is done. *)
From S2P Require Import Prelude Text Protocol Coordinator CoordinatorClock CoordinatorInv CoordinatorSpec CoordinatorSteps CoordinatorAssign CoordinatorRun CoordinatorDemo Memory BlockStore BlockStoreProps Execution Wire DataPlane DataPlaneProps ControlPlane ControlPlaneProps Remote RemoteProps.

(** A graph that was checked is of one query. *)
Lemma check_stages_queries `{PlanFragments} q seen graph ids : check_stages q seen graph = Ok ids →
  Forall (λ s, sp_query_id s = q) graph ∧ ids = list_to_set (sp_stage_id <$> graph) ∪ seen.
Proof.
  revert seen. induction graph as [|s graph IH]; intros seen; cbn [check_stages].
  { intros [= <-]. split; [constructor|set_solver]. }
  intros ([] & _ & Hr)%bind_ok. case_decide as Hq; [|done]. destruct (existsb _ _); [done|]. case_decide; [done|].
  apply IH in Hr as [Hall ->]. split; [by constructor|]. rewrite fmap_cons. set_solver.
Qed.

Section result.
Context `{PlanFragments, ControlJson, DurationDebug, BlockCodec, !FlightTransport, !Json BlockTicket, !Json UploadAck}.
Context {S : Type} `{!BlockStorage S} `{EqDecision Schema} (moments : nat → Moment S).
Implicit Types (d : Driver S) (cp : ControlPlane).

Definition world_coordinator (w : World S) : Coordinator := cp_coordinator (w_control w).
Definition coordinator_of (d : Driver S) : Coordinator := world_coordinator (dr_world d).

(** What the others do to the coordinator are its own transitions. *)
Definition others_behave : Prop :=
  ∀ n w, wf (world_coordinator w) → good_step (world_coordinator w) (world_coordinator (mo_others (moments n) w)).
Context (Hothers : others_behave).

(** ** The coordinator under a program *)

Definition tame {A} (p : prog S A) : Prop :=
  ∀ d, wf (coordinator_of d) → good_step (coordinator_of d) (coordinator_of (p d).2).

Lemma tame_lift {A} (r : result A) : tame (lift r).
Proof. intros d Hd. by apply good_step_refl. Qed.
Lemma tame_ret {A} (a : A) : tame (mret a).
Proof. intros d Hd. by apply good_step_refl. Qed.
Lemma tame_instant : tame instant.
Proof. intros d Hd. by apply good_step_refl. Qed.

Lemma tame_bind {A B} (p : prog S A) (f : A → prog S B) : tame p → (∀ a, tame (f a)) → tame (p ≫= f).
Proof.
  intros Hp Hf d Hd. unfold mbind, prog_bind. specialize (Hp d Hd). destruct (p d) as [[[a|e|why]|e|] d1]; simpl in *; try done.
  eapply good_step_trans; [done|]. apply Hf, Hp.
Qed.
Lemma tame_settle {A} (p : prog S A) : tame p → tame (awaited p).
Proof. intros Hp d Hd. unfold awaited. specialize (Hp d Hd). by destruct (p d) as [[[a|e|why]|e|] d1]. Qed.

Lemma tame_await {A} len (f : Moment S → World S → result A * World S) :
  (∀ m w, wf (world_coordinator w) → good_step (world_coordinator w) (world_coordinator (f m w).2)) → tame (await moments len f).
Proof.
  intros Hf d Hd. unfold await. pose proof (Hothers (dr_moment d) (dr_world d) Hd) as Ho.
  specialize (Hf (moments (dr_moment d)) _ (gs_wf _ _ Ho)). destruct (f _ _) as [r w]. simpl in Hf.
  destruct (cut_by _ _ _); by eapply good_step_trans.
Qed.
Lemma tame_moment {A} (f : Moment S → World S → result A * World S) :
  (∀ m w, wf (world_coordinator w) → good_step (world_coordinator w) (world_coordinator (f m w).2)) → tame (moment moments f).
Proof. apply tame_await. Qed.
Lemma tame_within {A} scope (p : prog S A) : tame p → tame (within scope p).
Proof. intros Hp d Hd. unfold within. specialize (Hp (with_scope scope d) Hd). by destruct (p (with_scope scope d)). Qed.
Lemma tame_briefly (p : prog S unit) : tame p → tame (briefly p).
Proof.
  intros Hp d Hd. unfold briefly. case_match; [|by apply Hp]. pose proof (tame_within (InCleanup (dr_time d + 200)) p Hp d Hd) as Hg.
  by destruct (within _ p d) as [[r|e|] d1].
Qed.

Lemma tame_cancelled : tame (is_cancelled moments).
Proof. intros d Hd. by apply Hothers. Qed.
Lemma tame_sleep n : tame (sleep moments n).
Proof. apply tame_await. intros m w Hw. by apply good_step_refl. Qed.
Lemma tame_identity process : tame (new_identity moments process).
Proof. intros d Hd. by apply Hothers. Qed.
Lemma tame_connect : tame (connect moments).
Proof. apply tame_moment. intros m w Hw. by apply good_step_refl. Qed.
Lemma tame_download e b : tame (download_from moments e b).
Proof. apply tame_moment. intros m w Hw. by apply good_step_refl. Qed.
Lemma tame_delete e b : tame (delete_from moments e b).
Proof. apply tame_moment. intros m w Hw. destruct (delete_block _ _ _ _). by apply good_step_refl. Qed.

(** ** Calls of the control plane *)

Lemma control_call_run {A B} `{Json A, Json B} dl now action (f : A → ControlPlane → result B * ControlPlane) (request : A) cp r cp' :
  served now action f → control_call dl now action request cp = (r, cp') →
  (cp' = cp ∨ cp' = (f request cp).2) ∧ ∀ b, r = Ok b → f request cp = (Ok b, cp').
Proof.
  intros Hf. destruct (control_call_carried now dl action f request cp Hf) as (ch & -> & _).
  destruct (f request cp) as [r0 cp0]. destruct ch as [|executed e]; cbn [carried fst snd].
  - intros [= <- <-]. split; [by right|]. intros b. by destruct r0; [intros [= <-]|..].
  - intros [= <- <-]. split; [|done]. destruct executed; auto.
Qed.

Definition tame_call {A} (f : Delivery → N → ControlPlane → result A * ControlPlane) : Prop :=
  ∀ dl now cp, wf (cp_coordinator cp) → good_step (cp_coordinator cp) (cp_coordinator (f dl now cp).2).

Lemma tame_control {A} (f : Delivery → N → ControlPlane → result A * ControlPlane) : tame_call f → tame (control moments f).
Proof. intros Hf. apply tame_moment. intros m w Hw. specialize (Hf (mo_delivery m) (mo_server_time m) _ Hw). by destruct (f _ _ _). Qed.

Lemma tame_served {A B} `{Json A, Json B} dl now action (f : A → ControlPlane → result B * ControlPlane) (request : A) cp :
  served now action f → wf (cp_coordinator cp) → good_step (cp_coordinator cp) (cp_coordinator (f request cp).2) →
  good_step (cp_coordinator cp) (cp_coordinator (control_call (B:=B) dl now action request cp).2).
Proof.
  intros Hf Hw Hg. destruct (control_call (B:=B) dl now action request cp) as [r cp'] eqn:E.
  destruct (control_call_run _ _ _ _ _ _ _ _ Hf E) as [[->| ->] _]; [by apply good_step_refl|done].
Qed.

Lemma call_snd {A B} (x : result A * ControlPlane) (f : A → result B) :
  (call a, cp := x in (f a, cp)).2 = x.2.
Proof. by destruct x as [[] ?]. Qed.

Lemma tame_submit_call stage : tame_call (λ dl now, client_submit_stage dl now stage).
Proof.
  intros dl now cp Hw. unfold client_submit_stage. rewrite call_snd. apply (tame_served _ _ _ submit_action); [constructor|done|].
  unfold submit_action, on_coordinator. destruct (submit_stage stage (cp_coordinator cp)) as [r c] eqn:E.
  by apply (submit_stage_step _ _ _ _ Hw E).
Qed.
Lemma tame_status_call q s : tame_call (λ dl now, client_stage_status dl now q s).
Proof. intros dl now cp Hw. apply (tame_served _ _ _ stage_status_action); [constructor|done|by apply good_step_refl]. Qed.
Lemma tame_partition_call q s i : tame_call (λ dl now, client_partition_status dl now q s i).
Proof. intros dl now cp Hw. apply (tame_served _ _ _ partition_status_action); [constructor|done|by apply good_step_refl]. Qed.
Lemma tame_blocks_call q s : tame_call (λ dl now, client_stage_output_blocks dl now q s).
Proof. intros dl now cp Hw. apply (tame_served _ _ _ output_blocks_action); [constructor|done|by apply good_step_refl]. Qed.
Lemma tame_cancel_call q why : tame_call (λ dl now, client_cancel_query dl now q why).
Proof.
  intros dl now cp Hw. unfold client_cancel_query. rewrite call_snd. apply (tame_served _ _ _ cancel_action); [constructor|done|].
  unfold cancel_action, on_coordinator, cancel_coordinator. cbn [cqr_query_id cqr_reason].
  destruct (active_workers_for_query (cp_coordinator cp) q); [|by apply good_step_refl..].
  destruct (cancel_query q why (cp_coordinator cp)) as [r c] eqn:E. pose proof (cancel_query_step _ _ _ _ _ Hw E) as (Hg & _).
  by destruct r.
Qed.

Ltac tame := repeat first
  [ apply tame_bind; [|intros ?] | apply tame_settle | apply tame_lift | apply tame_ret | apply tame_instant
  | apply tame_cancelled | apply tame_sleep | apply tame_connect | apply tame_download | apply tame_delete
  | apply tame_control; first [apply tame_submit_call | apply tame_status_call | apply tame_partition_call
                              | apply tame_blocks_call | apply tame_cancel_call]
  | match goal with IH : _ |- _ => apply IH end | case_match ].

Lemma tame_submit stages : tame (submit_stages moments stages).
Proof. induction stages; cbn [submit_stages]; tame. Qed.
Lemma tame_failed q s ps : tame (failed_partitions moments q s ps).
Proof. induction ps; cbn [failed_partitions]; tame. Qed.
Lemma tame_details q s n : tame (failed_partition_details moments q s n).
Proof. unfold failed_partition_details. apply tame_bind; [apply tame_failed|]. tame. Qed.
Lemma tame_poll q stages : tame (poll_stages moments q stages).
Proof. induction stages; cbn [poll_stages]; [tame|]. apply tame_bind; [tame|]. intros []; tame; apply tame_failed. Qed.
Lemma tame_collect q f stages o i : tame (collect_outputs moments q f stages o i).
Proof. revert o i. induction stages; intros o i; cbn [collect_outputs]; [tame|]. apply tame_bind; [tame|]. intros bs. by case_decide. Qed.
Lemma tame_client_for cl e : tame (client_for moments cl e).
Proof. unfold client_for. case_decide; tame. Qed.
Lemma tame_fetch cl sc bs blocks : tame (fetch_blocks moments cl sc bs blocks).
Proof.
  revert cl sc bs. induction blocks; intros cl sc bs; cbn [fetch_blocks]; [tame|]. apply tame_bind; [tame|]. intros e.
  apply tame_bind; [apply tame_client_for|]. intros cl'. apply tame_bind; [tame|]. intros x. apply tame_bind; [tame|]. by intros [].
Qed.
Lemma tame_cleanup cl blocks : tame (cleanup moments cl blocks).
Proof.
  revert cl. induction blocks; intros cl; cbn [cleanup]; [tame|]. apply tame_bind; [tame|]. intros e.
  apply tame_bind; [apply tame_settle, tame_client_for|]. intros []; tame.
Qed.

(** ** What stays *)

Lemma bind_inv {A B} (p : prog S A) (f : A → prog S B) d b d' :
  (p ≫= f) d = (Returns (Ok b), d') → ∃ a d1, p d = (Returns (Ok a), d1) ∧ f a d1 = (Returns (Ok b), d').
Proof. unfold mbind, prog_bind. destruct (p d) as [[[a|e|why]|e|] d1]; try done. eauto. Qed.

Lemma tame_run {A} (p : prog S A) d o d' :
  tame p → wf (coordinator_of d) → p d = (o, d') → good_step (coordinator_of d) (coordinator_of d').
Proof. intros Hp Hd Hx. specialize (Hp d Hd). by rewrite Hx in Hp. Qed.

(** A stage that has succeeded keeps its output. *)
Lemma done_stays c c' key st :
  good_step c c' → stages c !! key = Some st → forallb is_succeeded (partitions st) = true →
  ∃ st', stages c' !! key = Some st' ∧ plan st' = plan st ∧ partitions st' = partitions st.
Proof.
  intros Hg Hst Hdone. destruct (et_plan _ _ (gs_extends _ _ Hg) _ _ Hst) as (st' & Hst' & Hpl & Hlen).
  exists st'. split_and!; [done|done|]. apply list_eq_same_length with (length (partitions st)); [done|done|].
  intros i p' p Hi Hp' Hp. destruct (gs_moves _ _ Hg key i p) as (p1 & Hp1 & Hl); [apply part_Some; eauto|].
  apply part_Some in Hp1 as (st1 & Hst1 & Hp1). simplify_eq.
  apply (lifecycle_terminal_rtc _ _ _ Hl). rewrite forallb_forall in Hdone.
  assert (is_succeeded p = true) as Hs by (apply Hdone, list_elem_of_In; by eapply list_elem_of_lookup_2). by destruct p.
Qed.

Definition succeeded_stage (c : Coordinator) (q : QueryId) (s : StageId) : Prop :=
  ∃ st, stages c !! (q, s) = Some st ∧ forallb is_succeeded (partitions st) = true.

Lemma succeeded_stays c c' q s : good_step c c' → succeeded_stage c q s → succeeded_stage c' q s ∧ stage_blocks c' q s = stage_blocks c q s.
Proof.
  intros Hg (st & Hst & Hd). destruct (done_stays _ _ _ _ Hg Hst Hd) as (st' & Hst' & _ & Hp).
  split; [exists st'; by rewrite Hp|]. unfold stage_blocks. by rewrite Hst, Hst', Hp.
Qed.

(** A call of the control plane that was answered. *)
Lemma control_inv {A B} `{Json A, Json B} action (f : N → A → ControlPlane → result B * ControlPlane) (request : A) d b d' :
  (∀ now, served now action (f now)) → (∀ now cp, wf (cp_coordinator cp) → good_step (cp_coordinator cp) (cp_coordinator (f now request cp).2)) →
  wf (coordinator_of d) →
  control moments (λ dl now, control_call dl now action request) d = (Returns (Ok b), d') →
  ∃ now cp, good_step (coordinator_of d) (cp_coordinator cp) ∧ f now request cp = (Ok b, w_control (dr_world d')).
Proof.
  intros Hf Hg Hd. unfold control, moment, await. set (m := moments (dr_moment d)).
  destruct (control_call _ _ _ _ _) as [r cp'] eqn:E. destruct (cut_by _ _ _); [done|]. intros [= -> <-].
  destruct (control_call_run _ _ _ _ _ _ _ _ (Hf _) E) as [_ Hr].
  eexists _, _. split; [|by apply Hr]. by apply Hothers.
Qed.

(** ** Submission, success and output *)

(** The coordinator knows the stage as it was submitted. *)
Definition has_stage (c : Coordinator) (s : StagePlan) : Prop :=
  ∃ st, stages c !! (sp_query_id s, sp_stage_id s) = Some st ∧ plan st = s.

Lemma has_stage_stays c c' s : good_step c c' → has_stage c s → has_stage c' s.
Proof.
  intros Hg (st & Hst & Hpl). destruct (et_plan _ _ (gs_extends _ _ Hg) _ _ Hst) as (st' & ? & ? & _).
  exists st'. split; congruence.
Qed.

Lemma submit_stage_inv s d d' :
  wf (coordinator_of d) → control moments (λ dl now, client_submit_stage dl now s) d = (Returns (Ok tt), d') →
  has_stage (coordinator_of d') s.
Proof.
  intros Hd. unfold control, moment, await, client_submit_stage. set (m := moments (dr_moment d)).
  destruct (control_call _ _ _ _ _) as [[ack|e|why] cp'] eqn:E; [|by destruct (cut_by _ _ _)..].
  destruct (cut_by _ _ _); [done|]. intros [= _ <-].
  destruct (control_call_run _ _ _ submit_action _ _ _ _ (served_submit _) E) as [_ Hr]. specialize (Hr _ eq_refl).
  unfold submit_action, on_coordinator in Hr. destruct (submit_stage s _) as [r c] eqn:Es. destruct r as [[]| |]; [|done..].
  injection Hr as <- <-. unfold submit_stage in Es. destruct (submit_checks _ _) as [[]| |]; [|done..]. injection Es as <-.
  eexists. cbn. split; [apply lookup_insert_eq|done].
Qed.

Lemma submit_stages_inv graph d d' :
  wf (coordinator_of d) → submit_stages moments graph d = (Returns (Ok tt), d') → Forall (has_stage (coordinator_of d')) graph.
Proof.
  revert d. induction graph as [|s graph IH]; intros d Hd; [by constructor|]. cbn [submit_stages].
  intros ([] & d1 & Hx & Hr)%bind_inv.
  pose proof (tame_run _ _ _ _ (tame_control _ (tame_submit_call s)) Hd Hx) as Hg. constructor; [|by eapply IH; [apply Hg|]].
  eapply has_stage_stays; [|by eapply submit_stage_inv]. eapply tame_run; [apply tame_submit|apply Hg|exact Hr].
Qed.

Lemma status_succeeded c q s : stage_status c q s = Ok StageSucceeded → succeeded_stage c q s.
Proof.
  unfold stage_status. intros (st & Hst & Hs)%bind_ok. destruct (stages c !! (q, s)) as [st'|] eqn:E; [|done]. injection Hst as ->.
  exists st. split; [done|]. destruct (contains_key _ _); [done|]. destruct (existsb is_failed _); [done|].
  destruct (forallb is_succeeded _); [done|]. destruct (existsb is_active _); [done|]. by destruct (dependencies_succeeded c st).
Qed.

Lemma poll_stages_inv q graph d d' :
  wf (coordinator_of d) → poll_stages moments q graph d = (Returns (Ok true), d') →
  Forall (λ s, succeeded_stage (coordinator_of d') q (sp_stage_id s)) graph.
Proof.
  revert d. induction graph as [|s graph IH]; intros d Hd; [by constructor|]. cbn [poll_stages].
  intros (status & d1 & Hx & Hr)%bind_inv.
  pose proof (tame_run _ _ _ _ (tame_control _ (tame_status_call q (sp_stage_id s))) Hd Hx) as Hg.
  destruct status; try done.
  - apply bind_inv in Hr as (? & ? & _ & [=]).
  - apply bind_inv in Hr as (? & ? & _ & [=]).
  - apply bind_inv in Hr as (? & ? & _ & [=]).
  - constructor; [|by eapply IH; [apply Hg|]].
    destruct (control_inv ACTION_STAGE_STATUS (λ _, stage_status_action) (MkStageOutputBlocksRequest q (sp_stage_id s)) d StageSucceeded d1)
      as (now & cp & _ & Hs); [by constructor|by intros; apply good_step_refl|done|done|].
    injection Hs as Hs Hcp. apply status_succeeded in Hs. rewrite Hcp in Hs.
    eapply succeeded_stays; [|exact Hs]. eapply tame_run; [apply tame_poll|apply Hg|exact Hr].
  - apply bind_inv in Hr as ([? ?] & ? & _ & [=]).
Qed.

Lemma blocks_of_succeeded c q s blocks :
  stage_output_blocks c q s = Ok blocks → blocks = stage_blocks c q s.
Proof.
  unfold stage_output_blocks, stage_blocks. intros (st & Hst & Hs)%bind_ok. destruct (stages c !! (q, s)); [|done]. injection Hst as ->.
  destruct (_ && _); [done|]. by injection Hs as <-.
Qed.

Lemma collect_outputs_inv q final graph o i d out inter d' :
  wf (coordinator_of d) → Forall (λ s, succeeded_stage (coordinator_of d) q (sp_stage_id s)) graph →
  collect_outputs moments q final graph o i d = (Returns (Ok (out, inter)), d') →
  out = if decide (final ∈ sp_stage_id <$> graph) then stage_blocks (coordinator_of d') q final else o.
Proof.
  revert o i d. induction graph as [|s graph IH]; intros o i d Hd Hs; cbn [collect_outputs].
  { intros [= <- _ _]. by rewrite decide_False by apply not_elem_of_nil. }
  intros (blocks & d1 & Hx & Hr)%bind_inv. apply list.Forall_cons in Hs as [Hs1 Hs].
  pose proof (tame_run _ _ _ _ (tame_control _ (tame_blocks_call q (sp_stage_id s))) Hd Hx) as Hg.
  assert (Forall (λ s, succeeded_stage (coordinator_of d1) q (sp_stage_id s)) graph) as Hs2.
  { eapply list.Forall_impl; [exact Hs|]. intros x Hx1. by eapply succeeded_stays. }
  destruct (control_inv ACTION_STAGE_OUTPUT_BLOCKS (λ _, output_blocks_action) (MkStageOutputBlocksRequest q (sp_stage_id s)) d blocks d1)
    as (now & cp & _ & Hb); [by constructor|by intros; apply good_step_refl|done|done|].
  injection Hb as Hb Hcp. apply blocks_of_succeeded in Hb. rewrite Hcp in Hb. fold (coordinator_of d1) in Hb.
  change (cp_coordinator (w_control (dr_world d1))) with (coordinator_of d1) in Hb. rewrite fmap_cons.
  destruct (succeeded_stays _ _ _ _ Hg Hs1) as [Hs1' _].
  destruct (decide (sp_stage_id s = final)) as [<-|Hf].
  - pose proof (tame_run _ _ _ _ (tame_collect _ _ _ _ _) (gs_wf _ _ Hg) Hr) as Hg2.
    destruct (succeeded_stays _ _ _ _ Hg2 Hs1') as [_ Heq].
    apply IH in Hr as ->; [|apply Hg|done]. rewrite (decide_True _ _ (proj2 (elem_of_cons _ _ _) (or_introl eq_refl))).
    case_decide; [done|]. by rewrite Heq.
  - apply IH in Hr as ->; [|apply Hg|done]. case_decide as H1'; case_decide as H2'; try done.
    + destruct H2'. by right.
    + apply elem_of_cons in H2' as [?|?]; done.
Qed.

(** ** The fetch *)

(** A download that passed its check. *)
Definition verified (b : ShuffleBlock) (x : DownloadedBlock) : Prop :=
  block_metadata (db_schema x) (db_batches x) = Ok (sb_rows b, sb_bytes b, sb_checksum b).

Lemma download_verified faults endpoint b (s : S) x : download_with_schema faults endpoint b s = Ok x → verified b x.
Proof.
  unfold download_with_schema, download_reserved. intros (own & _ & Hr)%bind_ok. apply bind_ok in Hr as ([x' own'] & Hd & [= <-]).
  apply bind_ok in Hd as (ticket & _ & Hd). apply bind_ok in Hd as (stream & _ & Hd). apply bind_ok in Hd as ([batches own1] & _ & Hd).
  apply bind_ok in Hd as (schema & _ & Hd). apply bind_ok in Hd as ([[rows bytes] checksum] & Hm & Hd).
  destruct (negb (rows =? sb_rows b)%N || negb (bytes =? sb_bytes b)%N || _) eqn:E; [done|]. injection Hd as <- <-.
  rewrite !orb_false_iff, !negb_false_iff, !N.eqb_eq, bool_decide_eq_true in E. destruct E as [[-> ->] ->]. exact Hm.
Qed.

Lemma fetch_blocks_inv cl sc bs blocks d cl' sc' bs' d' :
  fetch_blocks moments cl sc bs blocks d = (Returns (Ok (cl', sc', bs')), d') →
  ∃ xs, Forall2 verified blocks xs ∧ bs' = bs ++ mjoin (db_batches <$> xs) ∧
    sc' = match sc with Some s => Some s | None => db_schema <$> head xs end ∧ Forall (λ x, sc' = Some (db_schema x)) xs.
Proof.
  revert cl sc bs d. induction blocks as [|b blocks IH]; intros cl sc bs d; cbn [fetch_blocks].
  { intros [= <- <- <- _]. exists []. split_and!; [constructor|by rewrite app_nil_r|by destruct sc|constructor]. }
  intros (endpoint & d1 & _ & Hr)%bind_inv. apply bind_inv in Hr as (cl1 & d2 & _ & Hr). apply bind_inv in Hr as (x & d3 & Hx & Hr).
  apply bind_inv in Hr as ([sc1 bs1] & d4 & Hm & Hr). destruct (IH _ _ _ _ Hr) as (xs & Hxs & -> & Hsc & Hall).
  injection Hm as Hm _. unfold merge_download in Hm. apply bind_ok in Hm as (sc2 & Hsc2 & [= <- <-]).
  assert (verified b x) as Hv.
  { unfold download_from, moment, await in Hx. destruct (cut_by _ _ _); [done|]. injection Hx as Hx _. by eapply download_verified. }
  assert (sc2 = Some (db_schema x) ∧ (∀ s, sc = Some s → s = db_schema x)) as [-> Hold].
  { destruct sc as [s|]; [case_decide; [|done]|]; injection Hsc2 as <-; (split; [congruence|]); congruence. }
  subst sc'. exists (x :: xs). split_and!.
  - by constructor.
  - rewrite fmap_cons. simpl. by rewrite <-app_assoc.
  - destruct sc as [s|]; [by rewrite (Hold s eq_refl)|done].
  - by constructor.
Qed.

(** ** The result *)

(** The state in which a run of the graph ends well. *)
Definition answered_by (graph : list StagePlan) (final : StageId) (c : Coordinator) (r : RemoteStageResult) : Prop :=
  ∃ s st xs, s ∈ graph ∧ sp_stage_id s = final ∧ stages c !! (sp_query_id s, final) = Some st ∧ plan st = s ∧
    forallb is_succeeded (partitions st) = true ∧ rr_output_blocks r = mjoin (succeeded_blocks <$> partitions st) ∧
    Forall2 verified (rr_output_blocks r) xs ∧ rr_batches r = mjoin (db_batches <$> xs) ∧
    rr_schema r = db_schema <$> head xs ∧ Forall (λ x, rr_schema r = Some (db_schema x)) xs.

Lemma poll_graph_inv cfg fuel q final graph started d r d' :
  wf (coordinator_of d) → Forall (has_stage (coordinator_of d)) graph → Forall (λ s, sp_query_id s = q) graph →
  final ∈ sp_stage_id <$> graph → poll_graph moments cfg fuel q final graph started d = (Returns (Ok r), d') →
  answered_by graph final (coordinator_of d') r.
Proof.
  intros Hd Hhas Hq Hfinal. revert d Hd Hhas. induction fuel as [|fuel IH]; intros d Hd Hhas; cbn [poll_graph]; [done|].
  intros (cancelled & d1 & Hx1 & Hr)%bind_inv. pose proof (tame_run _ _ _ _ tame_cancelled Hd Hx1) as Hg1.
  destruct cancelled; [by apply bind_inv in Hr as (? & ? & _ & [=])|].
  apply bind_inv in Hr as (done & d2 & Hx2 & Hr). pose proof (tame_run _ _ _ _ (tame_poll _ _) (gs_wf _ _ Hg1) Hx2) as Hg2.
  assert (∀ d3, good_step (coordinator_of d2) (coordinator_of d3) → Forall (has_stage (coordinator_of d3)) graph) as Hkeep.
  { intros d3 Hg3. eapply list.Forall_impl; [exact Hhas|]. intros s Hs. eapply has_stage_stays; [|exact Hs].
    eapply good_step_trans; [exact Hg1|]. by eapply good_step_trans. }
  destruct done.
  - apply bind_inv in Hr as ([out inter] & d3 & Hx3 & Hr). pose proof (poll_stages_inv _ _ _ _ (gs_wf _ _ Hg1) Hx2) as Hall.
    pose proof (tame_run _ _ _ _ (tame_collect _ _ _ _ _) (gs_wf _ _ Hg2) Hx3) as Hg3.
    pose proof (collect_outputs_inv _ _ _ _ _ _ _ _ _ (gs_wf _ _ Hg2) Hall Hx3) as Hout. rewrite decide_True in Hout by done.
    unfold fetch_output in Hr. apply bind_inv in Hr as ([[cl sc] bs] & d4 & Hx4 & Hr).
    pose proof (tame_run _ _ _ _ (tame_fetch _ _ _ _) (gs_wf _ _ Hg3) Hx4) as Hg4.
    apply bind_inv in Hr as (errors & d5 & Hx5 & Hr). injection Hr as <- <-.
    assert (good_step (coordinator_of d4) (coordinator_of d5)) as Hg5.
    { eapply tame_run; [|apply Hg4|exact Hx5]. destruct (rc_delete_output_after_fetch cfg); [apply tame_cleanup|apply tame_ret]. }
    pose proof (good_step_trans _ _ _ Hg3 (good_step_trans _ _ _ Hg4 Hg5)) as Hg6.
    destruct (fetch_blocks_inv _ _ _ _ _ _ _ _ _ Hx4) as (xs & Hv & Hbs & Hsc & Hag).
    apply list_elem_of_fmap in Hfinal as (s & -> & Hs). rewrite list.Forall_forall in Hall, Hq. pose proof (Hkeep _ Hg6) as Hhas'.
    rewrite list.Forall_forall in Hhas'. destruct (Hhas' s Hs) as (st & Hst & Hpl).
    destruct (Hall s Hs) as (st2 & Hst2 & Hdone). rewrite (Hq s Hs) in Hst.
    destruct (done_stays _ _ _ _ Hg6 Hst2 Hdone) as (st' & Hst' & _ & Hparts). simplify_eq.
    destruct (succeeded_stays _ _ _ _ Hg3 (Hall _ Hs)) as [_ Hsame].
    exists (plan st), st, xs. rewrite (Hq _ Hs). rewrite Hparts. split_and!; simpl; try done.
    rewrite Hsame. unfold stage_blocks. by rewrite Hst2.
  - apply bind_inv in Hr as (now & d3 & [= <- <-] & Hr). destruct (_ <=? _)%N; [by apply bind_inv in Hr as (? & ? & _ & [=])|].
    apply bind_inv in Hr as (cancelled & d3 & Hx3 & Hr). pose proof (tame_run _ _ _ _ (tame_sleep _) (gs_wf _ _ Hg2) Hx3) as Hg3.
    destruct cancelled; [by apply bind_inv in Hr as (? & ? & _ & [=])|]. eapply IH; [apply Hg3|by apply Hkeep|exact Hr].
Qed.

Lemma once_inv cfg graph final d r d' :
  wf (coordinator_of d) → execute_graph_once moments cfg graph final d = (Returns (Ok r), d') →
  answered_by graph final (coordinator_of d') r.
Proof.
  intros Hd. unfold execute_graph_once. intros (cancelled & d1 & Hx1 & Hr)%bind_inv.
  pose proof (tame_run _ _ _ _ tame_cancelled Hd Hx1) as Hg1. destruct cancelled; [done|].
  apply bind_inv in Hr as (q & d2 & Hc & Hr). injection Hc as Hc <-.
  apply bind_inv in Hr as ([] & d3 & Hx3 & Hr). pose proof (tame_run _ _ _ _ tame_connect (gs_wf _ _ Hg1) Hx3) as Hg3.
  apply bind_inv in Hr as ([] & d4 & Hx4 & Hr). pose proof (tame_run _ _ _ _ (tame_submit _) (gs_wf _ _ Hg3) Hx4) as Hg4.
  apply bind_inv in Hr as (now & d5 & [= <- <-] & Hr).
  unfold check_graph in Hc. apply bind_ok in Hc as (first & _ & Hc). apply bind_ok in Hc as (ids & Hids & Hc).
  case_decide as Hin; [|done]. injection Hc as <-. destruct (check_stages_queries _ _ _ _ Hids) as [Hq ->].
  eapply poll_graph_inv; [apply Hg4|by eapply submit_stages_inv; [apply Hg3|]|exact Hq| |exact Hr]. set_solver.
Qed.

(** ** The whole query *)

Lemma tame_stop_query first graph : tame (stop_query moments first graph).
Proof.
  unfold stop_query. apply tame_bind; [apply tame_settle, tame_connect|]. intros []; [|tame..]. apply tame_bind; [unfold cancel_by_driver; tame|].
  intros _. induction graph as [|s graph IH]; cbn [discard_stages]; [tame|]. apply tame_bind; [tame|]. intros blocks.
  apply tame_bind; [|done]. destruct blocks as [blocks| |]; [|tame..]. induction blocks as [|b blocks IHb]; cbn [discard_blocks]; [tame|].
  apply tame_bind; [|done]. destruct (flight_endpoint b); [apply tame_briefly|..]; tame.
Qed.

Lemma tame_cancel_and_cleanup graph : tame (cancel_and_cleanup moments graph).
Proof.
  unfold cancel_and_cleanup. destruct (head graph) as [first|]; [|apply tame_ret]. intros d Hd.
  pose proof (tame_within (InCleanup (dr_time d + 2000)) _ (tame_stop_query first graph) d Hd) as Hg.
  by destruct (within _ _ d) as [[r|e|] d1].
Qed.

Lemma tame_poll_graph cfg fuel q final graph started : tame (poll_graph moments cfg fuel q final graph started).
Proof.
  induction fuel as [|fuel IH]; cbn [poll_graph]; [intros d Hd; by apply good_step_refl|].
  apply tame_bind; [apply tame_cancelled|]. intros []; [unfold cancel_by_driver; tame|].
  apply tame_bind; [apply tame_poll|]. intros [].
  - apply tame_bind; [apply tame_collect|]. intros [out inter]. unfold fetch_output. apply tame_bind; [apply tame_fetch|]. intros [[cl sc] bs].
    apply tame_bind; [|tame]. destruct (rc_delete_output_after_fetch cfg); [apply tame_cleanup|tame].
  - apply tame_bind; [apply tame_instant|]. intros now. destruct (_ <=? _)%N; [unfold cancel_by_driver; tame|].
    apply tame_bind; [apply tame_sleep|]. intros []; [unfold cancel_by_driver; tame|done].
Qed.

Lemma tame_once cfg graph final : tame (execute_graph_once moments cfg graph final).
Proof.
  unfold execute_graph_once. apply tame_bind; [apply tame_cancelled|]. intros []; [tame|]. apply tame_bind; [tame|]. intros q.
  apply tame_bind; [apply tame_connect|]. intros _. apply tame_bind; [apply tame_submit|]. intros _.
  apply tame_bind; [apply tame_instant|]. intros now. apply tame_poll_graph.
Qed.

Lemma tame_run_once cfg deadline graph final : tame (run_once moments cfg deadline graph final).
Proof. apply tame_within, tame_once. Qed.

Lemma started_run_inv cfg process final graph0 d0 qs graph d :
  wf (coordinator_of d0) → started_run moments cfg process final graph0 d0 qs graph d →
  wf (coordinator_of d) ∧ (graph = graph0 ∨ ∃ q, graph = with_query q <$> graph0).
Proof.
  intros Hd0. induction 1 as [|qs graph d o e d1 d2 q d3 Hrun IH Ho _ _ Hc _ _ Hid]; [by auto|]. destruct IH as [Hd Hgraph]. split.
  - pose proof (tame_run _ _ _ _ (tame_run_once _ _ _ _) Hd Ho) as Hg1. pose proof (tame_run _ _ _ _ (tame_cancel_and_cleanup _) (gs_wf _ _ Hg1) Hc) as Hg2.
    pose proof (tame_cancelled d2 (gs_wf _ _ Hg2)) as Hg3. by pose proof (gs_wf _ _ (tame_run _ _ _ _ (tame_identity _) (gs_wf _ _ Hg3) Hid)).
  - right. exists q. destruct Hgraph as [->|[q0 ->]]; [done|]. rewrite <-list_fmap_compose. done.
Qed.

(** What a remote query returns is the committed output of its final stage.  While
    others use the coordinator in any way, a query that returns has its batches from the
    blocks that the successful attempts of the final stage committed, partition by
    partition, as the coordinator still has them when the query is done: of the stage it
    submitted, under its own identity or that of its last retry, every partition of which
    has succeeded; each block had the rows, bytes and checksum its task reported, and all
    have the schema of the result. *)
Theorem remote_query_result cfg process graph final d r d' :
  RemoteStageConfig_validate cfg = Ok tt → wf (coordinator_of d) →
  execute_graph moments cfg process graph final d = (Returns (Ok r), d') →
  (rr_recovery_attempts r ≤ rc_max_query_retries cfg)%N ∧
  ∃ graph', (graph' = graph ∨ ∃ q, graph' = with_query q <$> graph) ∧ answered_by graph' final (coordinator_of d') r.
Proof.
  intros Hv Hd Hx. unfold execute_graph in Hx. rewrite (bind_returns instant _ d (dr_time d) d) in Hx by done.
  destruct (run_attempts_spec moments cfg process final graph d (N.to_nat (rc_max_query_retries cfg) + 1) [] graph d)
    as (r0 & d0 & Hx' & qs & graph' & d1 & o & d2 & Hrun & Hn & Ho & Hlast);
    [by apply validate_positive|done|lia|constructor|].
  simpl in Hx'. rewrite Hx in Hx'. injection Hx' as <- <-. destruct (started_run_inv _ _ _ _ _ _ _ _ Hd Hrun) as [Hd1 Hgraph].
  apply last_outcome_ok in Hlast as (out & -> & [= ->] & ->). split; [done|]. exists graph'. split; [done|].
  unfold run_once, within in Ho. destruct (execute_graph_once _ _ _ _ _) as [o' d3] eqn:Eo. injection Ho as -> <-.
  exact (once_inv _ _ _ (with_scope _ d1) _ _ Hd1 Eo).
Qed.
End result.

(** ** A remote query

    One stage with one partition: a worker runs it while the driver waits, and the driver
    fetches its block. *)

#[local] Existing Instance demo_codec.
#[local] Existing Instance ticket_json.
#[local] Existing Instance ack_json.
#[local] Existing Instance whole_batches.
#[local] Instance seconds : DurationDebug := λ ms, pretty ms +:+ "ms".

Definition remote_stage : StagePlan := MkStagePlan (MkQueryId "q") (MkStageId 0) [] 1 [1%N] None false.
Definition remote_request : StageOutputBlocksRequest := MkStageOutputBlocksRequest (MkQueryId "q") (MkStageId 0).

#[local] Instance stage_eq_dec : EqDecision StagePlan.
Proof. solve_decision. Defined.
#[local] Instance request_eq_dec : EqDecision StageOutputBlocksRequest.
Proof. solve_decision. Defined.
#[local] Instance status_eq_dec : EqDecision StageStatus.
Proof. solve_decision. Defined.
#[local] Instance control_ack_eq_dec : EqDecision ControlAck.
Proof. solve_decision. Defined.
#[local] Instance block_eq_dec : EqDecision ShuffleBlock.
Proof. solve_decision. Defined.

#[local] Instance remote_json : ControlJson := {|
  stage_json := json_of remote_stage "stage" eq_refl; message_json := json_refuses; poll_json := json_refuses;
  assignment_json := json_refuses; cancel_json := json_refuses; cancelled_json := json_refuses;
  stage_request_json := json_of remote_request "request" eq_refl;
  partition_request_json := json_refuses; blocks_json := json_of [shuffle_block] "blocks" eq_refl;
  stage_status_json := json_of StageSucceeded "'succeeded'" eq_refl;
  partition_status_json := json_refuses; control_ack_json := json_of (MkControlAck true) "ack" eq_refl;
|}.

(** The worker registers; after the submission it takes the task and commits its block. *)
Definition remote_worker : WorkerId := MkWorkerId "w".
Definition worker_done : list command :=
  [ DoNextFor remote_worker 20; DoMessage (TaskUpdate PROTOCOL_VERSION remote_worker shuffle_task (TaskSucceeded 20 [shuffle_block])) 30 ].

Definition on_world (cmds : list command) (w : World MemoryBlockStore) : World MemoryBlockStore :=
  MkWorld (MkControlPlane (run cmds (cp_coordinator (w_control w))).2 (cp_pending (w_control w))) (w_stores w).

Definition remote_moment (n : nat) : Moment MemoryBlockStore :=
  MkMoment (on_world (if decide (n = 3) then worker_done else [])) 10 1 Delivered None (MkGetFaults None None) false None (inr 1000%N) 0.

Definition remote_world : World MemoryBlockStore :=
  MkWorld (MkControlPlane (run [DoMessage (Register PROTOCOL_VERSION (MkWorkerRegistration remote_worker 1 1000)) 10] demo_new).2 ∅)
    (λ _, (shuffle_upload Delivered shuffle_store).2).
Definition remote_cfg : RemoteStageConfig := RemoteStageConfig_new "http://c:1".
Definition remote_driver : Driver MemoryBlockStore := MkDriver remote_world 0 0 Unlimited 0.
Definition remote_run := execute_graph remote_moment remote_cfg 7 [remote_stage] (MkStageId 0) remote_driver.

Lemma remote_others : others_behave remote_moment.
Proof.
  intros n w Hw. unfold remote_moment, on_world, world_coordinator. cbn [mo_others w_control cp_coordinator].
  destruct (run _ _) as [rs c] eqn:Er. apply (run_step _ _ _ _ Hw) in Er; [done|]. case_decide; by repeat constructor.
Qed.

Lemma remote_world_wf : wf (coordinator_of remote_driver).
Proof.
  apply (reachable_wf demo_config); [apply demo_config_typed|]. apply reachable_run; [by apply reachable_new|].
  repeat constructor. vm_compute. discriminate.
Qed.

Definition remote_answer : RemoteStageResult := MkRemoteStageResult (Some 7%N) [1; 2]%N [shuffle_block] [] [] 0.

(** The driver has the batches of the worker's task. *)
Lemma remote_query_result_witness :
  remote_run.1 = Returns (Ok remote_answer) ∧
  ∃ graph', (graph' = [remote_stage] ∨ ∃ q, graph' = with_query q <$> [remote_stage]) ∧
    answered_by graph' (MkStageId 0) (coordinator_of remote_run.2) remote_answer.
Proof.
  assert (remote_run.1 = Returns (Ok remote_answer)) as Hr by (vm_compute; reflexivity). split; [exact Hr|].
  apply (remote_query_result remote_moment remote_others remote_cfg 7 [remote_stage] (MkStageId 0)
    remote_driver remote_answer remote_run.2).
  - reflexivity.
  - exact remote_world_wf.
  - rewrite <-Hr. apply surjective_pairing.
Defined.

(** *** A coordinator that cannot be reached *)

Definition dead_moment (_ : nat) : Moment MemoryBlockStore :=
  MkMoment (λ w, w) 10 1 Delivered (Some (Transport "connection refused")) (MkGetFaults None None) false None (inr 1000%N) 0.
Definition patient_cfg : RemoteStageConfig := MkRemoteStageConfig "http://c:1" 50 300000 true 2.

Definition dead_run := execute_graph dead_moment patient_cfg 7 [remote_stage] (MkStageId 0) remote_driver.

(** Three runs under three identities, and the error of the last. *)
Lemma remote_query_ends_witness :
  (dead_run.1, dr_time dead_run.2, dr_sequence dead_run.2) = (Returns (Err (Transport "connection refused")), 6%N, 2%N) ∧
  ∃ r d' qs graph' d1, dead_run = (Returns r, d') ∧ (dr_time d' ≤ 302000)%N ∧
    started_run dead_moment patient_cfg 7 (MkStageId 0) [remote_stage] remote_driver qs graph' d1 ∧ length qs ≤ 2.
Proof.
  split; [vm_compute; reflexivity|].
  destruct (remote_query_ends dead_moment patient_cfg 7 [remote_stage] (MkStageId 0) remote_driver)
    as (r & d' & Hx & Ht & qs & graph' & d1 & o & d2 & Hrun & Hn & _); [reflexivity|].
  exists r, d', qs, graph', d1. split; [exact Hx|]. split; [exact Ht|]. split; [exact Hrun|].
  cbn [rc_max_query_retries patient_cfg] in Hn. lia.
Defined.

(** *** A coordinator that does not answer *)

Definition slow_moment (_ : nat) : Moment MemoryBlockStore :=
  MkMoment (λ w, w) 10 1000000 Delivered None (MkGetFaults None None) false None (inr 1000%N) 0.
Definition slow_run := execute_graph slow_moment patient_cfg 7 [remote_stage] (MkStageId 0) remote_driver.

(** The call is cut off at the deadline, the cleanup two seconds later. *)
Example slow_run_cut_off :
  (slow_run.1, dr_time slow_run.2) = (Returns (Err (Execution "remote query exceeded its timeout")), 302000%N).
Proof. vm_compute. reflexivity. Qed.
