(* ===== verification/SessionRun.v ===== *)
(** * Running queries ([src/query/session.rs])

    What a session does with a planned query: it runs it in its own process, on one node or
    on an in-process cluster, or as stages on remote workers, and reports the batches with
    the plans and the metrics. *)
From S2P Require Import Prelude Text Protocol Coordinator Memory Cancellation Metrics BlockStore BlockStoreProps Float Expr Logical Optimizer Catalog Physical Execution Aggregate Executor ExecutorCancel Pruning FileTables HashExchange PlanCodec PlanCodecProps Distributed Sql Stages LocalCluster Wire DataPlane ControlPlane Worker Task Remote.

Record QueryResult := MkQueryResult {
  qr_batches : list Expr.RecordBatch;
  qr_metrics : MetricsSnapshot;
  qr_logical_plan : string;
  qr_optimized_plan : string;
  qr_physical_plan : string;
  qr_distributed : bool;
  qr_stages : nat;
  qr_cleanup_errors : list string;
  qr_recovery_attempts : N;
}.

(** [usize] sums panic on overflow. *)
Definition QueryResult_row_count (r : QueryResult) : result N :=
  sum_u64 ((λ b, N.of_nat (b_rows b)) <$> qr_batches r).

(** [SessionConfig::default], with the number of processors. *)
Definition SessionConfig_default (cpus : N) : SessionConfig :=
  MkSessionConfig 8192 2 (N.max cpus 1) false DEFAULT_MEMORY_LIMIT_BYTES.

(** ** Tables from files *)

Section files.
Context `{FileReaders, Utf8Check}.

(** Every query of the session reads in batches of its size. *)
Definition session_batch_size (self : Session) : nat := N.to_nat (sc_batch_size (s_config self)).

Definition register_csv (self : Session) (name path : string) : result Session :=
  t ← CsvTable_try_new path; Ok (register_table self name (csv_provider (session_batch_size self) t)).

Definition register_parquet (self : Session) (name path : string) : result Session :=
  t ← ParquetTable_try_new path; Ok (register_table self name (parquet_provider (session_batch_size self) t)).
End files.

(** ** Explain *)

Definition explain `{SqlParser, FloatDisplay, Kernels, StrDebug} (self : Session) (text : string) : result string :=
  '(logical, optimized, physical) ← plan_sql (s_catalog self) text;
  Ok ("== Logical Plan ==" +:+ newline +:+ explain_logical logical +:+ newline +:+
      "== Optimized Logical Plan ==" +:+ newline +:+ explain_logical optimized +:+ newline +:+
      "== Physical Plan ==" +:+ newline +:+ explain_physical physical).

(** ** In this process *)

(** What the runtime decides in the course of a query: the order in which tasks deliver and
    finish, the memory others hold at every reservation, where the operators notice a
    cancellation, what they record in the metrics, the time it takes and the memory at its
    end. *)
Record QueryRun := MkQueryRun {
  qn_sites : nat → Site;
  qn_events : list LocalEvent;
  qn_task_sites : nat → nat → Site;
  qn_task_memory : nat → TaskMemory;
  qn_memory : TaskMemory;
  qn_cuts : list nat → option nat;
  qn_recorded : QueryMetrics;
  qn_elapsed : N;
  qn_reserved : N;
  qn_peak : N;
}.

(** Nobody cancels. *)
Definition uncancelled (run : QueryRun) : QueryRun :=
  MkQueryRun (qn_sites run) (qn_events run) (qn_task_sites run) (qn_task_memory run) (qn_memory run) (λ _, None)
    (qn_recorded run) (qn_elapsed run) (qn_reserved run) (qn_peak run).

(** Everything reserves from the one budget of the query. *)
Definition limited (limit : N) (m : TaskMemory) : TaskMemory := MkTaskMemory limit (tm_others m).
Definition limited_site (limit : N) (s : Site) : Site := MkSite (site_schedule s) (site_full s) (limited limit (site_memory s)).
Definition limited_event (limit : N) (e : LocalEvent) : LocalEvent :=
  MkLocalEvent (next_task e) (limited limit (grow_memory e)) (limited limit (settle_memory e)).

Definition record_outputs (m : QueryMetrics) (batches : list Expr.RecordBatch) : QueryMetrics :=
  foldl (λ m b, record_output m (N.of_nat (b_rows b))) m batches.

Section local.
Context `{SqlParser, Protobuf, FloatDisplay, ScalarDebug, StrDebug, Kernels, BatchOps, SortOps, RowConverter, Sizes, MergeSizes, ShuffleExchange}.

(** The batches, whether they were computed in a distributed way, and the stages; [None]
    when the in-process cluster is left without events.  The tasks of the cluster are not
    cancelled. *)
Definition run_physical (self : Session) (run : QueryRun) (physical : PhysicalPlan)
    : option (result (list Expr.RecordBatch * bool * nat)) :=
  let limit := sc_memory_limit_bytes (s_config self) in
  if sc_distributed (s_config self) then
    match LocalCluster_execute (s_catalog self) limit (λ p n, limited_site limit (qn_task_sites run p n))
            (λ p, limited limit (qn_task_memory run p)) (limited limit (qn_memory run))
            (LocalCluster_new (N.to_nat (sc_workers (s_config self)))) (limited_event limit <$> qn_events run)
            (λ n, limited_site limit (qn_sites run n)) None physical with
    | None => None
    | Some r => Some (r ← r; Ok (cr_batches r, cr_distributed r, cr_stages r))
    end
  else Some (batches ← execute_plan_cancelled (qn_cuts run) (λ n, limited_site limit (qn_sites run n)) None physical;
             Ok (batches, false, 1)).

(** The plans a query goes through. *)
Definition planned (self : Session) (logical : LogicalPlan) : result (LogicalPlan * PhysicalPlan) :=
  optimized ← optimize logical;
  physical ← create_physical_plan optimized (s_catalog self);
  Ok (optimized, physical).

Definition query_result (run : QueryRun) (logical optimized : LogicalPlan) (physical : PhysicalPlan)
    (answer : list Expr.RecordBatch * bool * nat) : QueryResult :=
  let '(batches, distributed, stages) := answer in
  let metrics := set_memory_usage (set_elapsed (record_outputs (qn_recorded run) batches) (qn_elapsed run))
                   (qn_reserved run) (qn_peak run) in
  MkQueryResult batches (metrics_snapshot metrics) (explain_logical logical) (explain_logical optimized)
    (explain_physical physical) distributed stages [] 0.

(** [token] is the cancellation when it is looked at. *)
Definition execute_plan_with_cancellation (self : Session) (run : QueryRun) (token : CancellationState)
    (logical : LogicalPlan) : option (result QueryResult) :=
  match _ ← token_check token; planned self logical with
  | Err e => Some (Err e)
  | Panic why => Some (Panic why)
  | Ok (optimized, physical) =>
      match run_physical self run physical with
      | None => None
      | Some answer => Some (answer ← answer; Ok (query_result run logical optimized physical answer))
      end
  end.

Definition execute_sql_with_cancellation (self : Session) (run : QueryRun) (token token' : CancellationState)
    (text : string) : option (result QueryResult) :=
  match _ ← token_check token; sql (s_catalog self) text with
  | Err e => Some (Err e)
  | Panic why => Some (Panic why)
  | Ok logical => execute_plan_with_cancellation self run token' logical
  end.

(** [execute_sql] and [Session::execute_plan]: a token that nobody else has. *)
Definition execute_sql (self : Session) (run : QueryRun) (text : string) : option (result QueryResult) :=
  execute_sql_with_cancellation self (uncancelled run) CancellationToken_new CancellationToken_new text.

Definition session_execute_plan (self : Session) (run : QueryRun) (logical : LogicalPlan) : option (result QueryResult) :=
  execute_plan_with_cancellation self (uncancelled run) CancellationToken_new logical.
End local.

(** ** On remote workers *)

(** The blocks whose rows and bytes are reported: what moved between stages, or the output
    of a query of one stage. *)
Definition metric_blocks `{BlockCodec} (g : RemoteGraph) (r : RemoteStageResult) : list ShuffleBlock :=
  if decide (rg_result g = MkStageId 0) then rr_output_blocks r else rr_intermediate_blocks r.

(** The tasks of a graph; for a join the sum has been checked before. *)
Definition remote_task_count (g : RemoteGraph) : result N :=
  ok_or (try_u32 (foldr (λ s n, (sp_partition_count s + n)%N) 0%N (rg_stages g)))
    (Execution "remote aggregate task count overflowed").

Definition shuffled_rows (blocks : list ShuffleBlock) : result N :=
  fold_result (λ total b,
    ok_or (checked_add_u64 total (sb_rows b)) (Execution "remote output row count overflowed the local platform"))
    0%N blocks.

Definition remote_metrics (batches : list Expr.RecordBatch) (blocks : list ShuffleBlock) (task_count elapsed : N)
    : result MetricsSnapshot :=
  rows ← shuffled_rows blocks;
  bytes ← sum_u64 (sb_bytes <$> blocks);
  let metrics := add_shuffled_bytes (add_shuffled_rows (record_outputs QueryMetrics_default batches) rows) bytes in
  Ok (metrics_snapshot (set_elapsed (Nat.iter (N.to_nat task_count) add_task metrics) elapsed)).

Section remote.
Context `{SqlParser, Protobuf, FloatDisplay, StrDebug, Kernels, BatchOps}.
Context `{ControlJson, DurationDebug, ArrowIpc, !FlightTransport, !Json BlockTicket, !Json UploadAck}.
Context {S : Type} `{!BlockStorage S} (moments : nat → Moment S).

(** [elapsed] is the time until the metrics are taken, [process] is the identity of the process. *)
Definition execute_sql_remote_with_cancellation (self : Session) (token : CancellationState) (process : N)
    (elapsed : N) (text : string) (query_id : QueryId) (remote : RemoteStageConfig) : prog S QueryResult :=
  _ ← lift (token_check token);
  '(logical, optimized, physical) ← lift (plan_sql (s_catalog self) text);
  graph ← lift (remote_stages physical query_id);
  _ ← lift (RemoteStageConfig_validate remote);
  r ← execute_graph moments remote process (rg_stages graph) (rg_result graph);
  task_count ← lift (remote_task_count graph);
  let batches : list Expr.RecordBatch := rr_batches r in
  metrics ← lift (remote_metrics batches (metric_blocks graph r) task_count elapsed);
  mret (MkQueryResult batches metrics (explain_logical logical) (explain_logical optimized) (explain_physical physical)
          true (length (rg_stages graph)) (rr_cleanup_errors r) (rr_recovery_attempts r)).

Definition execute_sql_remote (self : Session) (process : N) (elapsed : N) (text : string)
    (query_id : QueryId) (remote : RemoteStageConfig) : prog S QueryResult :=
  execute_sql_remote_with_cancellation self CancellationToken_new process elapsed text query_id remote.
End remote.
