(* ===== verification/SessionRunProps.v ===== *)
(** * What a session answers

    The components together: a query in SQL, planned, optimized and run, answers what the
    query as written answers; and as stages on remote workers it returns what they have
    committed. *)
From S2P Require Import Prelude Text Protocol Coordinator CoordinatorClock CoordinatorInv CoordinatorSpec CoordinatorSteps CoordinatorAssign CoordinatorRun Memory Cancellation Metrics BlockStore BlockStoreProps Float Expr ExprProps Logical Optimizer SchemaProps OptimizerProps Catalog Physical PhysicalProps Execution ExecutionDemo HashJoin Aggregate AggregateProps Executor ExecutorCancel ExecutorProps OperatorProps ScanProps OperatorDemo PlanRun OptimizerSound Pruning FileTables HashExchange PlanCodec PlanCodecProps Distributed Sql SqlProps SqlRun Stages StagesProps LocalCluster Wire DataPlane ControlPlane ControlPlaneProps Worker Task Remote RemoteProps RemoteResult SessionRun.

(** ** The graph of a planned query *)

(** What a planner checks of its stages is what the driver checks. *)
Lemma graph_ok_checked `{PlanFragments} q before graph :
  graph_ok q before graph → ∃ ids, check_stages q (list_to_set (sp_stage_id <$> before)) graph = Ok ids.
Proof.
  revert before. induction graph as [|s graph IH]; intros before; cbn [graph_ok check_stages]; [by eexists|].
  intros [[Hq Hv Hnew Hin] Hg]. rewrite (proj2 (StagePlan_validate_ok s) Hv). cbn. rewrite decide_True by done.
  assert (existsb (λ d, negb (bool_decide (d ∈ (list_to_set (sp_stage_id <$> before) : gset StageId)))) (sp_input_stages s) = false) as ->.
  { rewrite <-not_true_iff_false, existsb_exists. intros (d & Hd%list_elem_of_In & Hn%negb_true_iff%bool_decide_eq_false_1).
    destruct (Hin d Hd) as (s' & Hs' & <- & _). apply Hn, elem_of_list_to_set. by apply list_elem_of_fmap_2. }
  rewrite decide_False.
  2:{ intros (s' & E & Hs')%elem_of_list_to_set%list_elem_of_fmap. by apply (Hnew s' Hs'). }
  destruct (IH _ Hg) as [ids Hids]. exists ids. rewrite <-Hids. f_equal. rewrite fmap_app. set_solver.
Qed.

Lemma planned_graph_checked `{Protobuf, FloatDisplay, BatchOps} physical q g :
  remote_stages physical q = Ok g → check_graph (rg_stages g) (rg_result g) = Ok q.
Proof.
  intros (Hok & (s & Hlast & Hid) & _)%remote_stages_ok. unfold check_graph.
  destruct (rg_stages g) as [|first graph] eqn:E; [done|].
  destruct (graph_ok_checked q [] _ Hok) as [ids Hids]. pose proof Hok as [[Hq _ _ _] _].
  apply bind_ok. exists first. split; [done|]. rewrite Hq. apply bind_ok. exists ids. split; [exact Hids|].
  rewrite decide_True; [done|]. apply check_stages_queries in Hids as [_ ->].
  apply elem_of_union_l, elem_of_list_to_set. rewrite <-Hid. apply list_elem_of_fmap_2.
  apply last_Some in Hlast as [l ->]. set_solver.
Qed.

(** ** Queries in this process *)

(** A query that the in-process cluster does not split runs on one node. *)
Lemma run_physical_single `{Protobuf, FloatDisplay, ScalarDebug, Kernels, BatchOps, SortOps, RowConverter, Sizes, MergeSizes, ShuffleExchange}
    self run p bs :
  (sc_distributed (s_config self) = true → ∀ n, local_strategy p ≠ RunPartitions n) →
  execute_plan (λ n, limited_site (sc_memory_limit_bytes (s_config self)) (qn_sites run n)) None p = Ok bs →
  run_physical self (uncancelled run) p = Some (Ok (bs, false, 1)).
Proof.
  intros Hs Hx. unfold run_physical. cbn [uncancelled qn_cuts qn_sites].
  destruct (sc_distributed (s_config self)); [|by rewrite execute_plan_uncancelled, Hx].
  specialize (Hs eq_refl). unfold LocalCluster_execute.
  destruct p; try (by rewrite Hx). destruct (local_strategy _); by rewrite ?Hx || destruct (Hs _ eq_refl).
Qed.

(** A query that somebody cancels, before it starts or while it runs, answers on one node
    what it answers otherwise, or that it was cancelled. *)
Theorem session_cancelled_whole `{SqlParser, Protobuf, FloatDisplay, ScalarDebug, StrDebug, Kernels, BatchOps, SortOps, RowConverter, Sizes, MergeSizes, ShuffleExchange}
    self run token logical :
  sc_distributed (s_config self) = false →
  let r := execute_plan_with_cancellation self run token logical in
  r = session_execute_plan self run logical ∨ r = Some (Err Cancelled).
Proof.
  intros Hd. cbn. unfold session_execute_plan, execute_plan_with_cancellation.
  unfold token_check. destruct (token_is_cancelled token); [by right|].
  change (token_is_cancelled CancellationToken_new) with false. cbn [mbind result_bind].
  destruct (planned self logical) as [[optimized physical]|e|why]; [|by left..].
  unfold run_physical. rewrite Hd. cbn [uncancelled qn_cuts qn_sites]. rewrite execute_plan_uncancelled.
  destruct (execute_plan_same_or_cancelled (qn_cuts run)
              (λ n, limited_site (sc_memory_limit_bytes (s_config self)) (qn_sites run n)) None physical) as [->| ->]; [|by right].
  left. by destruct (execute_plan _ _ _).
Qed.

Lemma same_values_rows bs bs' :
  Forall2 same_values bs bs' → (λ b, N.of_nat (b_rows b)) <$> bs' = (λ b, N.of_nat (b_rows b)) <$> bs.
Proof. induction 1 as [|b b' bs bs' [_ Hr] _ IH]; [done|]. by rewrite !fmap_cons, IH, Hr. Qed.

(** C37: a session answers a query in SQL as it is written, on one node.  The session is
    not configured to distribute, or the in-process cluster has nothing to split in this
    query.  When the text is one plain query over honest tables (nullable columns of the
    native types, no statistics, columns delivered in the order asked for, so not Parquet),
    the optimizer accepts its plan, and running the plan as it stands, unoptimized, returns
    batches, then [execute_sql], which optimizes the plan before it runs it, returns as
    many batches with the same values in the same order, under the same schedule of the
    scans and the same memory. *)
Theorem session_answers_as_written
    `{SqlParser, Protobuf, FloatDisplay, ScalarDebug, StrDebug, K : Kernels, !KernelLaws K, !KernelsReturn K, B : BatchOps, !BatchLaws B,
      SO : SortOps, !SortLaws SO, RowConverter, Sizes, MergeSizes, ShuffleExchange} self run text q l o pl bs :
  (∀ name t, table (s_catalog self) name = Ok t → honest t) →
  parse_sql text = Ok [StatementQuery q] → plain_query q = true → plan_query (s_catalog self) q = Ok l →
  optimize l = Ok o →
  (sc_distributed (s_config self) = true →
     ∀ po n, create_physical_plan o (s_catalog self) = Ok po → local_strategy po ≠ RunPartitions n) →
  create_physical_plan l (s_catalog self) = Ok pl →
  execute_plan (λ n, limited_site (sc_memory_limit_bytes (s_config self)) (qn_sites run n)) None pl = Ok bs →
  ∃ r, execute_sql self run text = Some (Ok r) ∧ Forall2 same_values bs (qr_batches r) ∧
    QueryResult_row_count r = sum_u64 ((λ b, N.of_nat (b_rows b)) <$> bs).
Proof.
  intros Hh Hq Hp Hl Ho Hs Hpl Hx.
  pose proof (plan_query_plannable _ (honest_clean _ Hh) q l Hp Hl) as (Hw & Hpp & _).
  pose proof (optimized_resolved l o (conj Hw Hpp) Ho) as Hr.
  destruct (optimized_same_values (s_catalog self) _ None l o pl bs Hw Hpp (plan_query_ready _ Hh _ _ Hl Hr) Ho Hpl Hx)
    as (po & bs' & Hpo & Hx' & Hsame).
  unfold execute_sql, execute_sql_with_cancellation, sql. rewrite Hq. cbn. rewrite Hl.
  unfold execute_plan_with_cancellation, planned. cbn. rewrite Ho. cbn. rewrite Hpo. cbn.
  rewrite (run_physical_single _ _ _ bs'); [|by intros Hd n; apply Hs|done].
  eexists. split; [done|]. split; [done|]. unfold QueryResult_row_count. cbn. by rewrite (same_values_rows _ _ Hsame).
Qed.

(** ** Remote queries *)

Lemma record_outputs_tasks m batches : qm_tasks (record_outputs m batches) = qm_tasks m.
Proof. revert m. induction batches as [|b batches IH]; intros m; [done|]. cbn. by rewrite IH. Qed.

Lemma add_tasks n m : (qm_tasks m + N.of_nat n < 2 ^ 64)%N → qm_tasks (Nat.iter n add_task m) = (qm_tasks m + N.of_nat n)%N.
Proof.
  induction n as [|n IH]; intros Hn; [cbn; lia|]. cbn [Nat.iter nat_rect]. unfold add_task at 1. cbn [qm_tasks].
  change (nat_rect _ m (λ _, add_task) n) with (Nat.iter n add_task m). rewrite IH by lia. unfold fetch_add.
  rewrite N.mod_small; lia.
Qed.

Lemma remote_metrics_tasks batches blocks tasks elapsed m :
  (tasks <= U32_MAX)%N → remote_metrics batches blocks tasks elapsed = Ok m → ms_tasks m = tasks.
Proof.
  intros Hu (rows & _ & Hm)%bind_ok. apply bind_ok in Hm as (bytes & _ & [= <-]). cbn.
  rewrite add_tasks; cbn; rewrite record_outputs_tasks; cbn; unfold U32_MAX in Hu; lia.
Qed.

Section remote.
Context `{SqlParser, Protobuf, FloatDisplay, StrDebug, Kernels, BatchOps}.
Context `{ControlJson, DurationDebug, ArrowIpc, !FlightTransport, !Json BlockTicket, !Json UploadAck}.
Context {S : Type} `{!BlockStorage S} (moments : nat → Moment S).

(** A program that comes to an end by itself. *)
Definition returns {A} (p : prog S A) : Prop := ∀ d, ∃ r d', p d = (Returns r, d').

Lemma returns_lift {A} (r : result A) : returns (lift r).
Proof. intros d. by eexists _, _. Qed.

Lemma returns_bind {A B} (p : prog S A) (f : A → prog S B) : returns p → (∀ a, returns (f a)) → returns (p ≫= f).
Proof.
  intros Hp Hf d. destruct (Hp d) as ([a|e|why] & d1 & E); unfold mbind, prog_bind; rewrite E; [apply Hf|by eexists _, _..].
Qed.

Lemma lift_inv {A} (r : result A) (d d' : Driver S) a : lift r d = (Returns (Ok a), d') → r = Ok a ∧ d' = d.
Proof. by intros [= -> ->]. Qed.

Lemma execute_graph_returns cfg process graph final :
  RemoteStageConfig_validate cfg = Ok tt → returns (execute_graph moments cfg process graph final).
Proof.
  intros Hv d. destruct (run_attempts_spec moments cfg process final graph d (N.to_nat (rc_max_query_retries cfg) + 1) [] graph d)
    as (r & d' & Hx & _); [by apply validate_positive|done|lia|constructor|]. exists r, d'.
  unfold execute_graph. by rewrite (bind_returns instant _ d (dr_time d) d).
Qed.

(** C10: a query in SQL on remote workers.  Whatever the text, the network, the workers
    and the other users of the coordinator do, the call returns.  When it returns a
    result, the query was planned, its stages make a graph that the driver accepts, and
    the batches are those of the blocks that the successful attempts of the final stage
    have committed, partition by partition, as the coordinator still has them: of the
    stage that was submitted, under the identity of the query or of its last retry, every
    partition of which has succeeded; each block had the rows, bytes and checksum its task
    reported, and all have one schema.  The retries reported are within the limit and the
    tasks reported are those of the graph. *)
Theorem remote_sql_answer (Hothers : others_behave moments) self token process elapsed text query_id remote d :
  wf (coordinator_of d) →
  ∃ answer d',
    execute_sql_remote_with_cancellation moments self token process elapsed text query_id remote d = (Returns answer, d') ∧
    ∀ r, answer = Ok r →
      ∃ l o p g graph rr, plan_sql (s_catalog self) text = Ok (l, o, p) ∧ remote_stages p query_id = Ok g ∧
        check_graph (rg_stages g) (rg_result g) = Ok query_id ∧
        (graph = rg_stages g ∨ ∃ q, graph = with_query q <$> rg_stages g) ∧
        answered_by graph (rg_result g) (coordinator_of d') rr ∧ qr_batches r = rr_batches rr ∧
        qr_stages r = length (rg_stages g) ∧ (qr_recovery_attempts r ≤ rc_max_query_retries remote)%N ∧
        ms_tasks (qr_metrics r) = foldr (λ s n, (sp_partition_count s + n)%N) 0%N (rg_stages g).
Proof.
  intros Hd. set (run := execute_sql_remote_with_cancellation moments self token process elapsed text query_id remote).
  assert (returns run) as Hret.
  { unfold run, execute_sql_remote_with_cancellation. apply returns_bind; [apply returns_lift|intros _].
    apply returns_bind; [apply returns_lift|intros [[l o] p]]. apply returns_bind; [apply returns_lift|intros g].
    intros d0. destruct (RemoteStageConfig_validate remote) as [[]|e|why] eqn:Ev; [|by eexists _, _..].
    rewrite (bind_returns (lift (Ok tt)) _ d0 tt d0) by done. revert d0.
    apply returns_bind; [by apply execute_graph_returns|intros rr].
    apply returns_bind; [apply returns_lift|intros tasks]. apply returns_bind; [apply returns_lift|intros m].
    intros d0. by eexists _, _. }
  destruct (Hret d) as (answer & d' & E). exists answer, d'. split; [exact E|]. intros r ->. unfold run in E.
  apply bind_inv in E as ([] & d1 & [_ ->]%lift_inv & E). apply bind_inv in E as ([[l o] p] & d1 & [Hp ->]%lift_inv & E).
  apply bind_inv in E as (g & d1 & [Hg ->]%lift_inv & E). apply bind_inv in E as ([] & d1 & [Hv ->]%lift_inv & E).
  apply bind_inv in E as (rr & d1 & Hx & E). apply bind_inv in E as (tasks & d2 & [Ht ->]%lift_inv & E).
  apply bind_inv in E as (m & d2 & [Hm ->]%lift_inv & [= <- <-]).
  destruct (remote_query_result moments Hothers remote process (rg_stages g) (rg_result g) d rr d1 Hv Hd Hx)
    as (Hr & graph & Hgraph & Ha).
  exists l, o, p, g, graph, rr. split_and!; try done; [by eapply planned_graph_checked|].
  cbn. unfold remote_task_count, try_u32 in Ht. destruct (_ <=? _)%N eqn:Eu; [|done]. injection Ht as <-.
  apply N.leb_le in Eu. by eapply remote_metrics_tasks.
Qed.
End remote.
