(* ===== verification/SessionDemo.v ===== *)
(** * Queries of a session

    A query in SQL over a table of two partitions, answered in one process; and one
    on a remote worker. *)
From S2P Require Import Prelude Text Protocol Coordinator CoordinatorClock CoordinatorInv CoordinatorSpec CoordinatorSteps CoordinatorAssign CoordinatorRun CoordinatorDemo Memory Cancellation Metrics BlockStore BlockStoreProps Float Expr ExprProps Logical Optimizer SchemaProps OptimizerProps Catalog Physical PhysicalProps Execution ExecutionDemo HashJoin Aggregate AggregateProps Executor ExecutorCancel ExecutorProps OperatorProps ScanProps OperatorDemo PlanRun OptimizerSound Pruning FileTables HashExchange PlanCodec PlanCodecProps Distributed DistributedProps Sql SqlProps SqlRun Stages StagesProps LocalCluster LocalClusterProps LocalClusterDemo Wire DataPlane DataPlaneProps ControlPlane ControlPlaneProps Worker Task WorkerSystem TaskProps TaskDemo Remote RemoteProps RemoteResult SessionRun SessionRunProps.

#[local] Existing Instance no_float_digits.
#[local] Existing Instance no_debug_digits.
#[local] Existing Instance merge_entry.
#[local] Existing Instance orders_protobuf.
#[local] Existing Instance echo_exchange.
#[local] Existing Instance codec_fragments | 0.
#[local] Instance quoted : StrDebug := λ s, "'" +:+ s +:+ "'".

(** ** The queries *)

Definition from_table (name : string) (projection : list SelectItem) (selection : option SqlExpr) : Select :=
  MkSelect false projection [MkTableWithJoins (TableNamed name None false) []] selection (GroupByExpressions [] false) None.

(** [SELECT t.a FROM t WHERE a > 1 + 2 ORDER BY a DESC LIMIT 2] *)
Definition top_query : Query :=
  MkQuery false
    (SetSelect (from_table "t" [UnnamedExpr (SqlCompoundIdentifier ["t"; "a"])]
      (Some (SqlBinaryOp (SqlIdentifier "a") SqlGt
               (SqlBinaryOp (SqlValueExpr (SqlNumber "1")) SqlPlus (SqlValueExpr (SqlNumber "2")))))))
    (Some (MkOrderBy false (OrderByExpressions [MkOrderByExpr (SqlIdentifier "a") (Some false) None false])))
    (Some (LimitOffset (Some (SqlValueExpr (SqlNumber "2"))) false false)).

(** [SELECT * FROM orders] *)
Definition orders_query : Query :=
  MkQuery false (SetSelect (from_table "orders" [SelectWildcard] None)) None None.

#[local] Instance few_queries : SqlParser := {
  parse_sql text := Ok [StatementQuery (if decide (text = "top") then top_query else orders_query)];
  display_sql _ := "expression";
  parse_f64 _ := None;
}.

(** ** In this process *)

Definition people_session : Session := register_memory (Session_new (MkSessionConfig 0 0 0 false 1000)) "t" people.

Lemma people_session_honest name t : table (s_catalog people_session) name = Ok t → honest t.
Proof.
  unfold people_session. cbn. rewrite table_register. destruct (decide _); [|done]. intros [= <-]. apply people_honest.
Qed.

Definition quiet_run : QueryRun :=
  MkQueryRun (λ _, MkSite [1; 0; 1] (λ _, false) (MkTaskMemory 0 0)) [] (λ _ _, MkSite [] (λ _, false) (MkTaskMemory 0 0)) (λ _, MkTaskMemory 0 0)
    (MkTaskMemory 0 0) (λ _, None) QueryMetrics_default 5 0 0.

Definition top_plan : LogicalPlan := match plan_query (s_catalog people_session) top_query with Ok l => l | _ => scan "t" [] end.
Definition top_optimized : LogicalPlan := match optimize top_plan with Ok l => l | _ => scan "t" [] end.

Lemma session_answers_as_written_witness :
  ∃ pl bs, create_physical_plan top_plan (s_catalog people_session) = Ok pl ∧
    execute_plan (λ n, limited_site 1000 (qn_sites quiet_run n)) None pl = Ok bs ∧
    (λ b, a_cells <$> b_columns b) <$> bs = [[[Some (IntCell 40); Some (IntCell 7)]]] ∧
    ∃ r, execute_sql people_session quiet_run "top" = Some (Ok r) ∧ Forall2 same_values bs (qr_batches r) ∧
      QueryResult_row_count r = sum_u64 ((λ b, N.of_nat (b_rows b)) <$> bs).
Proof.
  destruct (create_physical_plan top_plan (s_catalog people_session)) as [pl| |] eqn:Ep; [|vm_compute in Ep; discriminate Ep..].
  destruct (execute_plan (λ n, limited_site 1000 (qn_sites quiet_run n)) None pl) as [bs| |] eqn:Ex;
    [|vm_compute in Ep; injection Ep as <-; vm_compute in Ex; discriminate Ex..].
  exists pl, bs. split; [reflexivity|]. split; [exact Ex|]. split.
  { vm_compute in Ep. injection Ep as <-. vm_compute in Ex. injection Ex as <-. reflexivity. }
  apply (session_answers_as_written people_session quiet_run "top" top_query top_plan top_optimized pl bs people_session_honest);
    [reflexivity|vm_compute; reflexivity|vm_compute; reflexivity|vm_compute; reflexivity|discriminate|exact Ep|exact Ex].
Defined.

(** ** On a remote worker

    One partition of orders: the worker takes the task and commits its block while the
    driver waits. *)

#[local] Existing Instance bits_json.
#[local] Existing Instance UploadAck_countable.
#[local] Existing Instance BlockTicket_countable.
#[local] Existing Instance orders_ipc.
#[local] Existing Instance whole_flight.
#[local] Instance milliseconds : DurationDebug := λ ms, pretty ms +:+ "ms".

Definition one_partition : MemoryTable := MkMemoryTable orders_schema [[orders_of [Some (IntCell 4); Some (IntCell 5)] [Some (IntCell 9); None]]] 0.
Definition orders_session : Session := register_memory (Session_new (SessionConfig_default 1)) "orders" one_partition.
Definition remote_query : QueryId := MkQueryId "q".

Definition orders_graph : RemoteGraph :=
  match ('(_, _, physical) ← plan_sql (s_catalog orders_session) "orders"; remote_stages physical remote_query) with
  | Ok g => g
  | _ => MkRemoteGraph [] (MkStageId 0)
  end.
Definition the_stage : StagePlan :=
  Eval vm_compute in match rg_stages orders_graph with s :: _ => s | [] => MkStagePlan remote_query (MkStageId 0) [] 0 [] None false end.

Definition the_worker : WorkerId := MkWorkerId "w".
Definition the_task : TaskAttemptId := MkTaskAttemptId remote_query (MkStageId 0) (MkPartitionId 0) 0.
Definition uploaded : result ShuffleBlock * MemoryBlockStore :=
  upload (S:=MemoryBlockStore) Delivered "http://a:1" the_worker the_task (MkPartitionId 0) (b_schema demo_orders) [routed_orders] orders_store orders_store.
Definition the_block : ShuffleBlock :=
  Eval vm_compute in match uploaded.1 with Ok b => b | _ => MkShuffleBlock the_task (MkPartitionId 0) 0 0 EmptyString (Worker the_worker) end.

#[local] Existing Instance stage_eq_dec.
#[local] Existing Instance RemoteResult.request_eq_dec.
#[local] Existing Instance RemoteResult.status_eq_dec.
#[local] Existing Instance control_ack_eq_dec.
#[local] Existing Instance block_eq_dec.
#[local] Instance session_json : ControlJson := {|
  stage_json := json_of the_stage "stage" eq_refl; message_json := json_refuses; poll_json := json_refuses;
  assignment_json := json_refuses; cancel_json := json_refuses; cancelled_json := json_refuses;
  stage_request_json := json_of remote_request "request" eq_refl;
  partition_request_json := json_refuses; blocks_json := json_of [the_block] "blocks" eq_refl;
  stage_status_json := json_of StageSucceeded "'succeeded'" eq_refl;
  partition_status_json := json_refuses; control_ack_json := json_of (MkControlAck true) "ack" eq_refl;
|}.

Definition on_coordinator_of (cmds : list command) (w : World MemoryBlockStore) : World MemoryBlockStore :=
  MkWorld (MkControlPlane (CoordinatorRun.run cmds (cp_coordinator (w_control w))).2 (cp_pending (w_control w))) (w_stores w).
Definition commits : list command :=
  [ DoNextFor the_worker 20; DoMessage (TaskUpdate PROTOCOL_VERSION the_worker the_task (TaskSucceeded 20 [the_block])) 30 ].
Definition session_moment (n : nat) : Moment MemoryBlockStore :=
  MkMoment (on_coordinator_of (if decide (n = 3) then commits else [])) 10 1 Delivered None (MkGetFaults None None) false None (inr 1000%N) 0.
Definition session_world : World MemoryBlockStore :=
  MkWorld (MkControlPlane (CoordinatorRun.run [DoMessage (Register PROTOCOL_VERSION (MkWorkerRegistration the_worker 1 1000)) 10] demo_new).2 ∅)
    (λ _, uploaded.2).
Definition session_driver : Driver MemoryBlockStore := MkDriver session_world 0 0 Unlimited 0.
Definition session_remote := execute_sql_remote session_moment orders_session 7 9 "orders" remote_query remote_cfg session_driver.

Lemma session_others : others_behave session_moment.
Proof.
  intros n w Hw. unfold session_moment, on_coordinator_of, world_coordinator. cbn [mo_others w_control cp_coordinator].
  destruct (CoordinatorRun.run _ _) as [rs c] eqn:Er. apply (run_step _ _ _ _ Hw) in Er; [done|]. case_decide; by repeat constructor.
Qed.

Lemma session_world_wf : wf (coordinator_of session_driver).
Proof.
  assert (wf demo_new) as Hnew by (apply (reachable_wf demo_config); [apply demo_config_typed|by apply reachable_new]).
  unfold coordinator_of, world_coordinator. cbn [session_driver session_world dr_world w_control cp_coordinator].
  destruct (CoordinatorRun.run _ _) as [rs c] eqn:Er. apply (run_step _ _ _ _ Hnew) in Er; [apply Er|].
  repeat constructor. vm_compute. discriminate.
Qed.

(** The session has the batches of the worker's task. *)
Lemma remote_sql_answer_witness :
  match session_remote.1 with Returns (Ok r) => qr_batches r | _ => [] end = [routed_orders] ∧
  ∃ answer d', session_remote = (Returns answer, d') ∧
    ∀ r, answer = Ok r → ∃ l o p g graph rr, plan_sql (s_catalog orders_session) "orders" = Ok (l, o, p) ∧
      remote_stages p remote_query = Ok g ∧ check_graph (rg_stages g) (rg_result g) = Ok remote_query ∧
      (graph = rg_stages g ∨ ∃ q, graph = with_query q <$> rg_stages g) ∧
      answered_by graph (rg_result g) (coordinator_of d') rr ∧ qr_batches r = rr_batches rr ∧
      qr_stages r = length (rg_stages g) ∧ (qr_recovery_attempts r ≤ rc_max_query_retries remote_cfg)%N ∧
      ms_tasks (qr_metrics r) = foldr (λ s n, (sp_partition_count s + n)%N) 0%N (rg_stages g).
Proof.
  split; [vm_compute; reflexivity|].
  apply (remote_sql_answer session_moment session_others orders_session CancellationToken_new 7 9 "orders"
    remote_query remote_cfg session_driver).
  exact session_world_wf.
Defined.
