(* ===== verification/Programs.v ===== *)
(** * The command line programs ([src/bin/])

    What the three programs do with their arguments, once parsed: the tables they
    register, the configuration they run under and what they print.  What they print is
    a list of lines. *)
From Stdlib Require Import Ascii.
From S2P Require Import Prelude Text Protocol Coordinator Memory Cancellation Metrics BlockStore BlockStoreProps Float Expr Logical Optimizer Catalog Physical Execution Aggregate Executor ExecutorCancel Pruning FileTables HashExchange PlanCodec PlanCodecProps Distributed Sql Stages LocalCluster Wire DataPlane ControlPlane Worker Task Servers Remote SessionRun.

(** ** Paths *)

(** [s.split(c)] *)
Fixpoint split_at (c : ascii) (s : string) : list string :=
  match s with
  | EmptyString => [EmptyString]
  | String d s =>
      if decide (d = c) then EmptyString :: split_at c s
      else match split_at c s with
           | part :: parts => String d part :: parts
           | [] => [String d EmptyString]
           end
  end.

(** [s.split_once(c)] *)
Fixpoint split_once (c : ascii) (s : string) : option (string * string) :=
  match s with
  | EmptyString => None
  | String d s =>
      if decide (d = c) then Some (EmptyString, s)
      else '(before, after) ← split_once c s; Some (String d before, after)
  end.

(** [Path::file_name]: the last component, unless it is the parent directory. *)
Definition path_file_name (path : string) : option string :=
  name ← list.last (base.filter (λ part, part ≠ EmptyString ∧ part ≠ ".") (split_at "/" path));
  if decide (name = "..") then None else Some name.

(** The text before the last dot. *)
Fixpoint before_last (c : ascii) (s : string) : option string :=
  match s with
  | EmptyString => None
  | String d s =>
      match before_last c s with
      | Some before => Some (String d before)
      | None => if decide (d = c) then Some EmptyString else None
      end
  end.

(** [Path::extension]: what follows the last dot of the file name, unless the name starts
    with it. *)
Definition extension (path : string) : option string :=
  name ← path_file_name path;
  before ← before_last "." name;
  if decide (before = EmptyString) then None else Some (after_last "." name).

Inductive FileFormat := CsvFile | ParquetFile.

(** The extension in lower case, as the programs match it. *)
Definition format_of (path : string) : option FileFormat :=
  ext ← to_ascii_lowercase <$> extension path;
  if decide (ext = "csv") then Some CsvFile
  else if decide (ext = "parquet" ∨ ext = "pq") then Some ParquetFile
  else None.

(** ** [sparkx] *)

Inductive InputFormat := AutoFormat | CsvFormat | ParquetFormat.

(** Durations in milliseconds. *)
Record Args := MkArgs {
  ar_input : string;
  ar_table : string;
  ar_additional_tables : list string;
  ar_sql : string;
  ar_format : InputFormat;
  ar_explain : bool;
  ar_distributed : bool;
  ar_remote_coordinator : option string;
  ar_remote_query_id : option string;
  ar_remote_timeout_ms : N;
  ar_remote_retries : N;
  ar_keep_remote_output : bool;
  ar_workers : N;
  ar_batch_size : N;
  ar_channel_capacity : N;
  ar_memory_limit_bytes : N;
  ar_show_plan : bool;
  ar_metrics : bool;
}.

Definition cli_session (args : Args) : Session :=
  Session_new (MkSessionConfig (N.max (ar_batch_size args) 1) (N.max (ar_channel_capacity args) 1)
    (N.max (ar_workers args) 1) (ar_distributed args) (N.max (ar_memory_limit_bytes args) 1)).

Definition input_format (args : Args) : result FileFormat :=
  match ar_format args with
  | AutoFormat => ok_or (format_of (ar_input args))
      (Planning "cannot infer input format; pass --format csv or --format parquet")
  | CsvFormat => Ok CsvFile
  | ParquetFormat => Ok ParquetFile
  end.

Section tables.
Context `{FileReaders, Utf8Check}.

Definition register_file (session : Session) (format : FileFormat) (name path : string) : result Session :=
  match format with CsvFile => register_csv session name path | ParquetFile => register_parquet session name path end.

(** One [--register NAME=PATH]. *)
Definition register_additional (session : Session) (spec : string) : result Session :=
  '(name, path) ← ok_or
     (x ← split_once "=" spec; if negb (trim_is_empty x.1) && negb (trim_is_empty x.2) then Some x else None)
     (Planning "--register requires NAME=PATH");
  if existsb (λ existing, bool_decide (existing = name)) (table_names (s_catalog session))
  then Err (Planning ("table " +:+ name +:+ " is already registered"))
  else
    format ← ok_or (format_of path) (Planning "additional tables require a .csv or .parquet extension");
    register_file session format name path.

(** The session with all the tables. *)
Definition cli_tables (args : Args) : result Session :=
  format ← input_format args;
  session ← register_file (cli_session args) format (ar_table args) (ar_input args);
  fold_result register_additional session (ar_additional_tables args).
End tables.

(** The system clock in milliseconds or its error, and the process. *)
Definition generated_query_id (timestamp : string + N) (process : N) : result QueryId :=
  match timestamp with
  | inl error => Err (Execution ("read system clock: " +:+ error))
  | inr timestamp => QueryId_new ("cli-" +:+ pretty process +:+ "-" +:+ pretty timestamp)
  end.

Definition cli_remote (args : Args) (endpoint : string) : RemoteStageConfig :=
  let remote := RemoteStageConfig_new endpoint in
  MkRemoteStageConfig (rc_coordinator_endpoint remote) (rc_poll_interval remote) (ar_remote_timeout_ms args)
    (negb (ar_keep_remote_output args)) (ar_remote_retries args).

Definition cli_query_id (args : Args) (timestamp : string + N) (process : N) : result QueryId :=
  match ar_remote_query_id args with
  | Some query_id => QueryId_new query_id
  | None => generated_query_id timestamp process
  end.

(** [pretty_format_batches] and [serde_json::to_string_pretty] of the metrics; the left of
    a sum is its error. *)
Class Printing := {
  pretty_format_batches : list Expr.RecordBatch → result string;
  metrics_json : MetricsSnapshot → string + string;
}.

Inductive OutputLine := Stdout (text : string) | Stderr (text : string).

Section output.
Context `{Printing}.

Definition runner_line (remote_execution : bool) (r : QueryResult) : string :=
  "runner: " +:+ (if remote_execution then "remote-flight" else if qr_distributed r then "local-flight" else "native") +:+
  " (" +:+ pretty (N.of_nat (qr_stages r)) +:+ " stage" +:+ (if decide (qr_stages r = 1) then EmptyString else "s") +:+ ")".

(** The lines of [--metrics], up to an error. *)
Definition print_metrics (remote_execution : bool) (r : QueryResult) : list OutputLine * result unit :=
  let attempts := Stdout ("query recovery attempts: " +:+ pretty (qr_recovery_attempts r)) in
  match metrics_json (qr_metrics r) with
  | inl error => ([attempts], Err (Execution error))
  | inr json => ([attempts; Stdout (newline +:+ json); Stdout (runner_line remote_execution r)], Ok tt)
  end.

(** The lines that are printed, in order, and how the program ends. *)
Definition cli_output (args : Args) (remote_execution : bool) (r : QueryResult) : list OutputLine * result unit :=
  match pretty_format_batches (qr_batches r) with
  | Err e => ([], Err e)
  | Panic why => ([], Panic why)
  | Ok rows =>
      let warnings := (λ e, Stderr ("warning: remote output cleanup failed: " +:+ e)) <$> qr_cleanup_errors r in
      let plans := if ar_show_plan args
                   then [Stdout (newline +:+ "== Optimized Logical Plan ==" +:+ newline +:+ qr_optimized_plan r);
                         Stdout ("== Physical Plan ==" +:+ newline +:+ qr_physical_plan r)] else [] in
      let '(metrics, ended) := if ar_metrics args then print_metrics remote_execution r else ([], Ok tt) in
      (Stdout rows :: warnings ++ plans ++ metrics, ended)
  end.
End output.

Section cli.
Context `{SqlParser, Protobuf, FloatDisplay, ScalarDebug, StrDebug, Kernels, BatchOps, SortOps, RowConverter, Sizes, MergeSizes, ShuffleExchange}.
Context `{FileReaders, Utf8Check, Printing}.
Context `{ControlJson, DurationDebug, ArrowIpc, !FlightTransport, !Json BlockTicket, !Json UploadAck}.
Context {S : Type} `{!BlockStorage S} (moments : nat → Moment S).

(** A query in this process as a program that leaves the world alone. *)
Definition in_process {A} (o : option (result A)) : prog S A := λ d,
  match o with Some r => (Returns r, d) | None => (OutOfFuel, d) end.

(** [run]; the local query is run under [run], the remote one at [moments] with the clock
    and the process of its identities. *)
Definition cli_run (args : Args) (run : QueryRun) (timestamp : string + N) (process : N)
    (elapsed : N) : prog S (list OutputLine * result unit) :=
  session ← lift (cli_tables args);
  if ar_explain args then text ← lift (explain session (ar_sql args)); mret ([Stdout text], Ok tt)
  else
    match ar_remote_coordinator args with
    | Some endpoint =>
        query_id ← lift (cli_query_id args timestamp process);
        r ← execute_sql_remote_with_cancellation moments session CancellationToken_new process elapsed (ar_sql args) query_id
              (cli_remote args endpoint);
        mret (cli_output args true r)
    | None =>
        r ← in_process (execute_sql session run (ar_sql args));
        mret (cli_output args false r)
    end.
End cli.

(** [main]: the exit code and the line on the standard error. *)
Definition exit_with (program : string) {A} (r : result A) : option (N * string) :=
  match r with
  | Ok _ => None
  | Err e => Some (1%N, program +:+ ": " +:+ display_error e)
  | Panic why => Some (101%N, why)
  end.

(** ** [sparkx-worker] *)

Record TableSpec := MkTableSpec { ts_name : string; ts_path : string }.

Definition TableSpec_from_str (value : string) : string + TableSpec :=
  match split_once "=" value with
  | None => inl "table must use NAME=PATH"
  | Some (name, path) =>
      if trim_is_empty name || trim_is_empty path then inl "table name and path must not be empty"
      else inr (MkTableSpec name path)
  end.

Record WorkerArgs := MkWorkerArgs {
  wa_coordinator : string;
  wa_worker_id : string;
  wa_tables : list TableSpec;
  wa_slots : N;
  wa_memory_bytes : N;
  wa_batch_size : N;
  wa_channel_capacity : N;
  wa_heartbeat_ms : N;
  wa_poll_ms : N;
  wa_data_bind : SocketAddr;
  wa_data_advertised_host : option string;
  wa_data_storage_bytes : N;
  wa_data_directory : option string;
  wa_max_tasks : option N;
}.

(** The slots when none are given. *)
Definition default_slots (cpus : N) : N := N.min (N.max cpus 1) U32_MAX.

Section worker.
Context `{FileReaders, Utf8Check}.

Definition open_table (batch_size : nat) (path : string) : result TableProvider :=
  match format_of path with
  | Some CsvFile => t ← CsvTable_try_new path; Ok (csv_provider batch_size t)
  | Some ParquetFile => t ← ParquetTable_try_new path; Ok (parquet_provider batch_size t)
  | None => Err (Planning ("cannot infer table format for " +:+ path +:+ "; use a .csv, .parquet, or .pq filename"))
  end.

Definition worker_tables (args : WorkerArgs) : result Catalog :=
  fold_result (λ catalog t, provider ← open_table (N.to_nat (wa_batch_size args)) (ts_path t);
                            Ok (register catalog (ts_name t) provider))
    Catalog_default (wa_tables args).

Definition worker_config (args : WorkerArgs) (worker_id : WorkerId) : WorkerConfig :=
  MkWorkerConfig (wa_coordinator args) worker_id (wa_slots args) (wa_memory_bytes args) (wa_batch_size args)
    (wa_channel_capacity args) (wa_heartbeat_ms args) (wa_poll_ms args) (wa_data_bind args)
    (wa_data_advertised_host args) (wa_data_storage_bytes args) (wa_data_directory args) (wa_max_tasks args).

Definition connecting_line (args : WorkerArgs) : OutputLine :=
  Stdout ("worker " +:+ wa_worker_id args +:+ " connecting to " +:+ wa_coordinator args +:+ " with " +:+
          pretty (wa_slots args) +:+ " slot(s)").

(** The worker runs in between; [summary] is what [run_until] returns and [json] its text,
    or the error of [serde_json].  The line before the worker starts is printed before its
    configuration is checked. *)
Definition worker_run (args : WorkerArgs) (summary : Catalog → WorkerConfig → result WorkerRunSummary)
    (json : WorkerRunSummary → string + string) : list OutputLine * result unit :=
  match catalog ← worker_tables args; worker_id ← WorkerId_new (wa_worker_id args); Ok (catalog, worker_id) with
  | Err e => ([], Err e)
  | Panic why => ([], Panic why)
  | Ok (catalog, worker_id) =>
      let config := worker_config args worker_id in
      match _ ← WorkerConfig_validate config; summary catalog config with
      | Err e => ([connecting_line args], Err e)
      | Panic why => ([connecting_line args], Panic why)
      | Ok w =>
          match json w with
          | inl error => ([connecting_line args], Err (Execution error))
          | inr text => ([connecting_line args; Stdout text], Ok tt)
          end
      end
  end.
End worker.

(** ** [sparkx-coordinator] *)

Record CoordinatorArgs := MkCoordinatorArgs {
  ca_lease_ms : N;
  ca_heartbeat_timeout_ms : N;
  ca_max_task_attempts : N;
  ca_max_stage_partitions : N;
}.

Definition CoordinatorArgs_default : CoordinatorArgs := MkCoordinatorArgs 30000 15000 3 100000.

(** The service until the signal of the user, and its end; what the server ends in is
    [finish]. *)
Definition coordinator_run `{Ipv6Text} (args : CoordinatorArgs) (bind : BindReport) (signal : option string) (finish : ServerEnd)
    : list OutputLine * result unit :=
  match coordinator ← Coordinator_new (MkCoordinatorConfig (ca_lease_ms args) (ca_heartbeat_timeout_ms args)
                                        (ca_max_task_attempts args) (ca_max_stage_partitions args));
        control_bind bind coordinator with
  | Err e => ([], Err e)
  | Panic why => ([], Panic why)
  | Ok (_, address, server) =>
      ([Stdout ("SparkX coordinator listening on " +:+ ip_host (sa_ip address) +:+ ":" +:+ pretty (sa_port address))],
       match signal with
       | Some error => Err (Execution ("listen for Ctrl+C: " +:+ error))
       | None => (control_close finish server).1.1
       end)
  end.

(** ** Tables under one name *)

Lemma split_once_join c s before after : split_once c s = Some (before, after) → s = before +:+ String c after.
Proof.
  revert before after. induction s as [|d s IH]; intros before after; cbn; [done|]. destruct (decide (d = c)) as [->|].
  - by intros [= <- <-].
  - destruct (split_once c s) as [[b a]|] eqn:E; [|done]. cbn. intros [= <- <-].
    change (String d b +:+ String c a) with (String d (b +:+ String c a)). by rewrite <-(IH _ _ eq_refl).
Qed.

Lemma table_listed catalog m t : table catalog m = Ok t → to_ascii_lowercase m ∈ table_names catalog.
Proof.
  unfold table, table_names. destruct (tables catalog !! to_ascii_lowercase m) as [p|] eqn:E; [|done]. intros _.
  apply elem_of_btree_keys. by eexists.
Qed.

Section register.
Context `{FileReaders, Utf8Check}.

Lemma register_file_table session format name path session' :
  register_file session format name path = Ok session' →
  ∃ t, s_catalog session' = register (s_catalog session) name t.
Proof. destruct format; intros (t & _ & [= <-])%bind_ok; by eexists. Qed.

(** A table in lower case never takes the name of another. *)
Theorem register_additional_keeps session spec name path session' m t :
  split_once "=" spec = Some (name, path) → to_ascii_lowercase name = name →
  register_additional session spec = Ok session' → table (s_catalog session) m = Ok t →
  table (s_catalog session') m = Ok t.
Proof.
  unfold register_additional. intros -> Hlow Hr Ht. cbn in Hr. destruct (_ && _); [|done]. cbn in Hr.
  destruct (existsb _ _) eqn:Ex; [done|]. apply bind_ok in Hr as (format & _ & Hr).
  destruct (register_file_table _ _ _ _ _ Hr) as [t' ->]. rewrite table_register, Hlow.
  destruct (decide (name = to_ascii_lowercase m)) as [E|]; [|done]. exfalso.
  rewrite <-not_true_iff_false in Ex. apply Ex, existsb_exists. exists name. split; [|by apply bool_decide_eq_true_2].
  apply list_elem_of_In. rewrite E. by eapply table_listed.
Qed.
End register.

(** The catalog has its names in lower case, and [--register] compares them with the name
    as it is given: a second table under a name with a capital letter is not refused and
    replaces the first. *)
#[local] Instance two_files : FileReaders := {
  File := string;
  open_file path := Ok path;
  file_bytes _ := Ok 10%N;
  rewind _ := Ok tt;
  csv_infer_schema path _ := Ok [MkField path DtInt64 true];
  csv_read _ _ _ _ := Ok [];
  parquet_reader _ := Err (Parquet "not a Parquet file");
  parquet_read _ _ _ _ := Err (Parquet "not a Parquet file");
}.
#[local] Instance no_check : Utf8Check := λ _, true.

Definition two_tables (second : string) : Args :=
  MkArgs "first.csv" "data" [second] "SELECT 1" AutoFormat false false None None 300000 0 false 1 8192 2 1000 false false.
Definition data_columns (args : Args) : result (list string) :=
  session ← cli_tables args; t ← table (s_catalog session) "data"; Ok (fmap (M:=list) f_name (tp_schema t)).

Example register_replaces_table :
  data_columns (two_tables "data=second.csv") = Err (Planning "table data is already registered") ∧
  data_columns (two_tables "Data=second.csv") = Ok ["second.csv"].
Proof. split; vm_compute; reflexivity. Qed.
